(* ===== verification/_CoqProject ===== *)
-Q . S2P
Prelude.v
Effects.v
JsString.v
IsoDate.v
Redis.v
RedisConnection.v
Json.v
Errors.v
Schema.v
World.v
Crypto.v
Config.v
FileType.v
Samples.v
RateLimit.v
RedisSession.v
RedisCache.v
Socket.v
ChannelMembers.v
Messages.v
Channels.v
Reactions.v
Users.v
Keys.v
Srp.v
Auth.v
Chat.v
LiveKit.v
Validation.v
SocketAuth.v
SocketGateway.v
ChatGateway.v
Calls.v
Dto.v
Http.v
Uploads.v
Controllers.v
Routes.v
CallGateway.v
Events.v
Connections.v
Footprint.v
CallFlow.v
DbStep.v
Exclusive.v
System.v
Lookups.v
Requests.v
Bootstrap.v
Privacy.v
Invariants.v
Membership.v
Credentials.v
Sending.v
Reading.v
Delivery.v
Sessions.v
History.v
CallHistory.v
Domain.v
Authorship.v
Conformance.v
