(* ===== verification/Prelude.v ===== *)
(** * A model of the ZEVRA server

    ZEVRA is an end-to-end encrypted chat server (NestJS, Socket.IO, Postgres,
    Redis).  This library translates its services from src/src/ into executable
    definitions and proves what makes them correct.

    ** How the program is modelled

    A handler is an [async] function: it runs alone up to its next external call
    (an SQL statement, a Redis command, the clock, a random number, an emit, a
    queue operation).  [Effects.prog] is such a computation, [Effects.run] executes
    one alone and [Effects.pstep] interleaves a pool of them at those calls, so a
    theorem about [System.server_run] covers every interleaving of requests.
    [World.World] is the shared state: the tables, the Redis store, what the socket
    gateways keep in memory (sockets, heartbeats, timers), the commands sent to
    Socket.IO, to the delivery queue and to LiveKit.  [World.Env] is what the program
    does not control, read at a tick that advances with every external call: the
    clock, random ids, whether Redis is reachable and whether a failing command was
    applied, which statements fail, which sockets are connected.  Theorems quantify
    over [Env], hence over all patterns of failure.  [server_run] starts from tables in
    which each membership names a channel, as its foreign key says.

    Code outside src/ is a parameter: Redis is the class [Redis.Redis] with the
    laws [Redis.RedisLaws] of the documented commands (instantiated by [mem_redis]),
    the cryptographic primitives are [Crypto.Crypto] with [Crypto.CryptoLaws]
    (instantiated by [toy_crypto]), JSON web tokens are [RateLimit.Jwt], the
    validators of class-validator are [Validation.ClassValidator], the decisions of
    Express, passport and the throttler are [Http.Framework], the LiveKit SDK is
    [LiveKit.LiveKit], the file storage is [Uploads.Cloudinary], and the process
    environment is [Config.Environment].  Two functions of Postgres are fields of [Env]:
    [hashtext], of which nothing is assumed, and [ilike], whose documented behaviour
    [Lookups.ilike_documented] is the hypothesis of the theorem on searches.  Numbers that the code keeps as integers are
    [Z]; columns have their 32-bit and varchar limits.

    ** Files

    - Prelude: notations, tactics and lemmas on lists shared by all files.
      Effects: handlers, [wp] (run alone) and [rg] (interleaved) reasoning, and
      [explore], which runs a pool in every order.
      JsString, IsoDate, Json: the parts of the JavaScript library the code uses
      (string lengths, parseInt, Number, toISOString, Date.parse, JSON.stringify and parse).
    - Redis: commands and key names (redis/redis-keys.ts).  RedisConnection: the
      clients of redis/redis.service.ts and of the Redis adapter.  Schema: the tables
      (database/schema.ts).  World: the shared state and external calls.
      Crypto, Config, FileType: shared/crypto with base64, common/config/env.ts,
      modules/uploads/file-type.ts.  Errors: common/errors and the normalisation of
      common/filters.  Samples: concrete states for the examples.
    - RateLimit: shared/rate-limit, common/rate-limit and common/guards.
      RedisSession, RedisCache, ChannelMembers: redis/*.service.ts.  Socket:
      socket/socket.service.ts.
    - Messages, Channels, Reactions, Users, Keys, Srp, Auth, Chat: the services of
      modules/* and chat/ with the delivery job of shared/queues, one definition per
      method, with the same name, and one per statement or guard that a proof names.
    - LiveKit, Calls: modules/livekit and calls.service.ts with the history of calls.
      Validation: common/pipes/validation.ts and the readers the payload classes are
      made of.  SocketAuth: the socket guard and the payload classes of the sockets.
      SocketGateway, ChatGateway, CallGateway: the three socket gateways, one
      definition per event handler; Events: the table of the events with their
      guards ([@SubscribeMessage], [@UseGuards]).  A timer that fires and an interval
      that ticks are requests of their own.
    - Dto: the payload classes of the REST routes (modules/*/dto).  Http: the request
      and its way through common/request-id.middleware.ts, the throttler, the guards of
      shared/guards, the pipes and common/filters/all-exceptions.filter.ts.  Uploads:
      modules/uploads.  Controllers: the handlers of modules/*/*.controller.ts and
      health.controller.ts with the JSON they answer, named after their module
      ([channels_addMember] is [ChannelsController.addMember]).  Routes: the table of
      the routes (method, path, guards, limit, status) and [serve_http], a whole request.
    - Connections: what a socket can do before it is authenticated.  CallFlow: the
      life of a call in Redis, signalling, access to LiveKit rooms.
    - Footprint: which operations never move the tables.  DbStep: the abstract
      database machine, the transitions the services promise: [step_by] with the users
      who may act ([World.Authority]), [db_step] for everyone.  Exclusive: what the
      advisory locks protect from the other transitions.  System: the requests of
      the server and the refinement of [step_by]: a handler acts only for the subject of
      a token that was verified, and puts no one else on a socket.
    - Bootstrap: main.ts with the process as a step relation, the pool of
      database.module.ts, the client and the jobs of shared/queues, the shutdown of the
      socket gateway.
    - Invariants, Domain, CallHistory, Membership, Credentials, Sending, Reading, History,
      Lookups: the properties of the tables and of the services.  Delivery: a message
      from its sender to a member who is offline.  Sessions: refresh tokens.  Authorship:
      nobody is impersonated.  Requests, Privacy: the properties of the REST routes.
    - Conformance: the unit tests of the repository (src/test), evaluated on the model.

    ** What the theorems show

    - Refinement: each step of any run of the server is a transition of [db_step]
      or leaves the tables alone (System); so invariants of [db_step] hold in every
      run (Invariants: contiguous sequence numbers, append-only history, one
      direct channel per pair, one reaction per user and message, key versions that
      only grow; Domain: what no column checks, the content of messages and who is in a
      direct channel; CallHistory: the call log is append-only and its tables are well formed).
      The Redis structures refine abstract ones: rate limit windows (RateLimit), live
      sockets and offline queue (RedisSession).
    - Identity: over any run, a user for whom no request presents a valid token finds
      its messages, read receipts, sender keys and account untouched, and its reactions
      but for those on messages that were deleted (Authorship).
    - From end to end: what a member who was offline finds after a message was sent to
      its channel (Delivery).
    - Functional behaviour on every branch, errors included: sending and deleting
      (Sending), read marks and receipts (Reading), pages of history and the cache, whose list may
      hold anything but the content of a message that is not of the channel (History), channels and members
      (Membership), sender keys, SRP and login (Credentials), refresh tokens
      and logout, with every interleaving of two redemptions (Sessions), user search and the
      groups of reactions (Lookups), sealed keys (Crypto).
    - REST routes: every request gets one response, coherent and without driver text; a
      protected route does nothing without the token of an active user; a file is
      stored only as what its bytes say it is (Requests); what a user reads does not
      depend on the secrets of the others (Privacy).
    - Safety of the gateways: a socket without a user can change nothing and reach
      nobody, only the token of an active user opens rooms (Connections);
      signalling stays between the two users of a call, a call frees both its users
      when it ends, LiveKit rooms admit exactly who belongs to them (CallFlow).
    - The process: a server that listens has a validated environment and its whole
      configuration; a fatal error stops it (Bootstrap); the clients of Redis are closed
      (RedisConnection).
    - Errors: acks and HTTP bodies never leak driver text and are coherent.

    ** Bounds and fuel

    [modPow_loop] runs once per bit of the exponent ([Credentials.modPow_correct]
    shows that this is enough); a transaction asks for its advisory lock one time more than
    [lock_patience], which is arbitrary, and then fails as a statement that timed out;
    [Json.parse_value] has fuel for the length of the text ([Json] proves that printed values parse back); [scroll]
    takes as many requests as there are messages plus one.

    ** Abstractions

    - A transaction under an advisory lock ([World.locked_transaction]) takes its lock,
      reads, and writes and commits, in separate steps, and loses the lock with its
      connection; what keeps the others away is the lock.  The other transactions,
      which hold the row of their channel (FOR UPDATE) or a single row, are one atomic
      step, rolled back when they throw.  Single statements are atomic, but for the
      UPDATE of [markRead], which checks the rows again with the messages of its own
      snapshot (READ COMMITTED); several statements of a handler interleave.
    - The branches of a [Promise.all] run one after the other in the order they are
      written.
    - A promise the code does not await runs in its place.
    - Ids are the lower-case texts Postgres gives for a uuid: the tables compare ids
      as texts.  A request that spells an id in upper case finds no row here, where
      Postgres finds it under another advisory lock; [Invariants.spelling_defeats_the_locks]
      runs the two transactions.  The calls, whose gateway accepts upper-case ids, say where an id
      goes through a uuid column ([toLowerCase]).
    - [Number(s)] of a query text is read exactly, where a double keeps 15 digits.
    - ORDER BY on usernames compares bytes, where the database uses its collation.
    - A request that fails several pipes reports the path before the query or the body;
      the parsers of the body run before the middleware; no response has sent its
      headers when it fails (the handlers answer JSON).
    - A preflight request (OPTIONS) is answered by the CORS middleware and never reaches
      the routes.
    - JSON objects built from Maps of ids list their keys in the order of the ids.
    - Logging is left out, but for the outages of RedisConnection.

    ** Not modelled

    The module graphs of the *.module.ts files, which declare the dependency injection; helmet,
    CORS and the parsers of bodies, which [Bootstrap.configure] only sets; the adapter of
    Socket.IO and BullMQ themselves, whose availability is an input of the model; the
    interceptor that receives an upload, whose result is an input of a request. *)
From Stdlib Require Export ZArith Lia.
From stdpp Require Export base list strings gmap sets sorting relations.

Declare Scope js_scope.
Delimit Scope js_scope with js.
Notation "x === y" := (bool_decide (x = y)) (at level 70, no associativity) : js_scope.
Notation "x !== y" := (negb (bool_decide (x = y))) (at level 70, no associativity) : js_scope.
Open Scope js_scope.

Ltac inv H := inversion H; subst; clear H.

(** Turns boolean tests of the code into the propositions they decide. *)
Ltac boolp :=
  repeat match goal with
  | H : context [bool_decide _] |- _ => progress rewrite ?bool_decide_eq_true, ?bool_decide_eq_false in H
  | H : _ && _ = true |- _ => apply andb_true_iff in H; destruct H
  | H : _ || _ = false |- _ => apply orb_false_iff in H; destruct H
  | H : negb _ = true |- _ => apply negb_true_iff in H
  | H : negb _ = false |- _ => apply negb_false_iff in H
  | H : (_ <=? _)%Z = true |- _ => apply Z.leb_le in H
  | H : (_ <=? _)%Z = false |- _ => apply Z.leb_gt in H
  | H : (_ <? _)%Z = true |- _ => apply Z.ltb_lt in H
  | H : (_ <? _)%Z = false |- _ => apply Z.ltb_ge in H
  | H : (_ =? _)%Z = true |- _ => apply Z.eqb_eq in H
  | H : (_ =? _)%Z = false |- _ => apply Z.eqb_neq in H
  end.

(** Case analysis on the integer comparisons of the goal. *)
Ltac zcase :=
  repeat (match goal with
  | |- context [(?a <=? ?b)%Z] => destruct (Z.leb_spec a b)
  | |- context [(?a <? ?b)%Z] => destruct (Z.ltb_spec a b)
  | |- context [(?a =? ?b)%Z] => destruct (Z.eqb_spec a b)
  end; cbn [andb orb negb]).

(** ** Rows of a table *)
Section Rows.
Context {A : Type}.
Implicit Types (p q : A → bool) (t : list A).

Definition select p t : list A := List.filter p t.
Definition delete_where p t : list A := List.filter (λ r, negb (p r)) t.
Definition update_where p (f : A → A) t : list A := map (λ r, if p r then f r else r) t.

Lemma select_app p t1 t2 : select p (t1 ++ t2) = select p t1 ++ select p t2.
Proof. apply List.filter_app. Qed.

Lemma elem_of_select p t r : r ∈ select p t ↔ r ∈ t ∧ p r = true.
Proof. unfold select. by rewrite !list_elem_of_In, List.filter_In. Qed.

Lemma elem_of_delete_where p t r : r ∈ delete_where p t ↔ r ∈ t ∧ p r = false.
Proof. unfold delete_where. rewrite !list_elem_of_In, List.filter_In, negb_true_iff. done. Qed.

(** With a condition that can be decided. *)
Lemma update_where_decide (P : A → Prop) `{!∀ x, Decision (P x)} p f (l : list A) :
  (∀ x, p x = true ↔ P x) → update_where p f l = map (λ x, if decide (P x) then f x else x) l.
Proof.
  intros Hp. apply List.map_ext. intros x. specialize (Hp x). destruct (p x), (decide (P x)); naive_solver.
Qed.

Lemma elem_of_update_where p f t r :
  r ∈ update_where p f t ↔ ∃ r0, r0 ∈ t ∧ r = if p r0 then f r0 else r0.
Proof. unfold update_where. rewrite list_elem_of_In, in_map_iff. setoid_rewrite list_elem_of_In. naive_solver. Qed.

Lemma length_update_where p f t : length (update_where p f t) = length t.
Proof. apply List.length_map. Qed.
End Rows.

Lemma filter_none {A} (f : A → bool) l : (∀ x, x ∈ l → f x = false) → List.filter f l = [].
Proof.
  induction l as [|x l IH]; intros H; simpl; [done|]. rewrite H by (by apply elem_of_cons; left).
  apply IH. intros y Hy. apply H. by apply elem_of_cons; right.
Qed.

Lemma filter_all {A} (f : A → bool) l : (∀ x, x ∈ l → f x = true) → List.filter f l = l.
Proof.
  induction l as [|x l IH]; intros H; simpl; [done|]. rewrite H by (by apply elem_of_cons; left).
  f_equal. apply IH. intros y Hy. apply H. by apply elem_of_cons; right.
Qed.

(** ** The first row of a query *)
Section First.
Context {A : Type}.
Implicit Types (p q : A → bool) (t : list A).

Lemma first_Some p t r : head (select p t) = Some r → r ∈ t ∧ p r = true.
Proof.
  intros H. apply elem_of_select. destruct (select p t) as [|x l]; simplify_eq/=. by apply elem_of_cons; left.
Qed.

Lemma first_None p t : head (select p t) = None ↔ ∀ r, r ∈ t → p r = false.
Proof.
  split.
  - intros H r Hr. destruct (p r) eqn:Hp; [|done]. assert (r ∈ select p t) as Hin by by apply elem_of_select.
    destruct (select p t); [by apply not_elem_of_nil in Hin|done].
  - intros H. unfold select. by rewrite filter_none.
Qed.

Lemma first_app p t1 t2 r : head (select p t1) = Some r → head (select p (t1 ++ t2)) = Some r.
Proof. rewrite select_app. by destruct (select p t1). Qed.

Lemma select_update p q f t : (∀ r, r ∈ t → p (f r) = p r) →
  select p (update_where q f t) = update_where q f (select p t).
Proof.
  induction t as [|r t IH]; intros H; [done|]. cbn [update_where map select List.filter] in *.
  fold (update_where q f t). unfold select in IH. rewrite IH by (intros; apply H; by apply elem_of_cons; right).
  assert (p (if q r then f r else r) = p r) as -> by (destruct (q r); [apply H; by apply elem_of_cons; left|done]).
  by destruct (p r).
Qed.

(** Rows that a SELECT does not see. *)
Lemma select_update_other p q f t : (∀ r, r ∈ t → q r = true → p r = false ∧ p (f r) = false) →
  select p (update_where q f t) = select p t.
Proof.
  induction t as [|r t IH]; intros H; [done|]. cbn [update_where map select List.filter].
  fold (update_where q f t). unfold select in IH. rewrite IH by (intros; apply H; [by apply elem_of_cons; right|done]).
  destruct (q r) eqn:Hq; [|done]. by destruct (H r (list_elem_of_here _ _) Hq) as [-> ->].
Qed.
Lemma select_delete_other p q t : (∀ r, r ∈ t → q r = true → p r = false) → select p (delete_where q t) = select p t.
Proof.
  induction t as [|r t IH]; intros H; [done|]. cbn [delete_where select List.filter] in *.
  unfold select, delete_where in IH. specialize (IH (λ x Hx, H x (list_elem_of_further _ _ _ Hx))).
  destruct (q r) eqn:Hq; simpl; rewrite IH; [|done]. by rewrite (H r (list_elem_of_here _ _) Hq).
Qed.
Lemma select_delete_sublist p q t : select p (delete_where q t) `sublist_of` select p t.
Proof.
  induction t as [|r t IH]; [done|]. cbn [delete_where select List.filter] in *. unfold select, delete_where in *.
  destruct (q r); simpl; destruct (p r); [by constructor|done|by constructor|done].
Qed.
Lemma select_app_other p t1 t2 : Forall (λ r, p r = false) t2 → select p (t1 ++ t2) = select p t1.
Proof.
  intros H. rewrite select_app. unfold select. rewrite (filter_none _ t2), app_nil_r; [done|]. by apply Forall_forall.
Qed.

Lemma first_update p q f t : (∀ r, r ∈ t → p (f r) = p r) →
  head (select p (update_where q f t)) = (λ r, if q r then f r else r) <$> head (select p t).
Proof. intros H. rewrite select_update by done. by destruct (select p t). Qed.

Lemma map_update {B} (g : A → B) q f t : (∀ r, g (f r) = g r) → map g (update_where q f t) = map g t.
Proof. intros H. unfold update_where. rewrite map_map. apply map_ext. intros r. by destruct (q r). Qed.

Lemma update_where_id q f t : (∀ r, r ∈ t → q r = false) → update_where q f t = t.
Proof.
  intros H. unfold update_where. rewrite <-(List.map_id t) at 2. apply List.map_ext_in. intros r Hr.
  by rewrite H by by apply list_elem_of_In.
Qed.
End First.

(** ** [ORDER BY] and [Array.prototype.sort]: a stable insertion sort *)
Section Sorting.
Context {A : Type} (leb : A → A → bool).

Fixpoint insert_by (x : A) (l : list A) : list A :=
  match l with
  | [] => [x]
  | y :: l' => if leb x y then x :: l else y :: insert_by x l'
  end.
Fixpoint sort_by (l : list A) : list A :=
  match l with
  | [] => []
  | x :: l' => insert_by x (sort_by l')
  end.

Notation le := (λ x y, leb x y = true).

Lemma insert_by_perm x l : insert_by x l ≡ₚ x :: l.
Proof. induction l as [|y l IH]; simpl; [done|]. case_match; [done|]. rewrite IH. constructor. Qed.

Lemma sort_by_perm l : sort_by l ≡ₚ l.
Proof. induction l as [|x l IH]; simpl; [done|]. by rewrite insert_by_perm, IH. Qed.

Lemma sort_by_length l : length (sort_by l) = length l.
Proof. by rewrite sort_by_perm. Qed.

Lemma sort_by_elem x l : x ∈ sort_by l ↔ x ∈ l.
Proof. by rewrite sort_by_perm. Qed.

Lemma insert_by_sorted x l :
  (∀ a b, leb a b = true ∨ leb b a = true) → (∀ a b c, leb a b = true → leb b c = true → leb a c = true) →
  StronglySorted le l → StronglySorted le (insert_by x l).
Proof.
  intros Htot Htr. induction 1 as [|y l Hl IH Hy]; simpl.
  { repeat constructor. }
  destruct (leb x y) eqn:Hxy.
  - constructor; [by constructor|]. constructor; [done|].
    eapply Forall_impl; [exact Hy|]. simpl; eauto.
  - constructor; [done|]. rewrite insert_by_perm. constructor; [|done].
    destruct (Htot y x); congruence.
Qed.

Lemma sort_by_sorted l :
  (∀ a b, leb a b = true ∨ leb b a = true) → (∀ a b c, leb a b = true → leb b c = true → leb a c = true) →
  StronglySorted le (sort_by l).
Proof. intros ??. induction l; simpl; [constructor|]. by apply insert_by_sorted. Qed.

Lemma sort_by_id l : StronglySorted le l → sort_by l = l.
Proof.
  induction 1 as [|x l Hl IH Hx]; simpl; [done|]. rewrite IH.
  destruct l as [|y l]; simpl; [done|]. apply Forall_cons_1 in Hx as [Hx _]. by rewrite Hx.
Qed.

Lemma insert_by_snoc x l : Forall (λ y, leb x y = false) l → insert_by x l = l ++ [x].
Proof. induction 1 as [|y l Hy _ IH]; simpl; [done|]. by rewrite Hy, IH. Qed.
End Sorting.

Lemma map_omap_ext {A B C} (f : B → C) (g g' : A → option B) l : (∀ x, f <$> g x = f <$> g' x) → map f (omap g l) = map f (omap g' l).
Proof.
  intros Hg. induction l as [|x l IH]; simpl; [done|]. specialize (Hg x).
  destruct (g x), (g' x); simpl in Hg |- *; try discriminate Hg; [|exact IH]. injection Hg as ->. f_equal. exact IH.
Qed.

Lemma sort_by_map {A B} (leb : A → A → bool) (leb' : B → B → bool) (f : A → B) l :
  (∀ a b, leb' (f a) (f b) = leb a b) → sort_by leb' (map f l) = map f (sort_by leb l).
Proof.
  intros Hf. assert (Hins : ∀ x l, insert_by leb' (f x) (map f l) = map f (insert_by leb x l)).
  { intros x k. induction k as [|y k IH]; simpl; [done|]. rewrite Hf. destruct (leb x y); simpl; [done|]. by rewrite IH. }
  induction l as [|x l IH]; simpl; [done|]. by rewrite IH, Hins.
Qed.

(** [[...new Set(xs)]]: first occurrences, in order. *)
Fixpoint unique `{EqDecision A} (l : list A) : list A :=
  match l with
  | [] => []
  | x :: l' => x :: List.filter (λ y, y !== x) (unique l')
  end.

Lemma elem_of_unique `{EqDecision A} (l : list A) x : x ∈ unique l ↔ x ∈ l.
Proof.
  induction l as [|y l IH]; simpl; [done|].
  rewrite !elem_of_cons, list_elem_of_In, List.filter_In, <-list_elem_of_In, IH, negb_true_iff, bool_decide_eq_false.
  destruct (decide (x = y)); naive_solver.
Qed.

Lemma NoDup_List_filter {A} (f : A → bool) (l : list A) : NoDup l → NoDup (List.filter f l).
Proof.
  induction 1 as [|x l Hx _ IH]; simpl; [constructor|]. case_match; [|done].
  constructor; [|done]. rewrite list_elem_of_In, List.filter_In, <-list_elem_of_In. tauto.
Qed.

Lemma NoDup_unique `{EqDecision A} (l : list A) : NoDup (unique l).
Proof.
  induction l as [|y l IH]; simpl; constructor.
  - rewrite list_elem_of_In, List.filter_In, negb_true_iff, bool_decide_eq_false. tauto.
  - by apply NoDup_List_filter.
Qed.

Lemma unique_id `{EqDecision A} (l : list A) : NoDup l → unique l = l.
Proof.
  induction 1 as [|x l Hx _ IH]; simpl; [done|]. f_equal. rewrite IH. clear IH.
  induction l as [|y l IH]; simpl; [done|].
  apply not_elem_of_cons in Hx as [? ?]. rewrite bool_decide_eq_false_2 by done. simpl. by rewrite IH.
Qed.

Lemma unique_length `{EqDecision A} (l : list A) : (length (unique l) ≤ length l)%nat.
Proof.
  induction l as [|x l IH]; simpl; [done|]. pose proof (List.filter_length_le (λ y, y !== x) (unique l)). lia.
Qed.

Lemma unique_same_length `{EqDecision A} (l : list A) : length (unique l) = length l → NoDup l.
Proof.
  induction l as [|x l IH]; simpl; [constructor|]. intros [= Hlen].
  pose proof (List.filter_length_le (λ y, y !== x) (unique l)). pose proof (unique_length l).
  constructor; [|apply IH; lia]. rewrite <-elem_of_unique. intros Hx.
  assert (length (List.filter (λ y, y !== x) (unique l)) < length (unique l))%nat; [|lia].
  clear -Hx. induction (unique l) as [|y u IH]; [by apply not_elem_of_nil in Hx|]. simpl. apply elem_of_cons in Hx as [->|Hx].
  - rewrite bool_decide_eq_true_2 by done. simpl. pose proof (List.filter_length_le (λ z, z !== y) u). lia.
  - specialize (IH Hx). destruct (y !== x); simpl; lia.
Qed.

(** ** Functional record update: [r <| field := v |>] *)
Class Settable (R : Type) := eta_record : R → R.
Class Setter {R T : Type} (proj : R → T) := modify_field : (T → T) → R → R.
Arguments modify_field {R T} proj {_} f r.

Ltac solve_setter :=
  match goal with
  | |- @Setter ?R ?T ?proj =>
      let s := constr:(_ : Settable R) in
      let e := eval cbv [eta_record] in (@eta_record R s) in
      let e := eval hnf in e in
      let e := eval pattern proj in e in
      match e with
      | ?F _ => let body := constr:(λ (f : T → T) (r : R), F (λ r', f (proj r')) r) in
                let body := eval cbv beta in body in
                exact body
      end
  end.
#[export] Hint Extern 0 (Setter _) => solve_setter : typeclass_instances.

Notation "r <| f := v |>" := (modify_field f (λ _, v) r)
  (at level 12, left associativity, f at level 50, v at level 60, format "r  <| f  :=  v |>").
