(* ===== verification/Effects.v ===== *)
(** * Effects: resumption programs with exceptions

    A request handler of the server is an [async] function: it runs without
    interruption up to its next external call (a Redis command, a SQL statement,
    reading the clock, an emit) and may be interleaved with other handlers there.
    [prog W E A] is such a computation over a shared state [W], with thrown values
    in [E]: [Act f] is one atomic external call, whose continuation is the rest of
    the handler.  [run] executes a handler alone; [pstep] interleaves a pool of
    handlers.  [wp] is the weakest precondition of a handler run alone and [rg] the
    rely-guarantee one: every atomic step keeps an invariant and a guarantee,
    whatever handlers that do the same change in between. *)
From S2P Require Import Prelude.
From Stdlib Require Import ZArith Lia.
From stdpp Require Import base list relations.

Inductive outcome (E A : Type) : Type := Ok (a : A) | Err (e : E).
Arguments Ok {E A} a.
Arguments Err {E A} e.

Inductive prog (W E A : Type) : Type :=
| Ret (a : A)
| Throw (e : E)
| Act (f : W → W * prog W E A).
Arguments Ret {W E A} a.
Arguments Throw {W E A} e.
Arguments Act {W E A} f.

(** At most one step. *)
Definition rc {A} (S : A → A → Prop) (x y : A) : Prop := x = y ∨ S x y.
Lemma rc_refl {A} (S : A → A → Prop) x : rc S x x.
Proof. by left. Qed.
Lemma rc_once {A} (S : A → A → Prop) x y : S x y → rc S x y.
Proof. by right. Qed.

Section Programs.
Context {W E : Type}.
Notation prog := (prog W E).

Fixpoint bind {A B} (p : prog A) (k : A → prog B) : prog B :=
  match p with
  | Ret a => k a
  | Throw e => Throw e
  | Act f => Act (λ w, match f w with (w', p') => (w', bind p' k) end)
  end.

(** [try { p } catch (e) { h(e) }] *)
Fixpoint catch {A} (p : prog A) (h : E → prog A) : prog A :=
  match p with
  | Ret a => Ret a
  | Throw e => h e
  | Act f => Act (λ w, match f w with (w', p') => (w', catch p' h) end)
  end.

Fixpoint run {A} (p : prog A) (w : W) : outcome E A * W :=
  match p with
  | Ret a => (Ok a, w)
  | Throw e => (Err e, w)
  | Act f => match f w with (w', p') => run p' w' end
  end.

(** [for (const x of l) await f(x)] *)
Fixpoint for_each {A} (l : list A) (f : A → prog ()) : prog () :=
  match l with
  | [] => Ret tt
  | x :: l' => bind (f x) (λ _, for_each l' f)
  end.

(** A block executed atomically; when it throws, [rollback before after] is the
    state left behind (a database transaction restores the tables). *)
Definition atomically {A} (rollback : W → W → W) (p : prog A) : prog A :=
  Act (λ w, match run p w with
            | (Ok a, w') => (w', Ret a)
            | (Err e, w') => (rollback w w', Throw e)
            end).

(** What is left of a handler once its reply is sent: nothing observable. *)
Definition serve {A} (p : prog A) : prog () :=
  catch (bind p (λ _, Ret tt)) (λ _, Ret tt).

Section Induction.
Context {A : Type} (P : prog A → Prop).
Hypothesis (HRet : ∀ a, P (Ret a)) (HThrow : ∀ e, P (Throw e)).
Hypothesis HAct : ∀ f, (∀ w, P (f w).2) → P (Act f).
Fixpoint prog_induction (p : prog A) : P p :=
  match p with
  | Ret a => HRet a
  | Throw e => HThrow e
  | Act f => HAct f (λ w, match f w as x return P x.2 with (_, p') => prog_induction p' end)
  end.
End Induction.

Lemma run_bind {A B} (p : prog A) (k : A → prog B) w :
  run (bind p k) w =
    match run p w with (Ok a, w') => run (k a) w' | (Err e, w') => (Err e, w') end.
Proof.
  revert w. induction p as [a|e|f IH] using prog_induction; intros w; simpl; try done.
  specialize (IH w). destruct (f w) as [w' p']; simpl in *. apply IH.
Qed.

Lemma run_catch {A} (p : prog A) (h : E → prog A) w :
  run (catch p h) w =
    match run p w with (Ok a, w') => (Ok a, w') | (Err e, w') => run (h e) w' end.
Proof.
  revert w. induction p as [a|e|f IH] using prog_induction; intros w; simpl; try done.
  specialize (IH w). destruct (f w) as [w' p']; simpl in *. apply IH.
Qed.

(** ** Weakest preconditions of a handler run alone *)
Definition wp {A} (p : prog A) (Q : outcome E A → W → Prop) (w : W) : Prop :=
  match run p w with (r, w') => Q r w' end.

Lemma wp_ret {A} (a : A) Q w : Q (Ok a) w → wp (Ret a) Q w.
Proof. done. Qed.

Lemma wp_throw {A} e (Q : outcome E A → W → Prop) w : Q (Err e) w → wp (Throw e) Q w.
Proof. done. Qed.

Lemma wp_act {A} (f : W → W * prog A) Q w :
  (∀ w' p', f w = (w', p') → wp p' Q w') → wp (Act f) Q w.
Proof. unfold wp; simpl. destruct (f w) as [w' p'] eqn:?. intros H. by apply (H w' p'). Qed.

Lemma wp_bind {A B} (p : prog A) (k : A → prog B) Q w :
  wp p (λ r w', match r with Ok a => wp (k a) Q w' | Err e => Q (Err e) w' end) w →
  wp (bind p k) Q w.
Proof. unfold wp. rewrite run_bind. by destruct (run p w) as [[a|e] w']. Qed.

Lemma wp_catch {A} (p : prog A) h (Q : outcome E A → W → Prop) w :
  wp p (λ r w', match r with Ok a => Q (Ok a) w' | Err e => wp (h e) Q w' end) w →
  wp (catch p h) Q w.
Proof. unfold wp. rewrite run_catch. by destruct (run p w) as [[a|e] w']. Qed.

Lemma wp_atomically {A} rb (p : prog A) (Q : outcome E A → W → Prop) w :
  wp p (λ r w', match r with Ok a => Q (Ok a) w' | Err e => Q (Err e) (rb w w') end) w →
  wp (atomically rb p) Q w.
Proof. unfold wp, atomically; simpl. by destruct (run p w) as [[a|e] w']. Qed.

Lemma wp_mono {A} (p : prog A) (Q Q' : outcome E A → W → Prop) w :
  wp p Q w → (∀ r w', Q r w' → Q' r w') → wp p Q' w.
Proof. unfold wp. destruct (run p w). auto. Qed.

Lemma wp_forall {A X} (p : prog A) (Q : X → outcome E A → W → Prop) w :
  (∀ x, wp p (Q x) w) → wp p (λ r w', ∀ x, Q x r w') w.
Proof. unfold wp. destruct (run p w). auto. Qed.

Lemma wp_true {A} (p : prog A) w : wp p (λ _ _, True) w.
Proof. unfold wp. by destruct (run p w). Qed.

Lemma wp_and {A} (p : prog A) (Q Q' : outcome E A → W → Prop) w :
  wp p Q w → wp p Q' w → wp p (λ r w', Q r w' ∧ Q' r w') w.
Proof. unfold wp. by destruct (run p w). Qed.

Lemma wp_run {A} (p : prog A) (Q : outcome E A → W → Prop) w r w' :
  wp p Q w → run p w = (r, w') → Q r w'.
Proof. unfold wp. intros H Hr. by rewrite Hr in H. Qed.

(** A program that never throws. *)
Definition nothrow {A} (p : prog A) : Prop := ∀ w, wp p (λ o _, ∃ a, o = Ok a) w.

Lemma nothrow_ret {A} (a : A) : nothrow (Ret a).
Proof. intros w. apply wp_ret. eauto. Qed.
Lemma nothrow_bind {A B} (p : prog A) (k : A → prog B) : nothrow p → (∀ a, nothrow (k a)) → nothrow (bind p k).
Proof. intros Hp Hk w. apply wp_bind. eapply wp_mono; [apply Hp|]. intros o w' [a ->]. apply Hk. Qed.
Lemma nothrow_catch {A} (p : prog A) (h : E → prog A) : (∀ e, nothrow (h e)) → nothrow (catch p h).
Proof. intros Hh w. apply wp_catch. unfold wp. destruct (run p w) as [[a|e] w']; [eauto|apply Hh]. Qed.
Lemma nothrow_for_each {A} (l : list A) f : (∀ x, nothrow (f x)) → nothrow (for_each l f).
Proof. intros Hf. induction l as [|x l IH]; [apply nothrow_ret|]. by apply nothrow_bind. Qed.

(** ** Rely-guarantee: every atomic step of a handler, whatever the others do

    [S] is what one atomic step may do, of this handler (the guarantee) or of the
    others, any number of times, between two steps of it (the rely); [I] holds
    between steps.  [rg p Q w]: resumed in any state the others lead to from [w],
    [p] keeps to [I] and [S], and its result satisfies [Q]. *)
Section RelyGuarantee.
Context (I : W → Prop) (S : W → W → Prop).

Fixpoint rg {A} (p : prog A) (Q : outcome E A → W → Prop) (w : W) : Prop :=
  match p with
  | Ret a => Q (Ok a) w
  | Throw e => Q (Err e) w
  | Act f => ∀ w1, rtc S w w1 → I w1 → match f w1 with (w', p') => I w' ∧ S w1 w' ∧ rg p' Q w' end
  end.

Lemma rg_mono {A} (p : prog A) (Q Q' : outcome E A → W → Prop) w :
  rg p Q w → (∀ r w', Q r w' → Q' r w') → rg p Q' w.
Proof.
  revert w. induction p as [a|e|f IH] using prog_induction; simpl; auto.
  intros w Hp HQ w1 Hw Hi. specialize (Hp w1 Hw Hi). specialize (IH w1).
  destruct (f w1) as [w' p']; simpl in *. destruct Hp as (? & ? & ?). eauto.
Qed.

Lemma rg_bind {A B} (p : prog A) (k : A → prog B) Q w :
  rg p (λ r w', match r with Ok a => rg (k a) Q w' | Err e => Q (Err e) w' end) w →
  rg (bind p k) Q w.
Proof.
  revert w. induction p as [a|e|f IH] using prog_induction; simpl; auto.
  intros w Hp w1 Hw Hi. specialize (Hp w1 Hw Hi). specialize (IH w1).
  destruct (f w1) as [w' p']; simpl in *. destruct Hp as (? & ? & ?). eauto.
Qed.

Lemma rg_catch {A} (p : prog A) h (Q : outcome E A → W → Prop) w :
  rg p (λ r w', match r with Ok a => Q (Ok a) w' | Err e => rg (h e) Q w' end) w →
  rg (catch p h) Q w.
Proof.
  revert w. induction p as [a|e|f IH] using prog_induction; simpl; auto.
  intros w Hp w1 Hw Hi. specialize (Hp w1 Hw Hi). specialize (IH w1).
  destruct (f w1) as [w' p']; simpl in *. destruct Hp as (? & ? & ?). eauto.
Qed.

Lemma rg_atomically {A} rb (p : prog A) (Q : outcome E A → W → Prop) w :
  (∀ w1, rtc S w w1 → I w1 → wp p (λ r w', match r with
                            | Ok _ => I w' ∧ S w1 w' ∧ Q r w'
                            | Err e => I (rb w1 w') ∧ S w1 (rb w1 w') ∧ Q (Err e) (rb w1 w')
                            end) w1) →
  rg (atomically rb p) Q w.
Proof.
  intros Hp w1 Hw Hi. specialize (Hp w1 Hw Hi). unfold wp in Hp.
  destruct (run p w1) as [[a|e] w'] eqn:?; simpl; naive_solver.
Qed.

(** A handler that keeps to [I] and [S]. *)
Definition safe {A} (p : prog A) : Prop := ∀ w, rg p (λ _ _, True) w.

Lemma rg_safe {A} (p : prog A) (Q : outcome E A → W → Prop) w :
  safe p → (∀ r w', Q r w') → rg p Q w.
Proof. intros Hp HQ. eapply rg_mono; [apply Hp|auto]. Qed.

Lemma safe_bind {A B} (p : prog A) (k : A → prog B) : safe p → (∀ a, safe (k a)) → safe (bind p k).
Proof. intros Hp Hk w. apply rg_bind, rg_safe; [done|]. intros [a|e] w'; [apply Hk|done]. Qed.

Lemma safe_catch {A} (p : prog A) (h : E → prog A) : safe p → (∀ e, safe (h e)) → safe (catch p h).
Proof. intros Hp Hk w. apply rg_catch, rg_safe; [done|]. intros [a|e] w'; [done|apply Hk]. Qed.

Lemma safe_for_each {A} (l : list A) f : (∀ x, safe (f x)) → safe (for_each l f).
Proof. intros Hf. induction l; [done|]. cbn. by apply safe_bind. Qed.

Lemma rg_serve {A} (p : prog A) w : rg p (λ _ _, True) w → rg (serve p) (λ _ _, True) w.
Proof.
  intros Hp. apply rg_catch, rg_bind. eapply rg_mono; [exact Hp|]. by intros [a|e] w' _.
Qed.

(** Run alone, such a handler moves along [S]. *)
Lemma rg_wp {A} (p : prog A) (Q : outcome E A → W → Prop) w :
  I w → rg p Q w → wp p (λ r w', Q r w' ∧ rtc S w w') w.
Proof.
  unfold wp. revert w. induction p as [a|e|f IH] using prog_induction; intros w Hi Hp; simpl in *; try done.
  specialize (Hp w (rtc_refl _ _) Hi). specialize (IH w). destruct (f w) as [w1 p1]; simpl in *.
  destruct Hp as (Hi1 & Hs & Hp). specialize (IH w1 Hi1 Hp). destruct (run p1 w1) as [r w'].
  destruct IH as [? ?]. split; [done|]. by eapply rtc_l.
Qed.

(** The rely only brings the handler to states it is ready for. *)
Lemma rg_stable {A} (p : prog A) w w' : rtc S w w' → rg p (λ _ _, True) w → rg p (λ _ _, True) w'.
Proof. intros Hw. destruct p; simpl; auto. intros Hp w1 Hw1 Hi. apply Hp; [by etransitivity|done]. Qed.
End RelyGuarantee.

(** ** Interleaving of a pool of handlers *)
Inductive pstep : W * list (prog ()) → W * list (prog ()) → Prop :=
| pstep_act i f w w' p' ts :
    ts !! i = Some (Act f) → f w = (w', p') → pstep (w, ts) (w', <[i := p']> ts).

(** One schedule: the handlers that take the successive steps. *)
Fixpoint drive (picks : list nat) (c : W * list (prog ())) : W * list (prog ()) :=
  match picks with
  | [] => c
  | i :: picks' =>
      drive picks' (match c.2 !! i with
                    | Some (Act f) => match f c.1 with (w', p') => (w', <[i := p']> c.2) end
                    | _ => c
                    end)
  end.

Lemma drive_run picks c : rtc pstep c (drive picks c).
Proof.
  revert c. induction picks as [|i picks IH]; intros [w ts]; simpl; [done|].
  destruct (ts !! i) as [[| |f]|] eqn:Hi; try apply IH. destruct (f w) as [w' p'] eqn:Hf.
  eapply rtc_l; [|apply IH]. by eapply pstep_act.
Qed.

(** Every schedule: [explore] runs the pool in every order and tests the states in which
    all handlers are done. *)
Definition running (p : prog ()) : bool := match p with Act _ => true | _ => false end.
Definition finished (c : W * list (prog ())) : Prop := existsb running c.2 = false.
Fixpoint explore (fuel : nat) (test : W → bool) (c : W * list (prog ())) : bool :=
  match fuel with
  | O => false
  | S fuel' =>
      if existsb running c.2
      then forallb (λ i, match c.2 !! i with
                         | Some (Act f) => let (w', p') := f c.1 in explore fuel' test (w', <[i := p']> c.2)
                         | _ => true
                         end) (seq 0 (length c.2))
      else test c.1
  end.

Lemma explore_sound fuel test c c' : explore fuel test c = true → rtc pstep c c' → finished c' → test c'.1 = true.
Proof.
  revert c. induction fuel as [|fuel IH]; intros c; cbn [explore]; [done|]. intros He Hr Hf.
  inversion Hr as [x|x c1 y Hs Hr1]; subst; [by rewrite Hf in He|]. inversion Hs as [i f w w' p' ts Hi Hfw]; subst. cbn [fst snd] in He.
  assert (Hrun : existsb running ts = true). { apply existsb_exists. exists (Act f). split; [|done]. by eapply list_elem_of_In, list_elem_of_lookup_2. }
  rewrite Hrun, forallb_forall in He. specialize (He i). rewrite Hi, Hfw in He. apply (IH (w', <[i:=p']> ts)); [|done..].
  apply He, in_seq. split; [lia|]. apply lookup_lt_Some in Hi. lia.
Qed.

Lemma drive_app p1 p2 c : drive (p1 ++ p2) c = drive p2 (drive p1 c).
Proof. revert c. induction p1 as [|i p1 IH]; intros c; simpl; [done|]. by rewrite IH. Qed.

Lemma drive_step i c :
  (match c.2 !! i with Some (Act _) => true | _ => false end) = true → pstep c (drive [i] c).
Proof.
  destruct c as [w ts]. cbn [fst snd drive]. destruct (ts !! i) as [[| |f]|] eqn:Hi; try done. intros _.
  destruct (f w) as [w' p'] eqn:Hf. by eapply pstep_act.
Qed.

Section Pool.
Context (I : W → Prop) (S : W → W → Prop).

(** The handlers of the pool keep to [I] and [S] from here on. *)
Definition pool_ok (c : W * list (prog ())) : Prop := I c.1 ∧ Forall (λ p, rg I S p (λ _ _, True) c.1) c.2.

Lemma pool_step c c' : pstep c c' → pool_ok c → pool_ok c' ∧ S c.1 c'.1.
Proof.
  intros Hstep [HI Hs]. destruct Hstep as [i f w w' p' ts Hi Hf]; simpl in *.
  pose proof (Forall_lookup_1 _ _ _ _ Hs Hi w (rtc_refl _ _) HI) as Hp. rewrite Hf in Hp.
  destruct Hp as (HI' & HS & Hp'). split; [|done]. split; [done|]. simpl.
  apply Forall_insert; [|done]. eapply Forall_impl; [exact Hs|]. simpl. intros p. by apply rg_stable, rtc_once.
Qed.

(** The state of the pool after any interleaving of handlers that keep to [I] and [S]. *)
Lemma pool_steps c c' : rtc pstep c c' → pool_ok c → pool_ok c' ∧ rtc S c.1 c'.1.
Proof.
  induction 1 as [c|c c1 c2 Hstep _ IH]; intros Hok; [done|].
  destruct (pool_step _ _ Hstep Hok) as [Hok1 HS]. destruct (IH Hok1). split; [done|]. by eapply rtc_l.
Qed.
End Pool.
End Programs.

Notation "'let!' x ':=' p 'in' k" := (bind p (λ x, k))
  (at level 200, x name, p at level 100, k at level 200, right associativity).
Notation "'let!' ' x ':=' p 'in' k" := (bind p (λ y, match y with x => k end))
  (at level 200, x pattern, p at level 100, k at level 200, right associativity).
Notation "'do!' p ';' k" := (bind p (λ _, k))
  (at level 200, p at level 100, k at level 200, right associativity).
Notation "'when' b 'do' p" := (if b then p else Ret tt) (at level 200, b at level 100, p at level 100).
