(* ===== verification/JsString.v ===== *)
(** * JsString: the string operations of the language the server uses

    A JavaScript string is represented by its UTF-8 encoding, so [byteLength] is
    the number of characters of the Rocq string and [js_length], the number of
    UTF-16 code units, is computed from the lead bytes. *)
From S2P Require Import Prelude.
From Stdlib Require Import ZArith Lia Ascii String DecimalString DecimalZ.
From stdpp Require Import base list strings.

(** ** Lengths *)
Definition byteLength (s : string) : Z := Z.of_nat (String.length s).

Definition utf16_units (c : ascii) : Z :=
  let b := Z.of_N (N_of_ascii c) in
  if (b <? 128)%Z then 1 else if (b <? 192)%Z then 0 else if (b <? 240)%Z then 1 else 2.

Fixpoint js_length (s : string) : Z :=
  match s with
  | EmptyString => 0
  | String c s' => utf16_units c + js_length s'
  end.

Lemma js_length_nonneg s : (0 ≤ js_length s)%Z.
Proof.
  induction s as [|c s IH]; simpl; [done|]. unfold utf16_units.
  repeat (destruct (_ <? _)%Z); lia.
Qed.

Lemma js_length_le_byteLength s : (js_length s ≤ 2 * byteLength s)%Z.
Proof.
  unfold byteLength. induction s as [|c s IH]; cbn [js_length String.length]; [done|].
  rewrite Nat2Z.inj_succ. unfold utf16_units. repeat (destruct (_ <? _)%Z); lia.
Qed.

(** Characters (code points), the unit of [varchar(n)]. *)
Fixpoint char_count (s : string) : Z :=
  match s with
  | EmptyString => 0
  | String c s' => (if ((128 <=? Z.of_N (N_of_ascii c)) && (Z.of_N (N_of_ascii c) <? 192))%Z then 0 else 1) + char_count s'
  end.

Lemma char_count_le_js_length s : (char_count s ≤ js_length s)%Z.
Proof.
  induction s as [|c s IH]; cbn [char_count js_length]; [done|]. unfold utf16_units.
  destruct (Z.leb_spec 128 (Z.of_N (N_of_ascii c))), (Z.ltb_spec (Z.of_N (N_of_ascii c)) 192), (Z.ltb_spec (Z.of_N (N_of_ascii c)) 128),
    (Z.ltb_spec (Z.of_N (N_of_ascii c)) 240); simpl; lia.
Qed.

(** ** Decimal integers: [String(n)] and [Number(s)] / [parseInt(s, 10)] on them *)
Definition z_to_string (z : Z) : string := NilZero.string_of_int (Z.to_int z).
Definition string_to_z (s : string) : option Z := Z.of_int <$> NilZero.int_of_string s.

Lemma string_to_z_to_string z : string_to_z (z_to_string z) = Some z.
Proof.
  unfold string_to_z, z_to_string. rewrite NilZero.isi; simpl.
  - by rewrite DecimalZ.of_to.
  - destruct z as [|p|p]; simpl; [done| |done].
    intros H. injection H as H. pose proof (DecimalPos.Unsigned.to_uint_nonnil p). congruence.
  - destruct z as [|p|p]; simpl; [done|done|].
    intros H. injection H as H. pose proof (DecimalPos.Unsigned.to_uint_nonnil p). congruence.
Qed.

(** ** Characters *)
Definition code (c : ascii) : Z := Z.of_N (N_of_ascii c).
Definition in_range (lo hi : Z) (c : ascii) : bool := ((lo <=? code c) && (code c <=? hi))%Z.
Definition is_digit := in_range 48 57.
Definition is_upper := in_range 65 90.
Definition is_lower := in_range 97 122.
Definition is_hex (c : ascii) : bool := is_digit c || in_range 65 70 c || in_range 97 102 c.
Definition is_space (c : ascii) : bool := in_range 9 13 c || in_range 32 32 c.

Definition lower_char (c : ascii) : ascii :=
  if is_upper c then ascii_of_N (Z.to_N (code c + 32)) else c.

(** [s.toLowerCase()] on the ASCII range. *)
Definition toLowerCase (s : string) : string := String.string_of_list_ascii (map lower_char (String.list_ascii_of_string s)).

(** A regular expression [/^[class]{lo,hi}$/]. *)
Definition all_chars (f : ascii → bool) (s : string) : bool := forallb f (String.list_ascii_of_string s).

Definition startsWith (s p : string) : bool := String.prefix p s.

(** ** [s.split(c)] and [s.trim()] *)
Fixpoint split_chars (c : ascii) (acc : list ascii) (l : list ascii) : list (list ascii) :=
  match l with
  | [] => [rev acc]
  | x :: l' => if (x =? c)%char then rev acc :: split_chars c [] l' else split_chars c (x :: acc) l'
  end.
Definition split (c : ascii) (s : string) : list string :=
  map String.string_of_list_ascii (split_chars c [] (String.list_ascii_of_string s)).

Lemma chars_append a b : String.list_ascii_of_string (a +:+ b) = String.list_ascii_of_string a ++ String.list_ascii_of_string b.
Proof. induction a as [|c a IH]; simpl; [done|]. by rewrite IH. Qed.
Lemma split_chars_first c acc l rest : Forall (λ x, Ascii.eqb x c = false) l →
  split_chars c acc (l ++ c :: rest) = (rev acc ++ l) :: split_chars c [] rest.
Proof.
  intros Hl. revert acc. induction Hl as [|x l Hx _ IH]; intros acc; cbn [app split_chars].
  - by rewrite Ascii.eqb_refl, app_nil_r.
  - rewrite Hx, IH. cbn [rev]. by rewrite <-app_assoc.
Qed.
(** The parts of a text joined by a character they do not contain. *)
Lemma split_first c a b : Forall (λ x, Ascii.eqb x c = false) (String.list_ascii_of_string a) →
  split c (a +:+ String c "" +:+ b) = a :: split c b.
Proof.
  intros Ha. unfold split. rewrite !chars_append. cbn [String.list_ascii_of_string app]. rewrite split_chars_first by done.
  cbn [rev app map]. by rewrite String.string_of_list_ascii_of_string.
Qed.
Lemma split_last c a : Forall (λ x, Ascii.eqb x c = false) (String.list_ascii_of_string a) → split c a = [a].
Proof.
  intros Ha. unfold split. assert (∀ acc l, Forall (λ x, Ascii.eqb x c = false) l → split_chars c acc l = [rev acc ++ l]) as Hl.
  { intros acc l Hl. revert acc. induction Hl as [|x l Hx _ IH]; intros acc; cbn [split_chars]; [by rewrite app_nil_r|].
    rewrite Hx, IH. cbn [rev]. by rewrite <-app_assoc. }
  rewrite Hl by done. cbn [rev app map]. by rewrite String.string_of_list_ascii_of_string.
Qed.

Fixpoint drop_leading (f : ascii → bool) (l : list ascii) : list ascii :=
  match l with
  | [] => []
  | x :: l' => if f x then drop_leading f l' else l
  end.
Definition trim_end_by (f : ascii → bool) (l : list ascii) : list ascii := rev (drop_leading f (rev l)).
Definition trim (s : string) : string :=
  String.string_of_list_ascii (trim_end_by is_space (drop_leading is_space (String.list_ascii_of_string s))).

(** ** [parseInt(s, 10)]: leading spaces, a sign, then digits up to the first other
    character; [None] for [NaN]. *)
Fixpoint span_digits (l : list ascii) : list ascii :=
  match l with
  | [] => []
  | c :: l' => if is_digit c then c :: span_digits l' else []
  end.
Definition parseInt (s : string) : option Z :=
  match drop_leading is_space (String.list_ascii_of_string s) with
  | "-"%char :: l => string_to_z (String.string_of_list_ascii ("-"%char :: span_digits l))
  | "+"%char :: l => string_to_z (String.string_of_list_ascii (span_digits l))
  | l => string_to_z (String.string_of_list_ascii (span_digits l))
  end.

Lemma span_digits_all l : Forall (λ c, is_digit c = true) l → span_digits l = l.
Proof. induction 1 as [|c l Hc _ IH]; simpl; [done|]. by rewrite Hc, IH. Qed.

Lemma uint_digits d : Forall (λ c, is_digit c = true) (String.list_ascii_of_string (NilEmpty.string_of_uint d)).
Proof. induction d; simpl; constructor; done. Qed.

Lemma parseInt_digits l : Forall (λ c, is_digit c = true) l → parseInt (String.string_of_list_ascii l) = string_to_z (String.string_of_list_ascii l).
Proof.
  intros Hl. unfold parseInt. rewrite String.list_ascii_of_string_of_list_ascii.
  assert (drop_leading is_space l = l) as ->.
  { destruct Hl as [|c l Hc Hl]; [done|]. simpl. by destruct c as [[] [] [] [] [] [] [] []]. }
  pose proof (span_digits_all l Hl) as Hs. destruct Hl as [|c l Hc Hl]; [done|].
  destruct c as [[] [] [] [] [] [] [] []]; try discriminate Hc; by rewrite Hs.
Qed.

Lemma parseInt_z_to_string z : (0 ≤ z)%Z → parseInt (z_to_string z) = Some z.
Proof.
  intros Hz. transitivity (string_to_z (z_to_string z)); [|apply string_to_z_to_string].
  assert (∃ d, z_to_string z = NilEmpty.string_of_uint d) as [d Hd].
  { unfold z_to_string, NilZero.string_of_int. destruct z as [|p|p]; [by exists (Decimal.D0 Decimal.Nil)| |lia]. simpl.
    exists (Pos.to_uint p). pose proof (DecimalPos.Unsigned.to_uint_nonnil p) as Hn.
    unfold NilZero.string_of_uint. by destruct (Pos.to_uint p). }
  rewrite Hd. rewrite <-(String.string_of_list_ascii_of_string (NilEmpty.string_of_uint d)). apply parseInt_digits, uint_digits.
Qed.

(** ** [Number(s)], when it is an integer: spaces around, a sign, a fraction and an
    exponent, or a hexadecimal, octal or binary literal.  The digits are read exactly
    (a double keeps the first 15 of them); from [2^1024] on the value is infinite. *)
Definition digit_value (c : ascii) : Z :=
  if is_digit c then (code c - 48)%Z else if in_range 97 102 c then (code c - 87)%Z else if in_range 65 70 c then (code c - 55)%Z else 99%Z.
Definition radix_value (base : Z) (l : list ascii) : Z := foldl (λ a c, a * base + digit_value c)%Z 0%Z l.
Definition radix_literal (base : Z) (l : list ascii) : option Z :=
  match l with [] => None | _ => if forallb (λ c, digit_value c <? base)%Z l then Some (radix_value base l) else None end.
Definition signed (l : list ascii) : Z * list ascii :=
  match l with "-"%char :: l' => ((-1)%Z, l') | "+"%char :: l' => (1%Z, l') | _ => (1%Z, l) end.
Definition exponent (l : list ascii) : option Z :=
  match l with
  | [] => Some 0%Z
  | "e"%char :: l' | "E"%char :: l' =>
      let (sign, ds) := signed l' in
      if forallb is_digit ds then match ds with [] => None | _ => Some (sign * radix_value 10 ds)%Z end else None
  | _ => None
  end.
Definition decimal_literal (l : list ascii) : option Z :=
  let (sign, l0) := signed l in
  let int := span_digits l0 in
  let l1 := drop (length int) l0 in
  let frac := match l1 with "."%char :: l2 => span_digits l2 | _ => [] end in
  let l3 := match l1 with "."%char :: l2 => drop (length frac) l2 | _ => l1 end in
  match int ++ frac with
  | [] => None
  | ds =>
      e ← exponent l3;
      let m := radix_value 10 ds in
      let k := (e - Z.of_nat (length frac))%Z in
      if (0 <=? k)%Z then (if (m * 10 ^ k <? 2 ^ 1024)%Z then Some (sign * (m * 10 ^ k))%Z else None)
      else if (m mod 10 ^ (- k) =? 0)%Z then Some (sign * (m / 10 ^ (- k)))%Z else None
  end.
Definition Number_integer (s : string) : option Z :=
  match String.list_ascii_of_string (trim s) with
  | [] => Some 0%Z
  | "0"%char :: "x"%char :: l | "0"%char :: "X"%char :: l => radix_literal 16 l
  | "0"%char :: "o"%char :: l | "0"%char :: "O"%char :: l => radix_literal 8 l
  | "0"%char :: "b"%char :: l | "0"%char :: "B"%char :: l => radix_literal 2 l
  | l => decimal_literal l
  end.

Lemma digit_not_space c : is_digit c = true → is_space c = false.
Proof. by destruct c as [[] [] [] [] [] [] [] []]. Qed.
Lemma drop_leading_digits l : Forall (λ c, is_digit c = true) l → drop_leading is_space l = l.
Proof. intros Hl. destruct Hl as [|c l Hc Hl]; [done|]. simpl. by rewrite digit_not_space. Qed.
Lemma trim_digits l : Forall (λ c, is_digit c = true) l → trim (String.string_of_list_ascii l) = String.string_of_list_ascii l.
Proof.
  intros Hl. unfold trim, trim_end_by. rewrite String.list_ascii_of_string_of_list_ascii, (drop_leading_digits l) by done.
  by rewrite drop_leading_digits, List.rev_involutive by (by apply List.Forall_rev).
Qed.
Lemma digit_value_nonneg c : (0 ≤ digit_value c)%Z.
Proof. by destruct c as [[] [] [] [] [] [] [] []]. Qed.
Lemma radix_value_nonneg base l : (0 ≤ base)%Z → (0 ≤ radix_value base l)%Z.
Proof.
  intros Hb. unfold radix_value. enough (H : ∀ a, (0 ≤ a)%Z → (0 ≤ foldl (λ a c, a * base + digit_value c) a l)%Z) by (by apply H).
  induction l as [|c l IH]; intros a Ha; simpl; [done|]. apply IH. pose proof (digit_value_nonneg c). nia.
Qed.

(** A text of digits is the number they write, unless it is infinite. *)
Lemma Number_digits l : l ≠ [] → Forall (λ c, is_digit c = true) l →
  Number_integer (String.string_of_list_ascii l) = if (radix_value 10 l <? 2 ^ 1024)%Z then Some (radix_value 10 l) else None.
Proof.
  intros Hne Hl. unfold Number_integer. rewrite trim_digits, String.list_ascii_of_string_of_list_ascii by done.
  assert (Hdec : decimal_literal l = if (radix_value 10 l <? 2 ^ 1024)%Z then Some (radix_value 10 l) else None).
  { assert (Hs : signed l = (1%Z, l)). { destruct Hl as [|c l Hc _]; [done|]. by destruct c as [[] [] [] [] [] [] [] []]. }
    unfold decimal_literal. rewrite Hs, span_digits_all, drop_all, app_nil_r by done. destruct l as [|c l]; [done|].
    cbn -[Z.pow radix_value]. rewrite Z.mul_1_r. destruct (_ <? _)%Z; [|done]. f_equal. lia. }
  rewrite <-Hdec. destruct Hl as [|c l Hc Hl]; [done|]. destruct c as [[] [] [] [] [] [] [] []]; try done.
  destruct Hl as [|c l Hc' Hl]; [done|]. by destruct c as [[] [] [] [] [] [] [] []].
Qed.

Example Number_integer_samples :
  map Number_integer [" 20 "; "1e2"; "2.50e1"; "0x1F"; "+7"; "-0.5"; "1.5"; "abc"; "1e400"; ""; "."; "12a"]
  = [Some 20; Some 100; Some 25; Some 31; Some 7; None; None; None; None; Some 0; None; None]%Z.
Proof. vm_compute. reflexivity. Qed.

(** [/^[0-9a-f]{8}-[0-9a-f]{4}-[0-9a-f]{4}-[0-9a-f]{4}-[0-9a-f]{12}$/i]: an [x] of the
    pattern is a hexadecimal digit. *)
Fixpoint match_pattern (p l : list ascii) : bool :=
  match p, l with
  | [], [] => true
  | q :: p', c :: l' => (if Ascii.eqb q "x" then is_hex c else Ascii.eqb q c) && match_pattern p' l'
  | _, _ => false
  end.
Definition uuid_pattern : string := "xxxxxxxx-xxxx-xxxx-xxxx-xxxxxxxxxxxx".
Definition is_uuid (s : string) : bool :=
  match_pattern (String.list_ascii_of_string uuid_pattern) (String.list_ascii_of_string s).

Lemma match_pattern_length p l : match_pattern p l = true → length l = length p.
Proof.
  revert l. induction p as [|q p IH]; intros [|c l]; simpl; try done. intros [_ H]%andb_true_iff. by rewrite (IH l).
Qed.

Lemma length_list_ascii s : length (String.list_ascii_of_string s) = String.length s.
Proof. induction s; simpl; congruence. Qed.

Lemma is_uuid_length s : is_uuid s = true → String.length s = 36%nat.
Proof. intros H%match_pattern_length. by rewrite length_list_ascii in H. Qed.

(** [s.slice(0, n)]: a character outside the basic plane that is cut in half is sent
    to the database as the replacement character. *)
Fixpoint slice_units (n : Z) (s : string) : string :=
  match s with
  | EmptyString => EmptyString
  | String c s' =>
      let u := utf16_units c in
      if (u =? 0)%Z then String c (slice_units n s')
      else if (u <=? n)%Z then String c (slice_units (n - u) s')
      else if (n =? 1)%Z
           then String (ascii_of_nat 239) (String (ascii_of_nat 191) (String (ascii_of_nat 189) EmptyString))
           else EmptyString
  end.
