(* ===== verification/IsoDate.v ===== *)
(** * IsoDate: [Date.prototype.toISOString] and [Date.parse]

    Timestamps are milliseconds since the epoch; the JSON payloads carry them in ISO
    format, and the offline queue is ordered by the parsed value.  Years outside
    0..9999 are printed with a sign and six digits, as the language does. *)
From Stdlib Require Import Ascii String.
From S2P Require Import Prelude JsString.
From stdpp Require Import base list strings.

Local Open Scope string_scope.
Local Open Scope Z_scope.
Local Open Scope list_scope.

(** ** The proleptic Gregorian calendar, by 400-year eras *)
Record civil := mkCivil { year : Z; month : Z; day : Z }.

Definition year_of_era (doe : Z) : Z := (doe - doe / 1460 + doe / 36524 - doe / 146096) / 365.
Definition day_of_year (doe : Z) : Z :=
  let yoe := year_of_era doe in doe - (365 * yoe + yoe / 4 - yoe / 100).
Definition month_index (doe : Z) : Z := (5 * day_of_year doe + 2) / 153.
Definition month_of (mp : Z) : Z := if mp <? 10 then mp + 3 else mp - 9.
Definition day_of (doe : Z) : Z := day_of_year doe - (153 * month_index doe + 2) / 5 + 1.

Definition civil_of_days (days : Z) : civil :=
  let z := days + 719468 in
  let era := z / 146097 in
  let doe := z mod 146097 in
  let m := month_of (month_index doe) in
  mkCivil (year_of_era doe + era * 400 + (if m <=? 2 then 1 else 0)) m (day_of doe).

Definition days_of_civil (c : civil) : Z :=
  let y := if month c <=? 2 then year c - 1 else year c in
  let era := y / 400 in
  let yoe := y mod 400 in
  let doy := (153 * (if 2 <? month c then month c - 3 else month c + 9) + 2) / 5 + day c - 1 in
  era * 146097 + (yoe * 365 + yoe / 4 - yoe / 100 + doy) - 719468.

(** ** Text *)
Definition digit (n : Z) : ascii := ascii_of_N (Z.to_N (48 + n)).
Fixpoint pad_digits (k : nat) (n : Z) (acc : list ascii) : list ascii :=
  match k with O => acc | S k' => pad_digits k' (n / 10) (digit (n mod 10) :: acc) end.

Definition ms_per_day : Z := 86400000.

Definition toISOString (t : Z) : string :=
  let c := civil_of_days (t / ms_per_day) in
  let r := t mod ms_per_day in
  let y := if (0 <=? year c) && (year c <=? 9999) then pad_digits 4 (year c) []
           else (if year c <? 0 then "-"%char else "+"%char) :: pad_digits 6 (Z.abs (year c)) [] in
  String.string_of_list_ascii
    (y ++ "-"%char :: pad_digits 2 (month c) ("-"%char :: pad_digits 2 (day c) ("T"%char ::
     pad_digits 2 (r / 3600000) (":"%char :: pad_digits 2 (r / 60000 mod 60) (":"%char ::
     pad_digits 2 (r / 1000 mod 60) ("."%char :: pad_digits 3 (r mod 1000) ["Z"%char])))))).

Fixpoint read_digits (k : nat) (acc : Z) (l : list ascii) : option (Z * list ascii) :=
  match k, l with
  | O, _ => Some (acc, l)
  | S k', c :: l' => if is_digit c then read_digits k' (acc * 10 + (code c - 48)) l' else None
  | S _, [] => None
  end.
Definition read_char (c : ascii) (l : list ascii) : option (list ascii) :=
  match l with x :: l' => if (x =? c)%char then Some l' else None | [] => None end.

Definition Date_parse (s : string) : option Z :=
  let l := String.list_ascii_of_string s in
  ' (y, l) ← (match l with
              | "+"%char :: l' => read_digits 6 0 l'
              | "-"%char :: l' => ' (y, l) ← read_digits 6 0 l'; Some (- y, l)
              | _ => read_digits 4 0 l
              end);
  l ← read_char "-" l; ' (m, l) ← read_digits 2 0 l;
  l ← read_char "-" l; ' (d, l) ← read_digits 2 0 l;
  l ← read_char "T" l; ' (hh, l) ← read_digits 2 0 l;
  l ← read_char ":" l; ' (mm, l) ← read_digits 2 0 l;
  l ← read_char ":" l; ' (ss, l) ← read_digits 2 0 l;
  l ← read_char "." l; ' (ms, l) ← read_digits 3 0 l;
  l ← read_char "Z" l;
  match l with
  | [] => Some (days_of_civil (mkCivil y m d) * ms_per_day + hh * 3600000 + mm * 60000 + ss * 1000 + ms)
  | _ => None
  end.

(** ** Round trip *)
Lemma day_of_year_range doe : 0 ≤ doe < 146097 → 0 ≤ year_of_era doe < 400 ∧ 0 ≤ day_of_year doe ≤ 365.
Proof.
  intros H. unfold day_of_year, year_of_era.
  remember (doe / 1460) as a. remember (doe / 36524) as b. remember (doe / 146096) as c.
  remember ((doe - a + b - c) / 365) as y. remember (y / 4) as q4. remember (y / 100) as q100.
  assert (0 ≤ b ≤ 4) by (Z.div_mod_to_equations; lia).
  assert (0 ≤ c ≤ 1) by (Z.div_mod_to_equations; lia).
  assert (0 ≤ q100 ≤ 3) by (Z.div_mod_to_equations; lia).
  assert (Hb : b = 0 ∨ b = 1 ∨ b = 2 ∨ b = 3 ∨ b = 4) by lia.
  assert (Hq : q100 = 0 ∨ q100 = 1 ∨ q100 = 2 ∨ q100 = 3) by lia.
  assert (Hc : c = 0 ∨ c = 1) by lia.
  destruct Hb as [->|[->|[->|[->| ->]]]], Hq as [->|[->|[->| ->]]], Hc as [->| ->]; Z.div_mod_to_equations; lia.
Qed.

Lemma era_day doe : 0 ≤ doe < 146097 →
  0 ≤ year_of_era doe < 400 ∧ 0 ≤ month_index doe < 12 ∧ 1 ≤ day_of doe ≤ 31.
Proof.
  intros H. destruct (day_of_year_range doe H) as [Hy Hd]. split; [done|].
  unfold day_of, month_index. Z.div_mod_to_equations. lia.
Qed.

Lemma month_range mp : 0 ≤ mp < 12 → 1 ≤ month_of mp ≤ 12.
Proof. unfold month_of. zcase; lia. Qed.

Lemma days_of_civil_of_days n : days_of_civil (civil_of_days n) = n.
Proof.
  unfold civil_of_days, days_of_civil. cbn [year month day]. set (z := n + 719468). set (doe := z mod 146097).
  destruct (era_day doe) as (Hy & Hm & Hd); [subst doe; apply Z.mod_pos_bound; lia|].
  set (mp := month_index doe) in *. set (yoe := year_of_era doe) in *.
  set (m := month_of mp).
  replace (if m <=? 2 then yoe + z / 146097 * 400 + (if m <=? 2 then 1 else 0) - 1
           else yoe + z / 146097 * 400 + (if m <=? 2 then 1 else 0)) with (yoe + z / 146097 * 400)
    by (destruct (m <=? 2); lia).
  replace (if 2 <? m then m - 3 else m + 9) with mp by (subst m; unfold month_of; zcase; lia).
  rewrite Z.div_add, Z.mod_add, Z.div_small, Z.mod_small by lia.
  unfold day_of. fold mp. unfold day_of_year. fold yoe. pose proof (Z.div_mod z 146097). fold doe in H. lia.
Qed.

Lemma digit_facts d : 0 ≤ d < 10 → is_digit (digit d) = true ∧ code (digit d) - 48 = d.
Proof.
  intros H. assert (code (digit d) = 48 + d) as Hc.
  { unfold code, digit. rewrite N_ascii_embedding by lia. lia. }
  unfold is_digit, in_range. rewrite Hc. split; [zcase; lia || done|lia].
Qed.

Lemma read_digits_app k1 k2 acc l : read_digits (k1 + k2) acc l = ' (a, l') ← read_digits k1 acc l; read_digits k2 a l'.
Proof.
  revert acc l. induction k1 as [|k1 IH]; intros acc l; simpl; [done|].
  destruct l as [|c l]; [done|]. destruct (is_digit c); [apply IH|done].
Qed.

Lemma read_pad_digits k n acc l : 0 ≤ n < 10 ^ Z.of_nat k →
  read_digits k acc (pad_digits k n l) = Some (acc * 10 ^ Z.of_nat k + n, l).
Proof.
  revert n l acc. induction k as [|k IH]; intros n l acc Hn.
  { change (10 ^ Z.of_nat 0) with 1 in *. simpl. repeat f_equal. lia. }
  rewrite Nat2Z.inj_succ, Z.pow_succ_r in * by lia. replace (S k) with (k + 1)%nat by lia.
  rewrite read_digits_app. replace (k + 1)%nat with (S k) by lia. cbn [pad_digits].
  rewrite IH by (split; [apply Z.div_pos|apply Z.div_lt_upper_bound]; lia). simpl.
  destruct (digit_facts (n mod 10)) as [-> ->]; [apply Z.mod_pos_bound; lia|].
  f_equal. f_equal. pose proof (Z.div_mod n 10 ltac:(lia)). lia.
Qed.

Definition iso_range (t : Z) : bool :=
  let y := year (civil_of_days (t / ms_per_day)) in (0 <=? y) && (y <=? 9999).

Lemma Date_parse_toISOString t : iso_range t = true → Date_parse (toISOString t) = Some t.
Proof.
  intros Hr. unfold Date_parse, toISOString, iso_range in *. rewrite Hr, String.list_ascii_of_string_of_list_ascii.
  pose proof (days_of_civil_of_days (t / ms_per_day)) as Hday.
  assert (Hmd : 1 ≤ month (civil_of_days (t / ms_per_day)) ≤ 12 ∧ 1 ≤ day (civil_of_days (t / ms_per_day)) ≤ 31).
  { unfold civil_of_days; cbn [month day]. destruct (era_day ((t / ms_per_day + 719468) mod 146097)) as (_ & Hm & Hd);
      [apply Z.mod_pos_bound; lia|]. split; [by apply month_range|done]. }
  destruct (civil_of_days (t / ms_per_day)) as [y m d]; cbn [year month day] in *. boolp.
  set (r := t mod ms_per_day). assert (0 ≤ r < ms_per_day) by (apply Z.mod_pos_bound; unfold ms_per_day; lia).
  unfold ms_per_day in *.
  set (tl := "-"%char :: _). assert (∃ c l, pad_digits 4 y [] ++ tl = c :: l ∧ is_digit c = true) as (c & l & Hcl & Hdig).
  { cbn [pad_digits app]. do 2 eexists. split; [done|]. apply digit_facts. apply Z.mod_pos_bound. lia. }
  assert (pad_digits 4 y [] ++ tl = pad_digits 4 y tl) as Happ by done.
  replace (match pad_digits 4 y [] ++ tl with
           | "+"%char :: l' => read_digits 6 0 l'
           | "-"%char :: l' => ' (y, l) ← read_digits 6 0 l'; Some (- y, l)
           | _ => read_digits 4 0 (pad_digits 4 y [] ++ tl)
           end) with (read_digits 4 0 (pad_digits 4 y tl)).
  2: { rewrite <-Happ, Hcl. clear -Hdig. destruct c as [[] [] [] [] [] [] [] []]; try done. }
  rewrite read_pad_digits by (simpl; lia). subst tl. cbn [mbind option_bind read_char Ascii.eqb Bool.eqb andb].
  repeat (rewrite read_pad_digits by (simpl; Z.div_mod_to_equations; lia);
          cbn [mbind option_bind read_char Ascii.eqb Bool.eqb andb]).
  f_equal. rewrite !Z.mul_0_l, !Z.add_0_l, Hday. subst r. Z.div_mod_to_equations. lia.
Qed.
