(* ===== verification/Redis.v ===== *)
(** * Redis: the interface of the Redis server the services talk to

    Redis is not code of the repository: it is a parameter.  [Redis] is the class of
    a server (a store, the entry a key holds, the execution of one command), and
    [RedisLaws] says that executing a command replies and updates the key it names
    as the Redis command reference documents ([cmd_spec]) and touches no other key.
    [mem_redis] is an in-memory instance, used to evaluate the model on concrete
    inputs; its laws are proved.  The key names and time-to-live constants are those
    of redis/redis-keys.ts, and [fixed_window_lua] is the Lua script of the rate
    limiters. *)
From S2P Require Import Prelude JsString.
From Stdlib Require Import ZArith Lia.
From stdpp Require Import base list gmap strings.

Local Open Scope Z_scope.

(** ** Values, commands and replies *)
Inductive rval :=
| RStr (s : string)
| RList (l : list string)
| RSet (l : list string)
| RZset (z : list (Z * string))
| RHash (h : list (string * string)).

(** A value and its absolute expiry time in milliseconds, if any. *)
Abbreviation entry := (rval * option Z)%type.

Inductive bound := NegInf | PosInf | Score (z : Z).

Inductive rcmd :=
| Get (k : string) | SetEx (k : string) (secs : Z) (v : string) | GetDel (k : string)
| Del (k : string) | Exists_ (k : string)
| Expire (k : string) (secs : Z) | PExpire (k : string) (ms : Z) | PTtl (k : string)
| Incr (k : string)
| RPush (k : string) (v : string) | LTrim (k : string) (start stop : Z) | LRange (k : string) (start stop : Z)
| SAdd (k : string) (vs : list string) | SIsMember (k : string) (v : string) | SMembers (k : string)
| ZAdd (k : string) (score : Z) (v : string) | ZRem (k : string) (vs : list string)
| ZRemRangeByScore (k : string) (lo hi : bound) | ZRangeByScore (k : string) (lo hi : bound)
| ZRange (k : string) (start stop : Z) | ZCard (k : string)
| HSet (k : string) (fields : list (string * string)) | HGetAll (k : string).

Inductive reply :=
| RpInt (z : Z)
| RpStr (s : option string)
| RpArr (l : list string)
| RpMap (h : list (string * string)).

Definition cmd_key (c : rcmd) : string :=
  match c with
  | Get k | SetEx k _ _ | GetDel k | Del k | Exists_ k | Expire k _ | PExpire k _ | PTtl k | Incr k
  | RPush k _ | LTrim k _ _ | LRange k _ _ | SAdd k _ | SIsMember k _ | SMembers k
  | ZAdd k _ _ | ZRem k _ | ZRemRangeByScore k _ _ | ZRangeByScore k _ _ | ZRange k _ _ | ZCard k
  | HSet k _ | HGetAll k => k
  end.

(** ** Documented behaviour of the commands *)

(** A key whose expiry time has passed does not exist. *)
Definition live (now : Z) (e : option entry) : option entry :=
  match e with
  | Some (v, Some t) => if now <=? t then Some (v, Some t) else None
  | _ => e
  end.

(** Index arguments of LRANGE, LTRIM and ZRANGE: negative ones count from the end. *)
Definition range {A} (start stop : Z) (l : list A) : list A :=
  let n := Z.of_nat (length l) in
  let s := if start <? 0 then Z.max (n + start) 0 else start in
  let e := if stop <? 0 then n + stop else stop in
  take (Z.to_nat (e - s + 1)) (drop (Z.to_nat s) l).

Definition above (lo : bound) (z : Z) : bool :=
  match lo with NegInf => true | PosInf => false | Score l => l <=? z end.
Definition below (hi : bound) (z : Z) : bool :=
  match hi with NegInf => false | PosInf => true | Score h => z <=? h end.
Definition in_score (lo hi : bound) (x : Z * string) : bool := above lo x.1 && below hi x.1.

(** Sorted sets are ordered by score, then by member. *)
Definition zset_leb (a b : Z * string) : bool := (a.1 <? b.1) || ((a.1 =? b.1) && String.leb a.2 b.2).
Definition zset_rem (vs : list string) (z : list (Z * string)) : list (Z * string) :=
  List.filter (λ x, negb (bool_decide (x.2 ∈ vs))) z.
Definition zset_add (score : Z) (v : string) (z : list (Z * string)) : list (Z * string) :=
  insert_by zset_leb (score, v) (zset_rem [v] z).
Definition has_member (v : string) (z : list (Z * string)) : bool := existsb (λ x, x.2 === v) z.

Definition set_add (vs l : list string) : list string :=
  l ++ List.filter (λ v, negb (bool_decide (v ∈ l))) (unique vs).

Definition hash_put (h : list (string * string)) (f : string * string) : list (string * string) :=
  if existsb (λ x, x.1 === f.1) h
  then map (λ x, if x.1 === f.1 then f else x) h
  else h ++ [f].

(** A collection that becomes empty disappears. *)
Definition keep (v : rval) (t : option Z) : option entry :=
  match v with
  | RList [] | RSet [] | RZset [] | RHash [] => None
  | _ => Some (v, t)
  end.

Definition int64_max : Z := 9223372036854775807.

Definition ttl_of (e : option entry) : option Z := match e with Some (_, t) => t | None => None end.

Definition as_list (e : option entry) : option (list string) :=
  match e with None => Some [] | Some (RList l, _) => Some l | _ => None end.
Definition as_set (e : option entry) : option (list string) :=
  match e with None => Some [] | Some (RSet l, _) => Some l | _ => None end.
Definition as_zset (e : option entry) : option (list (Z * string)) :=
  match e with None => Some [] | Some (RZset z, _) => Some z | _ => None end.
Definition as_hash (e : option entry) : option (list (string * string)) :=
  match e with None => Some [] | Some (RHash h, _) => Some h | _ => None end.

(** Reply and new entry of a command executed at [now] on a key whose live entry is
    [e]; [None] when the command fails (value of another type, not an integer, or
    overflow). *)
Definition cmd_spec (now : Z) (c : rcmd) (e : option entry) : option (reply * option entry) :=
  match c with
  | Get _ =>
      match e with
      | None => Some (RpStr None, None)
      | Some (RStr s, t) => Some (RpStr (Some s), e)
      | _ => None
      end
  | SetEx _ secs v =>
      if 0 <? secs then Some (RpStr (Some "OK"%string), Some (RStr v, Some (now + secs * 1000))) else None
  | GetDel _ =>
      match e with
      | None => Some (RpStr None, None)
      | Some (RStr s, _) => Some (RpStr (Some s), None)
      | _ => None
      end
  | Del _ => Some (RpInt (if e then 1 else 0), None)
  | Exists_ _ => Some (RpInt (if e then 1 else 0), e)
  | Expire _ secs =>
      match e with
      | None => Some (RpInt 0, None)
      | Some (v, _) => Some (RpInt 1, if 0 <? secs then Some (v, Some (now + secs * 1000)) else None)
      end
  | PExpire _ ms =>
      match e with
      | None => Some (RpInt 0, None)
      | Some (v, _) => Some (RpInt 1, if 0 <? ms then Some (v, Some (now + ms)) else None)
      end
  | PTtl _ =>
      match e with
      | None => Some (RpInt (-2), None)
      | Some (_, None) => Some (RpInt (-1), e)
      | Some (_, Some t) => Some (RpInt (t - now), e)
      end
  | Incr _ =>
      match e with
      | None => Some (RpInt 1, Some (RStr "1", None))
      | Some (RStr s, t) =>
          match string_to_z s with
          | Some n => if n <? int64_max
                      then Some (RpInt (n + 1), Some (RStr (z_to_string (n + 1)), t))
                      else None
          | None => None
          end
      | _ => None
      end
  | RPush _ v => l ← as_list e; Some (RpInt (Z.of_nat (length l) + 1), Some (RList (l ++ [v]), ttl_of e))
  | LTrim _ a b => l ← as_list e; Some (RpStr (Some "OK"%string), keep (RList (range a b l)) (ttl_of e))
  | LRange _ a b => l ← as_list e; Some (RpArr (range a b l), e)
  | SAdd _ vs =>
      l ← as_set e;
      Some (RpInt (Z.of_nat (length (set_add vs l)) - Z.of_nat (length l)), keep (RSet (set_add vs l)) (ttl_of e))
  | SIsMember _ v => l ← as_set e; Some (RpInt (if bool_decide (v ∈ l) then 1 else 0), e)
  | SMembers _ => l ← as_set e; Some (RpArr l, e)
  | ZAdd _ score v =>
      z ← as_zset e;
      Some (RpInt (if has_member v z then 0 else 1), Some (RZset (zset_add score v z), ttl_of e))
  | ZRem _ vs =>
      z ← as_zset e;
      Some (RpInt (Z.of_nat (length z) - Z.of_nat (length (zset_rem vs z))), keep (RZset (zset_rem vs z)) (ttl_of e))
  | ZRemRangeByScore _ lo hi =>
      z ← as_zset e;
      let z' := List.filter (λ x, negb (in_score lo hi x)) z in
      Some (RpInt (Z.of_nat (length z) - Z.of_nat (length z')), keep (RZset z') (ttl_of e))
  | ZRangeByScore _ lo hi => z ← as_zset e; Some (RpArr (map snd (List.filter (in_score lo hi) z)), e)
  | ZRange _ a b => z ← as_zset e; Some (RpArr (map snd (range a b z)), e)
  | ZCard _ => z ← as_zset e; Some (RpInt (Z.of_nat (length z)), e)
  | HSet _ fs =>
      h ← as_hash e;
      Some (RpInt (Z.of_nat (length (foldl hash_put h fs)) - Z.of_nat (length h)),
            keep (RHash (foldl hash_put h fs)) (ttl_of e))
  | HGetAll _ => h ← as_hash e; Some (RpMap h, e)
  end.

(** ** The server *)
Class Redis := {
  rstore : Type;
  rentry : rstore → string → option entry;
  exec : Z → rcmd → rstore → option reply * rstore;
  mget : Z → list string → rstore → list (option string);
}.

Class RedisLaws (R : Redis) : Prop := {
  exec_reply now c r :
    (exec now c r).1 = fst <$> cmd_spec now c (live now (rentry r (cmd_key c)));
  exec_entry now c r k :
    rentry (exec now c r).2 k =
      match cmd_spec now c (live now (rentry r (cmd_key c))) with
      | Some (_, e) => if decide (k = cmd_key c) then e else rentry r k
      | None => rentry r k
      end;
  mget_reply now ks r :
    mget now ks r = map (λ k, match live now (rentry r k) with Some (RStr s, _) => Some s | _ => None end) ks;
}.

(** MULTI ... EXEC: every queued command is executed, in order and without
    interruption; the client rejects the reply when one of them failed. *)
Fixpoint exec_multi `{Redis} (now : Z) (cs : list rcmd) (r : rstore) : option (list reply) * rstore :=
  match cs with
  | [] => (Some [], r)
  | c :: cs' =>
      match exec now c r with
      | (rp, r1) =>
          match exec_multi now cs' r1 with
          | (rps, r2) => (match rp, rps with Some x, Some xs => Some (x :: xs) | _, _ => None end, r2)
          end
      end
  end.

(** An in-memory server. *)
#[export] Instance mem_redis : Redis := {
  rstore := gmap string entry;
  rentry r k := r !! k;
  exec now c r :=
    match cmd_spec now c (live now (r !! cmd_key c)) with
    | Some (rp, Some e) => (Some rp, <[cmd_key c := e]> r)
    | Some (rp, None) => (Some rp, delete (cmd_key c) r)
    | None => (None, r)
    end;
  mget now ks r := map (λ k, match live now (r !! k) with Some (RStr s, _) => Some s | _ => None end) ks;
}.

#[export] Instance mem_redis_laws : RedisLaws mem_redis.
Proof.
  split.
  - intros now c r. cbn. by destruct (cmd_spec _ _ _) as [[? []]|].
  - intros now c r k. cbn. destruct (cmd_spec _ _ _) as [[? []]|]; simpl; [| |done].
    + destruct (decide (k = cmd_key c)) as [->|]; by simplify_map_eq.
    + destruct (decide (k = cmd_key c)) as [->|]; by simplify_map_eq.
  - done.
Qed.

#[global] Arguments keep : simpl never.

(** ** Entries as collections *)
Lemma as_zset_keep z t : as_zset (keep (RZset z) t) = Some z.
Proof. by destruct z. Qed.
Lemma as_set_keep l t : as_set (keep (RSet l) t) = Some l.
Proof. by destruct l. Qed.
Lemma as_list_keep l t : as_list (keep (RList l) t) = Some l.
Proof. by destruct l. Qed.

Lemma ttl_live now e t : ttl_of (live now e) = Some t → now ≤ t.
Proof.
  destruct e as [[v [t'|]]|]; simpl; [|done..]. destruct (Z.leb_spec now t'); simpl; [|done]. by intros [= ->].
Qed.

Lemma live_live now e : live now (live now e) = live now e.
Proof. destruct e as [[v [t|]]|]; simpl; try done. destruct (now <=? t) eqn:E; simpl; by rewrite ?E. Qed.

Lemma live_cases now e : live now e = e ∨ live now e = None.
Proof. destruct e as [[v [t|]]|]; simpl; auto. destruct (now <=? t); auto. Qed.

Lemma live_some now v t : now ≤ t → live now (Some (v, Some t)) = Some (v, Some t).
Proof. simpl. by intros ->%Z.leb_le. Qed.

Lemma live_ttl now e v : live now e = e → live now (Some (v, ttl_of e)) = Some (v, ttl_of e).
Proof. destruct e as [[v' [t|]]|]; simpl; try done. by destruct (now <=? t). Qed.

Lemma live_keep now e v : live now e = e → live now (keep v (ttl_of e)) = keep v (ttl_of e).
Proof.
  intros He. pose proof (live_ttl now e v He). destruct v as [|[]|[]|[]|[]]; done.
Qed.

(** ** A transaction on one key *)
Fixpoint chain (now : Z) (cs : list rcmd) (e : option entry) : option (list reply * option entry) :=
  match cs with
  | [] => Some ([], e)
  | c :: cs' =>
      match cmd_spec now c (live now e) with
      | Some (rp, e1) => match chain now cs' e1 with Some (rps, e2) => Some (rp :: rps, e2) | None => None end
      | None => None
      end
  end.

Section Laws.
Context {R : Redis} {RL : RedisLaws R}.

Lemma exec_spec now c r rp e :
  cmd_spec now c (live now (rentry r (cmd_key c))) = Some (rp, e) →
  ∃ r', exec now c r = (Some rp, r') ∧ ∀ k, rentry r' k = if decide (k = cmd_key c) then e else rentry r k.
Proof.
  intros H. pose proof (exec_reply now c r) as H1. pose proof (exec_entry now c r) as H2.
  rewrite H in H1. setoid_rewrite H in H2. destruct (exec now c r) as [? r']; simpl in *. subst. by exists r'.
Qed.

Lemma exec_multi_chain now k cs r rps e :
  Forall (λ c, cmd_key c = k) cs → chain now cs (rentry r k) = Some (rps, e) →
  ∃ r', exec_multi now cs r = (Some rps, r') ∧ ∀ k', rentry r' k' = if decide (k' = k) then e else rentry r k'.
Proof.
  intros Hk. revert r rps e. induction Hk as [|c cs Hc _ IH]; intros r rps e; simpl.
  { intros [= <- <-]. exists r. split; [done|]. intros k'. by case_decide; subst. }
  destruct (cmd_spec now c _) as [[rp e1]|] eqn:Hs; [|done].
  destruct (chain now cs e1) as [[rps1 e2]|] eqn:Hch; [|done]. intros [= <- <-].
  destruct (exec_spec now c r rp e1) as (r1 & -> & Hr1); [by rewrite Hc|].
  destruct (IH r1 rps1 e2) as (r2 & -> & Hr2).
  { by rewrite Hr1, Hc, decide_True by done. }
  exists r2. split; [done|]. intros k'. rewrite Hr2, Hr1, Hc. by repeat case_decide.
Qed.

(** A transaction made of one group of commands per key. *)
Lemma exec_multi_app now cs1 cs2 r rps1 rps2 r1 r2 :
  exec_multi now cs1 r = (Some rps1, r1) → exec_multi now cs2 r1 = (Some rps2, r2) →
  exec_multi now (cs1 ++ cs2) r = (Some (rps1 ++ rps2), r2).
Proof.
  revert r rps1. induction cs1 as [|c cs1 IH]; intros r rps1; simpl; [by intros [= <- <-]|].
  destruct (exec now c r) as [rp r0]. destruct (exec_multi now cs1 r0) as [rps r0'] eqn:Heq.
  destruct rp, rps; intros H1 H2; simplify_eq. by erewrite IH.
Qed.

Lemma exec_multi_groups {A} now (key : A → string) (cmds : A → list rcmd) (new : A → option entry) l r :
  NoDup (map key l) →
  (∀ x, x ∈ l → Forall (λ c, cmd_key c = key x) (cmds x) ∧ ∃ rps, chain now (cmds x) (rentry r (key x)) = Some (rps, new x)) →
  ∃ rps r', exec_multi now (flat_map cmds l) r = (Some rps, r') ∧
    (∀ x, x ∈ l → rentry r' (key x) = new x) ∧ (∀ k, k ∉ map key l → rentry r' k = rentry r k).
Proof.
  revert r. induction l as [|x l IH]; intros r Hnd Hc; simpl in *.
  { exists [], r. split; [done|]. split; [|done]. intros x Hx. by apply not_elem_of_nil in Hx. }
  apply NoDup_cons in Hnd as [Hx Hnd]. destruct (Hc x) as (Hk & rps & Hch); [set_solver|].
  destruct (exec_multi_chain now (key x) (cmds x) r _ _ Hk Hch) as (r1 & He1 & Hr1).
  destruct (IH r1 Hnd) as (rps' & r2 & He2 & Hnew & Hframe).
  { intros y Hy. destruct (Hc y) as [? Hcy]; [set_solver|]. split; [done|]. destruct Hcy as [rpy Hcy]. exists rpy. rewrite Hr1, decide_False; [exact Hcy|].
    intros Heq. apply Hx. rewrite <-Heq. by apply (list_elem_of_fmap_2 key). }
  exists (rps ++ rps'), r2. split; [by eapply exec_multi_app|]. split.
  - intros y [->|Hy]%elem_of_cons; [|by apply Hnew]. by rewrite Hframe, Hr1, decide_True by done.
  - intros k Hk'. apply not_elem_of_cons in Hk' as [Hk1 Hk2]. by rewrite Hframe, Hr1, decide_False by done.
Qed.
End Laws.

(** ** Sorted sets as maps from members to scores *)
Section Zset.
Implicit Types (z : list (Z * string)).

Definition zmap z : gmap string Z := list_to_map (map (λ x, (x.2, x.1)) z).
Definition members z : list string := map snd z.

Lemma zmap_fst z : (map (λ x : Z * string, (x.2, x.1)) z).*1 = members z.
Proof. unfold members. rewrite <-list_fmap_compose. done. Qed.

Lemma zmap_lookup z v s : NoDup (members z) → zmap z !! v = Some s ↔ (s, v) ∈ z.
Proof.
  intros Hz. unfold zmap. rewrite <-elem_of_list_to_map by (by rewrite zmap_fst).
  rewrite list_elem_of_In, in_map_iff. setoid_rewrite <-list_elem_of_In. split.
  - intros ([s' v'] & [= -> ->] & H). done.
  - intros H. by exists (s, v).
Qed.

Lemma zmap_size z : NoDup (members z) → size (zmap z) = length z.
Proof.
  intros Hz. unfold zmap. rewrite map_size_list_to_map by (by rewrite zmap_fst). by rewrite List.length_map.
Qed.

Lemma members_filter f z : members (List.filter f z) `sublist_of` members z.
Proof. unfold members. induction z as [|x z IH]; simpl; [done|]. case_match; simpl; by constructor. Qed.

Lemma NoDup_members_filter f z : NoDup (members z) → NoDup (members (List.filter f z)).
Proof. intros. by eapply sublist_NoDup, members_filter. Qed.

Lemma zset_add_perm s v z : zset_add s v z ≡ₚ (s, v) :: zset_rem [v] z.
Proof. apply insert_by_perm. Qed.

Lemma NoDup_zset_add s v z : NoDup (members z) → NoDup (members (zset_add s v z)).
Proof.
  intros Hz. unfold members. rewrite zset_add_perm. cbn [map snd]. constructor.
  - rewrite list_elem_of_In, in_map_iff. intros ([s' v'] & Heq & H). cbn in Heq. subst.
    apply filter_In in H as [_ H]. apply negb_true_iff, bool_decide_eq_false in H. apply H. cbn. set_solver.
  - by apply NoDup_members_filter.
Qed.

Lemma zmap_filter f z : NoDup (members z) →
  zmap (List.filter f z) = filter (λ kv, f (kv.2, kv.1) = true) (zmap z).
Proof.
  intros Hz. apply map_eq. intros v. apply option_eq. intros s.
  rewrite zmap_lookup, map_lookup_filter_Some, zmap_lookup by auto using NoDup_members_filter.
  rewrite !list_elem_of_In, List.filter_In. done.
Qed.

Lemma zmap_zset_rem v z : NoDup (members z) → zmap (zset_rem [v] z) = delete v (zmap z).
Proof.
  intros Hz. apply map_eq. intros k. apply option_eq. intros s.
  rewrite zmap_lookup, lookup_delete_Some, zmap_lookup by (done || by apply NoDup_members_filter).
  unfold zset_rem. rewrite !list_elem_of_In, List.filter_In, negb_true_iff, bool_decide_eq_false, list_elem_of_singleton.
  simpl. naive_solver.
Qed.

Lemma zmap_zset_add s v z : NoDup (members z) → zmap (zset_add s v z) = <[v := s]> (zmap z).
Proof.
  intros Hz. apply map_eq. intros k. apply option_eq. intros s'.
  rewrite zmap_lookup, zset_add_perm, elem_of_cons by (by apply NoDup_zset_add).
  rewrite <-zmap_lookup, zmap_zset_rem, lookup_delete_Some, lookup_insert_Some by (done || by apply NoDup_members_filter).
  naive_solver.
Qed.

(** Sorted sets are in the order of their scores. *)
Definition by_score z : Prop := StronglySorted (λ a b, a.1 ≤ b.1) z.

Lemma by_score_filter f z : by_score z → by_score (List.filter f z).
Proof.
  unfold by_score. induction 1 as [|x z Hz IH Hx]; simpl; [constructor|]. case_match; [|done].
  constructor; [done|]. rewrite Forall_forall in *. intros y Hy. apply Hx.
  rewrite list_elem_of_In in Hy. apply filter_In in Hy as [Hy _]. by rewrite list_elem_of_In.
Qed.

Lemma by_score_add s v z : by_score z → by_score (zset_add s v z).
Proof.
  intros Hz. pose proof (by_score_filter (λ x, negb (bool_decide (x.2 ∈ [v]))) z Hz) as H. fold (zset_rem [v] z) in H.
  unfold zset_add, by_score in *. revert H. generalize (zset_rem [v] z). clear z Hz. intros z.
  induction 1 as [|x z Hz IH Hx]; simpl; [by repeat constructor|]. unfold zset_leb; simpl.
  destruct (Z.ltb_spec s x.1); simpl.
  - constructor; [by constructor|]. constructor; simpl; [lia|]. eapply Forall_impl; [exact Hx|]. simpl. lia.
  - destruct (Z.eqb_spec s x.1); simpl; [case_match|].
    + constructor; [by constructor|]. constructor; simpl; [lia|]. eapply Forall_impl; [exact Hx|]. simpl. lia.
    + constructor; [done|]. rewrite insert_by_perm. constructor; [simpl; lia|done].
    + constructor; [done|]. rewrite insert_by_perm. constructor; [simpl; lia|done].
Qed.

(** Well-formed entries: no member twice, scores in order. *)
Definition entry_wf (e : option entry) : Prop :=
  match e with
  | Some (RZset z, _) => NoDup (members z) ∧ by_score z
  | Some (RSet l, _) => NoDup l
  | _ => True
  end.
End Zset.

Lemma entry_wf_live now e : entry_wf e → entry_wf (live now e).
Proof. destruct e as [[v [t|]]|]; simpl; try done. by destruct (now <=? t). Qed.

Lemma entry_wf_keep v t : entry_wf (Some (v, t)) → entry_wf (keep v t).
Proof. by destruct v as [|[]|[]|[]|[]]. Qed.

Lemma as_zset_wf e z : entry_wf e → as_zset e = Some z → NoDup (members z) ∧ by_score z.
Proof. destruct e as [[[] t]|]; simpl; intros; simplify_eq; try done. split; constructor. Qed.

Lemma as_set_wf e l : entry_wf e → as_set e = Some l → NoDup l.
Proof. destruct e as [[[] t]|]; simpl; intros; simplify_eq; try done. constructor. Qed.

Lemma NoDup_set_add vs l : NoDup l → NoDup (set_add vs l).
Proof.
  intros H. unfold set_add. apply NoDup_app. split; [done|]. split; [|apply NoDup_List_filter, NoDup_unique].
  intros x Hx. rewrite list_elem_of_In, filter_In, negb_true_iff, bool_decide_eq_false. naive_solver.
Qed.

(** Every command keeps the entries well formed. *)
Lemma cmd_spec_wf now c e rp e' : entry_wf e → cmd_spec now c e = Some (rp, e') → entry_wf e'.
Proof.
  intros He H. destruct c; cbn in H;
    repeat match type of H with
    | (as_zset e ≫= _) = _ => destruct (as_zset e) eqn:Hz; [|done]; cbn in H; pose proof (as_zset_wf _ _ He Hz) as [? ?]
    | (as_set e ≫= _) = _ => destruct (as_set e) eqn:Hz; [|done]; cbn in H; pose proof (as_set_wf _ _ He Hz)
    | (as_list e ≫= _) = _ => destruct (as_list e); [|done]; cbn in H
    | (as_hash e ≫= _) = _ => destruct (as_hash e); [|done]; cbn in H
    end; try (injection H as <- <-);
    try apply entry_wf_keep; cbn; unfold zset_rem;
    try (split; auto using NoDup_members_filter, by_score_filter, NoDup_zset_add, by_score_add);
    auto using NoDup_set_add.
  all: destruct e as [[? ?]|]; simplify_eq/=; repeat (case_match; simplify_eq/=); try done.
Qed.

(** ** The Lua script of the rate limiters
    [FIXED_WINDOW_SCRIPT] of rate-limit.service.ts and [FIXED_WINDOW_LUA] of
    redis-rate-limiter.ts, the same text: [KEYS[1]] is [key], [ARGV[1]] is [argv].
    A script runs without interruption and its clock does not advance; it raises
    when one of its commands fails. *)
Definition fixed_window_lua `{Redis} (key : string) (argv now : Z) (r : rstore) : option (Z * Z) * rstore :=
  match exec now (Incr key) r with
  | (Some (RpInt count), r1) =>
      match exec now (PTtl key) r1 with
      | (Some (RpInt ttl), r2) =>
          if (count =? 1) || (ttl <? 0)
          then match exec now (PExpire key argv) r2 with
               | (Some _, r3) => (Some (count, argv), r3)
               | (None, r3) => (None, r3)
               end
          else (Some (count, ttl), r2)
      | (_, r2) => (None, r2)
      end
  | (_, r1) => (None, r1)
  end.

(** ** Key names and times to live (redis-keys.ts) *)
Module RedisKeys.
Local Open Scope string_scope.
Definition sockets (userId : string) : string := "zevra:sockets:" +:+ userId.
Definition presence (userId : string) : string := "zevra:presence:" +:+ userId.
Definition channelMembers (channelId : string) : string := "zevra:channel:members:" +:+ channelId.
Definition messageCache (channelId : string) : string := "zevra:cache:messages:" +:+ channelId.
Definition unread (userId channelId : string) : string := "zevra:unread:" +:+ userId +:+ ":" +:+ channelId.
Definition typing (channelId : string) : string := "zevra:typing:" +:+ channelId.
Definition pending (userId : string) : string := "zevra:pending:" +:+ userId.
Definition rateLimit (scope key : string) : string := "zevra:ratelimit:" +:+ scope +:+ ":" +:+ key.
End RedisKeys.

Module RedisTtl.
Definition socketsSeconds : Z := 120.
Definition socketStaleMs : Z := 95000.
Definition presenceSeconds : Z := 90.
Definition channelMembersSeconds : Z := 3600.
Definition messageCacheSeconds : Z := 86400.
Definition unreadSeconds : Z := 30 * 86400.
Definition typingSeconds : Z := 10.
Definition typingEntryMs : Z := 6000.
Definition pendingSeconds : Z := 7 * 86400.
End RedisTtl.

Definition MESSAGE_CACHE_SIZE : Z := 50.
