(* ===== verification/RedisConnection.v ===== *)
(** * RedisConnection: the clients of RedisService and their reconnection

    Models redis/redis.service.ts and the choice of clients for
    socket/socket-redis-adapter.ts in socket/socket.gateway.ts.
    The asynchronous operations are cut where they wait for the network; [conn_step]
    interleaves their pieces with the events of the client library.  Whether a client
    is ready is what the library says ([ready]); the rest of the server sees only
    [RedisConnection.getClient], the [conn_at] of World. *)
From S2P Require Import Prelude.
From Stdlib Require Import ZArith Lia.
From stdpp Require Import base list relations.

Local Open Scope Z_scope.
Local Open Scope list_scope.

(** Exponential backoff; 2 to the power of at most 6 is exact in a double. *)
Definition redisReconnectStrategy (retries : Z) : Z := Z.min (100 * 2 ^ Z.min retries 6) 5000.

(** The delays stay between 100 ms and 5 s, never shrink, and the client never gives up:
    there is one for every number of retries. *)
Lemma reconnect_delays retries : 0 ≤ retries →
  100 ≤ redisReconnectStrategy retries ≤ 5000 ∧ redisReconnectStrategy retries ≤ redisReconnectStrategy (retries + 1) ∧
  (6 ≤ retries → redisReconnectStrategy retries = 5000).
Proof.
  intros Hr. unfold redisReconnectStrategy.
  assert (Hpow : 2 ^ 0 ≤ 2 ^ Z.min retries 6) by (apply Z.pow_le_mono_r; lia).
  assert (Hstep : 2 ^ Z.min retries 6 ≤ 2 ^ Z.min (retries + 1) 6) by (apply Z.pow_le_mono_r; lia).
  change (2 ^ 0) with 1 in Hpow. assert (H6 : 6 ≤ retries → 2 ^ Z.min retries 6 = 64) by (intros; by rewrite Z.min_r by lia).
  revert Hpow Hstep H6. generalize (2 ^ Z.min retries 6) as a, (2 ^ Z.min (retries + 1) 6) as b. intros a b **. split; [lia|]. split; lia.
Qed.

(** What the service logs. *)
Inductive line := NotSet | Connected | InitialFailure | ErrorLine | ReadyLine | DedicatedFailure.

Module RedisService.
(** [client], [connecting], [extraClients], [errorLogged] of the class; the clients
    created so far, those that are open, those whose dedicated connection is under
    way, and the log. *)
Record t := mk {
  client : option nat; connecting : bool; extraClients : list nat; errorLogged : bool;
  created : nat; opened : list nat; pending : list nat; logged : list line;
}.
#[export] Instance t_settable : Settable t := λ s,
  mk (client s) (connecting s) (extraClients s) (errorLogged s) (created s) (opened s) (pending s) (logged s).
End RedisService.
Import RedisService.

Definition initial : RedisService.t := mk None false [] false 0 [] [] [].
Definition log (l : line) (s : RedisService.t) : RedisService.t := s <| logged := logged s ++ [l] |>.

(** [createClient] or [duplicate], and [connect] on the result. *)
Definition new_client (s : RedisService.t) : RedisService.t :=
  s <| created := S (created s) |> <| opened := opened s ++ [created s] |>.
Definition close (c : nat) (s : RedisService.t) : RedisService.t := s <| opened := List.filter (λ x, x !== c) (opened s) |>.

(** [connect], up to the wait for the connection: nothing to do with a client or a
    connection under way. *)
Definition connect (url : bool) (s : RedisService.t) : RedisService.t :=
  match client s with
  | Some _ => s
  | None =>
      if connecting s then s
      else if negb url then log NotSet s
      else new_client s <| client := Some (created s) |> <| connecting := true |>
  end.
(** The rest of it: a client that fails to connect keeps trying. *)
Definition connect_settled (ok : bool) (s : RedisService.t) : RedisService.t :=
  log (if ok then Connected else InitialFailure) s <| connecting := false |>.

Definition getClient (ready : nat → bool) (s : RedisService.t) : option nat :=
  c ← client s; if ready c then Some c else None.

Definition createDedicatedClient (ready : nat → bool) (s : RedisService.t) : RedisService.t :=
  match getClient ready s with
  | None => s
  | Some _ => new_client s <| pending := created s :: pending s |>
  end.
Definition dedicated_settled (c : nat) (ok : bool) (s : RedisService.t) : RedisService.t :=
  let s := s <| pending := List.filter (λ x, x !== c) (pending s) |> in
  if ok then s <| extraClients := extraClients s ++ [c] |> else close c (log DedicatedFailure s).

(** [quit], also [onModuleDestroy]: every tracked client is closed, one way or the other. *)
Definition quit (s : RedisService.t) : RedisService.t :=
  let clients := extraClients s ++ match client s with Some c => [c] | None => [] end in
  foldr close (s <| extraClients := [] |> <| client := None |>) clients.

(** The listeners of every client. *)
Definition on_error (s : RedisService.t) : RedisService.t :=
  if errorLogged s then s else log ErrorLine s <| errorLogged := true |>.
Definition on_ready (s : RedisService.t) : RedisService.t :=
  (if errorLogged s then log ReadyLine s else s) <| errorLogged := false |>.

Inductive conn_step (s : RedisService.t) : RedisService.t → Prop :=
| step_connect url : conn_step s (connect url s)
| step_connect_settled ok : connecting s = true → conn_step s (connect_settled ok s)
| step_dedicated ready : conn_step s (createDedicatedClient ready s)
| step_dedicated_settled c ok : c ∈ pending s → conn_step s (dedicated_settled c ok s)
| step_quit : conn_step s (quit s)
| step_error : conn_step s (on_error s)
| step_ready : conn_step s (on_ready s).

(** ** Every open client has an owner *)
Definition owned (s : RedisService.t) : Prop :=
  ∀ c, c ∈ opened s → client s = Some c ∨ c ∈ extraClients s ∨ c ∈ pending s.

Lemma elem_of_without {A} `{EqDecision A} (c x : A) l : x ∈ List.filter (λ y, y !== c) l ↔ x ∈ l ∧ x ≠ c.
Proof. by rewrite list_elem_of_In, List.filter_In, <-list_elem_of_In, negb_true_iff, bool_decide_eq_false. Qed.
Lemma opened_closes cs s c : c ∈ opened (foldr close s cs) ↔ c ∈ opened s ∧ c ∉ cs.
Proof.
  induction cs as [|x cs IH]; cbn [foldr]; [split; [intros H; split; [done|apply not_elem_of_nil]|tauto]|].
  change (opened (close x (foldr close s cs))) with (List.filter (λ y, y !== x) (opened (foldr close s cs))).
  rewrite elem_of_without, IH, not_elem_of_cons. tauto.
Qed.
Lemma closes_keep cs s : client (foldr close s cs) = client s ∧ extraClients (foldr close s cs) = extraClients s ∧
  pending (foldr close s cs) = pending s ∧ logged (foldr close s cs) = logged s ∧ errorLogged (foldr close s cs) = errorLogged s.
Proof. by induction cs. Qed.

Lemma owned_step s s' : conn_step s s' → owned s → owned s'.
Proof.
  intros Hs Ho. destruct Hs as [url|ok Hc|ready|c ok Hc| | |].
  - unfold connect. destruct (client s) as [|] eqn:Hn; [done|]. destruct (connecting s); [done|]. destruct url; [|exact Ho].
    intros c. cbn. rewrite elem_of_app, list_elem_of_singleton. intros [Hc| ->]; [|by left].
    destruct (Ho c Hc) as [Hcl|H]; [congruence|by right].
  - exact Ho.
  - unfold createDedicatedClient. case_match; [|done]. intros c. cbn. rewrite elem_of_app, list_elem_of_singleton, elem_of_cons.
    intros [Hc| ->]; [destruct (Ho c Hc); tauto|tauto].
  - intros x. unfold dedicated_settled. destruct ok; cbn.
    + intros Hx. rewrite elem_of_app, list_elem_of_singleton, elem_of_without.
      destruct (decide (x = c)) as [->|Hne]; [tauto|]. destruct (Ho x Hx) as [|[|]]; tauto.
    + rewrite !elem_of_without. intros [Hx Hne]. destruct (Ho x Hx) as [|[|]]; tauto.
  - intros c. unfold quit. rewrite opened_closes. intros [Hc Hnot]. destruct (closes_keep
      (extraClients s ++ match client s with Some c => [c] | None => [] end) (s <| extraClients := [] |> <| client := None |>)) as (-> & -> & -> & _).
    apply not_elem_of_app in Hnot as [Hextra Hclient]. destruct (Ho c Hc) as [Hcl|[|]]; [|done|auto].
    rewrite Hcl in Hclient. by apply not_elem_of_cons in Hclient as [].
  - unfold on_error. by destruct (errorLogged s).
  - unfold on_ready. by destruct (errorLogged s).
Qed.

(** ** One line per outage *)

(** [ErrorLine] and [ReadyLine] alternate, an error first; the flag says which is next. *)
Fixpoint alternates (down : bool) (l : list line) : option bool :=
  match l with
  | [] => Some down
  | ErrorLine :: l' => if down then None else alternates true l'
  | ReadyLine :: l' => if down then alternates false l' else None
  | _ :: l' => alternates down l'
  end.
Lemma alternates_snoc down l x : alternates down (l ++ [x]) = d ← alternates down l; alternates d [x].
Proof. revert down. induction l as [|y l IH]; intros down; cbn; [done|]. destruct y; try apply IH; by destruct down; try apply IH. Qed.

Definition outages_logged (s : RedisService.t) : Prop := alternates false (logged s) = Some (errorLogged s).
Lemma outages_step s s' : conn_step s s' → outages_logged s → outages_logged s'.
Proof.
  unfold outages_logged. intros Hs Ho. destruct Hs as [url|ok Hc|ready|c ok Hc| | |].
  - unfold connect. repeat case_match; cbn; rewrite ?alternates_snoc, Ho; done.
  - cbn. rewrite alternates_snoc, Ho. by destruct ok.
  - unfold createDedicatedClient. by case_match.
  - unfold dedicated_settled. destruct ok; cbn; rewrite ?alternates_snoc, Ho; done.
  - unfold quit. by destruct (closes_keep (extraClients s ++ match client s with Some c => [c] | None => [] end)
      (s <| extraClients := [] |> <| client := None |>)) as (_ & _ & _ & -> & ->).
  - unfold on_error. destruct (errorLogged s) eqn:He; [by rewrite He|]. cbn. by rewrite alternates_snoc, Ho.
  - unfold on_ready. destruct (errorLogged s) eqn:He; cbn; by rewrite ?alternates_snoc, Ho.
Qed.

(** Whatever the interleaving of calls, connections and events: every open client is
    known to the service or is being connected, so that [quit] leaves open only the
    dedicated clients whose connection is under way; and each outage is logged once. *)
Theorem redis_clients_tracked s (Hs : rtc conn_step initial s) :
  owned s ∧ (∀ c, c ∈ opened (quit s) → c ∈ pending s) ∧ outages_logged s.
Proof.
  assert (Hinv : owned s ∧ outages_logged s).
  { assert (H0 : owned initial ∧ outages_logged initial) by (split; [intros c Hc; by apply not_elem_of_nil in Hc|done]).
    revert H0. induction Hs as [|s s1 s2 H1 _ IH]; [done|]. intros [Ho Hl]. apply IH. eauto using owned_step, outages_step. }
  destruct Hinv as [Ho Hl]. split; [done|]. split; [|done]. intros c. unfold quit. rewrite opened_closes. intros [Hc Hnot].
  apply not_elem_of_app in Hnot as [Hextra Hclient]. destruct (Ho c Hc) as [Hcl|[|]]; [|done|done].
  rewrite Hcl in Hclient. by apply not_elem_of_cons in Hclient as [].
Qed.

(** ** The Redis adapter of Socket.IO

    [attachRedisAdapter] of the socket gateway: the clients that publish and subscribe,
    [None] in single-node mode; [connects]: the connection of the second one succeeds. *)
Definition attachRedisAdapter (ready : nat → bool) (connects : bool) (s : RedisService.t) : RedisService.t * option (nat * nat) :=
  match getClient ready s with
  | None => (s, None)
  | Some pubClient =>
      let subClient := created s in
      let s' := dedicated_settled subClient connects (createDedicatedClient ready s) in
      (s', if connects then Some (pubClient, subClient) else None)
  end.

Lemma client_created s : rtc conn_step initial s → ∀ c, client s = Some c → (c < created s)%nat.
Proof.
  assert (Hstep : ∀ s s', conn_step s s' → (∀ c, client s = Some c → (c < created s)%nat) → ∀ c, client s' = Some c → (c < created s')%nat).
  { intros s0 s' Hs Hc. destruct Hs; unfold connect, createDedicatedClient, dedicated_settled, on_error, on_ready, quit;
      repeat case_match; cbn; try done; intros c Hx; try (specialize (Hc c); naive_solver lia);
      by rewrite (proj1 (closes_keep _ _)) in Hx. }
  assert (H0 : ∀ c, client initial = Some c → (c < created initial)%nat) by done.
  revert H0. generalize initial. intros s0 H0 Hs. induction Hs as [|s0 s1 s2 H1 _ IH]; [done|]. apply IH. by apply (Hstep s0).
Qed.

(** In every state the service reaches, the adapter gets the shared client and a second
    one, both known to the service: [quit] closes them. *)
Lemma adapter_clients_closed ready connects s pub sub (Hs : rtc conn_step initial s)
  (Ha : (attachRedisAdapter ready connects s).2 = Some (pub, sub)) :
  let s' := (attachRedisAdapter ready connects s).1 in
  rtc conn_step s s' ∧ pub ≠ sub ∧ ready pub = true ∧ sub ∈ opened s' ∧ pub ∉ opened (quit s') ∧ sub ∉ opened (quit s').
Proof.
  pose proof (client_created s Hs) as Hlt. revert Ha. unfold attachRedisAdapter. destruct (getClient ready s) as [x|] eqn:Hg; [|done].
  destruct connects; [|done]. intros [= -> <-].
  assert (Hclient : client s = Some pub ∧ ready pub = true).
  { unfold getClient in Hg. destruct (client s) as [y|]; [|done]. cbn in Hg. destruct (ready y) eqn:Hr; [|done]. naive_solver. }
  destruct Hclient as [Hc Hr]. specialize (Hlt pub Hc). cbv zeta. split.
  { apply (rtc_l _ _ (createDedicatedClient ready s)); [constructor|]. apply rtc_once, step_dedicated_settled.
    unfold createDedicatedClient. rewrite Hg. by apply elem_of_cons; left. }
  split; [lia|]. split; [done|]. unfold createDedicatedClient. rewrite Hg.
  split; [cbn; apply elem_of_app; right; by apply list_elem_of_singleton|].
  split; unfold quit; rewrite opened_closes; intros [_ Hnot]; apply Hnot; apply elem_of_app; cbn; rewrite ?Hc.
  - right. by apply list_elem_of_singleton.
  - left. apply elem_of_app. right. by apply list_elem_of_singleton.
Qed.

(** A dedicated client that connects while the service shuts down stays open. *)
Example dedicated_client_leaks :
  let s := dedicated_settled 1 true (quit (createDedicatedClient (λ _, true) (connect_settled true (connect true initial)))) in
  opened s = [1%nat] ∧ client s = None.
Proof. by vm_compute. Qed.
