(* ===== verification/Json.v ===== *)
(** * Json: JSON values, [JSON.stringify] and [JSON.parse]

    Messages are stored in Redis as JSON text.  Numbers are integers (sequence
    numbers, epochs and timestamps), objects are their fields in insertion order.
    [parse_print] is the round trip the caches and queues rely on. *)
From S2P Require Import Prelude JsString.
From Stdlib Require Import ZArith Lia Ascii String DecimalString.
From stdpp Require Import base list strings.

Inductive json :=
| JNull
| JBool (b : bool)
| JNum (n : Z)
| JStr (s : string)
| JArr (l : list json)
| JObj (fs : list (string * json)).

Section JsonInd.
Variable P : json → Prop.
Hypotheses (HNull : P JNull) (HBool : ∀ b, P (JBool b)) (HNum : ∀ n, P (JNum n)) (HStr : ∀ s, P (JStr s)).
Hypothesis HArr : ∀ l, Forall P l → P (JArr l).
Hypothesis HObj : ∀ fs, Forall (λ f, P f.2) fs → P (JObj fs).
Fixpoint json_induction (j : json) : P j :=
  match j with
  | JNull => HNull
  | JBool b => HBool b
  | JNum n => HNum n
  | JStr s => HStr s
  | JArr l => HArr l ((fix go l := match l return Forall P l with
                                    | [] => Forall_nil_2 _
                                    | x :: l' => Forall_cons_2 _ _ _ (json_induction x) (go l')
                                    end) l)
  | JObj fs => HObj fs ((fix go l := match l return Forall (λ f, P f.2) l with
                                      | [] => Forall_nil_2 _
                                      | x :: l' => Forall_cons_2 (λ f, P f.2) _ _ (json_induction x.2) (go l')
                                      end) fs)
  end.
End JsonInd.

(** [o[k]] on an object, [undefined] as [None]. *)
Definition get_field (j : json) (k : string) : option json :=
  match j with
  | JObj fs => snd <$> List.find (λ f, f.1 === k) fs
  | _ => None
  end.

(** ** Printing *)
Abbreviation chars := (list ascii).
Definition lit (s : string) : chars := list_ascii_of_string s.

Definition hex_digit (n : N) : ascii := ascii_of_N (if (n <? 10)%N then 48 + n else 87 + n)%N.

Definition escape_char (c : ascii) : chars :=
  if (c =? "034")%char then lit "\" ++ ["034"%char]
  else if (c =? "\")%char then lit "\\"
  else if (c =? "008")%char then lit "\b"
  else if (c =? "009")%char then lit "\t"
  else if (c =? "010")%char then lit "\n"
  else if (c =? "012")%char then lit "\f"
  else if (c =? "013")%char then lit "\r"
  else if (N_of_ascii c <? 32)%N
       then lit "\u00" ++ [hex_digit (N_of_ascii c / 16); hex_digit (N_of_ascii c mod 16)]
       else [c].

Definition quote : ascii := "034"%char.
Definition print_str (s : string) : chars := quote :: flat_map escape_char (lit s) ++ [quote].

Fixpoint sep_by (sep : ascii) (l : list chars) : chars :=
  match l with
  | [] => []
  | [x] => x
  | x :: l' => x ++ sep :: sep_by sep l'
  end.

Fixpoint print (j : json) : chars :=
  match j with
  | JNull => lit "null"
  | JBool true => lit "true"
  | JBool false => lit "false"
  | JNum n => lit (z_to_string n)
  | JStr s => print_str s
  | JArr l => "["%char :: sep_by "," (map print l) ++ ["]"%char]
  | JObj fs => "{"%char :: sep_by "," (map (λ f, print_str f.1 ++ ":"%char :: print f.2) fs) ++ ["}"%char]
  end.

(** [JSON.stringify(j)] *)
Definition stringify (j : json) : string := string_of_list_ascii (print j).

(** ** Parsing *)
Definition hex_val (c : ascii) : option N :=
  if is_digit c then Some (N_of_ascii c - 48)%N
  else if in_range 97 102 c then Some (N_of_ascii c - 87)%N
  else if in_range 65 70 c then Some (N_of_ascii c - 55)%N
  else None.

Definition utf8_encode (n : N) : chars :=
  if (n <? 128)%N then [ascii_of_N n]
  else if (n <? 2048)%N then [ascii_of_N (192 + n / 64); ascii_of_N (128 + n mod 64)]
  else [ascii_of_N (224 + n / 4096); ascii_of_N (128 + n / 64 mod 64); ascii_of_N (128 + n mod 64)].

Definition cons_fst (c : chars) (r : option (chars * chars)) : option (chars * chars) :=
  match r with Some (s, rest) => Some (c ++ s, rest) | None => None end.

Fixpoint parse_str (l : chars) : option (chars * chars) :=
  match l with
  | [] => None
  | c :: l1 =>
      if (c =? quote)%char then Some ([], l1)
      else if (c =? "\")%char then
        match l1 with
        | e :: l2 =>
            if (e =? quote)%char || (e =? "\")%char || (e =? "/")%char then cons_fst [e] (parse_str l2)
            else if (e =? "b")%char then cons_fst ["008"%char] (parse_str l2)
            else if (e =? "t")%char then cons_fst ["009"%char] (parse_str l2)
            else if (e =? "n")%char then cons_fst ["010"%char] (parse_str l2)
            else if (e =? "f")%char then cons_fst ["012"%char] (parse_str l2)
            else if (e =? "r")%char then cons_fst ["013"%char] (parse_str l2)
            else if (e =? "u")%char then
              match l2 with
              | a :: b :: c' :: d :: l3 =>
                  match hex_val a, hex_val b, hex_val c', hex_val d with
                  | Some a, Some b, Some c', Some d =>
                      cons_fst (utf8_encode (a * 4096 + b * 256 + c' * 16 + d)) (parse_str l3)
                  | _, _, _, _ => None
                  end
              | _ => None
              end
            else None
        | [] => None
        end
      else if (N_of_ascii c <? 32)%N then None
      else cons_fst [c] (parse_str l1)
  end.

Definition is_json_space (c : ascii) : bool :=
  (c =? " ")%char || (c =? "009")%char || (c =? "010")%char || (c =? "013")%char.
Definition skip_ws (l : chars) : chars := drop_leading is_json_space l.

Definition is_num_char (c : ascii) : bool := is_digit c || (c =? "-")%char.
Fixpoint span_num (l : chars) : chars * chars :=
  match l with
  | c :: l' => if is_num_char c then (c :: (span_num l').1, (span_num l').2) else ([], l)
  | [] => ([], [])
  end.

Definition expect (p l : chars) : option chars :=
  if bool_decide (take (length p) l = p) then Some (drop (length p) l) else None.

Definition parse_lit (p : chars) (v : json) (l : chars) : option (json * chars) :=
  match expect p l with Some r => Some (v, r) | None => None end.

Fixpoint parse_value (fuel : nat) (l : chars) : option (json * chars) :=
  match fuel with
  | O => None
  | S n =>
      match skip_ws l with
      | [] => None
      | c :: l1 =>
          if (c =? "n")%char then parse_lit (lit "ull") JNull l1
          else if (c =? "t")%char then parse_lit (lit "rue") (JBool true) l1
          else if (c =? "f")%char then parse_lit (lit "alse") (JBool false) l1
          else if (c =? quote)%char then
            match parse_str l1 with Some (s, r) => Some (JStr (string_of_list_ascii s), r) | None => None end
          else if (c =? "[")%char then
            match skip_ws l1 with
            | "]"%char :: r => Some (JArr [], r)
            | _ => match parse_elems n l1 with Some (xs, r) => Some (JArr xs, r) | None => None end
            end
          else if (c =? "{")%char then
            match skip_ws l1 with
            | "}"%char :: r => Some (JObj [], r)
            | _ => match parse_fields n l1 with Some (fs, r) => Some (JObj fs, r) | None => None end
            end
          else if is_num_char c then
            match span_num (c :: l1) with
            | (ds, r) => match string_to_z (string_of_list_ascii ds) with
                         | Some z => Some (JNum z, r)
                         | None => None
                         end
            end
          else None
      end
  end
with parse_elems (fuel : nat) (l : chars) : option (list json * chars) :=
  match fuel with
  | O => None
  | S n =>
      match parse_value n l with
      | Some (x, r) =>
          match skip_ws r with
          | "]"%char :: r' => Some ([x], r')
          | ","%char :: r' => match parse_elems n r' with Some (xs, r2) => Some (x :: xs, r2) | None => None end
          | _ => None
          end
      | None => None
      end
  end
with parse_fields (fuel : nat) (l : chars) : option (list (string * json) * chars) :=
  match fuel with
  | O => None
  | S n =>
      match skip_ws l with
      | c :: l1 =>
          if (c =? quote)%char then
            match parse_str l1 with
            | Some (k, r) =>
                match skip_ws r with
                | ":"%char :: r1 =>
                    match parse_value n r1 with
                    | Some (x, r2) =>
                        match skip_ws r2 with
                        | "}"%char :: r3 => Some ([(string_of_list_ascii k, x)], r3)
                        | ","%char :: r3 =>
                            match parse_fields n r3 with
                            | Some (fs, r4) => Some ((string_of_list_ascii k, x) :: fs, r4)
                            | None => None
                            end
                        | _ => None
                        end
                    | None => None
                    end
                | _ => None
                end
            | None => None
            end
          else None
      | [] => None
      end
  end.

(** [JSON.parse(s)]; [None] when it throws.  One unit of fuel per character is
    enough: every call consumes at least one character or descends once. *)
Definition parse (s : string) : option json :=
  let l := list_ascii_of_string s in
  match parse_value (2 * length l + 2) l with
  | Some (j, r) => match skip_ws r with [] => Some j | _ => None end
  | None => None
  end.

(** ** Round trip *)
Lemma parse_str_escape c l : parse_str (escape_char c ++ l) = cons_fst [c] (parse_str l).
Proof. destruct c as [[] [] [] [] [] [] [] []]; reflexivity. Qed.

Lemma parse_str_print (s l : chars) : parse_str (flat_map escape_char s ++ quote :: l) = Some (s, l).
Proof. induction s as [|c s IH]; [done|]. simpl. by rewrite <-app_assoc, parse_str_escape, IH. Qed.

Lemma lit_of_lit (l : chars) : lit (string_of_list_ascii l) = l.
Proof. apply list_ascii_of_string_of_list_ascii. Qed.
Lemma of_lit (s : string) : string_of_list_ascii (lit s) = s.
Proof. apply string_of_list_ascii_of_string. Qed.

Lemma uint_chars d : Forall (λ c, is_num_char c = true) (lit (NilEmpty.string_of_uint d)).
Proof. induction d; simpl; constructor; done. Qed.

Lemma num_chars z : Forall (λ c, is_num_char c = true) (lit (z_to_string z)).
Proof.
  unfold z_to_string. destruct (Z.to_int z) as [d|d]; simpl.
  - destruct d; simpl; try apply (uint_chars _); repeat constructor; apply uint_chars.
  - constructor; [done|]. destruct d; simpl; repeat constructor; apply uint_chars.
Qed.

Lemma num_nonempty z : ∃ c l, lit (z_to_string z) = c :: l.
Proof.
  unfold z_to_string. destruct (Z.to_int z) as [d|d]; [|by eexists _, _].
  destruct d; simpl; by eexists _, _.
Qed.

Definition ends_number (l : chars) : Prop := match l with [] => True | c :: _ => is_num_char c = false end.

Lemma span_num_app l r : Forall (λ c, is_num_char c = true) l → ends_number r → span_num (l ++ r) = (l, r).
Proof.
  intros Hl Hr. induction Hl as [|c l Hc _ IH]; simpl.
  - destruct r as [|c r]; simpl in *; [done|]. by rewrite Hr.
  - by rewrite Hc, IH.
Qed.

(** The first character of a printed value: never a space nor a closing bracket. *)
Definition value_start (c : ascii) : bool :=
  (c =? "n")%char || (c =? "t")%char || (c =? "f")%char || (c =? quote)%char || (c =? "[")%char || (c =? "{")%char
  || is_num_char c.

Lemma print_start j : ∃ c l, print j = c :: l ∧ value_start c = true.
Proof.
  destruct j as [|[]|z|s|l|fs]; try (by eexists _, _).
  destruct (num_nonempty z) as (c & l & Heq). eexists c, l. split; [done|].
  pose proof (num_chars z) as Hc. rewrite Heq in Hc. inv Hc. unfold value_start. by rewrite H1, !orb_true_r.
Qed.

Lemma value_start_facts c : value_start c = true → is_json_space c = false ∧ (c =? "]")%char = false.
Proof. destruct c as [[] [] [] [] [] [] [] []]; vm_compute; done. Qed.

Lemma num_char_facts c : is_num_char c = true →
  is_json_space c = false ∧ (c =? "n")%char = false ∧ (c =? "t")%char = false ∧ (c =? "f")%char = false ∧
  (c =? quote)%char = false ∧ (c =? "[")%char = false ∧ (c =? "{")%char = false.
Proof. destruct c as [[] [] [] [] [] [] [] []]; vm_compute; done. Qed.

Lemma skip_ws_print j l : skip_ws (print j ++ l) = print j ++ l.
Proof.
  destruct (print_start j) as (c & t & -> & Hc). unfold skip_ws; simpl.
  by rewrite (proj1 (value_start_facts _ Hc)).
Qed.

(** Fuel a value needs. *)
Fixpoint fuel_of (j : json) : nat :=
  match j with
  | JArr l => 1 + list_sum (map (λ x, 1 + fuel_of x) l)
  | JObj fs => 1 + list_sum (map (λ f, 1 + fuel_of f.2) fs)
  | _ => 1
  end.

Lemma sep_by_length sep (l : list chars) :
  (length (sep_by sep l) + 1 ≥ list_sum (map (λ x, 1 + length x) l))%nat.
Proof.
  induction l as [|x [|y l] IH]; simpl in *; [lia..|]. rewrite length_app; simpl in *. lia.
Qed.

Lemma list_sum_mono {A} (f g : A → nat) l :
  Forall (λ x, f x ≤ g x)%nat l → (list_sum (map f l) ≤ list_sum (map g l))%nat.
Proof. induction 1; simpl; lia. Qed.

Lemma fuel_of_length j : (fuel_of j ≤ length (print j))%nat.
Proof.
  induction j as [| [] |z| |l IH|fs IH] using json_induction; try (simpl; lia).
  - simpl. destruct (num_nonempty z) as (c & l & ->). simpl. lia.
  - cbn [fuel_of print length]. rewrite length_app; cbn [length].
    pose proof (sep_by_length "," (map print l)) as Hs. rewrite map_map in Hs; cbn beta in Hs.
    enough (list_sum (map (λ x, 1 + fuel_of x) l) ≤ list_sum (map (λ x, 1 + length (print x)) l))%nat by (clear IH; lia).
    apply list_sum_mono. eapply Forall_impl; [exact IH|]. simpl; lia.
  - cbn [fuel_of print length]. rewrite length_app; cbn [length].
    pose proof (sep_by_length "," (map (λ f, print_str f.1 ++ ":"%char :: print f.2) fs)) as Hs. rewrite map_map in Hs; cbn beta in Hs.
    enough (list_sum (map (λ f, 1 + fuel_of f.2) fs) ≤ list_sum (map (λ f, 1 + length (print_str f.1 ++ ":"%char :: print f.2)) fs))%nat by (clear IH; lia).
    apply list_sum_mono. eapply Forall_impl; [exact IH|]. intros f Hf. rewrite length_app. simpl in *. lia.
Qed.

Lemma expect_app p l : expect p (p ++ l) = Some l.
Proof. unfold expect. by rewrite take_app_length, drop_app_length, bool_decide_eq_true_2. Qed.

Definition parses (j : json) : Prop :=
  ∀ fuel r, (fuel_of j ≤ fuel)%nat → ends_number r → parse_value fuel (print j ++ r) = Some (j, r).

Lemma sep_by_map_cons {A} (f : A → chars) sep x y l :
  sep_by sep (map f (x :: y :: l)) = f x ++ sep :: sep_by sep (map f (y :: l)).
Proof. done. Qed.

Lemma parse_elems_print l fuel r :
  l ≠ [] → Forall parses l → (list_sum (map (λ x, 1 + fuel_of x) l) ≤ fuel)%nat →
  parse_elems fuel (sep_by "," (map print l) ++ "]"%char :: r) = Some (l, r).
Proof.
  intros Hne Hl. revert fuel. induction Hl as [|x l Hx Hl IH]; intros fuel Hf; [done|].
  destruct fuel as [|n]; simpl in Hf; [lia|]. destruct l as [|y l].
  - cbn [map sep_by parse_elems]. rewrite (Hx n); [done|simpl in Hf; lia|done].
  - rewrite sep_by_map_cons, <-app_assoc. cbn [parse_elems].
    rewrite (Hx n); [|lia|done]. cbn [app].
    change (skip_ws (","%char :: ?t)) with (","%char :: t). cbn match.
    rewrite (IH ltac:(done) n); [done|]. simpl in *. lia.
Qed.

Lemma parse_fields_print fs fuel r :
  fs ≠ [] → Forall (λ f, parses f.2) fs → (list_sum (map (λ f, 1 + fuel_of f.2) fs) ≤ fuel)%nat →
  parse_fields fuel (sep_by "," (map (λ f, print_str f.1 ++ ":"%char :: print f.2) fs) ++ "}"%char :: r) = Some (fs, r).
Proof.
  intros Hne Hl. revert fuel. induction Hl as [|[k x] fs Hx Hl IH]; intros fuel Hf; [done|].
  destruct fuel as [|n]; simpl in Hf; [lia|]. simpl in Hx.
  assert (∀ t, ends_number t → parse_fields (S n) ((print_str k ++ ":"%char :: print x) ++ t) =
     match skip_ws t with
     | "}"%char :: r3 => Some ([(k, x)], r3)
     | ","%char :: r3 =>
         match parse_fields n r3 with Some (fs, r4) => Some ((k, x) :: fs, r4) | None => None end
     | _ => None
     end) as Hstep.
  { intros t Ht. rewrite <-app_assoc. cbn [app]. unfold print_str. cbn [app parse_fields].
    change (skip_ws (quote :: ?l)) with (quote :: l). cbn match.
    change (quote =? quote)%char with true. cbn match. rewrite <-app_assoc. cbn [app].
    rewrite parse_str_print. change (skip_ws (":"%char :: ?l)) with (":"%char :: l). cbn match.
    rewrite (Hx n t); [|lia|done]. by rewrite of_lit. }
  destruct fs as [|[k' y] fs].
  - cbn [map sep_by fst snd]. by rewrite Hstep.
  - rewrite sep_by_map_cons, <-app_assoc. cbn [fst snd]. rewrite Hstep by done.
    cbn [app]. change (skip_ws (","%char :: ?t)) with (","%char :: t). cbn match.
    rewrite (IH ltac:(done) n); [done|]. simpl in *. lia.
Qed.

Lemma parse_value_str n l : parse_value (S n) (quote :: l) =
  match parse_str l with Some (s, r) => Some (JStr (string_of_list_ascii s), r) | None => None end.
Proof. reflexivity. Qed.
Lemma parse_value_arr n l : parse_value (S n) ("["%char :: l) =
  match skip_ws l with
  | "]"%char :: r => Some (JArr [], r)
  | _ => match parse_elems n l with Some (xs, r) => Some (JArr xs, r) | None => None end
  end.
Proof. reflexivity. Qed.
Lemma parse_value_obj n l : parse_value (S n) ("{"%char :: l) =
  match skip_ws l with
  | "}"%char :: r => Some (JObj [], r)
  | _ => match parse_fields n l with Some (fs, r) => Some (JObj fs, r) | None => None end
  end.
Proof. reflexivity. Qed.

Lemma parses_all j : parses j.
Proof.
  induction j as [| [] |z|s|l IH|fs IH] using json_induction; intros [|n] r Hf Hr; try (simpl in Hf; lia); try reflexivity.
  - (* number *)
    cbn [parse_value]. rewrite skip_ws_print. cbn [print].
    destruct (num_nonempty z) as (c & l & Heq). pose proof (num_chars z) as Hc.
    assert (string_of_list_ascii (c :: l) = z_to_string z) as Hs by (rewrite <-Heq; apply of_lit).
    pose proof (span_num_app _ r Hc Hr) as Hsp. rewrite Heq in *. inv Hc. simpl app in *.
    destruct (num_char_facts c H1) as (_ & -> & -> & -> & -> & -> & ->). cbn match. rewrite H1, Hsp, Hs.
    by rewrite string_to_z_to_string.
  - cbn [print]. unfold print_str. cbn [app]. rewrite parse_value_str, <-app_assoc. simpl app.
    by rewrite parse_str_print, of_lit.
  - cbn [print app]. rewrite parse_value_arr. destruct l as [|x l]; [reflexivity|].
    rewrite <-app_assoc. cbn [app].
    destruct (print_start x) as (c & t & Hx & Hc). destruct (value_start_facts _ Hc) as [Hsp Hbr].
    pose proof (parse_elems_print (x :: l) n r ltac:(done) IH ltac:(simpl in *; lia)) as Hp.
    assert (∃ t', sep_by "," (map print (x :: l)) ++ "]"%char :: r = c :: t') as [t' Ht'].
    { destruct l; simpl; rewrite Hx; by eexists. }
    rewrite Ht' in *. unfold skip_ws at 1. cbn [drop_leading]. rewrite Hsp, Hp.
    clear -Hbr. destruct c as [[] [] [] [] [] [] [] []]; try reflexivity; done.
  - cbn [print app]. rewrite parse_value_obj. destruct fs as [|f fs]; [reflexivity|].
    rewrite <-app_assoc. cbn [app].
    pose proof (parse_fields_print (f :: fs) n r ltac:(done) IH ltac:(simpl in *; lia)) as Hp.
    assert (∃ t', sep_by "," (map (λ f, print_str f.1 ++ ":"%char :: print f.2) (f :: fs)) ++ "}"%char :: r = quote :: t') as [t' Ht'].
    { destruct fs; simpl; by eexists. }
    rewrite Ht' in *. change (skip_ws (quote :: t')) with (quote :: t'). cbn match. by rewrite Hp.
Qed.

Lemma parse_stringify j : parse (stringify j) = Some j.
Proof.
  unfold parse, stringify. fold (lit (string_of_list_ascii (print j))). rewrite lit_of_lit.
  pose proof (parses_all j (2 * length (print j) + 2) [] ltac:(pose proof (fuel_of_length j); lia) ltac:(done)) as H.
  rewrite app_nil_r in H. by rewrite H.
Qed.

Lemma stringify_inj j1 j2 : stringify j1 = stringify j2 → j1 = j2.
Proof. intros H. apply (f_equal parse) in H. rewrite !parse_stringify in H. congruence. Qed.
