(* ===== verification/Errors.v ===== *)
(** * Errors: thrown values, HTTP error bodies and socket acks

    Models common/errors/error-codes.ts, common/errors/socket-error.ts and the
    normalisation of common/filters/all-exceptions.filter.ts. *)
From S2P Require Import Prelude JsString Json.
From Stdlib Require Import ZArith Lia String.
From stdpp Require Import base list strings.

Local Open Scope string_scope.
Local Open Scope Z_scope.
Local Open Scope list_scope.

(** ** Codes *)
Inductive HttpErrorCode :=
| VALIDATION_ERROR | UNAUTHORIZED | FORBIDDEN | NOT_FOUND | CONFLICT | RATE_LIMITED | PAYLOAD_TOO_LARGE | INTERNAL_ERROR.
#[export] Instance HttpErrorCode_eq : EqDecision HttpErrorCode.
Proof. solve_decision. Defined.

Inductive SocketErrorCode :=
| S_VALIDATION_ERROR | S_NOT_AUTHENTICATED | S_NOT_MEMBER | S_NOT_FOUND | S_RATE_LIMITED | S_PAYLOAD_TOO_LARGE
| S_INTERNAL_ERROR.
#[export] Instance SocketErrorCode_eq : EqDecision SocketErrorCode.
Proof. solve_decision. Defined.

Definition socket_code_string (c : SocketErrorCode) : string :=
  match c with
  | S_VALIDATION_ERROR => "VALIDATION_ERROR"
  | S_NOT_AUTHENTICATED => "NOT_AUTHENTICATED"
  | S_NOT_MEMBER => "NOT_MEMBER"
  | S_NOT_FOUND => "NOT_FOUND"
  | S_RATE_LIMITED => "RATE_LIMITED"
  | S_PAYLOAD_TOO_LARGE => "PAYLOAD_TOO_LARGE"
  | S_INTERNAL_ERROR => "INTERNAL_ERROR"
  end.

Definition SOCKET_CODES : list SocketErrorCode :=
  [S_VALIDATION_ERROR; S_NOT_AUTHENTICATED; S_NOT_MEMBER; S_NOT_FOUND; S_RATE_LIMITED; S_PAYLOAD_TOO_LARGE; S_INTERNAL_ERROR].

Definition httpStatusToErrorCode (status : Z) : HttpErrorCode :=
  if (status =? 400) || (status =? 422) then VALIDATION_ERROR
  else if status =? 401 then UNAUTHORIZED
  else if status =? 403 then FORBIDDEN
  else if status =? 404 then NOT_FOUND
  else if status =? 409 then CONFLICT
  else if status =? 429 then RATE_LIMITED
  else if status =? 413 then PAYLOAD_TOO_LARGE
  else if (400 <=? status) && (status <? 500) then VALIDATION_ERROR else INTERNAL_ERROR.

Definition httpStatusToSocketCode (status : Z) : SocketErrorCode :=
  if (status =? 400) || (status =? 422) || (status =? 409) then S_VALIDATION_ERROR
  else if status =? 401 then S_NOT_AUTHENTICATED
  else if status =? 403 then S_NOT_MEMBER
  else if status =? 404 then S_NOT_FOUND
  else if status =? 429 then S_RATE_LIMITED
  else if status =? 413 then S_PAYLOAD_TOO_LARGE
  else S_INTERNAL_ERROR.

(** ** Thrown values *)

(** [ErrObj] is any other object; a property that is absent is [JNull], a cause
    that is absent (or not an object) is [NotObject]. *)
Inductive thrown :=
| HttpException (status : Z) (response : json) (message : string)
| SocketError (code : SocketErrorCode) (message : string)
| WsException (error : json)
| ErrObj (name message : string) (code : json) (cause : thrown) (status statusCode type expose : json)
| NotObject.

(** The exception classes of the framework: status, response body, message. *)
Definition http_exception (status : Z) (error message : string) : thrown :=
  HttpException status
    (JObj [("message", JStr message); ("error", JStr error); ("statusCode", JNum status)]) message.
Definition BadRequestException := http_exception 400 "Bad Request".
Definition UnauthorizedException := http_exception 401 "Unauthorized".
Definition ForbiddenException := http_exception 403 "Forbidden".
Definition NotFoundException := http_exception 404 "Not Found".
Definition ConflictException := http_exception 409 "Conflict".
Definition PayloadTooLargeException := http_exception 413 "Payload Too Large".
Definition ServiceUnavailableException := http_exception 503 "Service Unavailable".

(** An error of the Postgres driver, with its SQLSTATE. *)
Definition PgError (sqlstate message : string) : thrown :=
  ErrObj "error" message (JStr sqlstate) NotObject JNull JNull JNull JNull.

Definition prop_code (t : thrown) : json :=
  match t with
  | SocketError c _ => JStr (socket_code_string c)
  | ErrObj _ _ c _ _ _ _ _ => c
  | _ => JNull
  end.
Definition prop_cause (t : thrown) : thrown :=
  match t with ErrObj _ _ _ c _ _ _ _ => c | _ => NotObject end.

(** [err?.name] *)
Definition prop_name (t : thrown) : string :=
  match t with
  | HttpException _ _ _ => "HttpException"
  | SocketError _ _ => "SocketError"
  | WsException _ => "WsException"
  | ErrObj name _ _ _ _ _ _ _ => name
  | NotObject => ""
  end.

Definition is_sqlstate (s : string) : bool :=
  (String.length s =? 5)%nat && all_chars (λ c, is_digit c || is_upper c) s.

Fixpoint findPgError_loop (depth : nat) (current : thrown) : option string :=
  match depth, current with
  | O, _ | _, NotObject => None
  | S d, _ =>
      match prop_code current with
      | JStr code => if is_sqlstate code then Some code else findPgError_loop d (prop_cause current)
      | _ => findPgError_loop d (prop_cause current)
      end
  end.
Definition findPgError (err : thrown) : option string := findPgError_loop 4 err.

Record PgErrorMapping := { pm_status : Z; pm_error : HttpErrorCode; pm_message : string }.

Definition mapPgError (err : thrown) : option PgErrorMapping :=
  match findPgError err with
  | None => None
  | Some code =>
      Some (if code === "23505" then
              {| pm_status := 409; pm_error := CONFLICT; pm_message := "Resource already exists" |}
            else if code === "23503" then
              {| pm_status := 404; pm_error := NOT_FOUND; pm_message := "Referenced resource not found" |}
            else if bool_decide (code ∈ ["22P02"; "22001"; "22003"; "23502"; "23514"]) then
              {| pm_status := 400; pm_error := VALIDATION_ERROR; pm_message := "Invalid input" |}
            else {| pm_status := 500; pm_error := INTERNAL_ERROR; pm_message := "Internal server error" |})
  end.

(** ** Socket acks *)
Record SocketErrorAck := { ack_error : SocketErrorCode; ack_message : string }.
Definition socketError (code : SocketErrorCode) (message : string) : SocketErrorAck :=
  {| ack_error := code; ack_message := message |}.

Definition isSocketCode (v : option json) : option SocketErrorCode :=
  match v with
  | Some (JStr s) => List.find (λ c, socket_code_string c === s) SOCKET_CODES
  | _ => None
  end.

Definition firstMessage (v : option json) : option string :=
  match v with
  | Some (JStr s) => if s === "" then None else Some s
  | Some (JArr (JStr s :: _)) => Some s
  | _ => None
  end.

Definition toSocketError (err : thrown) : SocketErrorAck :=
  match err with
  | SocketError code message => socketError code message
  | WsException payload =>
      match payload with
      | JStr s =>
          match isSocketCode (Some (JStr s)) with
          | Some c => socketError c s
          | None => socketError S_VALIDATION_ERROR s
          end
      | JArr _ | JObj _ =>
          let code := match isSocketCode (get_field payload "error") with
                      | Some c => c
                      | None => match isSocketCode (get_field payload "code") with
                                | Some c => c
                                | None => S_VALIDATION_ERROR
                                end
                      end in
          socketError code (default "Request failed" (firstMessage (get_field payload "message")))
      | _ => socketError S_VALIDATION_ERROR "Request failed"
      end
  | HttpException status response message =>
      let code := httpStatusToSocketCode status in
      if code === S_INTERNAL_ERROR then socketError code "Internal server error"
      else socketError code
             match response with
             | JStr s => s
             | _ => default message (firstMessage (get_field response "message"))
             end
  | _ =>
      match mapPgError err with
      | Some pg => socketError (httpStatusToSocketCode (pm_status pg)) (pm_message pg)
      | None => socketError S_INTERNAL_ERROR "Internal server error"
      end
  end.

(** ** HTTP error bodies *)
Record NormalizedError := {
  ne_status : Z; ne_error : HttpErrorCode; ne_message : string; ne_details : option (list string);
}.

Definition GENERIC_MESSAGES (c : HttpErrorCode) : string :=
  match c with
  | VALIDATION_ERROR => "Invalid request"
  | UNAUTHORIZED => "Authentication required"
  | FORBIDDEN => "Access denied"
  | NOT_FOUND => "Resource not found"
  | CONFLICT => "Resource already exists"
  | RATE_LIMITED => "Too many requests, please try again later"
  | PAYLOAD_TOO_LARGE => "Payload too large"
  | INTERNAL_ERROR => "Internal server error"
  end.

Definition toStringArray (v : option json) : option (list string) :=
  match v with
  | Some (JArr l) =>
      let out := omap (λ x, match x with JStr s => if s === "" then None else Some s | _ => None end) l in
      match out with [] => None | _ => Some out end
  | _ => None
  end.

Definition str_or (s dflt : string) : string := if s === "" then dflt else s.

Definition normalizeHttpException (status : Z) (response : json) (message : string) : NormalizedError :=
  let error := httpStatusToErrorCode status in
  let mk m d := {| ne_status := status; ne_error := error; ne_message := m; ne_details := d |} in
  if (error === INTERNAL_ERROR) || (error === RATE_LIMITED) then mk (GENERIC_MESSAGES error) None
  else match response with
       | JStr s => mk (str_or s (GENERIC_MESSAGES error)) None
       | _ =>
           let body_message := get_field response "message" in
           let details := match toStringArray (get_field response "details") with
                          | Some d => Some d
                          | None => toStringArray body_message
                          end in
           let m := match body_message with
                    | Some (JStr s) => if s === "" then None else Some s
                    | _ => None
                    end in
           mk (match m, details with
               | Some s, _ => s
               | None, Some (d :: _) => d
               | _, _ => str_or message (GENERIC_MESSAGES error)
               end) details
       end.

Definition normalizeMiddlewareError (err : thrown) : option NormalizedError :=
  match err with
  | ErrObj _ _ _ _ st stCode type (JBool _) =>
      let status := match st with JNum n => Some n
                    | _ => match stCode with JNum n => Some n | _ => None end end in
      match status with
      | Some n =>
          if (n <? 400) || (599 <? n) then None
          else if match type with JStr t => t === "entity.parse.failed" | _ => false end
               then Some {| ne_status := 400; ne_error := VALIDATION_ERROR;
                            ne_message := "Malformed request body"; ne_details := None |}
               else let error := httpStatusToErrorCode n in
                    Some {| ne_status := n; ne_error := error;
                            ne_message := GENERIC_MESSAGES error; ne_details := None |}
      | None => None
      end
  | _ => None
  end.

Definition normalizeException (err : thrown) : NormalizedError :=
  match err with
  | HttpException status response message => normalizeHttpException status response message
  | _ =>
      match mapPgError err with
      | Some pg => {| ne_status := pm_status pg; ne_error := pm_error pg; ne_message := pm_message pg; ne_details := None |}
      | None =>
          match normalizeMiddlewareError err with
          | Some n => n
          | None => {| ne_status := 500; ne_error := INTERNAL_ERROR;
                       ne_message := GENERIC_MESSAGES INTERNAL_ERROR; ne_details := None |}
          end
      end
  end.

(** ** Lemmas *)
Lemma mapPgError_cases err pg : mapPgError err = Some pg →
  pm_error pg = httpStatusToErrorCode (pm_status pg) ∧
  (pm_status pg = 409 ∧ pm_message pg = "Resource already exists" ∨
   pm_status pg = 404 ∧ pm_message pg = "Referenced resource not found" ∨
   pm_status pg = 400 ∧ pm_message pg = "Invalid input" ∨
   pm_status pg = 500 ∧ pm_message pg = "Internal server error").
Proof. unfold mapPgError. destruct (findPgError err); [|done]. intros [= <-]. repeat case_bool_decide; simpl; naive_solver. Qed.

Lemma middleware_coherent err n : normalizeMiddlewareError err = Some n →
  ne_error n = httpStatusToErrorCode (ne_status n) ∧
  (ne_message n = GENERIC_MESSAGES (ne_error n) ∨ ne_error n = VALIDATION_ERROR) ∧ ne_details n = None.
Proof.
  unfold normalizeMiddlewareError. intros H. repeat (case_match; simplify_eq; simpl; auto).
Qed.

(** The messages a client can see for an error that is not an exception of the
    framework or of the gateways. *)
Definition client_safe_messages : list string :=
  ["Resource already exists"; "Referenced resource not found"; "Invalid input"; "Internal server error"].

(** C38: an ack for an error the handlers did not throw on purpose (a
    database error, a driver error, any other value) carries one of four fixed
    messages, whatever text, code, cause or status the error has; and the ack of any
    framework exception that is an internal error is the generic one. *)
Theorem toSocketError_no_leak err :
  match err with
  | SocketError _ _ | WsException _ => True
  | HttpException _ _ _ =>
      ack_error (toSocketError err) = S_INTERNAL_ERROR → ack_message (toSocketError err) = "Internal server error"
  | _ => ack_message (toSocketError err) ∈ client_safe_messages
  end.
Proof.
  destruct err; [|done|done| |]; simpl.
  - case_bool_decide; simpl; congruence.
  - destruct (mapPgError _) as [pg|] eqn:Hpg; [|set_solver].
    apply mapPgError_cases in Hpg as [_ Hpg]. unfold client_safe_messages. simpl. set_solver.
  - set_solver.
Qed.

(** the code of an HTTP error body always agrees with its
    status, and a body with status 500 or more carries the generic message only. *)
Theorem normalizeException_coherent err :
  let n := normalizeException err in
  ne_error n = httpStatusToErrorCode (ne_status n) ∧
  (ne_error n = INTERNAL_ERROR → ne_message n = "Internal server error" ∧ ne_details n = None).
Proof.
  simpl. unfold normalizeException.
  assert (∀ e, let n := match mapPgError e with
      | Some pg => {| ne_status := pm_status pg; ne_error := pm_error pg; ne_message := pm_message pg; ne_details := None |}
      | None => match normalizeMiddlewareError e with
          | Some n => n
          | None => {| ne_status := 500; ne_error := INTERNAL_ERROR; ne_message := GENERIC_MESSAGES INTERNAL_ERROR; ne_details := None |}
          end
      end in
    ne_error n = httpStatusToErrorCode (ne_status n) ∧
    (ne_error n = INTERNAL_ERROR → ne_message n = "Internal server error" ∧ ne_details n = None)) as Hrest.
  { intros e. destruct (mapPgError e) as [pg|] eqn:Hpg; simpl.
    - apply mapPgError_cases in Hpg as [-> [[-> ->]|[[-> ->]|[[-> ->]|[-> ->]]]]]; done.
    - destruct (normalizeMiddlewareError e) as [n|] eqn:Hn; simpl; [|done].
      apply middleware_coherent in Hn as (? & Hm & ?). split; [done|]. intros He. rewrite He in Hm. naive_solver. }
  destruct err; try apply Hrest. clear Hrest.
  unfold normalizeHttpException. destruct (httpStatusToErrorCode status) eqn:He; simpl; try done;
    (destruct response; simpl; by rewrite ?He).
Qed.
