(* ===== verification/Schema.v ===== *)
(** * Schema: the Postgres tables

    Models database/schema.ts: one record per table, the database as the record of
    the tables, and an insert per table with the column types (varchar length,
    32-bit integers), the unique indexes and the foreign keys of the schema.  A
    table is the list of its rows in physical order; an error is its SQLSTATE. *)
From S2P Require Import Prelude JsString Json Effects.
From Stdlib Require Import String.

Local Open Scope string_scope.
Local Open Scope Z_scope.
Local Open Scope list_scope.

(** ** Rows *)
Record UserRow := mkUser {
  u_id : string; u_username : string; u_email : string;
  u_srpSalt : string; u_srpVerifier : string; u_argon2Params : json;
  u_publicKey : string; u_encryptedPrivateKey : string; u_keySalt : string;
  u_publicKeySign : string; u_encryptedPrivateKeySign : string; u_keySaltSign : string;
  u_keyVersion : Z; u_status : string; u_isActive : bool;
  u_createdAt : Z; u_updatedAt : Z; u_lastLoginAt : option Z;
}.
#[export] Instance UserRow_settable : Settable UserRow := λ r,
  mkUser (u_id r) (u_username r) (u_email r) (u_srpSalt r) (u_srpVerifier r) (u_argon2Params r) (u_publicKey r)
    (u_encryptedPrivateKey r) (u_keySalt r) (u_publicKeySign r) (u_encryptedPrivateKeySign r) (u_keySaltSign r)
    (u_keyVersion r) (u_status r) (u_isActive r) (u_createdAt r) (u_updatedAt r) (u_lastLoginAt r).

Record ChannelRow := mkChannel {
  c_id : string; c_name : option string; c_type : string; c_isArchived : bool;
  c_lastMessageId : option string; c_lastMessageAt : option Z; c_createdAt : Z; c_updatedAt : Z;
}.
#[export] Instance ChannelRow_settable : Settable ChannelRow := λ r,
  mkChannel (c_id r) (c_name r) (c_type r) (c_isArchived r) (c_lastMessageId r) (c_lastMessageAt r) (c_createdAt r) (c_updatedAt r).

Record MembershipRow := mkMembership {
  mb_id : string; mb_role : string; mb_joinedAt : Z; mb_leftAt : option Z; mb_muted : bool;
  mb_lastReadMessageId : option string; mb_lastReadAt : option Z; mb_userId : string; mb_channelId : string;
}.
#[export] Instance MembershipRow_settable : Settable MembershipRow := λ r,
  mkMembership (mb_id r) (mb_role r) (mb_joinedAt r) (mb_leftAt r) (mb_muted r) (mb_lastReadMessageId r)
    (mb_lastReadAt r) (mb_userId r) (mb_channelId r).
#[export] Instance MembershipRow_eq : EqDecision MembershipRow.
Proof. solve_decision. Defined.

Record MessageRow := mkMessage {
  m_id : string; m_messageType : string; m_encryptedContent : string; m_contentIv : string; m_contentTag : string;
  m_signature : string; m_sequenceNumber : Z; m_senderKeyEpoch : Z; m_metadata : option json; m_isDeleted : bool;
  m_createdAt : Z; m_updatedAt : Z; m_senderId : string; m_channelId : string;
}.
#[export] Instance MessageRow_settable : Settable MessageRow := λ r,
  mkMessage (m_id r) (m_messageType r) (m_encryptedContent r) (m_contentIv r) (m_contentTag r) (m_signature r)
    (m_sequenceNumber r) (m_senderKeyEpoch r) (m_metadata r) (m_isDeleted r) (m_createdAt r) (m_updatedAt r)
    (m_senderId r) (m_channelId r).

Record SenderKeyRow := mkSenderKey {
  sk_id : string; sk_groupId : string; sk_epoch : Z; sk_encryptedKey : string; sk_keySignature : string;
  sk_createdAt : Z; sk_ownerId : string; sk_receiverId : string;
}.

Record MessageReadRow := mkMessageRead { mr_id : string; mr_messageId : string; mr_userId : string; mr_readAt : Z }.

Record RefreshTokenRow := mkRefreshToken {
  rt_id : string; rt_tokenHash : string; rt_expiresAt : Z; rt_createdAt : Z; rt_userId : string;
}.

Record AuditLogRow := mkAuditLog {
  al_id : string; al_action : string; al_details : option json; al_ipAddress : option string;
  al_userId : option string; al_createdAt : Z;
}.

Record ReactionRow := mkReaction {
  re_id : string; re_emoji : string; re_createdAt : Z; re_messageId : string; re_userId : string;
}.

Record CallLogRow := mkCallLog {
  cl_id : string; cl_type : string; cl_callerId : option string; cl_calleeId : option string;
  cl_roomName : option string; cl_startedAt : Z; cl_endedAt : option Z; cl_duration : option Z;
  cl_status : string; cl_channelId : option string;
}.
#[export] Instance CallLogRow_settable : Settable CallLogRow := λ r,
  mkCallLog (cl_id r) (cl_type r) (cl_callerId r) (cl_calleeId r) (cl_roomName r) (cl_startedAt r) (cl_endedAt r)
    (cl_duration r) (cl_status r) (cl_channelId r).

Record CallParticipantRow := mkCallParticipant {
  cp_id : string; cp_callLogId : string; cp_userId : string; cp_username : string; cp_joinedAt : Z;
  cp_leftAt : option Z; cp_duration : option Z;
}.
#[export] Instance CallParticipantRow_settable : Settable CallParticipantRow := λ r,
  mkCallParticipant (cp_id r) (cp_callLogId r) (cp_userId r) (cp_username r) (cp_joinedAt r) (cp_leftAt r) (cp_duration r).

(** ** The database *)
Record Db := mkDb {
  users : list UserRow; channels : list ChannelRow; memberships : list MembershipRow; messages : list MessageRow;
  senderKeys : list SenderKeyRow; messageReads : list MessageReadRow; refreshTokens : list RefreshTokenRow;
  auditLog : list AuditLogRow; reactions : list ReactionRow; callLogs : list CallLogRow;
  callParticipants : list CallParticipantRow;
}.
#[export] Instance Db_settable : Settable Db := λ d,
  mkDb (users d) (channels d) (memberships d) (messages d) (senderKeys d) (messageReads d) (refreshTokens d)
    (auditLog d) (reactions d) (callLogs d) (callParticipants d).

Definition empty_db : Db := mkDb [] [] [] [] [] [] [] [] [] [] [].

(** ** Column types *)
Definition varchar (n : Z) (s : string) : bool := char_count s <=? n.
Definition varchar_opt (n : Z) (s : option string) : bool := match s with Some s => varchar n s | None => true end.
Definition int4 (z : Z) : bool := (-2147483648 <=? z) && (z <=? 2147483647).
Definition int4_opt (z : option Z) : bool := match z with Some z => int4 z | None => true end.

(** An integer parameter of a statement, compared with an [integer] column: the driver
    sends its text, with an exponent from [10^21] on. *)
Definition int4_parameter (z : Z) : option string :=
  if int4 z then None else if Z.abs z <? 10 ^ 21 then Some "22003" else Some "22P02".

(** The first violated column type: 22001 for a string too long for its column,
    22003 for an integer out of range. *)
Definition column_error (strings ints : bool) : option string :=
  if negb strings then Some "22001" else if negb ints then Some "22003" else None.

(** INSERT of one row: column types, then unique indexes, then foreign keys. *)
Definition insert_row {A} (column : A → option string) (conflict : A → A → bool) (fk : A → bool)
    (t : list A) (r : A) : outcome string (list A) :=
  match column r with
  | Some e => Err e
  | None => if existsb (conflict r) t then Err "23505"
            else if negb (fk r) then Err "23503"
            else Ok (t ++ [r])
  end.

(** INSERT of several rows in one statement: all or nothing. *)
Fixpoint insert_rows {A} (ins : list A → A → outcome string (list A)) (t rs : list A) : outcome string (list A) :=
  match rs with
  | [] => Ok t
  | r :: rs' => match ins t r with Ok t' => insert_rows ins t' rs' | Err e => Err e end
  end.

(** INSERT ... ON CONFLICT DO NOTHING on the index [target]: [None] when the row
    was not inserted. *)
Definition insert_or_ignore {A} (ins : list A → A → outcome string (list A)) (target : A → A → bool)
    (t : list A) (r : A) : outcome string (option (list A)) :=
  if existsb (target r) t then Ok None
  else match ins t r with Ok t' => Ok (Some t') | Err e => Err e end.

(** INSERT of several rows ... ON CONFLICT DO NOTHING: conflicting rows are skipped,
    any other violation fails the statement. *)
Fixpoint insert_ignoring {A} (ins : list A → A → outcome string (list A)) (conflict : A → A → bool)
    (t rs : list A) : outcome string (list A) :=
  match rs with
  | [] => Ok t
  | r :: rs' => match insert_or_ignore ins conflict t r with
                | Ok (Some t') => insert_ignoring ins conflict t' rs'
                | Ok None => insert_ignoring ins conflict t rs'
                | Err e => Err e
                end
  end.

(** ** Constraints of each table *)
Definition has_user (d : Db) (id : string) : bool := existsb (λ u, u_id u === id) (users d).
Definition has_channel (d : Db) (id : string) : bool := existsb (λ c, c_id c === id) (channels d).
Definition has_message (d : Db) (id : string) : bool := existsb (λ m, m_id m === id) (messages d).
Definition has_callLog (d : Db) (id : string) : bool := existsb (λ c, cl_id c === id) (callLogs d).
Definition fk_opt (f : string → bool) (id : option string) : bool := match id with Some i => f i | None => true end.

Definition user_columns (u : UserRow) : option string :=
  column_error (varchar 32 (u_username u) && varchar 255 (u_email u) && varchar 64 (u_srpSalt u) && varchar 64 (u_publicKey u)
                && varchar 64 (u_keySalt u) && varchar 64 (u_publicKeySign u) && varchar 64 (u_keySaltSign u))
               (int4 (u_keyVersion u)).
Definition user_conflict (u v : UserRow) : bool :=
  (u_id u === u_id v) || (u_username u === u_username v) || (u_email u === u_email v).
Definition insert_user (d : Db) := insert_row user_columns user_conflict (λ _, true) (users d).

Definition channel_columns (c : ChannelRow) : option string := column_error (varchar_opt 64 (c_name c)) true.
Definition insert_channel (d : Db) := insert_row channel_columns (λ a b, c_id a === c_id b) (λ _, true) (channels d).

Definition membership_index (a b : MembershipRow) : bool :=
  (mb_userId a === mb_userId b) && (mb_channelId a === mb_channelId b).
Definition membership_fk (d : Db) (m : MembershipRow) : bool := has_user d (mb_userId m) && has_channel d (mb_channelId m).
Definition insert_membership (d : Db) :=
  insert_row (λ _, None) (λ a b, (mb_id a === mb_id b) || membership_index a b) (membership_fk d).

Definition message_columns (m : MessageRow) : option string :=
  column_error (varchar 32 (m_contentIv m) && varchar 32 (m_contentTag m))
               (int4 (m_sequenceNumber m) && int4 (m_senderKeyEpoch m)).
Definition message_index (a b : MessageRow) : bool :=
  (m_channelId a === m_channelId b) && (m_sequenceNumber a =? m_sequenceNumber b).
Definition message_conflict (a b : MessageRow) : bool := (m_id a === m_id b) || message_index a b.
Definition message_fk (d : Db) (m : MessageRow) : bool := has_user d (m_senderId m) && has_channel d (m_channelId m).
Definition insert_message (d : Db) := insert_row message_columns message_conflict (message_fk d) (messages d).

Definition senderKey_index (a b : SenderKeyRow) : bool :=
  (sk_groupId a === sk_groupId b) && (sk_ownerId a === sk_ownerId b) && (sk_receiverId a === sk_receiverId b)
  && (sk_epoch a =? sk_epoch b).
Definition senderKey_fk (d : Db) (k : SenderKeyRow) : bool := has_user d (sk_ownerId k) && has_user d (sk_receiverId k).
Definition insert_senderKey (d : Db) :=
  insert_row (λ k, column_error true (int4 (sk_epoch k)))
    (λ a b, (sk_id a === sk_id b) || senderKey_index a b) (senderKey_fk d).

Definition messageRead_index (a b : MessageReadRow) : bool :=
  (mr_messageId a === mr_messageId b) && (mr_userId a === mr_userId b).
Definition insert_messageRead (d : Db) :=
  insert_row (λ _, None) (λ a b, (mr_id a === mr_id b) || messageRead_index a b)
    (λ r, has_message d (mr_messageId r) && has_user d (mr_userId r)).

Definition insert_refreshToken (d : Db) :=
  insert_row (λ t, column_error (varchar 64 (rt_tokenHash t)) true)
    (λ a b, (rt_id a === rt_id b) || (rt_tokenHash a === rt_tokenHash b)) (λ t, has_user d (rt_userId t)) (refreshTokens d).

Definition insert_auditLog (d : Db) :=
  insert_row (λ a, column_error (varchar 64 (al_action a) && varchar_opt 45 (al_ipAddress a)) true)
    (λ a b, al_id a === al_id b) (λ a, fk_opt (has_user d) (al_userId a)) (auditLog d).

Definition reaction_index (a b : ReactionRow) : bool :=
  (re_messageId a === re_messageId b) && (re_userId a === re_userId b) && (re_emoji a === re_emoji b).
Definition insert_reaction (d : Db) :=
  insert_row (λ r, column_error (varchar 32 (re_emoji r)) true) (λ a b, (re_id a === re_id b) || reaction_index a b)
    (λ r, has_message d (re_messageId r) && has_user d (re_userId r)).

Definition callLog_columns (c : CallLogRow) : option string :=
  column_error (varchar_opt 128 (cl_roomName c)) (int4_opt (cl_duration c)).
Definition insert_callLog (d : Db) :=
  insert_row callLog_columns
    (λ a b, cl_id a === cl_id b)
    (λ c, fk_opt (has_user d) (cl_callerId c) && fk_opt (has_user d) (cl_calleeId c) && fk_opt (has_channel d) (cl_channelId c))
    (callLogs d).

Definition callParticipant_index (a b : CallParticipantRow) : bool :=
  (cp_callLogId a === cp_callLogId b) && (cp_userId a === cp_userId b).
Definition callParticipant_columns (c : CallParticipantRow) : option string :=
  column_error (varchar 32 (cp_username c)) (int4_opt (cp_duration c)).
Definition callParticipant_conflict (a b : CallParticipantRow) : bool := (cp_id a === cp_id b) || callParticipant_index a b.
Definition insert_callParticipant (d : Db) :=
  insert_row callParticipant_columns callParticipant_conflict
    (λ c, has_callLog d (cp_callLogId c) && has_user d (cp_userId c)).

(** ** What a successful insert says *)
Lemma insert_row_ok {A} column conflict fk (t t' : list A) r :
  insert_row column conflict fk t r = Ok t' →
  t' = t ++ [r] ∧ column r = None ∧ (∀ x, x ∈ t → conflict r x = false) ∧ fk r = true.
Proof.
  unfold insert_row. destruct (column r); [done|]. destruct (existsb (conflict r) t) eqn:Hc; [done|].
  destruct (fk r) eqn:Hf; simpl; [|done]. intros [= <-]. split_and!; try done.
  intros x Hx. destruct (conflict r x) eqn:?; [|done].
  assert (existsb (conflict r) t = true); [|congruence]. apply existsb_exists. exists x. by rewrite <-list_elem_of_In.
Qed.

Lemma insert_row_succeeds {A} (column : A → option string) conflict fk (t : list A) r :
  column r = None → existsb (conflict r) t = false → fk r = true → insert_row column conflict fk t r = Ok (t ++ [r]).
Proof. unfold insert_row. by intros -> -> ->. Qed.
