(* ===== verification/World.v ===== *)
(** * World: the state shared by the handlers and their external calls

    [World] is what a handler can observe or change: the tables, the Redis store and
    the commands sent to Socket.IO and to the delivery queue.  [Env] is everything
    the program does not control: the clock, random identifiers, whether Redis is
    reachable, whether a statement fails, which sockets are connected, whether the
    queue accepts a job.  Each external call reads [Env] at its own tick, so a
    theorem that quantifies over [Env] covers every pattern of failures.  [sql_error]
    is the error object the database library throws for an SQLSTATE; [ilike] and
    [hashtext] are functions of Postgres.  A transaction under an advisory lock
    ([locked_transaction]) takes the lock, reads and commits in three steps; the
    relation [rg] tells what the others did while it held the lock. *)
From S2P Require Import Prelude JsString Json Effects Errors Redis Schema.
From Stdlib Require Import String.

Local Open Scope string_scope.
Local Open Scope Z_scope.
Local Open Scope list_scope.

(** The key of an advisory lock of Postgres: one bigint, or two integers. *)
Abbreviation lock_key := (Z + Z * Z)%type.

(** State of the Redis client when it is used: not ready, ready, or ready but the
    command fails, before or after the server applied it. *)
Inductive conn := CNull | CReady | CFail (applied : bool).

(** Commands sent to the Socket.IO server (for rooms and for one socket), to the
    delivery queue, to the LiveKit server and to the object storage, and headers of
    the HTTP response. *)
Inductive effect :=
| Emit (rooms except : list string) (event : string) (data : json)
| SocketsJoin (rooms : list string) (room : string)
| SocketsLeave (rooms : list string) (room : string)
| QueueAdd (name : string) (job : json)
| SetHeader (name value : string)
| SocketEmit (socketId event : string) (data : json)
| SocketDisconnect (socketId : string)
| SocketJoin (socketId : string) (rooms : list string)
| SocketLeave (socketId room : string)
| CreateRoom (name : string) (emptyTimeout maxParticipants : Z)
| DeleteRoom (name : string)
| StoreFile (folder resourceType : string) (buffer : list Z).

(** What the gateways keep in memory: the data of each socket (its user and the end
    of its token), the sockets with a heartbeat interval, and the timers that end a
    typing indicator: [g_typing] maps a socket and channel to its timer, [g_timers]
    holds the timers that have not fired. *)
Record SocketUser := mkSocketUser { su_id : string; su_username : string; su_status : string }.
Record SocketData := mkSocketData { sd_user : option SocketUser; sd_tokenExp : option Z }.
Record TypingTimer := mkTypingTimer { tt_key : string; tt_user : SocketUser; tt_channelId : string }.
Record Gateway := mkGateway {
  g_data : gmap string SocketData; g_heartbeats : gset string; g_typing : gmap string nat;
  g_timers : gmap nat TypingTimer; g_nextTimer : nat;
}.
#[export] Instance Gateway_settable : Settable Gateway := λ g,
  mkGateway (g_data g) (g_heartbeats g) (g_typing g) (g_timers g) (g_nextTimer g).
Definition no_sockets : Gateway := mkGateway ∅ ∅ ∅ ∅ 0.

Class Env := {
  now_at : nat → Z;
  uuid_at : nat → nat → string;
  conn_at : nat → conn;
  db_fault : nat → option thrown;
  sql_error : string → thrown;
  sockets_at : nat → string → option (list (option string));
  queue_fault : nat → option thrown;
  socket_ids_at : nat → string → option (list string);
  connected_at : nat → string → bool;
  join_fault : nat → option thrown;
  ilike : string → string → bool;
  hashtext : string → Z;
  lock_patience : nat → nat;
}.

Section World.
Context {R : Redis} {E : Env}.

Record World := mkWorld {
  w_db : Db; w_redis : rstore; w_tick : nat; w_out : list effect; w_server : bool;
  w_gateway : Gateway; w_locks : gmap lock_key nat;
}.
#[export] Instance World_settable : Settable World := λ w,
  mkWorld (w_db w) (w_redis w) (w_tick w) (w_out w) (w_server w) (w_gateway w) (w_locks w).

Abbreviation M := (prog World thrown).

Definition tick (w : World) : World := w <| w_tick := S (w_tick w) |>.

(** One external call. *)
Definition act {A} (f : nat → World → outcome thrown A * World) : M A :=
  Act (λ w, match f (w_tick w) w with
            | (Ok a, w') => (tick w', Ret a)
            | (Err e, w') => (tick w', Throw e)
            end).

Definition Date_now : M Z := act (λ n w, (Ok (now_at n), w)).
Definition randomUUID : M string := act (λ n w, (Ok (uuid_at n 0), w)).

(** ** Postgres *)
Definition sql_outcome {A} (r : outcome string A) : outcome thrown A :=
  match r with Ok a => Ok a | Err code => Err (sql_error code) end.

(** A SELECT. *)
Definition query {A} (q : Db → A) : M A :=
  act (λ n w, match db_fault n with Some e => (Err e, w) | None => (Ok (q (w_db w)), w) end).

(** A SELECT with an integer parameter, if any: the statement fails when it is out of range. *)
Definition query_with {A} (parameter : option Z) (q : Db → A) : M A :=
  match parameter ≫= int4_parameter with
  | Some code => bind (query (λ _, tt)) (λ _, Throw (sql_error code))
  | None => query q
  end.

(** A statement that writes: its result and the new tables, or an SQLSTATE. *)
Definition statement {A} (s : nat → Db → outcome string (A * Db)) : M A :=
  act (λ n w, match db_fault n with
              | Some e => (Err e, w)
              | None => match sql_outcome (s n (w_db w)) with
                        | Ok (a, d) => (Ok a, w <| w_db := d |>)
                        | Err e => (Err e, w)
                        end
              end).

(** A statement that cannot violate a constraint. *)
Definition execute {A} (s : nat → Db → A * Db) : M A := statement (λ n d, Ok (s n d)).

(** [db.transaction(async (tx) => ...)]: atomic, rolled back when it throws. *)
Definition transaction {A} (p : M A) : M A := atomically (λ w w', w' <| w_db := w_db w |>) p.

(** ** Advisory locks

    [w_locks] has the locks that transactions hold, each with the tick at which it was
    taken, which names its holder.  A lock that is taken is asked for again; a wait of
    more than [lock_patience] attempts is one that a timeout cuts off. *)
Definition try_lock (k : lock_key) : M (option nat) :=
  act (λ n w, match db_fault n with
              | Some e => (Err e, w)
              | None => match w_locks w !! k with
                        | Some _ => (Ok None, w)
                        | None => (Ok (Some n), w <| w_locks := <[k := n]> (w_locks w) |>)
                        end
              end).
Fixpoint wait_lock (attempts : nat) (k : lock_key) : M nat :=
  match attempts with
  | O => Throw (sql_error "57014")
  | S attempts' =>
      let! taken := try_lock k in
      match taken with Some token => Ret token | None => wait_lock attempts' k end
  end.
Definition pg_advisory_xact_lock (k : lock_key) : M nat :=
  let! attempts := act (λ n w, (Ok (S (lock_patience n)), w)) in wait_lock attempts k.

Definition holds (k : lock_key) (token : nat) (w : World) : bool := bool_decide (w_locks w !! k = Some token).
Definition free_lock (k : lock_key) (w : World) : World := w <| w_locks := delete k (w_locks w) |>.
(** The end of a transaction that holds [k] and did not commit. *)
Definition rollback (k : lock_key) (token : nat) : M () :=
  act (λ _ w, (Ok tt, if holds k token w then free_lock k w else w)).
(** The last statements of a transaction that holds [k] and its COMMIT: the others see
    what they write at once, when the lock is free again. A transaction that lost its
    lock lost its connection. *)
Definition commit {A} (k : lock_key) (token : nat) (p : M A) : M A :=
  Act (λ w, if holds k token w
            then match run p w with
                 | (Ok a, w') => (tick (free_lock k w'), Ret a)
                 | (Err e, w') => (tick (free_lock k w' <| w_db := w_db w |>), Throw e)
                 end
            else (tick w, Throw (sql_error "57P01"))).
(** A transaction at READ COMMITTED that takes an advisory lock, reads, and then writes;
    other transactions run between these three steps. *)
Definition locked_transaction {A B} (k : lock_key) (read : Db → B) (write : B → M A) : M A :=
  let! token := pg_advisory_xact_lock k in
  let! b := catch (query read) (λ e, do! rollback k token; Throw e) in
  commit k token (write b).

(** ** Redis *)
Definition redis_error : thrown := ErrObj "Error" "redis" JNull NotObject JNull JNull JNull JNull.

(** [redis.getClient()]: is the client ready? *)
Definition getClient : M bool := act (λ n w, (Ok (match conn_at n with CNull => false | _ => true end), w)).

Definition on_redis {A} (f : Z → rstore → option A * rstore) : M A :=
  act (λ n w,
    match conn_at n with
    | CReady => match f (now_at n) (w_redis w) with
                | (Some a, r) => (Ok a, w <| w_redis := r |>)
                | (None, r) => (Err redis_error, w <| w_redis := r |>)
                end
    | CFail true => (Err redis_error, w <| w_redis := (f (now_at n) (w_redis w)).2 |>)
    | _ => (Err redis_error, w)
    end).

Definition redis_cmd (c : rcmd) : M reply := on_redis (λ now r, exec now c r).
Definition redis_multi (cs : list rcmd) : M (list reply) := on_redis (λ now r, exec_multi now cs r).
Definition redis_mget (ks : list string) : M (list (option string)) :=
  on_redis (λ now r, (Some (mget now ks r), r)).

(** [const client = this.client; if (!client) return dflt; try { p } catch { return dflt }] *)
Definition with_redis {A} (dflt : A) (p : M A) : M A :=
  let! client := getClient in
  if negb client then Ret dflt else catch p (λ _, Ret dflt).

(** ** The memory of the gateways *)
Definition gateway {A} (f : Gateway → A * Gateway) : M A :=
  act (λ _ w, (Ok (f (w_gateway w)).1, w <| w_gateway := (f (w_gateway w)).2 |>)).
Definition socket_data (socketId : string) : M SocketData :=
  gateway (λ g, (default (mkSocketData None None) (g_data g !! socketId), g)).
Definition is_connected (socketId : string) : M bool := act (λ n w, (Ok (connected_at n socketId), w)).

(** ** Socket.IO and the delivery queue *)
Definition send_effect (e : effect) : M () := act (λ _ w, (Ok tt, w <| w_out := w_out w ++ [e] |>)).
Definition server_ready : M bool := act (λ _ w, (Ok (w_server w), w)).
Definition fetchSockets (room : string) : M (list (option string)) :=
  act (λ n w, (match sockets_at n room with
               | Some l => Ok l
               | None => Err (ErrObj "Error" "fetchSockets" JNull NotObject JNull JNull JNull JNull)
               end, w)).
Definition fetchSocketIds (room : string) : M (list string) :=
  act (λ n w, (match socket_ids_at n room with
               | Some l => Ok l
               | None => Err (ErrObj "Error" "fetchSockets" JNull NotObject JNull JNull JNull JNull)
               end, w)).
(** [client.join(rooms)] *)
Definition join_rooms (socketId : string) (rooms : list string) : M () :=
  act (λ n w, match join_fault n with
              | Some e => (Err e, w)
              | None => (Ok tt, w <| w_out := w_out w ++ [SocketJoin socketId rooms] |>)
              end).
Definition queue_add (name : string) (job : json) : M () :=
  act (λ n w, match queue_fault n with
              | Some e => (Err e, w)
              | None => (Ok tt, w <| w_out := w_out w ++ [QueueAdd name job] |>)
              end).

(** ** Rules: weakest preconditions *)
Lemma wp_act' {A} (f : nat → World → outcome thrown A * World) Q w :
  match f (w_tick w) w with (r, w') => Q r (tick w') end → wp (act f) Q w.
Proof. unfold wp, act; simpl. by destruct (f _ w) as [[a|e] w']. Qed.

Lemma wp_query {A} (q : Db → A) Q w :
  (∀ e, Q (Err e) (tick w)) → Q (Ok (q (w_db w))) (tick w) → wp (query q) Q w.
Proof. intros. apply wp_act'. by destruct (db_fault _). Qed.

Lemma wp_statement {A} (s : nat → Db → outcome string (A * Db)) Q w :
  (∀ e, Q (Err e) (tick w)) →
  (∀ a d, s (w_tick w) (w_db w) = Ok (a, d) → Q (Ok a) (tick (w <| w_db := d |>))) →
  wp (statement s) Q w.
Proof.
  intros He Hok. apply wp_act'. destruct (db_fault _); [by apply He|].
  destruct (s _ _) as [[a d]|e] eqn:Hs; simpl; [by apply Hok|by apply He].
Qed.

Lemma wp_transaction {A} (p : M A) Q w :
  wp p (λ r w', match r with Ok a => Q (Ok a) w' | Err e => Q (Err e) (w' <| w_db := w_db w |>) end) w →
  wp (transaction p) Q w.
Proof. unfold wp, transaction, atomically; simpl. by destruct (run p w) as [[a|e] w']. Qed.

(** A locked transaction run alone: it fails without a trace, or its two parts see the
    tables as they were. *)
Definition same_but_locks (w w' : World) : Prop :=
  w_db w' = w_db w ∧ w_redis w' = w_redis w ∧ w_out w' = w_out w ∧ w_server w' = w_server w ∧ w_gateway w' = w_gateway w.
Lemma wp_wait_lock attempts k w :
  wp (wait_lock attempts k) (λ o w', same_but_locks w w' ∧ ∀ token, o = Ok token → holds k token w' = true) w.
Proof.
  assert (H : ∀ w0, same_but_locks w w0 →
    wp (wait_lock attempts k) (λ o w', same_but_locks w w' ∧ ∀ token, o = Ok token → holds k token w' = true) w0).
  { induction attempts as [|n IH]; intros w0 H0; [by apply wp_throw|]. cbn [wait_lock]. apply wp_bind, wp_act'.
    destruct (db_fault _); [done|]. destruct (w_locks w0 !! k) eqn:Hk; [by apply IH|]. apply wp_ret.
    split; [done|]. intros token [= <-]. apply bool_decide_eq_true. cbn. by rewrite lookup_insert_eq. }
  by apply H.
Qed.
Lemma wp_locked_transaction {A B} k (read : Db → B) (write : B → M A) Q w :
  (∀ e w', same_but_locks w w' → Q (Err e) w') →
  (∀ w', same_but_locks w w' →
    wp (write (read (w_db w))) (λ o w2, ∀ w3, w_db w3 = (if o is Ok _ then w_db w2 else w_db w) →
      w_redis w3 = w_redis w2 → w_out w3 = w_out w2 → w_server w3 = w_server w2 → w_gateway w3 = w_gateway w2 → Q o w3) w') →
  wp (locked_transaction k read write) Q w.
Proof.
  intros He Hok. unfold locked_transaction, pg_advisory_xact_lock. apply wp_bind, wp_bind, wp_act'.
  eapply wp_mono; [apply wp_wait_lock|]. intros [token|e] w1 [H1 Hheld]; [|by apply He]. specialize (Hheld token eq_refl).
  apply wp_bind, wp_catch, wp_query; [intros e; apply wp_bind, wp_act', He; by case_match|].
  unfold wp at 1, commit. cbn [run]. change (holds k token (tick w1)) with (holds k token w1). rewrite Hheld.
  change (read (w_db (tick w1))) with (read (w_db w1)). assert (Hd : w_db w1 = w_db w) by apply H1. rewrite Hd. specialize (Hok (tick w1) H1).
  unfold wp in Hok. destruct (run (write (read (w_db w))) (tick w1)) as [[a|e] w2]; cbn [run]; by apply Hok.
Qed.

Lemma wp_read {A} (f : nat → outcome thrown A) Q w :
  Q (f (w_tick w)) (tick w) → wp (act (λ n w, (f n, w))) Q w.
Proof. intros. by apply wp_act'. Qed.

Lemma wp_Date_now Q w : Q (Ok (now_at (w_tick w))) (tick w) → wp Date_now Q w.
Proof. intros. by apply wp_act'. Qed.

Lemma wp_randomUUID Q w : Q (Ok (uuid_at (w_tick w) 0)) (tick w) → wp randomUUID Q w.
Proof. intros. by apply wp_act'. Qed.

Lemma wp_getClient Q w : (∀ b, Q (Ok b) (tick w)) → wp getClient Q w.
Proof. intros H. apply wp_act'. apply H. Qed.

Lemma wp_getClient_ready Q w :
  conn_at (w_tick w) = CReady → Q (Ok true) (tick w) → wp getClient Q w.
Proof. intros Hc H. apply wp_act'. by rewrite Hc. Qed.

(** A Redis command touches nothing but Redis; when Redis answers, it is executed. *)
Lemma wp_on_redis {A} (f : Z → rstore → option A * rstore) Q w :
  (∀ r, Q (Err redis_error) (tick (w <| w_redis := r |>))) →
  (∀ a r, f (now_at (w_tick w)) (w_redis w) = (Some a, r) → Q (Ok a) (tick (w <| w_redis := r |>))) →
  wp (on_redis f) Q w.
Proof.
  intros He Ho. assert (w <| w_redis := w_redis w |> = w) as Hid by by destruct w.
  apply wp_act'. destruct (conn_at _) as [| |[]]; [|destruct (f _ _) as [[a|] r] eqn:?; eauto|apply He|].
  all: specialize (He (w_redis w)); by rewrite Hid in He.
Qed.

Lemma wp_on_redis_ready {A} (f : Z → rstore → option A * rstore) Q w a r :
  conn_at (w_tick w) = CReady → f (now_at (w_tick w)) (w_redis w) = (Some a, r) →
  Q (Ok a) (tick (w <| w_redis := r |>)) → wp (on_redis f) Q w.
Proof. intros Hc Hf H. apply wp_act'. by rewrite Hc, Hf. Qed.

Lemma wp_cmd_ready `{RL : !RedisLaws R} c rp e Q w :
  conn_at (w_tick w) = CReady →
  cmd_spec (now_at (w_tick w)) c (live (now_at (w_tick w)) (rentry (w_redis w) (cmd_key c))) = Some (rp, e) →
  (∀ r, (∀ k, rentry r k = if decide (k = cmd_key c) then e else rentry (w_redis w) k) →
    Q (Ok rp) (tick (w <| w_redis := r |>))) →
  wp (redis_cmd c) Q w.
Proof.
  intros Hc Hs H. destruct (exec_spec _ _ _ _ _ Hs) as (r & Hr & Hk). eapply wp_on_redis_ready; eauto.
Qed.

(** The same whatever the state of the client: a failed command was applied or not. *)
Lemma wp_cmd_any `{RL : !RedisLaws R} c rp e Q w :
  cmd_spec (now_at (w_tick w)) c (live (now_at (w_tick w)) (rentry (w_redis w) (cmd_key c))) = Some (rp, e) →
  Q (Err redis_error) (tick w) →
  (∀ r, (∀ k, rentry r k = if decide (k = cmd_key c) then e else rentry (w_redis w) k) →
    Q (Err redis_error) (tick (w <| w_redis := r |>)) ∧ Q (Ok rp) (tick (w <| w_redis := r |>))) →
  wp (redis_cmd c) Q w.
Proof.
  intros Hs He H. destruct (exec_spec _ _ _ _ _ Hs) as (r & Hr & Hk). apply wp_act'. rewrite Hr.
  destruct (conn_at _) as [| |[]]; [done|apply H, Hk|apply H, Hk|done].
Qed.

Lemma wp_multi_any `{RL : !RedisLaws R} cs key rps e Q w :
  Forall (λ c, cmd_key c = key) cs → chain (now_at (w_tick w)) cs (rentry (w_redis w) key) = Some (rps, e) →
  Q (Err redis_error) (tick w) →
  (∀ r, (∀ k, rentry r k = if decide (k = key) then e else rentry (w_redis w) k) →
    Q (Err redis_error) (tick (w <| w_redis := r |>)) ∧ Q (Ok rps) (tick (w <| w_redis := r |>))) →
  wp (redis_multi cs) Q w.
Proof.
  intros Hk Hs He H. destruct (exec_multi_chain _ _ _ _ _ _ Hk Hs) as (r & Hr & Hrk). apply wp_act'. rewrite Hr.
  destruct (conn_at _) as [| |[]]; [done|apply H, Hrk|apply H, Hrk|done].
Qed.

Lemma wp_multi_ready `{RL : !RedisLaws R} cs key rps e Q w :
  conn_at (w_tick w) = CReady → Forall (λ c, cmd_key c = key) cs →
  chain (now_at (w_tick w)) cs (rentry (w_redis w) key) = Some (rps, e) →
  (∀ r, (∀ k, rentry r k = if decide (k = key) then e else rentry (w_redis w) k) →
    Q (Ok rps) (tick (w <| w_redis := r |>))) →
  wp (redis_multi cs) Q w.
Proof.
  intros Hc Hk Hs H. destruct (exec_multi_chain _ _ _ _ _ _ Hk Hs) as (r & Hr & Hrk). eapply wp_on_redis_ready; eauto.
Qed.

Lemma wp_multi_groups `{RL : !RedisLaws R} {A} (key : A → string) (cmds : A → list rcmd) (new : A → option entry) l Q w :
  conn_at (w_tick w) = CReady → NoDup (map key l) →
  (∀ x, x ∈ l → Forall (λ c, cmd_key c = key x) (cmds x) ∧
     ∃ rps, chain (now_at (w_tick w)) (cmds x) (rentry (w_redis w) (key x)) = Some (rps, new x)) →
  (∀ r rps, (∀ x, x ∈ l → rentry r (key x) = new x) → (∀ k, k ∉ map key l → rentry r k = rentry (w_redis w) k) →
    Q (Ok rps) (tick (w <| w_redis := r |>))) →
  wp (redis_multi (flat_map cmds l)) Q w.
Proof.
  intros Hc Hnd Hch H. destruct (exec_multi_groups _ _ _ _ _ _ Hnd Hch) as (rps & r & Hr & Hn & Hf).
  eapply wp_on_redis_ready; eauto.
Qed.

Lemma wp_with_redis_ready {A} (dflt : A) (p : M A) Q w :
  conn_at (w_tick w) = CReady → wp p (λ r w', if r is Ok a then Q (Ok a) w' else Q (Ok dflt) w') (tick w) →
  wp (with_redis dflt p) Q w.
Proof.
  intros Hc H. unfold with_redis. apply wp_bind, wp_getClient_ready; [done|]. cbn [negb]. apply wp_catch.
  eapply wp_mono; [exact H|]. intros [a|e] w'; [done|]. by apply wp_ret.
Qed.

(** ** Operations that never throw *)
Lemma nothrow_act {A} (f : nat → World → A * World) : nothrow (act (λ n w, (Ok (f n w).1, (f n w).2))).
Proof. intros w. apply wp_act'. eauto. Qed.
Lemma nothrow_Date_now : nothrow Date_now.
Proof. apply (nothrow_act (λ n w, (now_at n, w))). Qed.
Lemma nothrow_getClient : nothrow getClient.
Proof. intros w. apply wp_getClient. eauto. Qed.
Lemma nothrow_send_effect e : nothrow (send_effect e).
Proof. apply (nothrow_act (λ _ w, (tt, w <| w_out := w_out w ++ [e] |>))). Qed.
Lemma nothrow_server_ready : nothrow server_ready.
Proof. apply (nothrow_act (λ _ w, (w_server w, w))). Qed.
Lemma nothrow_gateway {A} (f : Gateway → A * Gateway) : nothrow (gateway f).
Proof. apply (nothrow_act (λ _ w, ((f (w_gateway w)).1, w <| w_gateway := (f (w_gateway w)).2 |>))). Qed.
Lemma nothrow_socket_data s : nothrow (socket_data s).
Proof. apply nothrow_gateway. Qed.
Lemma nothrow_is_connected s : nothrow (is_connected s).
Proof. apply (nothrow_act (λ n w, (connected_at n s, w))). Qed.
Lemma nothrow_query {A} (q : Db → A) : (∀ n, db_fault n = None) → nothrow (query q).
Proof. intros H w. apply wp_act'. rewrite H. eauto. Qed.
Lemma nothrow_with_redis {A} (dflt : A) (p : M A) : nothrow (with_redis dflt p).
Proof.
  apply nothrow_bind; [apply nothrow_getClient|]. intros b. destruct (negb b); [apply nothrow_ret|].
  apply nothrow_catch. intros. apply nothrow_ret.
Qed.

(** ** Operations that touch nothing but Redis *)
Definition same_but_redis (w w' : World) : Prop :=
  w_db w' = w_db w ∧ w_out w' = w_out w ∧ w_server w' = w_server w ∧ w_gateway w' = w_gateway w.
Definition silent {A} (p : M A) : Prop := ∀ w, wp p (λ _ w', same_but_redis w w') w.

#[export] Instance same_but_redis_preorder : PreOrder same_but_redis.
Proof.
  split; [done|]. intros w1 w2 w3 (H1 & H2 & H3 & H4) (H5 & H6 & H7 & H8). unfold same_but_redis. by rewrite H5, H6, H7, H8.
Qed.

Lemma silent_ret {A} (a : A) : silent (Ret a).
Proof. done. Qed.
Lemma silent_throw {A} e : silent (@Throw World thrown A e).
Proof. done. Qed.
Lemma silent_bind {A B} (p : M A) (k : A → M B) : silent p → (∀ a, silent (k a)) → silent (bind p k).
Proof.
  intros Hp Hk w. apply wp_bind. eapply wp_mono; [apply Hp|]. intros [a|e] w1 H1; [|done].
  eapply wp_mono; [apply Hk|]. intros o w2 H2. by transitivity w1.
Qed.
Lemma silent_catch {A} (p : M A) h : silent p → (∀ e, silent (h e)) → silent (catch p h).
Proof.
  intros Hp Hk w. apply wp_catch. eapply wp_mono; [apply Hp|]. intros [a|e] w1 H1; [done|].
  eapply wp_mono; [apply Hk|]. intros o w2 H2. by transitivity w1.
Qed.
Lemma silent_query {A} (q : Db → A) : silent (query q).
Proof. intros w. by apply wp_query. Qed.
Lemma silent_getClient : silent getClient.
Proof. intros w. by apply wp_getClient. Qed.
Lemma silent_Date_now : silent Date_now.
Proof. intros w. by apply wp_Date_now. Qed.
Lemma silent_on_redis {A} (f : Z → rstore → option A * rstore) : silent (on_redis f).
Proof. intros w. by apply wp_on_redis. Qed.
Lemma silent_redis_cmd c : silent (redis_cmd c).
Proof. apply silent_on_redis. Qed.
Lemma silent_redis_multi cs : silent (redis_multi cs).
Proof. apply silent_on_redis. Qed.
Lemma silent_with_redis {A} (dflt : A) (p : M A) : silent p → silent (with_redis dflt p).
Proof.
  intros Hp. apply silent_bind; [apply silent_getClient|]. intros b. destruct (negb b); [apply silent_ret|].
  apply silent_catch; [done|]. intros. apply silent_ret.
Qed.

(** ** Operations that do not touch a Redis key *)
Definition same_entry (key : string) (w w' : World) : Prop := rentry (w_redis w') key = rentry (w_redis w) key.
Definition leaves (key : string) {A} (p : M A) : Prop := ∀ w, wp p (λ _ w', same_entry key w w') w.

Lemma leaves_ret key {A} (a : A) : leaves key (Ret a).
Proof. done. Qed.
Lemma leaves_throw key {A} e : leaves key (@Throw World thrown A e).
Proof. done. Qed.
Lemma leaves_bind key {A B} (p : M A) (k : A → M B) : leaves key p → (∀ a, leaves key (k a)) → leaves key (bind p k).
Proof.
  intros Hp Hk w. apply wp_bind. eapply wp_mono; [apply Hp|]. intros [a|e] w1 H1; [|done].
  eapply wp_mono; [apply Hk|]. intros o w2 H2. unfold same_entry in *. congruence.
Qed.
Lemma leaves_catch key {A} (p : M A) h : leaves key p → (∀ e, leaves key (h e)) → leaves key (catch p h).
Proof.
  intros Hp Hk w. apply wp_catch. eapply wp_mono; [apply Hp|]. intros [a|e] w1 H1; [done|].
  eapply wp_mono; [apply Hk|]. intros o w2 H2. unfold same_entry in *. congruence.
Qed.
Lemma leaves_act key {A} (f : nat → World → outcome thrown A * World) :
  (∀ n w, w_redis (f n w).2 = w_redis w) → leaves key (act f).
Proof.
  intros Hf w. apply wp_act'. specialize (Hf (w_tick w) w). destruct (f _ w) as [r w']. unfold same_entry. simpl in *. by rewrite Hf.
Qed.
Lemma leaves_query key {A} (q : Db → A) : leaves key (query q).
Proof. apply leaves_act. intros n w. by case_match. Qed.
Lemma leaves_statement key {A} (s : nat → Db → outcome string (A * Db)) : leaves key (statement s).
Proof. apply leaves_act. intros n w. by repeat case_match; simplify_eq. Qed.
Lemma leaves_redis_cmd `{RL : !RedisLaws R} key c : cmd_key c ≠ key → leaves key (redis_cmd c).
Proof.
  intros Hk w. assert (∀ now, rentry (exec now c (w_redis w)).2 key = rentry (w_redis w) key) as He.
  { intros now. rewrite exec_entry. case_match; [|done]. case_match. by rewrite decide_False. }
  apply wp_act'. unfold same_entry. specialize (He (now_at (w_tick w))).
  destruct (conn_at _) as [| |[]]; [done| |exact He|done]. destruct (exec _ c (w_redis w)) as [[a|] r]; exact He.
Qed.
Lemma exec_multi_other `{RL : !RedisLaws R} now cs r k : Forall (λ c, cmd_key c ≠ k) cs → rentry (exec_multi now cs r).2 k = rentry r k.
Proof.
  intros Hcs. revert r. induction Hcs as [|c cs Hc _ IH]; intros r; simpl; [done|].
  pose proof (exec_entry now c r k) as H1. specialize (IH (exec now c r).2). destruct (exec now c r) as [rp r1]. simpl in H1, IH.
  destruct (exec_multi now cs r1) as [rps r2]. simpl in IH |- *. rewrite IH, H1. case_match; [|done]. case_match. by rewrite decide_False.
Qed.
Lemma leaves_redis_multi `{RL : !RedisLaws R} key cs : Forall (λ c, cmd_key c ≠ key) cs → leaves key (redis_multi cs).
Proof.
  intros Hcs w. assert (∀ now, rentry (exec_multi now cs (w_redis w)).2 key = rentry (w_redis w) key) as He.
  { intros now. by apply exec_multi_other. }
  apply wp_act'. unfold same_entry. specialize (He (now_at (w_tick w))).
  destruct (conn_at _) as [| |[]]; [done| |exact He|done]. destruct (exec_multi _ cs (w_redis w)) as [[a|] r]; exact He.
Qed.
Lemma leaves_transaction key {A} (p : M A) : leaves key p → leaves key (transaction p).
Proof. intros Hp w. apply wp_atomically. eapply wp_mono; [apply Hp|]. by intros [a|e] w' H. Qed.
Lemma leaves_with_redis key {A} (dflt : A) (p : M A) : leaves key p → leaves key (with_redis dflt p).
Proof.
  intros Hp. apply leaves_bind; [by apply leaves_act|]. intros b. destruct (negb b); [apply leaves_ret|].
  apply leaves_catch; [done|]. intros. apply leaves_ret.
Qed.

(** ** Rules: rely and guarantee on the tables

    A step of a handler leaves the tables alone or moves them along [S], and puts no
    user on a socket who is not among those who [acts]; everything else may change
    freely. *)
Class Authority := acts : string → Prop.
Definition everyone : Authority := λ _, True.

(** The steps that the tables may take: each is free, or comes with a label that stands for
    what a transaction may only do while it holds the lock of the label. They keep an
    invariant. *)
Record Steps := mkSteps {
  st_label : Type; st_step : option st_label → Db → Db → Prop; st_lock : st_label → lock_key;
  st_inv : Db → Prop; st_keeps : ∀ l d d', st_step l d d' → st_inv d → st_inv d';
}.
Definition any_step (S : Steps) (d d' : Db) : Prop := ∃ l, st_step S l d d'.
(** The steps of those who do not hold [k]. *)
Definition away (S : Steps) (k : lock_key) (d d' : Db) : Prop :=
  ∃ l, st_step S l d d' ∧ ∀ x, l = Some x → st_lock S x ≠ k.

Section DbSafe.
Context {A : Authority} (S : Steps).

Definition user_acts (data : SocketData) : Prop := ∀ u, sd_user data = Some u → acts (su_id u).
Definition sockets_ok (w : World) : Prop := map_Forall (λ _, user_acts) (g_data (w_gateway w)).
Definition state_ok (w : World) : Prop := sockets_ok w ∧ st_inv S (w_db w).
Definition moves (w w' : World) : Prop :=
  rc (st_step S None) (w_db w) (w_db w') ∨
  ∃ x, is_Some (w_locks w !! st_lock S x) ∧ w_locks w' !! st_lock S x = None ∧ st_step S (Some x) (w_db w) (w_db w').
Definition db_guar (w w' : World) : Prop :=
  (w_tick w ≤ w_tick w')%nat ∧
  (∀ k t, w_locks w' !! k = Some t → w_locks w !! k = Some t ∨ (w_tick w ≤ t)%nat) ∧ moves w w'.

Lemma guar_any w w' : db_guar w w' → rc (any_step S) (w_db w) (w_db w').
Proof. intros (_ & _ & [[->|H]|(x & _ & _ & H)]); [by left|right; by eexists..]. Qed.
Lemma guar_inv w w' : db_guar w w' → st_inv S (w_db w) → st_inv S (w_db w').
Proof. intros [->|[l H]]%guar_any; [done|]. by eapply st_keeps. Qed.
Lemma db_rely w w' : rtc db_guar w w' → rtc (any_step S) (w_db w) (w_db w').
Proof. induction 1 as [|w w1 w2 H%guar_any _ IH]; [done|]. destruct H as [->|H]; [done|]. by eapply rtc_l. Qed.
Lemma guar_tick w w' : rtc db_guar w w' → (w_tick w ≤ w_tick w')%nat.
Proof. induction 1 as [|w w1 w2 (H & _) _ IH]; lia. Qed.

(** A lock that is held before and after was held all the time. *)
Lemma guar_held k t w w' :
  rtc db_guar w w' → (t < w_tick w)%nat → w_locks w' !! k = Some t →
  w_locks w !! k = Some t ∧ rtc (away S k) (w_db w) (w_db w').
Proof.
  induction 1 as [|w w1 w2 (Htick & Hlocks & Hmoves) _ IH]; intros Ht Hk; [done|].
  destruct IH as [Hk1 Haway]; [lia|done|]. split; [destruct (Hlocks _ _ Hk1); [done|lia]|].
  destruct Hmoves as [[->|Hs]|(x & _ & Hfree & Hs)]; [done|eapply rtc_l; [|done]; by exists None|].
  eapply rtc_l; [|done]. exists (Some x). split; [done|]. intros y [= <-] Heq. congruence.
Qed.

(** A step that takes and frees no lock. *)
Definition steady (w w' : World) : Prop := w_locks w' = w_locks w ∧ (w_tick w ≤ w_tick w')%nat.
Lemma steady_guar w w' : steady w w' → rc (st_step S None) (w_db w) (w_db w') → db_guar w (tick w').
Proof. intros [Hl Ht] Hs. split; [cbn; lia|]. split; [cbn; rewrite Hl; auto|]. by left. Qed.
Lemma still_guar w w' : steady w w' → w_db w' = w_db w → db_guar w w'.
Proof. intros [Hl Ht] Hs. split; [done|]. split; [rewrite Hl; auto|]. left. by left. Qed.

Lemma idle_guar w : db_guar w (tick w).
Proof. by apply steady_guar, rc_refl. Qed.

Definition drg {T} (p : M T) (Q : outcome thrown T → World → Prop) (w : World) : Prop := rg state_ok db_guar p Q w.
Definition dsafe {T} (p : M T) : Prop := safe (E := thrown) state_ok db_guar p.
(** Every answer of [p] has [Φ]. *)
Definition dpost {T} (p : M T) (Φ : T → Prop) : Prop := ∀ w, drg p (λ r _, if r is Ok a then Φ a else True) w.

Lemma drg_act {T} (f : nat → World → outcome thrown T * World) Q w :
  (∀ w1, rtc db_guar w w1 → state_ok w1 →
    match f (w_tick w1) w1 with (r, w') => sockets_ok w' ∧ db_guar w1 (tick w') ∧ Q r (tick w') end) →
  drg (act f) Q w.
Proof.
  intros Hf w1 Hw Hok. specialize (Hf w1 Hw Hok).
  destruct (f _ w1) as [[a|e] w']; destruct Hf as (? & Hg & ?); (split; [split; [done|]|by split]);
    eapply (guar_inv _ _ Hg), Hok.
Qed.

Lemma drg_query {T} (q : Db → T) Q w :
  (∀ w1, rtc (any_step S) (w_db w) (w_db w1) → (∀ e, Q (Err e) (tick w1)) ∧ Q (Ok (q (w_db w1))) (tick w1)) → drg (query q) Q w.
Proof.
  intros H. apply drg_act. intros w1 Hw [Hok _]. destruct (H w1 (db_rely _ _ Hw)).
  destruct (db_fault _); (split; [done|]); (split; [apply idle_guar|done]).
Qed.

Lemma drg_statement {T} (s : nat → Db → outcome string (T * Db)) Q w :
  (∀ w1, rtc (any_step S) (w_db w) (w_db w1) →
    (∀ e, Q (Err e) (tick w1)) ∧
    ∀ a d, s (w_tick w1) (w_db w1) = Ok (a, d) → rc (st_step S None) (w_db w1) d ∧ Q (Ok a) (tick (w1 <| w_db := d |>))) →
  drg (statement s) Q w.
Proof.
  intros H. apply drg_act. intros w1 Hw [Hok _]. destruct (H w1 (db_rely _ _ Hw)) as [He Hok'].
  pose proof (idle_guar w1).
  destruct (db_fault _); [done|].
  destruct (s _ _) as [[a d]|e] eqn:Hs; simpl; (split; [done|]); [|done].
  destruct (Hok' _ _ eq_refl). split; [by apply steady_guar|done].
Qed.

(** [p] leaves the memory of the gateways and the locks alone. *)
Definition offstage {T} (p : M T) : Prop := ∀ w, wp p (λ _ w', w_gateway w' = w_gateway w ∧ steady w w') w.

Lemma offstage_ret {T} (a : T) : offstage (Ret a).
Proof. by intros w. Qed.
Lemma offstage_throw {T} e : offstage (@Throw World thrown T e).
Proof. by intros w. Qed.
Lemma offstage_act {T} (f : nat → World → outcome thrown T * World) :
  (∀ n w, w_gateway (f n w).2 = w_gateway w ∧ w_locks (f n w).2 = w_locks w ∧ w_tick (f n w).2 = w_tick w) → offstage (act f).
Proof.
  intros Hf w. apply wp_act'. specialize (Hf (w_tick w) w). destruct (f _ w) as [r w']. simpl in Hf. destruct Hf as (Hg & Hl & Ht).
  split; [done|]. split; [done|]. cbn. lia.
Qed.
Lemma offstage_query {T} (q : Db → T) : offstage (query q).
Proof. apply offstage_act. intros n w. by case_match. Qed.
Lemma offstage_statement {T} (s : nat → Db → outcome string (T * Db)) : offstage (statement s).
Proof. apply offstage_act. intros n w. by repeat case_match. Qed.
Lemma offstage_bind {T B} (p : M T) (k : T → M B) : offstage p → (∀ a, offstage (k a)) → offstage (bind p k).
Proof.
  intros Hp Hk w. apply wp_bind. eapply wp_mono; [apply Hp|]. intros [a|e] w' (Hg & Hl & Ht); [|done].
  eapply wp_mono; [apply Hk|]. intros r w2 (Hg2 & Hl2 & Ht2). split; [congruence|]. split; [congruence|lia].
Qed.

Lemma sockets_same w w' : w_gateway w' = w_gateway w → sockets_ok w → sockets_ok w'.
Proof. unfold sockets_ok. by intros ->. Qed.

Lemma drg_transaction {T} (p : M T) Q w : offstage p →
  (∀ w1, rtc (any_step S) (w_db w) (w_db w1) →
    (∀ e w', Q (Err e) (w' <| w_db := w_db w1 |>)) ∧
    wp p (λ r w', if r is Ok a then rc (st_step S None) (w_db w1) (w_db w') ∧ Q (Ok a) w' else True) w1) →
  drg (transaction p) Q w.
Proof.
  intros Hoff H. apply rg_atomically. intros w1 Hw%db_rely [Hok Hinv]. destruct (H w1 Hw) as [He Hrun].
  eapply wp_mono; [exact (wp_and _ _ _ _ (Hoff w1) Hrun)|].
  intros [a|e] w' [[Hg Hst] Hr].
  - destruct Hr as [Hr HQ]. assert (Hguar : db_guar w1 w').
    { destruct Hst as [Hl Ht]. split; [done|]. split; [rewrite Hl; auto|by left]. }
    split; [|done]. split; [by eapply sockets_same|by eapply guar_inv].
  - split; [split; [by eapply (sockets_same w1)|done]|]. split; [by apply still_guar|apply He].
Qed.

Lemma dsafe_statement {T} (s : nat → Db → outcome string (T * Db)) :
  (∀ n d a d', s n d = Ok (a, d') → rc (st_step S None) d d') → dsafe (statement s).
Proof. intros Hs w. apply drg_statement. intros w1 _. split; [done|]. intros a d Heq. split; [by eapply Hs|done]. Qed.

Lemma dsafe_execute {T} (s : nat → Db → T * Db) : (∀ n d, rc (st_step S None) d (s n d).2) → dsafe (execute s).
Proof. intros Hs. apply dsafe_statement. intros n d a d' [= Heq]. specialize (Hs n d). by rewrite Heq in Hs. Qed.

Lemma dsafe_transaction {T} (p : M T) : offstage p →
  (∀ w, wp p (λ r w', if r is Ok a then rc (st_step S None) (w_db w) (w_db w') else True) w) → dsafe (transaction p).
Proof.
  intros Hoff H w. apply drg_transaction; [done|]. intros w1 _. split; [done|]. eapply wp_mono; [apply H|]. by intros [a|e].
Qed.

Lemma dsafe_wp {T} (p : M T) w : state_ok w → dsafe p → wp p (λ _ w', rtc (any_step S) (w_db w) (w_db w')) w.
Proof.
  intros Hok Hp. eapply wp_mono; [by apply (rg_wp state_ok db_guar p (λ _ _, True))|]. intros r w' [_ H]. by apply db_rely.
Qed.

(** External calls that leave the tables and the gateways alone. *)
Lemma dpost_frame {T} (f : nat → World → outcome thrown T * World) (Φ : T → Prop) :
  (∀ n w, w_db (f n w).2 = w_db w ∧ w_gateway (f n w).2 = w_gateway w ∧ w_locks (f n w).2 = w_locks w ∧ w_tick (f n w).2 = w_tick w) →
  (∀ n w a, sockets_ok w → (f n w).1 = Ok a → Φ a) → dpost (act f) Φ.
Proof.
  intros Hf HΦ w. apply drg_act. intros w1 _ [Hok _]. specialize (Hf (w_tick w1) w1). specialize (HΦ (w_tick w1) w1).
  destruct (f _ w1) as [r w']; simpl in *. destruct Hf as (Hd & Hg & Hl & Ht).
  split; [by eapply sockets_same|]. split; [|destruct r; auto].
  apply steady_guar; [split; [done|lia]|rewrite Hd; apply rc_refl].
Qed.
Lemma dpost_safe {T} (p : M T) (Φ : T → Prop) : dpost p Φ → dsafe p.
Proof. intros Hp w. by eapply rg_mono; [apply Hp|]. Qed.
Lemma dsafe_frame {T} (f : nat → World → outcome thrown T * World) :
  (∀ n w, w_db (f n w).2 = w_db w ∧ w_gateway (f n w).2 = w_gateway w ∧ w_locks (f n w).2 = w_locks w ∧ w_tick (f n w).2 = w_tick w) →
  dsafe (act f).
Proof. intros Hf. apply (dpost_safe _ (λ _, True)). by apply dpost_frame. Qed.
Lemma dsafe_gateway {T} (f : Gateway → T * Gateway) :
  (∀ g, map_Forall (λ _, user_acts) (g_data g) → map_Forall (λ _, user_acts) (g_data (f g).2)) → dsafe (gateway f).
Proof. intros Hf w. apply drg_act. intros w1 _ [Hok _]. split; [by apply Hf|]. split; [by apply steady_guar, rc_refl|done]. Qed.

Lemma dsafe_query {T} (q : Db → T) : dsafe (query q).
Proof. apply dsafe_frame. intros. by case_match. Qed.
Lemma dsafe_on_redis {T} (f : Z → rstore → option T * rstore) : dsafe (on_redis f).
Proof. apply dsafe_frame. intros. repeat case_match; simplify_eq; done. Qed.
Lemma dsafe_Date_now : dsafe Date_now.
Proof. by apply dsafe_frame. Qed.
Lemma dsafe_randomUUID : dsafe randomUUID.
Proof. by apply dsafe_frame. Qed.
Lemma dsafe_getClient : dsafe getClient.
Proof. by apply dsafe_frame. Qed.
Lemma dsafe_redis_cmd c : dsafe (redis_cmd c).
Proof. apply dsafe_on_redis. Qed.
Lemma dsafe_redis_multi cs : dsafe (redis_multi cs).
Proof. apply dsafe_on_redis. Qed.
Lemma dsafe_redis_mget ks : dsafe (redis_mget ks).
Proof. apply dsafe_on_redis. Qed.
Lemma dsafe_send_effect e : dsafe (send_effect e).
Proof. by apply dsafe_frame. Qed.
Lemma dsafe_server_ready : dsafe server_ready.
Proof. by apply dsafe_frame. Qed.
Lemma dsafe_fetchSockets room : dsafe (fetchSockets room).
Proof. by apply dsafe_frame. Qed.
Lemma dsafe_queue_add name job : dsafe (queue_add name job).
Proof. apply dsafe_frame. intros. by case_match. Qed.
Lemma dsafe_fetchSocketIds room : dsafe (fetchSocketIds room).
Proof. by apply dsafe_frame. Qed.
Lemma dsafe_join_rooms s rooms : dsafe (join_rooms s rooms).
Proof. apply dsafe_frame. intros. by case_match. Qed.
(** The user of a socket is one who acts. *)
Lemma dpost_socket_data s : dpost (socket_data s) user_acts.
Proof.
  apply dpost_frame; [by intros n w; destruct w|]. intros n w a Hok [= <-]. destruct (g_data (w_gateway w) !! s) as [data|] eqn:Hs; [|done].
  by apply (Hok s).
Qed.
Lemma dsafe_socket_data s : dsafe (socket_data s).
Proof. eapply dpost_safe, dpost_socket_data. Qed.
Lemma dsafe_is_connected s : dsafe (is_connected s).
Proof. by apply dsafe_frame. Qed.

(** A locked transaction: between its read and its commit the others only take steps away
    from its lock. *)
Lemma rg_wait_lock attempts k w :
  drg (wait_lock attempts k) (λ o w', ∀ token, o = Ok token → (token < w_tick w')%nat) w.
Proof.
  revert w. induction attempts as [|n IH]; intros w; [done|]. apply rg_bind, drg_act. intros w1 _ [Hok _].
  pose proof (idle_guar w1).
  destruct (db_fault _); [done|]. destruct (w_locks w1 !! k) eqn:Hk; [split; [done|split; [done|apply IH]]|].
  split; [done|]. split; [|intros token [= <-]; cbn; lia]. split; [cbn; lia|]. split; [|left; by left].
  intros k' t Ht. cbn in Ht. apply lookup_insert_Some in Ht as [[_ <-]|[_ ?]]; auto.
Qed.
Lemma dsafe_rollback k token : dsafe (rollback k token).
Proof.
  intros w. apply drg_act. intros w1 _ [Hok _]. split; [by case_match|]. split; [|done]. split; [case_match; cbn; lia|].
  split; [|left; left; by case_match]. intros k' t Ht. left. case_match; [|done]. cbn in Ht. by apply lookup_delete_Some in Ht as [_ ?].
Qed.
Lemma dsafe_locked_transaction {T B} k (read : Db → B) (write : B → M T) :
  (∀ b, offstage (write b)) →
  (∀ d w, st_inv S d → rtc (away S k) d (w_db w) →
    wp (write (read d)) (λ o w', if o is Ok _ then rc (λ d1 d2, st_step S None d1 d2 ∨ ∃ x, st_lock S x = k ∧ st_step S (Some x) d1 d2)
                                                   (w_db w) (w_db w') else True) w) →
  dsafe (locked_transaction k read write).
Proof.
  intros Hoff Hwrite w. unfold locked_transaction, pg_advisory_xact_lock. apply rg_bind, rg_bind, drg_act. intros w0 _ [Hok0 _].
  split; [done|]. split; [apply idle_guar|]. eapply rg_mono; [apply rg_wait_lock|].
  intros [token|e] w1 Htoken; [|done]. specialize (Htoken token eq_refl). apply rg_bind, rg_catch, drg_act.
  intros w2 Hw2 [Hok2 Hinv2]. pose proof (idle_guar w2).
  pose proof (guar_tick _ _ Hw2). destruct (db_fault _).
  { split; [done|]. split; [done|]. apply rg_bind, rg_safe; [apply dsafe_rollback|]. by intros [a|e] w'. }
  split; [done|]. split; [done|]. intros w3 Hw3 [Hok3 Hinv3]. destruct (holds k token w3) eqn:Hheld.
  2:{ split; [by split|]. split; [apply idle_guar|done]. }
  apply bool_decide_eq_true in Hheld. assert (Hlt : (token < w_tick (tick w2))%nat) by (cbn; lia).
  destruct (guar_held _ _ _ _ Hw3 Hlt Hheld) as [_ Haway].
  pose proof (wp_and _ _ _ _ (Hoff _ w3) (Hwrite _ w3 Hinv2 Haway)) as Hrun. unfold wp in Hrun. cbn [tick modify_field w_db] in *.
  destruct (run (write (read (w_db w2))) w3) as [[a|e] w4]; destruct Hrun as [(Hg & Hl & Ht) Hs].
  - assert (Hguar : db_guar w3 (tick (free_lock k w4))).
    { split; [cbn; lia|]. split; [intros k' t Hk; cbn in Hk; apply lookup_delete_Some in Hk as [_ Hk]; rewrite Hl in Hk; auto|].
      destruct Hs as [Hs|[Hs|(x & Hx & Hs)]]; [left; by left|left; by right|]. right. exists x. rewrite Hx. cbn.
      split; [by eexists|]. split; [by rewrite lookup_delete_eq|done]. }
    split; [split; [by eapply (sockets_same w3)|by eapply guar_inv]|done].
  - split; [split; [by eapply (sockets_same w3)|done]|]. split; [|done]. split; [cbn; lia|].
    split; [intros k' t Hk; cbn in Hk; apply lookup_delete_Some in Hk as [_ Hk]; rewrite Hl in Hk; auto|]. left. by left.
Qed.

Lemma dsafe_ret {T} (a : T) : dsafe (Ret a).
Proof. done. Qed.
Lemma dsafe_throw {T} e : dsafe (@Throw World thrown T e).
Proof. done. Qed.
Lemma dsafe_bind {T B} (p : M T) (k : T → M B) : dsafe p → (∀ a, dsafe (k a)) → dsafe (bind p k).
Proof. apply safe_bind. Qed.
Lemma dsafe_catch {T} (p : M T) h : dsafe p → (∀ e, dsafe (h e)) → dsafe (catch p h).
Proof. apply safe_catch. Qed.
Lemma dpost_bind {T B} (p : M T) (k : T → M B) Φ Ψ : dpost p Φ → (∀ a, Φ a → dpost (k a) Ψ) → dpost (bind p k) Ψ.
Proof. intros Hp Hk w. apply rg_bind. eapply rg_mono; [apply Hp|]. intros [a|e] w' Ha; [by apply Hk|done]. Qed.
Lemma dpost_catch {T} (p : M T) h Φ : dpost p Φ → (∀ e, dpost (h e) Φ) → dpost (catch p h) Φ.
Proof. intros Hp Hh w. apply rg_catch. eapply rg_mono; [apply Hp|]. intros [a|e] w' Ha; [done|apply Hh]. Qed.
Lemma dpost_ret {T} (a : T) (Φ : T → Prop) : Φ a → dpost (Ret a) Φ.
Proof. by intros Ha w. Qed.
Lemma dpost_throw {T} e (Φ : T → Prop) : dpost (Throw e) Φ.
Proof. by intros w. Qed.
Lemma dpost_any {T} (p : M T) : dsafe p → dpost p (λ _, True).
Proof. intros Hp w. eapply rg_mono; [apply Hp|]. by intros [a|e]. Qed.
Lemma dpost_query {T} (q : Db → T) (Φ : T → Prop) : (∀ d, Φ (q d)) → dpost (query q) Φ.
Proof. intros Hq. apply dpost_frame; [by intros; case_match|]. intros n w r _ H. case_match; simplify_eq/=; apply Hq. Qed.
Lemma dsafe_bind_post {T B} (p : M T) (Φ : T → Prop) (k : T → M B) : dpost p Φ → (∀ a, Φ a → dsafe (k a)) → dsafe (bind p k).
Proof. intros Hp Hk w. apply rg_bind. eapply rg_mono; [apply Hp|]. intros [a|e] w' Ha; [by apply Hk|done]. Qed.
Lemma dsafe_for_each {T} (l : list T) (f : T → M ()) : (∀ x, dsafe (f x)) → dsafe (for_each l f).
Proof. apply safe_for_each. Qed.
Lemma dsafe_with_redis {T} (dflt : T) p : dsafe p → dsafe (with_redis dflt p).
Proof.
  intros Hp. apply dsafe_bind; [apply dsafe_getClient|]. intros [|]; simpl; [|done]. by apply dsafe_catch.
Qed.

Lemma drg_bind {T B} (p : M T) (k : T → M B) Q w :
  drg p (λ r w', match r with Ok a => drg (k a) Q w' | Err e => Q (Err e) w' end) w → drg (bind p k) Q w.
Proof. apply rg_bind. Qed.
Lemma drg_safe {T} (p : M T) (Q : outcome thrown T → World → Prop) w : dsafe p → (∀ r w', Q r w') → drg p Q w.
Proof. apply rg_safe. Qed.
Lemma dsafe_query_with {T} parameter (q : Db → T) : dsafe (query_with parameter q).
Proof. unfold query_with. case_match; [|apply dsafe_query]. apply dsafe_bind; [apply dsafe_query|]. intros _. apply dsafe_throw. Qed.
End DbSafe.
End World.

Abbreviation M := (prog World thrown).

(** [safe_steps] walks through a handler and leaves the statements and transactions
    that write; components add their handlers to the database. *)
Create HintDb safe discriminated.
#[export] Hint Resolve dsafe_query dsafe_query_with dsafe_Date_now dsafe_randomUUID dsafe_getClient dsafe_redis_cmd dsafe_redis_multi
  dsafe_redis_mget dsafe_on_redis dsafe_send_effect dsafe_server_ready dsafe_fetchSockets dsafe_queue_add dsafe_ret
  dsafe_throw dsafe_fetchSocketIds dsafe_join_rooms dsafe_gateway dsafe_socket_data dsafe_is_connected : safe.

#[export] Hint Extern 1 (∀ g, map_Forall _ (g_data g) → map_Forall _ (g_data _)) =>
  intros g; simpl; repeat case_match; done : safe.

Ltac safe_step :=
  match goal with
  | |- dsafe _ (Ret _) => apply dsafe_ret
  | |- dsafe _ (Throw _) => apply dsafe_throw
  | |- dsafe _ (bind _ _) => apply dsafe_bind; [|intros ?]
  | |- dsafe _ (catch _ _) => apply dsafe_catch; [|intros ?]
  | |- dsafe _ (for_each _ _) => apply dsafe_for_each; intros ?
  | |- dsafe _ (with_redis _ _) => apply dsafe_with_redis
  | |- dsafe _ (let _ := _ in _) => cbv zeta
  | |- dsafe _ (if ?b then _ else _) => destruct b
  | |- dsafe _ (match ?x with _ => _ end) => destruct x
  | |- dsafe _ _ => solve [eauto with safe typeclass_instances]
  end.
Ltac safe_steps := repeat safe_step.

(** [safe_handler] opens the definition of a handler and walks through it. *)
Ltac unfold_head p := match p with ?f _ => unfold_head f | _ => unfold p end.
Ltac safe_handler := intros; match goal with |- dsafe _ ?p => unfold_head p end; safe_steps.

(** [nothrow_steps] shows that an operation handles every failure. *)
Create HintDb nothrow discriminated.
#[export] Hint Resolve nothrow_ret nothrow_Date_now nothrow_getClient nothrow_send_effect nothrow_server_ready nothrow_with_redis
  nothrow_gateway nothrow_socket_data nothrow_is_connected
  nothrow_query : nothrow.
Ltac nothrow_step :=
  match goal with
  | |- nothrow (Ret _) => apply nothrow_ret
  | |- nothrow (catch _ _) => apply nothrow_catch; intros ?
  | |- nothrow (bind _ _) => apply nothrow_bind; [|intros ?]
  | |- nothrow (for_each _ _) => apply nothrow_for_each; intros ?
  | |- nothrow (let _ := _ in _) => cbv zeta
  | |- nothrow (if ?b then _ else _) => destruct b
  | |- nothrow (match ?x with _ => _ end) => destruct x
  | |- nothrow _ => solve [eauto with nothrow]
  end.
Ltac nothrow_steps := repeat nothrow_step.
Ltac nothrow_handler := intros; match goal with |- nothrow ?p => unfold_head p end; nothrow_steps.

Ltac silent_step :=
  match goal with
  | |- silent (bind _ _) => apply silent_bind; [|intros ?]
  | |- silent (catch _ _) => apply silent_catch; [|intros ?]
  | |- silent (with_redis _ _) => apply silent_with_redis
  | |- silent (let _ := _ in _) => cbv zeta
  | |- silent (if ?b then _ else _) => destruct b
  | |- silent (match ?x with _ => _ end) => destruct x
  | |- silent _ => first [apply silent_ret | apply silent_throw | apply silent_query | apply silent_getClient
                         | apply silent_Date_now | apply silent_on_redis | apply silent_redis_cmd | apply silent_redis_multi]
  end.
Ltac silent_handler := intros; match goal with |- silent ?p => unfold_head p end; repeat silent_step.

Ltac leaves_step :=
  match goal with
  | |- leaves _ (bind _ _) => apply leaves_bind; [|intros ?]
  | |- leaves _ (catch _ _) => apply leaves_catch; [|intros ?]
  | |- leaves _ (with_redis _ _) => apply leaves_with_redis
  | |- leaves _ (let _ := _ in _) => cbv zeta
  | |- leaves _ (if ?b then _ else _) => destruct b
  | |- leaves _ (match ?x with _ => _ end) => destruct x
  | |- leaves _ _ => first [apply leaves_ret | apply leaves_throw | apply leaves_query | apply leaves_statement
                           | apply leaves_redis_cmd | apply leaves_redis_multi | apply leaves_transaction | by apply leaves_act]
  end.
Ltac leaves_handler := intros; match goal with |- leaves _ ?p => unfold_head p end; repeat leaves_step.

Ltac offstage_step :=
  match goal with
  | |- offstage (bind _ _) => apply offstage_bind; [|intros ?]
  | |- offstage (let _ := _ in _) => cbv zeta
  | |- offstage (if ?b then _ else _) => destruct b
  | |- offstage (match ?x with _ => _ end) => destruct x
  | |- offstage _ => first [apply offstage_ret | apply offstage_throw | apply offstage_query | apply offstage_statement
                           | by apply offstage_act]
  end.
Ltac offstage_handler := intros; match goal with |- offstage ?p => unfold_head p end; repeat offstage_step.

(** A handler that never moves the tables. *)
Definition no_steps : Steps := mkSteps Empty_set (λ _ _ _, False) (λ x, match x with end) (λ _, True) (λ _ _ _ _ _, I).
Abbreviation quiet := (dsafe (A := everyone) no_steps).

Lemma quiet_wp `{R : Redis} `{E : Env} {A} (p : M A) (w : World) : quiet p → wp p (λ _ w', w_db w' = w_db w) w.
Proof.
  intros Hp. eapply wp_mono; [eapply dsafe_wp; [|exact Hp]; split; [by intros s d _ u|done]|]. intros r w' H.
  inversion H as [|x y z [l []]]. done.
Qed.

(** [wp_steps] runs a handler up to its next query, statement, transaction or Redis
    command. *)
Ltac wp_step :=
  match goal with
  | |- wp (Ret _) _ _ => apply wp_ret
  | |- wp (Throw _) _ _ => apply wp_throw
  | |- wp (bind _ _) _ _ => apply wp_bind
  | |- wp (catch _ _) _ _ => apply wp_catch
  | |- wp Date_now _ _ => apply wp_Date_now
  | |- wp randomUUID _ _ => apply wp_randomUUID
  | |- wp (let _ := _ in _) _ _ => cbv zeta
  end; cbv beta match.
Ltac wp_steps := repeat wp_step.

(** Reads the fields of a state after updates of other fields. *)
Ltac world := cbn [w_db w_redis w_tick w_out w_server w_gateway w_locks tick modify_field] in *.

(** Every command reaches a Redis server that answers. *)
Definition redis_ready `{Env} : Prop := ∀ n, conn_at n = CReady.
