(* ===== verification/Crypto.v ===== *)
(** * Crypto: the cryptographic primitives, hexadecimal and bigints

    Node's crypto module and argon2 are not code of the repository: [Crypto] is the
    class of their functions on byte strings ([list Z], each in 0..255), and
    [CryptoLaws] the documented facts the theorems use.  Hexadecimal text
    ([Buffer.toString('hex')], [BigInt('0x' + s)], [n.toString(16)]) belongs to the
    language's standard library and is defined here, as are the wrappers of
    shared/crypto/crypto.service.ts. *)
From Stdlib Require Import Ascii String.
From S2P Require Import Prelude JsString.
From stdpp Require Import base list strings.

Local Open Scope string_scope.
Local Open Scope Z_scope.
Local Open Scope list_scope.

Abbreviation bytes := (list Z).

(** ** Bytes and hexadecimal *)
Definition utf8 (s : string) : bytes := map code (String.list_ascii_of_string s).

Definition hex_char (d : Z) : ascii := ascii_of_N (Z.to_N (if d <? 10 then 48 + d else 87 + d)).
Definition hex_val (c : ascii) : Z :=
  if is_digit c then code c - 48 else if in_range 97 102 c then code c - 87 else code c - 55.

(** [buf.toString('hex')] *)
Definition hex_bytes (b : bytes) : list ascii := flat_map (λ x, [hex_char (x / 16); hex_char (x mod 16)]) b.
Definition toHex (b : bytes) : string := String.string_of_list_ascii (hex_bytes b).

(** [Buffer.from(hex, 'hex')]: pairs of digits, up to the first pair that is not one. *)
Fixpoint unhex_bytes (l : list ascii) : bytes :=
  match l with
  | a :: b :: l' => if is_hex a && is_hex b then (hex_val a * 16 + hex_val b) :: unhex_bytes l' else []
  | _ => []
  end.
Definition fromHex (s : string) : bytes := unhex_bytes (String.list_ascii_of_string s).

(** [BigInt('0x' + s)] on hexadecimal digits. *)
Definition hex_fold (a : Z) (l : list ascii) : Z := foldl (λ a c, a * 16 + hex_val c) a l.
Definition BigInt_hex (s : string) : option Z :=
  if (s === "") || negb (all_chars is_hex s) then None else Some (hex_fold 0 (String.list_ascii_of_string s)).

(** [n.toString(16)] of a natural number. *)
Fixpoint hex_digits (fuel : nat) (n : Z) (acc : list ascii) : list ascii :=
  match fuel with
  | O => acc
  | S fuel' => let acc' := hex_char (n mod 16) :: acc in
               if n <? 16 then acc' else hex_digits fuel' (n / 16) acc'
  end.
Definition toString16 (n : Z) : string := String.string_of_list_ascii (hex_digits (Z.to_nat (Z.log2 n + 1)) n []).

Definition padStart (len : nat) (c : ascii) (s : string) : string :=
  String.string_of_list_ascii (repeat c (len - String.length s)) +:+ s.

(** ** Base64 *)
Definition base64_char (d : Z) : ascii :=
  ascii_of_N (Z.to_N (if d <? 26 then 65 + d else if d <? 52 then 71 + d else if d <? 62 then d - 4 else if d <? 63 then 43 else 47)).
Definition base64_val (c : ascii) : option Z :=
  if is_upper c then Some (code c - 65) else if is_lower c then Some (code c - 71) else if is_digit c then Some (code c + 4)
  else if Ascii.eqb c "+" || Ascii.eqb c "-" then Some 62 else if Ascii.eqb c "/" || Ascii.eqb c "_" then Some 63 else None.

(** [buf.toString('base64')]: three bytes in four digits, the last group padded. *)
Fixpoint base64_digits (b : bytes) : list ascii :=
  match b with
  | x :: y :: z :: b' =>
      base64_char (x / 4) :: base64_char (x mod 4 * 16 + y / 16) :: base64_char (y mod 16 * 4 + z / 64) :: base64_char (z mod 64)
      :: base64_digits b'
  | [x; y] => [base64_char (x / 4); base64_char (x mod 4 * 16 + y / 16); base64_char (y mod 16 * 4); "="%char]
  | [x] => [base64_char (x / 4); base64_char (x mod 4 * 16); "="%char; "="%char]
  | [] => []
  end.
Definition base64 (b : bytes) : string := String.string_of_list_ascii (base64_digits b).

(** [Buffer.from(text, 'base64')]: the digits of both alphabets, up to the padding;
    other characters are skipped. *)
Fixpoint unbase64_digits (l : list Z) : bytes :=
  match l with
  | a :: b :: c :: d :: l' => a * 4 + b / 16 :: b mod 16 * 16 + c / 4 :: c mod 4 * 64 + d :: unbase64_digits l'
  | [a; b; c] => [a * 4 + b / 16; b mod 16 * 16 + c / 4]
  | [a; b] => [a * 4 + b / 16]
  | _ => []
  end.
Fixpoint before_padding (l : list ascii) : list ascii :=
  match l with [] => [] | c :: l' => if Ascii.eqb c "=" then [] else c :: before_padding l' end.
Definition from_base64 (s : string) : bytes :=
  unbase64_digits (omap base64_val (before_padding (String.list_ascii_of_string s))).

(** ** The primitives *)
Class Crypto := {
  sha256 : bytes → bytes;
  hmac_sha256 : bytes → bytes → bytes;
  argon2id : string → bytes → bytes;
  aes_256_gcm : bytes → bytes → bytes → bytes * bytes;
  aes_256_gcm_open : bytes → bytes → bytes → bytes → option bytes;
  ed25519_verify : bytes → bytes → bytes → option bool;
  random_at : nat → nat → bytes;
  x25519_at : nat → bytes * bytes;
  ed25519_at : nat → bytes * bytes;
}.

Class CryptoLaws (C : Crypto) : Prop := {
  sha256_length m : length (sha256 m) = 32%nat;
  sha256_range m : Forall (λ x, 0 ≤ x < 256) (sha256 m);
  random_length n len : length (random_at n len) = len;
  random_range n len : Forall (λ x, 0 ≤ x < 256) (random_at n len);
  open_sealed kek iv p ciphertext tag : aes_256_gcm kek iv p = (ciphertext, tag) →
    aes_256_gcm_open kek iv tag ciphertext = Some p ∧
    (Forall (λ x, 0 ≤ x < 256) p → Forall (λ x, 0 ≤ x < 256) ciphertext) ∧ Forall (λ x, 0 ≤ x < 256) tag;
}.

(** A stand-in used to evaluate the model on concrete inputs. *)
#[export] Instance toy_crypto : Crypto := {
  sha256 m := repeat (foldl (λ a x, (a * 31 + x + 1) mod 251) 7 m) 32;
  hmac_sha256 k m := repeat (foldl (λ a x, (a * 31 + x + 1) mod 251) 7 (k ++ m)) 32;
  argon2id p s := repeat 1 32;
  aes_256_gcm k iv p := (p, repeat 2 16);
  aes_256_gcm_open k iv tag c := if bool_decide (tag = repeat 2 16) then Some c else None;
  ed25519_verify m s k := Some true;
  random_at n len := repeat (Z.of_nat n mod 256) len;
  x25519_at n := (repeat 3 32, repeat 4 32);
  ed25519_at n := (repeat 5 32, repeat 6 32);
}.

#[export] Instance toy_crypto_laws : CryptoLaws toy_crypto.
Proof.
  assert (Hr : ∀ n m : Z, 0 ≤ n < 256 → Forall (λ x, 0 ≤ x < 256) (repeat n (Z.to_nat m))).
  { intros n m ?. apply Forall_forall. intros x Hx. rewrite list_elem_of_In in Hx. apply repeat_spec in Hx. by subst. }
  split; simpl.
  - done.
  - intros m. apply (Hr _ 32). assert (0 ≤ foldl (λ a x, (a * 31 + x + 1) mod 251) 7 m < 251); [|lia].
    induction m as [|x m IH] using rev_ind; simpl; [lia|]. rewrite foldl_snoc. apply Z.mod_pos_bound. lia.
  - intros. apply List.repeat_length.
  - intros n len. rewrite <-(Nat2Z.id len). apply Hr. apply Z.mod_pos_bound. lia.
  - intros kek iv p c tag [= <- <-]. split_and!; [by rewrite bool_decide_eq_true_2|done|by apply (Hr 2 16)].
Qed.

(** ** Round trips *)
Lemma code_range c : 0 ≤ code c < 256.
Proof. unfold code. pose proof (N_ascii_bounded c). lia. Qed.

Lemma code_ascii n : 0 ≤ n < 256 → code (ascii_of_N (Z.to_N n)) = n.
Proof. intros. unfold code. rewrite N_ascii_embedding by lia. lia. Qed.

Lemma code_hex_char d : 0 ≤ d < 16 → code (hex_char d) = if d <? 10 then 48 + d else 87 + d.
Proof. intros. unfold hex_char. apply code_ascii. destruct (Z.ltb_spec d 10); lia. Qed.

Lemma hex_val_char d : 0 ≤ d < 16 → hex_val (hex_char d) = d.
Proof.
  intros H. unfold hex_val, is_digit, in_range. rewrite !code_hex_char by done.
  destruct (Z.ltb_spec d 10); zcase; lia.
Qed.

Lemma is_hex_char d : 0 ≤ d < 16 → is_hex (hex_char d) = true.
Proof.
  intros H. unfold is_hex, is_digit, in_range. rewrite !code_hex_char by done.
  destruct (Z.ltb_spec d 10); zcase; first [done | lia].
Qed.

Lemma hex_fold_app a l1 l2 : hex_fold a (l1 ++ l2) = hex_fold (hex_fold a l1) l2.
Proof. unfold hex_fold. by rewrite foldl_app. Qed.

Lemma hex_fold_shift a l : hex_fold a l = a * 16 ^ Z.of_nat (length l) + hex_fold 0 l.
Proof.
  revert a. induction l as [|c l IH]; intros a; cbn [hex_fold foldl length].
  { change (16 ^ Z.of_nat 0) with 1. lia. }
  change (hex_fold (a * 16 + hex_val c) l = a * 16 ^ Z.of_nat (S (length l)) + hex_fold (0 * 16 + hex_val c) l).
  rewrite (IH (a * 16 + hex_val c)), (IH (0 * 16 + hex_val c)), Nat2Z.inj_succ, Z.pow_succ_r by lia. lia.
Qed.

Lemma hex_digits_val fuel n acc :
  0 ≤ n → n < 16 ^ Z.of_nat fuel →
  hex_fold 0 (hex_digits fuel n acc) = n * 16 ^ Z.of_nat (length acc) + hex_fold 0 acc.
Proof.
  revert n acc. induction fuel as [|fuel IH]; intros n acc Hn Hf; cbn [hex_digits].
  { change (16 ^ Z.of_nat 0) with 1 in Hf. replace n with 0 by lia. lia. }
  assert (hex_fold 0 (hex_char (n mod 16) :: acc) = n mod 16 * 16 ^ Z.of_nat (length acc) + hex_fold 0 acc) as Hd.
  { change (hex_fold 0 (hex_char (n mod 16) :: acc)) with (hex_fold (0 * 16 + hex_val (hex_char (n mod 16))) acc).
    rewrite hex_val_char, hex_fold_shift by (apply Z.mod_pos_bound; lia). lia. }
  destruct (Z.ltb_spec n 16).
  - rewrite Hd, Z.mod_small by lia. lia.
  - rewrite IH, Hd.
    + cbn [length]. rewrite Nat2Z.inj_succ, Z.pow_succ_r by lia. pose proof (Z.div_mod n 16). nia.
    + apply Z.div_pos; lia.
    + apply Z.div_lt_upper_bound; [lia|]. rewrite Nat2Z.inj_succ, Z.pow_succ_r in Hf by lia. lia.
Qed.

Lemma hex_digits_hex fuel n acc : 0 ≤ n → forallb is_hex acc = true → forallb is_hex (hex_digits fuel n acc) = true.
Proof.
  revert n acc. induction fuel as [|fuel IH]; intros n acc Hn Ha; cbn [hex_digits]; [done|].
  assert (forallb is_hex (hex_char (n mod 16) :: acc) = true).
  { cbn [forallb]. rewrite is_hex_char, Ha; [done|]. apply Z.mod_pos_bound; lia. }
  destruct (n <? 16); [done|]. apply IH; [apply Z.div_pos; lia|done].
Qed.

Lemma hex_digits_nonempty fuel n acc : hex_digits (S fuel) n acc ≠ [].
Proof.
  revert n acc. induction fuel as [|fuel IH]; intros n acc; cbn [hex_digits]; [by destruct (n <? 16)|].
  destruct (n <? 16); [done|]. apply IH.
Qed.

Lemma list_ascii_string l : String.list_ascii_of_string (String.string_of_list_ascii l) = l.
Proof. apply String.list_ascii_of_string_of_list_ascii. Qed.

(** [BigInt('0x' + n.toString(16))] is [n]. *)
Lemma BigInt_hex_toString16 n : 0 ≤ n → BigInt_hex (toString16 n) = Some n.
Proof.
  intros Hn. pose proof (Z.log2_nonneg n). unfold BigInt_hex, toString16, all_chars. rewrite list_ascii_string.
  rewrite hex_digits_hex by done. rewrite bool_decide_eq_false_2; simpl.
  - f_equal. rewrite hex_digits_val; [|done|].
    + cbn. rewrite Z.mul_1_r. lia.
    + rewrite Z2Nat.id by lia. destruct (decide (n = 0)) as [->|]; [done|].
      destruct (Z.log2_spec n) as [_ Hl]; [lia|]. rewrite <-Z.add_1_r in Hl. eapply Z.lt_le_trans; [exact Hl|].
      apply Z.pow_le_mono_l. lia.
  - intros Heq. apply (f_equal String.list_ascii_of_string) in Heq. rewrite list_ascii_string in Heq.
    replace (Z.to_nat (Z.log2 n + 1)) with (S (Z.to_nat (Z.log2 n))) in Heq by lia.
    by apply hex_digits_nonempty in Heq.
Qed.

(** [Buffer.from(b.toString('hex'), 'hex')] is [b]. *)
Lemma fromHex_toHex b : Forall (λ x, 0 ≤ x < 256) b → fromHex (toHex b) = b.
Proof.
  unfold fromHex, toHex. rewrite list_ascii_string. induction 1 as [|x b Hx _ IH]; [done|].
  cbn [hex_bytes flat_map app unhex_bytes]. fold (hex_bytes b).
  assert (0 ≤ x / 16 < 16) by (split; [apply Z.div_pos|apply Z.div_lt_upper_bound]; lia).
  assert (0 ≤ x mod 16 < 16) by (apply Z.mod_pos_bound; lia).
  rewrite !is_hex_char, !hex_val_char, IH by done. simpl. f_equal. pose proof (Z.div_mod x 16). lia.
Qed.

(** ** CryptoService and the hash wrappers *)
Section Service.
Context {C : Crypto}.

(** A digest is the hash of the concatenated updates. *)
Definition sha256_all (args : list bytes) : bytes := sha256 (concat args).
Definition sha256_hex (s : string) : string := toHex (sha256 (utf8 s)).
Definition hashRefreshToken (token : string) : string := sha256_hex token.
Definition hashKey (value : string) : string := String.substring 0 32 (sha256_hex value).

Definition deriveKEK (password : string) (salt : bytes) : bytes := argon2id password salt.
Definition sealPrivateKey (iv privateKey kek : bytes) : string :=
  match aes_256_gcm kek iv privateKey with
  | (ciphertext, tag) => base64 iv +:+ ":" +:+ base64 tag +:+ ":" +:+ base64 ciphertext
  end.
(** [None]: an exception, of a text without the three parts or of the authentication tag. *)
Definition unsealPrivateKey (sealed : string) (kek : bytes) : option bytes :=
  match JsString.split ":"%char sealed with
  | iv :: tag :: ciphertext :: _ => aes_256_gcm_open kek (from_base64 iv) (from_base64 tag) (from_base64 ciphertext)
  | _ => None
  end.
End Service.

(** ** Sealed keys *)
Abbreviation is_byte := (λ x, 0 ≤ x < 256).

Lemma base64_digit d : 0 ≤ d < 64 →
  base64_val (base64_char d) = Some d ∧ Ascii.eqb (base64_char d) "=" = false ∧ Ascii.eqb (base64_char d) ":" = false.
Proof.
  intros Hd. assert (Hall : forallb (λ n, let c := base64_char (Z.of_nat n) in
    bool_decide (base64_val c = Some (Z.of_nat n)) && negb (Ascii.eqb c "=") && negb (Ascii.eqb c ":")) (seq 0 64) = true)
    by (vm_compute; reflexivity).
  rewrite forallb_forall in Hall. specialize (Hall (Z.to_nat d)). rewrite Z2Nat.id in Hall by lia. cbv zeta in Hall.
  rewrite in_seq, !andb_true_iff, !negb_true_iff, bool_decide_eq_true in Hall. destruct Hall as [[??] ?]; [lia|done].
Qed.
Lemma triples_ind {A} (Q : list A → Prop) :
  Q [] → (∀ x, Q [x]) → (∀ x y, Q [x; y]) → (∀ x y z l, Q l → Q (x :: y :: z :: l)) → ∀ l, Q l.
Proof. intros H0 H1 H2 H3. fix go 1. intros [|x [|y [|z l]]]; [exact H0|apply H1|apply H2|apply H3, go]. Qed.

Lemma sextet_bounds x y : 0 ≤ x < 256 → 0 ≤ y < 256 →
  0 ≤ x / 4 < 64 ∧ 0 ≤ x mod 4 * 16 < 64 ∧ 0 ≤ x mod 4 * 16 + y / 16 < 64 ∧ 0 ≤ x mod 16 * 4 < 64 ∧
  0 ≤ x mod 16 * 4 + y / 64 < 64 ∧ 0 ≤ x mod 64 < 64.
Proof. intros Hx Hy. Z.to_euclidean_division_equations. lia. Qed.

Lemma from_base64_base64 b : Forall is_byte b → from_base64 (base64 b) = b.
Proof.
  unfold from_base64, base64. rewrite String.list_ascii_of_string_of_list_ascii.
  induction b as [|x|x y|x y z b IH] using triples_ind; intros Hb; [done|..]; repeat rewrite Forall_cons in Hb; destruct_and?;
    cbn [base64_digits before_padding].
  - pose proof (sextet_bounds x 0 ltac:(done) ltac:(lia)) as (B1 & B2 & _).
    destruct (base64_digit _ B1) as (V1 & E1 & _), (base64_digit _ B2) as (V2 & E2 & _).
    rewrite E1, E2. cbn. rewrite V1, V2. cbn. f_equal. Z.to_euclidean_division_equations. lia.
  - pose proof (sextet_bounds x y ltac:(done) ltac:(done)) as (B1 & _ & B2 & _).
    pose proof (sextet_bounds y 0 ltac:(done) ltac:(lia)) as (_ & _ & _ & B3 & _).
    destruct (base64_digit _ B1) as (V1 & E1 & _), (base64_digit _ B2) as (V2 & E2 & _), (base64_digit _ B3) as (V3 & E3 & _).
    rewrite E1, E2, E3. cbn. rewrite V1, V2, V3. cbn. f_equal; [|f_equal]; Z.to_euclidean_division_equations; lia.
  - pose proof (sextet_bounds x y ltac:(done) ltac:(done)) as (B1 & _ & B2 & _).
    pose proof (sextet_bounds y z ltac:(done) ltac:(done)) as (_ & _ & _ & _ & B3 & _).
    pose proof (sextet_bounds z 0 ltac:(done) ltac:(lia)) as (_ & _ & _ & _ & _ & B4).
    destruct (base64_digit _ B1) as (V1 & E1 & _), (base64_digit _ B2) as (V2 & E2 & _), (base64_digit _ B3) as (V3 & E3 & _),
      (base64_digit _ B4) as (V4 & E4 & _).
    rewrite E1, E2, E3, E4. cbn [omap list_omap]. rewrite V1, V2, V3, V4. cbn [unbase64_digits]. rewrite IH by done.
    f_equal; [|f_equal; [|f_equal]]; Z.to_euclidean_division_equations; lia.
Qed.

(** No digit of base64 is a colon, so the parts of a sealed key are found again. *)
Lemma base64_no_colon b : Forall is_byte b → Forall (λ c, Ascii.eqb c ":" = false) (base64_digits b).
Proof.
  assert (Hd : ∀ d, 0 ≤ d < 64 → Ascii.eqb (base64_char d) ":" = false) by (intros d Hd; by apply base64_digit).
  induction b as [|x|x y|x y z b IH] using triples_ind; intros Hb; [constructor|..]; repeat rewrite Forall_cons in Hb; destruct_and?;
    cbn [base64_digits]; repeat (apply Forall_cons; split); try done; try (by apply IH);
    apply Hd; Z.to_euclidean_division_equations; lia.
Qed.

Lemma no_char c b : Forall (λ x, Ascii.eqb x c = false) b →
  Forall (λ x, Ascii.eqb x c = false) (String.list_ascii_of_string (String.string_of_list_ascii b)).
Proof. by rewrite String.list_ascii_of_string_of_list_ascii. Qed.
Section Sealing.
Context {C : Crypto} {CL : CryptoLaws C}.

(** a sealed private key opens again: for every key, key-encryption key and nonce,
    [unsealPrivateKey] cuts the text of [sealPrivateKey] at its two colons (which no
    base64 digit is), decodes the parts and finds the key. *)
Theorem unseal_seal (iv privateKey kek : bytes) (Hiv : Forall is_byte iv) (Hkey : Forall is_byte privateKey) :
  unsealPrivateKey (sealPrivateKey iv privateKey kek) kek = Some privateKey.
Proof.
  unfold sealPrivateKey. destruct (aes_256_gcm kek iv privateKey) as [ciphertext tag] eqn:Hseal.
  destruct (open_sealed _ _ _ _ _ Hseal) as (Hopen & Hc & Ht). specialize (Hc Hkey).
  unfold unsealPrivateKey. rewrite !split_first by by apply no_char, base64_no_colon.
  rewrite split_last by by apply no_char, base64_no_colon. by rewrite !from_base64_base64.
Qed.
End Sealing.

Lemma unseal_seal_witness :
  unsealPrivateKey (sealPrivateKey [1; 2; 3] [255; 0; 7; 128] [9]) [9] = Some [255; 0; 7; 128].
Proof. apply unseal_seal; by repeat constructor. Defined.
