(* ===== verification/Config.v ===== *)
(** * Config: environment variables

    Models common/config/env.ts.  The process environment is a function from names
    to values; the URL parser is a parameter. *)
From Stdlib Require Import Ascii String.
From S2P Require Import Prelude JsString.
From stdpp Require Import base list strings.

Local Open Scope string_scope.
Local Open Scope Z_scope.
Local Open Scope list_scope.

Abbreviation ProcessEnv := (string → option string).

Definition DEFAULT_DEV_ORIGINS : list string := ["http://localhost:3001"; "http://localhost:8081"; "http://localhost:19006"].

Definition isProduction (env : ProcessEnv) : bool := bool_decide (env "NODE_ENV" = Some "production").

(** [!v || v.trim() === ''] *)
Definition blank (v : option string) : bool := match v with Some s => trim s === "" | None => true end.

(** [.replace(/\/+$/, '')] *)
Definition strip_slashes (s : string) : string :=
  String.string_of_list_ascii (trim_end_by (λ c, Ascii.eqb c "/"%char) (String.list_ascii_of_string s)).

Definition parseOrigins (raw : option string) : list string :=
  match raw with
  | None => []
  | Some r => if r === "" then []
              else List.filter (λ o, o !== "") (map (λ o, strip_slashes (trim o)) (JsString.split ","%char r))
  end.

(** [/^\d+$/] and [/^(\d+)([smhd]?)$/] *)
Definition is_number (s : string) : bool := (s !== "") && all_chars is_digit s.
Definition duration (s : string) : option (Z * option ascii) :=
  let l := String.list_ascii_of_string s in
  let digits := span_digits l in
  match digits, drop (length digits) l with
  | [], _ => None
  | _, [] => n ← string_to_z (String.string_of_list_ascii digits); Some (n, None)
  | _, [u] => if Ascii.eqb u "s" || Ascii.eqb u "m" || Ascii.eqb u "h" || Ascii.eqb u "d"
              then n ← string_to_z (String.string_of_list_ascii digits); Some (n, Some u) else None
  | _, _ => None
  end.

(** A text between double quotes. *)
Definition quoted (s : string) : string := String (Ascii.ascii_of_nat 34) (s +:+ String (Ascii.ascii_of_nat 34) EmptyString).

Definition check_var (bad : bool) (problem : string) : list string := if bad then [problem] else [].

(** The problems [validateEnv] reports; it throws when there are any. *)
Definition validateEnv (env : ProcessEnv) : list string :=
  check_var (blank (env "DATABASE_URL")) "DATABASE_URL is required"
  ++ check_var (match env "JWT_SECRET" with Some s => js_length s <? 32 | None => true end)
       "JWT_SECRET is required and must be at least 32 characters"
  ++ check_var (blank (env "REDIS_URL")) "REDIS_URL is required"
  ++ check_var (match env "PORT" with Some p => (p !== "") && negb (is_number p) | None => false end) "PORT must be a number"
  ++ check_var (match env "JWT_ACCESS_TTL" with
                | Some t => (t !== "") && match duration t with Some _ => false | None => true end
                | None => false
                end) "JWT_ACCESS_TTL must be seconds or a duration like 15m, 1h"
  ++ check_var (bool_decide ("*" ∈ parseOrigins (env "CORS_ORIGIN")))
       ("CORS_ORIGIN must list explicit origins; " +:+ quoted "*" +:+ " is not allowed with credentials").

Definition getCorsOrigins (env : ProcessEnv) : list string :=
  let origins := List.filter (λ o, o !== "*") (parseOrigins (env "CORS_ORIGIN")) in
  if origins === [] then (if isProduction env then [] else DEFAULT_DEV_ORIGINS) else origins.

(** [/[?&]sslmode=(require|verify-ca|verify-full|prefer)/i.test(url)] *)
Fixpoint has_sslmode (l : list ascii) : bool :=
  match l with
  | [] => false
  | c :: l' =>
      ((Ascii.eqb c "?" || Ascii.eqb c "&")
       && existsb (λ m, startsWith (toLowerCase (String.string_of_list_ascii l')) ("sslmode=" +:+ m))
            ["require"; "verify-ca"; "verify-full"; "prefer"])
      || has_sslmode l'
  end.

(** [Some b] is [{ rejectUnauthorized: b }], [None] is [false]. *)
Definition getDbSslConfig (env : ProcessEnv) : option bool :=
  let url := default "" (env "DATABASE_URL") in
  let wantsSsl := bool_decide (env "DB_SSL" = Some "true") || has_sslmode (String.list_ascii_of_string url) in
  if negb wantsSsl then None
  else match env "DB_SSL_REJECT_UNAUTHORIZED" with
       | None => Some (isProduction env)
       | Some raw => if raw === "" then Some (isProduction env) else Some (raw === "true")
       end.

Section Url.
(** [new URL(raw)] without the given search parameters; [None] when it throws. *)
Context (url_without : string → list string → option string).

Definition SSL_PARAMS : list string := ["sslmode"; "ssl"; "sslcert"; "sslkey"; "sslrootcert"; "uselibpqcompat"].

Definition getDbConnectionOptions (env : ProcessEnv) : option string * option bool :=
  let ssl := getDbSslConfig env in
  match env "DATABASE_URL", ssl with
  | Some raw, Some _ => if raw === "" then (Some raw, ssl)
                        else (Some (default raw (url_without raw SSL_PARAMS)), ssl)
  | raw, _ => (raw, ssl)
  end.
End Url.

Definition getAccessTokenTtl (env : ProcessEnv) : Z :=
  match env "JWT_ACCESS_TTL" with
  | None => 15 * 60
  | Some raw =>
      if raw === "" then 15 * 60
      else match duration (trim raw) with
           | None => 15 * 60
           | Some (value, unit) =>
               value * match unit with
                       | Some u => if Ascii.eqb u "d" then 86400 else if Ascii.eqb u "h" then 3600
                                   else if Ascii.eqb u "m" then 60 else 1
                       | None => 1
                       end
           end
  end.

Class Environment := process_env : ProcessEnv.

(** [Number(env[name]) || fallback], an integer. *)
Definition number_env (env : ProcessEnv) (name : string) (fallback : Z) : Z :=
  match env name with
  | Some s => match Number_integer s with Some 0 | None => fallback | Some n => n end
  | None => fallback
  end.

(** An environment on which the model is evaluated. *)
Definition sample_environment : Environment := λ name,
  if name === "JWT_SECRET" then Some "0123456789abcdef0123456789abcdef"
  else if name === "DATABASE_URL" then Some "postgres://localhost/zevra"
  else if name === "REDIS_URL" then Some "redis://localhost"
  else if name === "CORS_ORIGIN" then Some "https://app.example.org/, https://web.example.org"
  else if name === "JWT_ACCESS_TTL" then Some "30m"
  else if name === "NODE_ENV" then Some "production"
  else None.
