(* ===== verification/FileType.v ===== *)
(** * FileType: the real type of an upload

    Models modules/uploads/file-type.ts: a buffer is a list of bytes. *)
From Stdlib Require Import Ascii String.
From S2P Require Import Prelude JsString Crypto.
From stdpp Require Import base list strings.

Local Open Scope string_scope.
Local Open Scope Z_scope.
Local Open Scope list_scope.

Inductive AllowedMime := ImageJpeg | ImagePng | ImageGif | ImageWebp | ApplicationPdf | ApplicationMsword | ApplicationDocx | TextPlain.
#[export] Instance AllowedMime_eq : EqDecision AllowedMime.
Proof. solve_decision. Defined.

Definition mime_string (m : AllowedMime) : string :=
  match m with
  | ImageJpeg => "image/jpeg" | ImagePng => "image/png" | ImageGif => "image/gif" | ImageWebp => "image/webp"
  | ApplicationPdf => "application/pdf" | ApplicationMsword => "application/msword"
  | ApplicationDocx => "application/vnd.openxmlformats-officedocument.wordprocessingml.document"
  | TextPlain => "text/plain"
  end.

Definition IMAGE_MIMES : list AllowedMime := [ImageJpeg; ImagePng; ImageGif; ImageWebp].

Fixpoint bytes_match (buf pattern : bytes) : bool :=
  match pattern, buf with
  | [], _ => true
  | p :: pattern', b :: buf' => (b =? p) && bytes_match buf' pattern'
  | _ :: _, [] => false
  end.
Definition buf_startsWith (buf pattern : bytes) (offset : nat) : bool :=
  if (length buf <? offset + length pattern)%nat then false else bytes_match (drop offset buf) pattern.

(** Decoding of UTF-8 as the Encoding standard defines it, errors fatal: the
    remaining continuation bytes and the bounds of the next one.  At the end, a
    truncated sequence is an error unless [stream]. *)
Definition lead (b : Z) : option (nat * Z * Z) :=
  if b <? 128 then Some (0%nat, 128, 191)
  else if b <? 194 then None
  else if b <? 224 then Some (1%nat, 128, 191)
  else if b =? 224 then Some (2%nat, 160, 191)
  else if b =? 237 then Some (2%nat, 128, 159)
  else if b <? 240 then Some (2%nat, 128, 191)
  else if b =? 240 then Some (3%nat, 144, 191)
  else if b <? 244 then Some (3%nat, 128, 191)
  else if b =? 244 then Some (3%nat, 128, 143)
  else None.

Fixpoint utf8_valid (stream : bool) (needed : nat) (lo hi : Z) (buf : bytes) : bool :=
  match buf with
  | [] => stream || (needed =? 0)%nat
  | b :: buf' =>
      match needed with
      | O => match lead b with Some (n, lo', hi') => utf8_valid stream n lo' hi' buf' | None => false end
      | S n => if (lo <=? b) && (b <=? hi) then utf8_valid stream n 128 191 buf' else false
      end
  end.

Definition SAMPLE : nat := Z.to_nat (64 * 1024).

Definition isProbablyUtf8Text (buf : bytes) : bool :=
  let sample := take SAMPLE buf in
  if existsb (λ b, b =? 0) sample then false
  else utf8_valid (length sample <? length buf)%nat 0 128 191 sample.

Definition byte_at (buf : bytes) (i : nat) (vals : list Z) : bool :=
  match buf !! i with Some b => bool_decide (b ∈ vals) | None => false end.

(** [(declaredMime || '').toLowerCase().split(';')[0].trim()] *)
Definition declared_type (declaredMime : string) : string := trim (default "" (head (JsString.split ";"%char (toLowerCase declaredMime)))).

Definition detectAllowedMime (buf : bytes) (declaredMime : string) : option AllowedMime :=
  if buf_startsWith buf [255; 216; 255] 0 then Some ImageJpeg
  else if buf_startsWith buf [137; 80; 78; 71; 13; 10; 26; 10] 0 then Some ImagePng
  else if buf_startsWith buf [71; 73; 70; 56] 0 && byte_at buf 4 [55; 57] && byte_at buf 5 [97] then Some ImageGif
  else if buf_startsWith buf [82; 73; 70; 70] 0 && buf_startsWith buf [87; 69; 66; 80] 8 then Some ImageWebp
  else if buf_startsWith buf [37; 80; 68; 70; 45] 0 then Some ApplicationPdf
  else
    let declared := declared_type declaredMime in
    if buf_startsWith buf [208; 207; 17; 224; 161; 177; 26; 225] 0
    then if declared === mime_string ApplicationMsword then Some ApplicationMsword else None
    else if buf_startsWith buf [80; 75; 3; 4] 0
    then if declared === mime_string ApplicationDocx then Some ApplicationDocx else None
    else if (declared === "text/plain") && (0 <? length buf)%nat && isProbablyUtf8Text buf
    then Some TextPlain
    else None.
