(* ===== verification/Samples.v ===== *)
(** * Samples: a concrete environment and concrete tables

    An environment without failures and a small database, on which the theorems of
    the development are instantiated and the model is evaluated. *)
From Stdlib Require Import Ascii String.
From S2P Require Import Prelude JsString Json Effects Errors Redis Schema World.
From stdpp Require Import base list strings.

Local Open Scope string_scope.
Local Open Scope Z_scope.
Local Open Scope list_scope.

(** ILIKE with the default escape character, as Postgres documents it. *)
Fixpoint like (fuel : nat) (p s : list Ascii.ascii) : bool :=
  match fuel with
  | O => false
  | S f =>
      match p, s with
      | [], [] => true
      | [], _ :: _ => false
      | c :: p', _ =>
          if Ascii.eqb c "%"%char
          then like f p' s || match s with [] => false | _ :: s' => like f p s' end
          else if Ascii.eqb c "_"%char
          then match s with [] => false | _ :: s' => like f p' s' end
          else if Ascii.eqb c "\"%char
          then match p', s with
               | q :: p'', x :: s' => Ascii.eqb (lower_char q) (lower_char x) && like f p'' s'
               | _, _ => false
               end
          else match s with [] => false | x :: s' => Ascii.eqb (lower_char c) (lower_char x) && like f p' s' end
      end
  end.
Definition sample_ilike (s pattern : string) : bool :=
  let p := String.list_ascii_of_string pattern in
  let l := String.list_ascii_of_string s in
  like (S (length p + length l)) p l.

Definition sample_hashtext (s : string) : Z :=
  foldl (λ h c, (31 * h + Z.of_N (Ascii.N_of_ascii c)) mod 2147483648) 0 (String.list_ascii_of_string s).

(** The clock advances by one millisecond per external call; Redis and Postgres
    answer; no socket is connected. *)
Definition sample_env : Env := {|
  now_at n := 1700000000000 + Z.of_nat n;
  uuid_at n i := "id-" +:+ z_to_string (Z.of_nat n) +:+ "-" +:+ z_to_string (Z.of_nat i);
  conn_at _ := CReady;
  db_fault _ := None;
  sql_error code := ErrObj "Error" "Failed query" JNull (PgError code "duplicate key") JNull JNull JNull JNull;
  sockets_at _ _ := Some [];
  queue_fault _ := None;
  socket_ids_at _ _ := Some [];
  connected_at _ _ := true;
  join_fault _ := None;
  ilike := sample_ilike;
  hashtext := sample_hashtext;
  lock_patience _ := 3%nat;
|}.

(** The same with a clock that stands still. *)
Definition frozen_env : Env := {|
  now_at _ := 1700000000000; uuid_at := @uuid_at sample_env; conn_at := @conn_at sample_env; db_fault := @db_fault sample_env;
  sql_error := @sql_error sample_env; sockets_at := @sockets_at sample_env; queue_fault := @queue_fault sample_env;
  socket_ids_at := @socket_ids_at sample_env; connected_at := @connected_at sample_env; join_fault := @join_fault sample_env; ilike := @ilike sample_env; hashtext := @hashtext sample_env;
  lock_patience := @lock_patience sample_env;
|}.

Definition sample_user (id name : string) : UserRow :=
  mkUser id name (name +:+ "@example.org") "00ff" "01" JNull "pk" "epk" "ks" "" "epks" "kss" 1 "OFFLINE" true 0 0 None.
Definition sample_channel (id type : string) : ChannelRow := mkChannel id None type false None None 0 0.
Definition sample_member (id role user channel : string) (joined : Z) : MembershipRow :=
  mkMembership id role joined None false None None user channel.
Definition sample_message (id sender channel : string) (seq : Z) : MessageRow :=
  mkMessage id "TEXT" "hello" "iv" "tag" "sig" seq 1 None false seq seq sender channel.

(** Alice, Bob and Carol in the group [g], Alice and Bob in the direct channel [d];
    two messages in [g]. *)
Definition sample_db : Db := empty_db
  <| users := [sample_user "alice" "alice"; sample_user "bob" "bob"; sample_user "carol" "carol"] |>
  <| channels := [sample_channel "g" "GROUP"; sample_channel "d" "DIRECT"] |>
  <| memberships := [sample_member "m1" "ADMIN" "alice" "g" 1; sample_member "m2" "MEMBER" "bob" "g" 2;
                     sample_member "m3" "MEMBER" "carol" "g" 3; sample_member "m4" "ADMIN" "alice" "d" 4;
                     sample_member "m5" "MEMBER" "bob" "d" 4] |>
  <| messages := [sample_message "msg1" "alice" "g" 1; sample_message "msg2" "bob" "g" 2] |>.

Definition sample_world : World (R := mem_redis) := mkWorld sample_db ∅ 0 [] true no_sockets ∅.
