(* ===== verification/RateLimit.v ===== *)
(** * RateLimit: fixed-window rate limiting

    Models shared/rate-limit/rate-limit.service.ts (socket events),
    common/rate-limit/redis-rate-limiter.ts and redis-throttler.storage.ts (HTTP),
    and the guards common/guards/rate-limit.guard.ts and app-throttler.guard.ts.
    [Window] is the abstract fixed window the counters implement. *)
From Stdlib Require Import String.
From S2P Require Import Prelude JsString Json Effects Errors Redis Schema World Samples Crypto.
From stdpp Require Import base list strings.

Local Open Scope string_scope.
Local Open Scope Z_scope.
Local Open Scope list_scope.

(** ** The abstract window: hits counted and the time it closes *)
Module Window.
Definition t : Type := option (Z * Z).

Definition count_hit (windowMs now : Z) (w : t) : Z * t :=
  match w with
  | Some (count, expiry) => if now <=? expiry then (count + 1, Some (count + 1, expiry)) else (1, Some (1, now + windowMs))
  | None => (1, Some (1, now + windowMs))
  end.

(** The entry of the counter's key stands for the window. *)
Definition rep (w : t) (e : option entry) : Prop :=
  match w with
  | Some (count, expiry) => e = Some (RStr (z_to_string count), Some expiry) ∧ 1 ≤ count
  | None => e = None
  end.
End Window.

(** ** RateLimitService *)
Record RateLimitConfig := mkRateLimitConfig { windowMs : Z; maxRequests : Z }.
Record RateLimitResult := mkRateLimitResult { allowed : bool; remaining : Z; resetMs : Z }.

Definition SEND_MESSAGE := mkRateLimitConfig 1000 20.
Definition TYPING := mkRateLimitConfig 1000 10.
Definition GET_MESSAGES := mkRateLimitConfig 1000 30.
Definition REACTION := mkRateLimitConfig 1000 20.
Definition CONNECTION_PER_IP := mkRateLimitConfig 60000 120.

Section RateLimitService.
Context {R : Redis} {E : Env}.

Definition eval_fixed_window (key : string) (argv : Z) : M (Z * Z) :=
  on_redis (λ now r, fixed_window_lua key argv now r).

Definition fail_open (config : RateLimitConfig) : RateLimitResult := mkRateLimitResult true (maxRequests config) 0.

Definition checkRateLimit (key : string) (config : RateLimitConfig) : M RateLimitResult :=
  let! client := getClient in
  if negb client then Ret (fail_open config)
  else catch
    (let! ' (count, ttl) := eval_fixed_window ("zevra:ratelimit:" +:+ key) (windowMs config) in
     let! now := Date_now in
     Ret (mkRateLimitResult (count <=? maxRequests config) (Z.max 0 (maxRequests config - count)) (now + Z.max 0 ttl)))
    (λ _, Ret (fail_open config)).
End RateLimitService.

(** ** RedisRateLimiter, the throttler storage and the route guard *)
Definition RATE_LIMIT_PREFIX : string := "zevra:ratelimit".

Record HitResult := mkHitResult { h_allowed : bool; h_count : Z; h_limit : Z; h_resetMs : Z }.

Record ThrottlerStorageRecord := mkThrottlerStorageRecord {
  totalHits : Z; timeToExpire : Z; isBlocked : bool; timeToBlockExpire : Z;
}.

(** [Math.ceil(ms / 1000)] *)
Definition ceil_seconds (ms : Z) : Z := - ((- ms) / 1000).

Section RedisRateLimiter.
Context {R : Redis} {E : Env}.

Definition increment (redisKey : string) (windowMs : Z) : M (Z * Z) :=
  let! client := getClient in
  if negb client then Ret (0, windowMs)
  else catch
    (let! ' (count, ttl) := eval_fixed_window redisKey (Z.max 1 windowMs) in Ret (count, Z.max 0 ttl))
    (λ _, Ret (0, windowMs)).

Definition hit (scope key : string) (limit windowMs : Z) : M HitResult :=
  let! ' (count, ttl) := increment (RATE_LIMIT_PREFIX +:+ ":" +:+ scope +:+ ":" +:+ key) windowMs in
  Ret (mkHitResult (count <=? limit) count limit ttl).

(** RedisThrottlerStorage.increment *)
Definition throttler_increment (key : string) (ttl limit : Z) (throttlerName : string) : M ThrottlerStorageRecord :=
  let! ' (count, remainingMs) := increment (RATE_LIMIT_PREFIX +:+ ":http-" +:+ throttlerName +:+ ":" +:+ key) ttl in
  let seconds := ceil_seconds remainingMs in
  let blocked := limit <? count in
  Ret (mkThrottlerStorageRecord count seconds blocked (if blocked then seconds else 0)).
End RedisRateLimiter.

(** The part of the HTTP request the guards read. *)
Record Request := mkRequest {
  req_user_id : option string; req_ip : option string; req_body_username : option string; req_authorization : option string;
}.

Record RouteRateLimit := mkRouteRateLimit {
  rl_scope : string; rl_limit : Z; rl_windowMs : Z; rl_byUsername : bool; rl_byUser : bool;
}.

(** [jwt.verifyAsync(token)]: the subject of a valid token; with the options of the
    sockets, its subject and expiry in seconds. *)
Class Jwt := {
  verifyAsync : nat → string → outcome thrown (option string);
  verifyHS256 : nat → string → outcome thrown (string * option Z);
  signAsync : nat → string → Z → string;
}.

(** A stand-in used to evaluate the model on concrete inputs. *)
Definition toy_jwt : Jwt := {|
  verifyAsync n token := if token === "good" then Ok (Some "alice") else Err NotObject;
  verifyHS256 n token := if token === "good" then Ok ("alice", Some 1800000000) else Err NotObject;
  signAsync n sub ttl := "jwt-" +:+ sub;
|}.

Section Guards.
Context {R : Redis} {E : Env} {C : Crypto}.

Definition nonempty (s : option string) : option string :=
  match s with Some v => if v === "" then None else Some v | None => None end.

Definition route_keys (options : RouteRateLimit) (req : Request) : list string :=
  (match (if rl_byUser options then nonempty (req_user_id req) else None) with
   | Some id => ["user:" +:+ id]
   | None => ["ip:" +:+ hashKey (default "unknown" (req_ip req))]
   end) ++
  (match (if rl_byUsername options then nonempty (req_body_username req) else None) with
   | Some username => ["username:" +:+ hashKey (toLowerCase (trim username))]
   | None => []
   end).

Definition canActivate (options : option RouteRateLimit) (is_http : bool) (req : Request) : M bool :=
  match options with
  | None => Ret true
  | Some options =>
      if negb is_http then Ret true
      else
        do! for_each (route_keys options req) (λ key,
          let! result := hit (rl_scope options) key (rl_limit options) (rl_windowMs options) in
          when negb (h_allowed result) do
            do! send_effect (SetHeader "Retry-After" (z_to_string (Z.max 1 (ceil_seconds (h_resetMs result)))));
            Throw (HttpException 429 (JStr "Too many requests, please try again later") "Too many requests, please try again later"));
        Ret true
  end.

Context {J : Jwt}.

(** AppThrottlerGuard *)
Definition shouldSkip (is_http : bool) : bool := negb is_http.

Definition ip_tracker (req : Request) : string := "ip:" +:+ default "unknown" (req_ip req).

Definition getTracker (req : Request) : M string :=
  match req_authorization req with
  | Some header =>
      if startsWith header "Bearer "
      then
        catch
          (let! sub := act (λ n w, (verifyAsync n (String.substring 7 (String.length header - 7) header), w)) in
           match nonempty sub with
           | Some id => Ret ("user:" +:+ id)
           | None => Ret (ip_tracker req)
           end)
          (λ _, Ret (ip_tracker req))
      else Ret (ip_tracker req)
  | None => Ret (ip_tracker req)
  end.

Definition generateKey (suffix name : string) : string := name +:+ ":" +:+ suffix.
End Guards.

(** ** The script implements the window *)
Section Script.
Context {R : Redis} {RL : RedisLaws R}.

Definition below_max (win : Window.t) : Prop := match win with Some (c, _) => c < int64_max | None => True end.

Lemma fixed_window_ok key argv now r win n win' :
  0 < argv → Window.rep win (rentry r key) → below_max win → Window.count_hit argv now win = (n, win') →
  ∃ r' expiry, fixed_window_lua key argv now r = (Some (n, expiry - now), r') ∧ win' = Some (n, expiry) ∧
    Window.rep win' (rentry r' key) ∧ ∀ k, k ≠ key → rentry r' k = rentry r k.
Proof.
  intros Ha Hrep Hmax Hhit. unfold fixed_window_lua, Window.t in *.
  assert (Hfresh : live now (rentry r key) = None → n = 1 ∧ win' = Some (1, now + argv) →
    ∃ r' expiry, fixed_window_lua key argv now r = (Some (n, expiry - now), r') ∧ win' = Some (n, expiry) ∧
      Window.rep win' (rentry r' key) ∧ ∀ k, k ≠ key → rentry r' k = rentry r k).
  { intros Hl [-> ->]. unfold fixed_window_lua.
    destruct (exec_spec now (Incr key) r (RpInt 1) (Some (RStr "1", None))) as (r1 & -> & H1); [simpl; by rewrite Hl|].
    destruct (exec_spec now (PTtl key) r1 (RpInt (-1)) (Some (RStr "1", None))) as (r2 & -> & H2);
      [simpl; by rewrite H1, decide_True by done|]. simpl.
    destruct (exec_spec now (PExpire key argv) r2 (RpInt 1) (Some (RStr "1", Some (now + argv)))) as (r3 & -> & H3).
    { simpl. rewrite H2, decide_True by done. simpl. by rewrite (proj2 (Z.ltb_lt 0 argv)). }
    exists r3, (now + argv). split; [repeat f_equal; lia|]. split; [done|]. split.
    - simpl. rewrite H3, decide_True by done. done.
    - intros k Hk. by rewrite H3, H2, H1, !decide_False by done. }
  destruct win as [[c expiry]|]; simpl in *; [|injection Hhit as <- <-; apply Hfresh; [by rewrite Hrep|done]].
  destruct Hrep as [He Hc]. destruct (Z.leb_spec now expiry); simplify_eq; [|apply Hfresh; [rewrite He; simpl; by rewrite (proj2 (Z.leb_gt now expiry))|done]].
  destruct (exec_spec now (Incr key) r (RpInt (c + 1)) (Some (RStr (z_to_string (c + 1)), Some expiry))) as (r1 & -> & H1).
  { simpl. rewrite He. simpl. rewrite (proj2 (Z.leb_le now expiry)) by done. by rewrite string_to_z_to_string, (proj2 (Z.ltb_lt c _)). }
  destruct (exec_spec now (PTtl key) r1 (RpInt (expiry - now)) (Some (RStr (z_to_string (c + 1)), Some expiry))) as (r2 & -> & H2).
  { simpl. rewrite H1, decide_True by done. simpl. by rewrite (proj2 (Z.leb_le now expiry)). }
  replace ((c + 1 =? 1) || (expiry - now <? 0)) with false by (zcase; lia || done).
  exists r2, expiry. split; [done|]. split; [done|]. split.
  - simpl. rewrite H2, decide_True by done. split; [done|lia].
  - intros k Hk. by rewrite H2, H1, !decide_False by done.
Qed.
End Script.

(** ** Properties *)
Section Properties.
Context {R : Redis} {RL : RedisLaws R} {E : Env}.

Definition rl_key (key : string) : string := "zevra:ratelimit:" +:+ key.

(** What one call does to the window: the postcondition of [checkRateLimit]. *)
Definition one_hit key config (win' : Window.t) (n : Z) (w : World) (o : outcome thrown RateLimitResult) (w' : World) : Prop :=
  (∃ expiry, win' = Some (n, expiry) ∧
     o = Ok (mkRateLimitResult (n <=? maxRequests config) (Z.max 0 (maxRequests config - n))
               (now_at (S (S (w_tick w))) + Z.max 0 (expiry - now_at (S (w_tick w)))))) ∧
  Window.rep win' (rentry (w_redis w') (rl_key key)) ∧
  (∀ k, k ≠ rl_key key → rentry (w_redis w') k = rentry (w_redis w) k) ∧
  w_db w' = w_db w ∧ w_out w' = w_out w ∧ w_tick w' = S (S (S (w_tick w))).

Lemma checkRateLimit_hit key config win win' n (w : World) :
  redis_ready → 0 < windowMs config → Window.rep win (rentry (w_redis w) (rl_key key)) → below_max win →
  Window.count_hit (windowMs config) (now_at (S (w_tick w))) win = (n, win') →
  wp (checkRateLimit key config) (one_hit key config win' n w) w.
Proof.
  intros Hready Hpos Hrep Hmax Hhit.
  unfold checkRateLimit. wp_steps. apply wp_getClient_ready; [done|]. cbn [negb]. wp_steps.
  destruct (fixed_window_ok _ _ _ _ _ _ _ Hpos Hrep Hmax Hhit) as (r' & expiry & Hf & Hwin & Hrep' & Hframe).
  eapply wp_on_redis_ready; [done|exact Hf|]. wp_steps. split; [by exists expiry|]. done.
Qed.

(** C10: when Redis answers, [checkRateLimit] is one hit of the abstract fixed
    window its key stands for, at the time of the script: it allows the call
    exactly when the hit's rank is within [maxRequests], reports the remaining
    budget and the closing time, and touches no other key, table or room. *)
Theorem checkRateLimit_refines key config (win win' : Window.t) n (w : World)
  (Hready : redis_ready) (Hpos : 0 < windowMs config)
  (Hrep : Window.rep win (rentry (w_redis w) (rl_key key))) (Hmax : below_max win)
  (Hhit : Window.count_hit (windowMs config) (now_at (S (w_tick w))) win = (n, win')) :
  wp (checkRateLimit key config) (one_hit key config win' n w) w.
Proof. by apply checkRateLimit_hit with win. Qed.

(** [checkRateLimit] always returns, whatever Redis does, and it fails open:
    when the client is not ready or the command fails the call is allowed with
    the full budget. *)
Theorem checkRateLimit_fails_open key config (w : World) :
  wp (checkRateLimit key config) (λ o _,
    (∃ r, o = Ok r) ∧
    (conn_at (w_tick w) = CNull ∨ conn_at (S (w_tick w)) ≠ CReady → o = Ok (fail_open config))) w.
Proof.
  unfold checkRateLimit. wp_steps. apply wp_act'. destruct (conn_at (w_tick w)) eqn:Hc; cbn [negb]; wp_steps; [by eauto| |].
  all: apply wp_act'; change (w_tick (tick w)) with (S (w_tick w)); destruct (conn_at (S (w_tick w))) as [| |[]] eqn:Hc';
    wp_steps; try by eauto.
  all: destruct (fixed_window_lua _ _ _ _) as [[[count ttl]|] r]; wp_steps; [|by eauto].
  all: split; [by eauto|intros [?|?]; congruence].
Qed.

(** A client that calls [checkRateLimit] [n] times in a row: the decisions. *)
Fixpoint calls (n : nat) (key : string) (config : RateLimitConfig) : M (list bool) :=
  match n with
  | O => Ret []
  | S n' => let! r := checkRateLimit key config in
            let! rs := calls n' key config in Ret (allowed r :: rs)
  end.

Definition decisions (config : RateLimitConfig) (from : Z) (n : nat) : list bool :=
  map (λ i, i <=? maxRequests config) (seqZ from (Z.of_nat n)).

Lemma decisions_cons config from n : decisions config from (S n) = (from <=? maxRequests config) :: decisions config (from + 1) n.
Proof. unfold decisions. rewrite Nat2Z.inj_succ, seqZ_cons, Z.pred_succ by lia. by rewrite Z.add_1_r. Qed.

Lemma calls_in_window n key config count expiry (w : World) :
  redis_ready → 0 < windowMs config → (∀ t, (w_tick w ≤ t < w_tick w + 3 * n)%nat → now_at t ≤ expiry) → 1 ≤ count →
  count + Z.of_nat n ≤ int64_max → rentry (w_redis w) (rl_key key) = Some (RStr (z_to_string count), Some expiry) →
  wp (calls n key config) (λ o _, o = Ok (decisions config (count + 1) n)) w.
Proof.
  intros Hready Hpos. revert count w. induction n as [|n IH]; intros count w Hnow Hc Hmax He; [done|].
  cbn [calls]. apply wp_bind. eapply wp_mono.
  { apply (checkRateLimit_hit _ _ (Some (count, expiry)) (Some (count + 1, expiry)) (count + 1)); [done..| |].
    - simpl. lia.
    - simpl. rewrite (proj2 (Z.leb_le _ _)); [done|]. apply Hnow. lia. }
  intros o w1 ((expiry' & [= <-] & ->) & Hrep & _ & _ & _ & Ht). simpl in Hrep. wp_steps. eapply wp_mono.
  { apply (IH (count + 1)); [intros t ?; apply Hnow|..|apply Hrep]; lia. }
  intros ? w2 ->. wp_steps. by rewrite decisions_cons.
Qed.

(** C39: exactness of the limit over a whole window: [n] calls on a fresh key,
    all before the window opened by the first one closes, are decided "allowed"
    for the first [maxRequests] and "refused" for all the others. *)
Theorem rate_limit_exact n key config (w : World)
  (Hready : redis_ready) (Hpos : 0 < windowMs config) (Hn : Z.of_nat n ≤ int64_max)
  (Hfresh : rentry (w_redis w) (rl_key key) = None)
  (Hnow : ∀ t, (S (w_tick w) ≤ t < w_tick w + 3 * n)%nat → now_at t ≤ now_at (S (w_tick w)) + windowMs config) :
  wp (calls n key config) (λ o _, o = Ok (decisions config 1 n)) w.
Proof.
  destruct n as [|n]; [done|]. cbn [calls]. apply wp_bind. eapply wp_mono.
  { by apply (checkRateLimit_hit _ _ None (Some (1, now_at (S (w_tick w)) + windowMs config)) 1). }
  intros o w1 ((expiry' & [= <-] & ->) & Hrep & _ & _ & _ & Ht). simpl in Hrep. wp_steps. eapply wp_mono.
  { apply (calls_in_window n key config 1 (now_at (S (w_tick w)) + windowMs config)); [done|done|..|apply Hrep]; try lia.
    intros t ?. apply Hnow. lia. }
  intros ? w2 ->. wp_steps. by rewrite decisions_cons.
Qed.
End Properties.

(** ** The properties on a concrete state *)
Section Witnesses.
#[local] Existing Instance sample_env.

Lemma checkRateLimit_refines_witness :
  wp (checkRateLimit "send-message:alice" SEND_MESSAGE)
    (one_hit "send-message:alice" SEND_MESSAGE (Some (1, now_at 1 + 1000)) 1 sample_world) sample_world.
Proof. apply (checkRateLimit_refines "send-message:alice" SEND_MESSAGE None); by vm_compute. Defined.

Lemma rate_limit_exact_witness :
  wp (calls 25 "send-message:alice" SEND_MESSAGE) (λ o _, o = Ok (repeat true 20 ++ repeat false 5)) sample_world.
Proof.
  apply (rate_limit_exact 25 "send-message:alice" SEND_MESSAGE sample_world); [done|done|by vm_compute|done|].
  intros t Ht. cbn in *. lia.
Defined.
End Witnesses.
