(* ===== verification/RedisSession.v ===== *)
(** * RedisSession: sockets, presence and the offline queue

    Models redis/redis-session.service.ts.  A user's sockets are a sorted set of
    socket ids scored by last heartbeat, presence is a key with a TTL, and the
    offline queue is a sorted set of JSON payloads scored by creation time. *)
From Stdlib Require Import String.
From S2P Require Import Prelude JsString Json IsoDate Effects Errors Redis Schema World Samples.
From stdpp Require Import base list strings gmap.

Local Open Scope string_scope.
Local Open Scope Z_scope.
Local Open Scope list_scope.

(** ** The payload of [message:new] *)
Record PendingMessage := mkPendingMessage {
  pm_id : string; pm_messageId : string; pm_channelId : string; pm_senderId : string; pm_senderUsername : option string;
  pm_encryptedContent : string; pm_contentIv : string; pm_contentTag : string; pm_signature : string;
  pm_sequenceNumber : Z; pm_senderKeyEpoch : Z; pm_messageType : string; pm_metadata : option json;
  pm_isDeleted : bool; pm_createdAt : string;
}.

Definition json_opt (s : option string) : json := match s with Some s => JStr s | None => JNull end.

Definition pending_json (m : PendingMessage) : json :=
  JObj [("id", JStr (pm_id m)); ("messageId", JStr (pm_messageId m)); ("channelId", JStr (pm_channelId m));
        ("senderId", JStr (pm_senderId m)); ("senderUsername", json_opt (pm_senderUsername m));
        ("encryptedContent", JStr (pm_encryptedContent m)); ("contentIv", JStr (pm_contentIv m));
        ("contentTag", JStr (pm_contentTag m)); ("signature", JStr (pm_signature m));
        ("sequenceNumber", JNum (pm_sequenceNumber m)); ("senderKeyEpoch", JNum (pm_senderKeyEpoch m));
        ("messageType", JStr (pm_messageType m)); ("metadata", default JNull (pm_metadata m));
        ("isDeleted", JBool (pm_isDeleted m)); ("createdAt", JStr (pm_createdAt m))].

(** ** Replies of a transaction: [res[i] ?? 0], [res[i]] as a list *)
Definition int_at (i : nat) (res : list reply) : Z := match res !! i with Some (RpInt z) => z | _ => 0 end.
Definition arr_of (r : reply) : list string := match r with RpArr l => l | _ => [] end.

Section Session.
Context {R : Redis} {E : Env}.

(** ** Socket registry *)
Definition addSocket (userId socketId : string) : M (option Z) :=
  with_redis None
    (let key := RedisKeys.sockets userId in
     let! now := Date_now in
     let! res := redis_multi [ZRemRangeByScore key NegInf (Score (now - RedisTtl.socketStaleMs));
                              ZAdd key now socketId;
                              Expire key RedisTtl.socketsSeconds;
                              ZCard key] in
     Ret (Some (int_at 3 res))).

Definition refreshSocket (userId socketId : string) : M () :=
  with_redis tt
    (let key := RedisKeys.sockets userId in
     let! now := Date_now in
     do! redis_multi [ZAdd key now socketId; Expire key RedisTtl.socketsSeconds];
     Ret tt).

Definition removeSocket (userId socketId : string) : M (option Z) :=
  with_redis None
    (let key := RedisKeys.sockets userId in
     let! now := Date_now in
     let! res := redis_multi [ZRem key [socketId];
                              ZRemRangeByScore key NegInf (Score (now - RedisTtl.socketStaleMs));
                              ZCard key] in
     Ret (Some (int_at 2 res))).

(** ** Presence *)
Definition setOnline (userId : string) : M () :=
  with_redis tt (do! redis_cmd (SetEx (RedisKeys.presence userId) RedisTtl.presenceSeconds "online"); Ret tt).

Definition setOffline (userId : string) : M () :=
  with_redis tt (do! redis_cmd (Del (RedisKeys.presence userId)); Ret tt).

Definition isOnline (userId : string) : M bool :=
  with_redis false
    (let! r := redis_cmd (Get (RedisKeys.presence userId)) in
     Ret (match r with RpStr (Some v) => v === "online" | _ => false end)).

Definition is_online_value (v : option string) : bool := match v with Some s => s === "online" | None => false end.

Definition getOnlineUsers (userIds : list string) : M (list string) :=
  let! client := getClient in
  if negb client || (userIds === []) then Ret []
  else catch
    (let! values := redis_mget (map RedisKeys.presence userIds) in
     Ret (unique (map fst (List.filter (λ p, is_online_value p.2) (combine userIds values)))))
    (λ _, Ret []).

(** ** Offline queue *)
Definition addPendingMessage (userIds : list string) (message : PendingMessage) : M () :=
  let! client := getClient in
  if negb client || (userIds === []) then Ret tt
  else catch
    (let value := stringify (pending_json message) in
     let! score := match Date_parse (pm_createdAt message) with
                   | Some t => if t =? 0 then Date_now else Ret t
                   | None => Date_now
                   end in
     do! redis_multi (flat_map (λ userId,
           [ZAdd (RedisKeys.pending userId) score value; Expire (RedisKeys.pending userId) RedisTtl.pendingSeconds]) userIds);
     Ret tt)
    (λ _, Ret tt).

(** The second half of [popPendingMessages], once the oldest entries are read. *)
Definition popEntries (key : string) (raw : list string) : M (list json * Z) :=
  let! res := redis_multi [ZRem key raw; ZCard key] in
  Ret (omap parse raw, int_at 1 res).

Definition popPendingMessages (userId : string) (limit : Z) : M (list json * Z) :=
  with_redis ([], 0)
    (let key := RedisKeys.pending userId in
     let! r := redis_cmd (ZRange key 0 (limit - 1)) in
     let raw := arr_of r in
     if raw === [] then Ret ([], 0) else popEntries key raw).
End Session.

(** ** The registry as a map from live sockets to heartbeats *)
Definition registry (now : Z) (e : option entry) : gmap string Z := zmap (default [] (as_zset (live now e))).
Definition is_zset (e : option entry) : Prop := as_zset e ≠ None.

Definition not_stale (t : Z) (m : gmap string Z) : gmap string Z := filter (λ kv, t - RedisTtl.socketStaleMs < kv.2) m.

Definition prune (t : Z) (z : list (Z * string)) : list (Z * string) :=
  List.filter (λ x, negb (in_score NegInf (Score (t - RedisTtl.socketStaleMs)) x)) z.

Lemma zmap_prune t z : NoDup (members z) → zmap (prune t z) = not_stale t (zmap z).
Proof.
  intros Hz. unfold prune. rewrite zmap_filter by done. apply map_filter_ext. intros k v _. unfold in_score; simpl.
  rewrite negb_true_iff, Z.leb_gt. done.
Qed.

Ltac live_side := solve [repeat first [apply live_keep | apply live_ttl | apply live_live]].

(** Unfolds a transaction on a sorted set whose live entry holds [z]. *)
Ltac zset_chain :=
  repeat first
    [ progress cbn [chain cmd_spec cmd_key mbind option_bind ttl_of as_zset]
    | rewrite as_zset_keep | rewrite live_live | rewrite live_keep by live_side | rewrite live_ttl by live_side
    | rewrite live_some by (unfold RedisTtl.socketsSeconds, RedisTtl.pendingSeconds; lia)
    | match goal with |- context [0 <? ?c] => change (0 <? c) with true; cbn match end
    | match goal with H : as_zset _ = Some _ |- _ => rewrite H end ].

Section Chains.
Context (now t : Z) (id key : string) (e : option entry) (z : list (Z * string)).
Hypothesis Hz : as_zset (live now e) = Some z.

Lemma chain_addSocket :
  ∃ rps, chain now [ZRemRangeByScore key NegInf (Score (t - RedisTtl.socketStaleMs)); ZAdd key t id;
                    Expire key RedisTtl.socketsSeconds; ZCard key] e
         = Some (rps, Some (RZset (zset_add t id (prune t z)), Some (now + RedisTtl.socketsSeconds * 1000)))
       ∧ int_at 3 rps = Z.of_nat (length (zset_add t id (prune t z))).
Proof. eexists. split; [zset_chain; reflexivity|done]. Qed.

Lemma chain_refreshSocket :
  ∃ rps, chain now [ZAdd key t id; Expire key RedisTtl.socketsSeconds] e
         = Some (rps, Some (RZset (zset_add t id z), Some (now + RedisTtl.socketsSeconds * 1000))).
Proof. eexists. zset_chain. reflexivity. Qed.

Lemma chain_removeSocket :
  ∃ rps e', chain now [ZRem key [id]; ZRemRangeByScore key NegInf (Score (t - RedisTtl.socketStaleMs)); ZCard key] e
         = Some (rps, e') ∧ live now e' = e' ∧ as_zset e' = Some (prune t (zset_rem [id] z)) ∧
         int_at 2 rps = Z.of_nat (length (prune t (zset_rem [id] z))).
Proof.
  do 2 eexists. split; [zset_chain; reflexivity|]. split; [apply live_keep; live_side|].
  split; [apply as_zset_keep|done].
Qed.

Lemma chain_pop raw :
  ∃ rps e', chain now [ZRem key raw; ZCard key] e = Some (rps, e') ∧ live now e' = e' ∧
    as_zset e' = Some (zset_rem raw z) ∧ int_at 1 rps = Z.of_nat (length (zset_rem raw z)).
Proof.
  do 2 eexists. split; [zset_chain; reflexivity|]. split; [apply live_keep; live_side|].
  split; [apply as_zset_keep|done].
Qed.

Lemma chain_enqueue score value :
  ∃ rps, chain now [ZAdd key score value; Expire key RedisTtl.pendingSeconds] e
         = Some (rps, Some (RZset (zset_add score value z), Some (now + RedisTtl.pendingSeconds * 1000))).
Proof. eexists. zset_chain. reflexivity. Qed.
End Chains.

Section SessionProofs.
Context {R : Redis} {RL : RedisLaws R} {E : Env}.

(** The entry of a key holds a sorted set, if anything. *)
Definition zset_entry (w : World) (key : string) : Prop :=
  entry_wf (rentry (w_redis w) key) ∧ is_zset (rentry (w_redis w) key).

Lemma zset_live w key now : zset_entry w key →
  ∃ z, as_zset (live now (rentry (w_redis w) key)) = Some z ∧ NoDup (members z) ∧ by_score z.
Proof.
  intros [Hwf Hz]. apply (entry_wf_live now) in Hwf. unfold is_zset in Hz.
  destruct (as_zset (live now (rentry (w_redis w) key))) as [z|] eqn:Heq.
  - exists z. split; [done|]. by eapply as_zset_wf.
  - exfalso. destruct (rentry (w_redis w) key) as [[v [t|]]|]; simpl in *; try done. by destruct (now <=? t).
Qed.

Lemma registry_alive now t' z : t' ≤ now + RedisTtl.socketsSeconds * 1000 →
  registry t' (Some (RZset z, Some (now + RedisTtl.socketsSeconds * 1000))) = zmap z.
Proof. intros Ht. unfold registry. by rewrite live_some. Qed.

Lemma registry_dead now t' z : now + RedisTtl.socketsSeconds * 1000 < t' →
  registry t' (Some (RZset z, Some (now + RedisTtl.socketsSeconds * 1000))) = ∅.
Proof. intros Ht. unfold registry, live. by rewrite (proj2 (Z.leb_gt _ _)). Qed.

(** After a heartbeat the key stands for [m] during 120 s, then for no socket. *)
Definition stands_for (m : gmap string Z) (now : Z) (key : string) (w w' : World) : Prop :=
  (∀ t, t ≤ now + 120000 → registry t (rentry (w_redis w') key) = m) ∧
  (∀ t, now + 120000 < t → registry t (rentry (w_redis w') key) = ∅) ∧
  zset_entry w' key ∧ (∀ k, k ≠ key → rentry (w_redis w') k = rentry (w_redis w) k) ∧ w_db w' = w_db w.

Lemma stands_for_intro now key z m (w : World) r w' :
  NoDup (members z) → by_score z → zmap z = m → w_redis w' = r → w_db w' = w_db w →
  (∀ k, rentry r k = if decide (k = key) then Some (RZset z, Some (now + RedisTtl.socketsSeconds * 1000)) else rentry (w_redis w) k) →
  stands_for m now key w w'.
Proof.
  intros Hnd Hbs <- <- Hdb Hr. split; [|split; [|split; [|split; [|done]]]].
  - intros t Ht. rewrite Hr, decide_True by done. by apply registry_alive.
  - intros t Ht. rewrite Hr, decide_True by done. by apply registry_dead.
  - unfold zset_entry. rewrite Hr, decide_True by done. by repeat split.
  - intros k Hk. by rewrite Hr, decide_False.
Qed.

(** [addSocket] registers the socket in the map of live sockets the key stands
    for: sockets without a heartbeat for 95 s are dropped, this one beats now, the
    reply is the number of live sockets, the key lives 120 s, nothing else moves. *)
Lemma addSocket_refines userId socketId (w : World)
  (Hready : redis_ready) (Hz : zset_entry w (RedisKeys.sockets userId)) :
  let key := RedisKeys.sockets userId in
  let t := now_at (S (w_tick w)) in
  let now := now_at (S (S (w_tick w))) in
  let m := <[socketId := t]> (not_stale t (registry now (rentry (w_redis w) key))) in
  wp (addSocket userId socketId)
     (λ o w', o = Ok (Some (Z.of_nat (size m))) ∧ stands_for m now key w w') w.
Proof.
  intros key t now m. unfold addSocket. apply wp_with_redis_ready; [done|]. wp_steps.
  destruct (zset_live w key now Hz) as (z & Hzs & Hnd & Hbs).
  assert (Hnd' : NoDup (members (zset_add t socketId (prune t z)))) by by apply NoDup_zset_add, NoDup_members_filter.
  assert (Hm : zmap (zset_add t socketId (prune t z)) = m).
  { rewrite zmap_zset_add, zmap_prune by (done || by apply NoDup_members_filter). subst m. unfold registry. by rewrite Hzs. }
  destruct (chain_addSocket now t socketId key _ z Hzs) as (rps & Hch & Hcard).
  eapply (wp_multi_ready _ key); [done|by repeat constructor|exact Hch|]. intros r Hr. wp_steps.
  rewrite Hcard, <-zmap_size, Hm by done. split; [done|].
  eapply stands_for_intro; [exact Hnd'| |exact Hm|..]; try done. by apply by_score_add, by_score_filter.
Qed.

(** a heartbeat only moves the socket's own score (registering it again if it
    was dropped) and lets the key live 120 s more. *)
Theorem refreshSocket_refines userId socketId (w : World)
  (Hready : redis_ready) (Hz : zset_entry w (RedisKeys.sockets userId)) :
  let key := RedisKeys.sockets userId in
  let t := now_at (S (w_tick w)) in
  let now := now_at (S (S (w_tick w))) in
  wp (refreshSocket userId socketId)
     (λ o w', o = Ok tt ∧ stands_for (<[socketId := t]> (registry now (rentry (w_redis w) key))) now key w w') w.
Proof.
  intros key t now. unfold refreshSocket. apply wp_with_redis_ready; [done|]. wp_steps.
  destruct (zset_live w key now Hz) as (z & Hzs & Hnd & Hbs).
  destruct (chain_refreshSocket now t socketId key _ z Hzs) as (rps & Hch).
  eapply (wp_multi_ready _ key); [done|by repeat constructor|exact Hch|]. intros r Hr. wp_steps. split; [done|].
  eapply (stands_for_intro now key (zset_add t socketId z)); try done.
  - by apply NoDup_zset_add.
  - by apply by_score_add.
  - unfold registry. rewrite Hzs. by apply zmap_zset_add.
Qed.

(** [removeSocket] unregisters the socket and the stale ones, and its reply is
    the number of sockets that stay; 0 is how the last disconnect is recognised. *)
Lemma removeSocket_refines userId socketId (w : World)
  (Hready : redis_ready) (Hz : zset_entry w (RedisKeys.sockets userId)) :
  let key := RedisKeys.sockets userId in
  let t := now_at (S (w_tick w)) in
  let now := now_at (S (S (w_tick w))) in
  let m := not_stale t (delete socketId (registry now (rentry (w_redis w) key))) in
  wp (removeSocket userId socketId)
     (λ o w', o = Ok (Some (Z.of_nat (size m))) ∧ registry now (rentry (w_redis w') key) = m ∧ zset_entry w' key ∧
        (∀ k, k ≠ key → rentry (w_redis w') k = rentry (w_redis w) k) ∧ w_db w' = w_db w) w.
Proof.
  intros key t now m. unfold removeSocket. apply wp_with_redis_ready; [done|]. wp_steps.
  destruct (zset_live w key now Hz) as (z & Hzs & Hnd & Hbs).
  assert (Hnd' : NoDup (members (prune t (zset_rem [socketId] z)))) by by do 2 apply NoDup_members_filter.
  assert (Hm : zmap (prune t (zset_rem [socketId] z)) = m).
  { rewrite zmap_prune, zmap_zset_rem by (done || by apply NoDup_members_filter). subst m. unfold registry. by rewrite Hzs. }
  destruct (chain_removeSocket now t socketId key _ z Hzs) as (rps & e' & Hch & Hl & He' & Hcard).
  eapply (wp_multi_ready _ key); [done|by repeat constructor|exact Hch|]. intros r Hr. wp_steps.
  rewrite Hcard, <-zmap_size, Hm by done. split; [done|].
  unfold zset_entry, registry, is_zset. cbn [w_redis tick modify_field]. rewrite Hr, decide_True by done.
  rewrite Hl, He'. split; [done|]. split; [|split; [|done]].
  - split; [|done]. destruct e' as [[[] ?]|]; simplify_eq/=; try done. split; [done|]. by do 2 apply by_score_filter.
  - intros k Hk. by rewrite Hr, decide_False.
Qed.

(** C37: refinement: the sorted set of a user's sockets stands for the map from live
    sockets to their last heartbeats.  [addSocket] drops the sockets without a heartbeat
    for 95 s, adds this one with the present time and answers the number of live
    sockets; [refreshSocket] sets the heartbeat of one; [removeSocket] takes it away with
    the stale ones and answers how many stay, 0 being how the last disconnect is
    recognised.  The key lives 120 s from each addition or heartbeat, and nothing else
    moves. *)
Theorem socket_registry_refines userId socketId (w : World)
  (Hready : redis_ready) (Hz : zset_entry w (RedisKeys.sockets userId)) :
  let key := RedisKeys.sockets userId in
  let t := now_at (S (w_tick w)) in
  let now := now_at (S (S (w_tick w))) in
  let m := registry now (rentry (w_redis w) key) in
  let added := <[socketId := t]> (not_stale t m) in
  let refreshed := <[socketId := t]> m in
  let removed := not_stale t (delete socketId m) in
  wp (addSocket userId socketId) (λ o w', o = Ok (Some (Z.of_nat (size added))) ∧ stands_for added now key w w') w ∧
  wp (refreshSocket userId socketId) (λ o w', o = Ok tt ∧ stands_for refreshed now key w w') w ∧
  wp (removeSocket userId socketId)
     (λ o w', o = Ok (Some (Z.of_nat (size removed))) ∧ registry now (rentry (w_redis w') key) = removed ∧ zset_entry w' key ∧
        (∀ k, k ≠ key → rentry (w_redis w') k = rentry (w_redis w) k) ∧ w_db w' = w_db w) w.
Proof. split_and!; [by apply addSocket_refines|by apply refreshSocket_refines|by apply removeSocket_refines]. Qed.

(** ** The offline queue *)
Definition queue (now : Z) (w : World) (userId : string) : list (Z * string) :=
  default [] (as_zset (live now (rentry (w_redis w) (RedisKeys.pending userId)))).

Lemma queue_wf now w userId : zset_entry w (RedisKeys.pending userId) →
  as_zset (live now (rentry (w_redis w) (RedisKeys.pending userId))) = Some (queue now w userId) ∧
  NoDup (members (queue now w userId)) ∧ by_score (queue now w userId).
Proof. intros Hz. destruct (zset_live w _ now Hz) as (z & Hzs & ?). unfold queue. by rewrite Hzs. Qed.

Lemma popEntries_spec userId raw (w : World) Q :
  redis_ready → zset_entry w (RedisKeys.pending userId) →
  (∀ w', queue (now_at (w_tick w)) w' userId = zset_rem raw (queue (now_at (w_tick w)) w userId) →
    zset_entry w' (RedisKeys.pending userId) →
    (∀ k, k ≠ RedisKeys.pending userId → rentry (w_redis w') k = rentry (w_redis w) k) → w_db w' = w_db w →
    Q (Ok (omap parse raw, Z.of_nat (length (zset_rem raw (queue (now_at (w_tick w)) w userId))))) w') →
  wp (popEntries (RedisKeys.pending userId) raw) Q w.
Proof.
  intros Hready Hz HQ. unfold popEntries. wp_steps.
  destruct (queue_wf (now_at (w_tick w)) w userId Hz) as (Hzs & Hnd & Hbs).
  destruct (chain_pop (now_at (w_tick w)) (RedisKeys.pending userId) _ _ Hzs raw) as (rps & e' & Hch & Hl & He' & Hcard).
  eapply (wp_multi_ready _ (RedisKeys.pending userId)); [done|by repeat constructor|exact Hch|]. intros r Hr. wp_steps.
  rewrite Hcard. apply HQ; [| | |done].
  - unfold queue at 1. cbn [w_redis tick modify_field]. by rewrite Hr, decide_True, Hl, He' by done.
  - unfold zset_entry, is_zset. cbn [w_redis tick modify_field]. rewrite Hr, decide_True, He' by done. split; [|done].
    destruct e' as [[[] ?]|]; simplify_eq/=; try done. split; [by apply NoDup_members_filter|by apply by_score_filter].
  - intros k Hk. cbn [w_redis tick modify_field]. by rewrite Hr, decide_False.
Qed.

(** the removal step of [popPendingMessages] deletes exactly the entries that
    were read, in whatever state other requests left the queue in between: what
    was queued concurrently stays, and the reply counts it. *)
Theorem popEntries_exact userId raw (w : World)
  (Hready : redis_ready) (Hz : zset_entry w (RedisKeys.pending userId)) :
  wp (popEntries (RedisKeys.pending userId) raw) (λ o w',
    (∀ x, x ∈ queue (now_at (w_tick w)) w' userId ↔ x ∈ queue (now_at (w_tick w)) w userId ∧ x.2 ∉ raw) ∧
    o = Ok (omap parse raw, Z.of_nat (length (queue (now_at (w_tick w)) w' userId)))) w.
Proof.
  apply popEntries_spec; [done..|]. intros w' Hq _ _ _. rewrite Hq. split; [|done].
  intros x. pose proof (elem_of_delete_where (λ y : Z * string, bool_decide (y.2 ∈ raw)) (queue (now_at (w_tick w)) w userId) x) as H.
  by rewrite bool_decide_eq_false in H.
Qed.

Lemma range_take {A} (n : nat) (l : list A) : range 0 (Z.of_nat (S n) - 1) l = take (S n) l.
Proof. unfold range. rewrite (proj2 (Z.ltb_ge (Z.of_nat (S n) - 1) 0)) by lia. simpl. f_equal. lia. Qed.

Lemma zset_rem_app l1 l2 : NoDup (members (l1 ++ l2)) → zset_rem (members l1) (l1 ++ l2) = l2.
Proof.
  intros Hnd. unfold members in Hnd. rewrite map_app in Hnd. apply NoDup_app in Hnd as (_ & Hdis & _).
  unfold zset_rem. rewrite List.filter_app, filter_none, filter_all; [done| |].
  - intros x Hx. rewrite bool_decide_eq_false_2; [done|]. intros Hx'. apply (Hdis _ Hx').
    by apply (list_elem_of_fmap_2 snd).
  - intros x Hx. rewrite bool_decide_eq_true_2; [done|]. by apply (list_elem_of_fmap_2 snd).
Qed.

Lemma zset_rem_take n z : NoDup (members z) → zset_rem (members (take n z)) z = drop n z.
Proof. intros Hnd. rewrite <-(take_drop n z) in Hnd. rewrite <-(zset_rem_app _ _ Hnd). by rewrite take_drop. Qed.

Lemma popPending_spec userId (n : nat) (w : World)
  (Hready : redis_ready) (Hz : zset_entry w (RedisKeys.pending userId))
  (Hlive : queue (now_at (S (S (w_tick w)))) w userId = queue (now_at (S (w_tick w))) w userId) :
  let q := queue (now_at (S (w_tick w))) w userId in
  wp (popPendingMessages userId (Z.of_nat (S n))) (λ o w',
    o = Ok (omap parse (members (take (S n) q)), Z.of_nat (length (drop (S n) q))) ∧
    queue (now_at (S (S (w_tick w)))) w' userId = drop (S n) q ∧ by_score q) w.
Proof.
  intros q. unfold popPendingMessages. apply wp_with_redis_ready; [done|]. wp_steps.
  destruct (queue_wf (now_at (S (w_tick w))) w userId Hz) as (Hzs & Hnd & Hbs).
  set (e := live (now_at (S (w_tick w))) (rentry (w_redis w) (RedisKeys.pending userId))) in *.
  eapply (wp_cmd_ready _ _ e); [done|cbn [cmd_spec cmd_key]; cbn [w_tick w_redis tick modify_field]; fold e; by rewrite Hzs|].
  fold q. rewrite range_take. intros r Hr. cbn [arr_of]. wp_steps.
  case_bool_decide as Hraw.
  { assert (q = []) as Hq by (revert Hraw; generalize q; by intros []). wp_steps. rewrite Hq. split; [done|].
    split; [|constructor]. fold q in Hlive. rewrite Hq in Hlive. cbn [drop]. unfold queue in *.
    cbn [w_redis tick modify_field]. rewrite Hr, decide_True by done.
    destruct (live_cases (now_at (S (w_tick w))) (rentry (w_redis w) (RedisKeys.pending userId))) as [He|He];
      subst e; rewrite He; done. }
  assert (e = rentry (w_redis w) (RedisKeys.pending userId)) as He.
  { destruct (live_cases (now_at (S (w_tick w))) (rentry (w_redis w) (RedisKeys.pending userId))) as [He|He]; [done|].
    exfalso. apply Hraw. unfold e in Hzs. rewrite He in Hzs. simpl in Hzs. injection Hzs as Hzs. fold q in Hzs. by rewrite <-Hzs. }
  assert (Hsame : ∀ k, rentry r k = rentry (w_redis w) k).
  { intros k. rewrite Hr. case_decide as Hk; [rewrite Hk; exact He|done]. }
  assert (Hq2 : ∀ t, queue t (tick (tick w <| w_redis := r |>)) userId = queue t w userId).
  { intros t. unfold queue. cbn [w_redis tick modify_field]. by rewrite Hsame. }
  apply popEntries_spec; [done| |].
  { unfold zset_entry. cbn [w_redis tick modify_field]. by rewrite Hsame. }
  rewrite Hq2. cbn [w_tick tick modify_field]. intros w' Hq' _ _ _. rewrite Hq', Hlive.
  change (map snd (take (S n) q)) with (members (take (S n) q)). rewrite zset_rem_take by done. done.
Qed.

(** without interference, [popPendingMessages] hands out the oldest [limit]
    entries of the queue, in order, leaves the rest in place and reports how many
    are left: popped and remaining entries are the queue, nothing lost or doubled. *)
Theorem popPendingMessages_oldest userId (n : nat) (w : World)
  (Hready : redis_ready) (Hz : zset_entry w (RedisKeys.pending userId))
  (Hlive : queue (now_at (S (S (w_tick w)))) w userId = queue (now_at (S (w_tick w))) w userId) :
  let q := queue (now_at (S (w_tick w))) w userId in
  wp (popPendingMessages userId (Z.of_nat (S n))) (λ o w',
    o = Ok (omap parse (members (take (S n) q)), Z.of_nat (length (drop (S n) q))) ∧
    queue (now_at (S (S (w_tick w)))) w' userId = drop (S n) q ∧ by_score q) w.
Proof. by apply popPending_spec. Qed.

Definition enqueued (now t : Z) (m : PendingMessage) (w : World) (userId : string) : option entry :=
  Some (RZset (zset_add t (stringify (pending_json m)) (queue now w userId)), Some (now + RedisTtl.pendingSeconds * 1000)).

#[local] Instance stringify_Inj : Inj (=) (=) stringify.
Proof. intros a b. apply stringify_inj. Qed.
#[local] Instance pending_inj : Inj (=) (=) RedisKeys.pending.
Proof. intros a b Hab. by apply (inj (String.append _)) in Hab. Qed.

Lemma pending_NoDup userIds : NoDup userIds → NoDup (map RedisKeys.pending userIds).
Proof. intros. by apply (NoDup_fmap_2 RedisKeys.pending). Qed.

Lemma addPendingMessage_spec userIds m t (w : World) :
  redis_ready → NoDup userIds → userIds ≠ [] → (∀ u, u ∈ userIds → zset_entry w (RedisKeys.pending u)) →
  pm_createdAt m = toISOString t → iso_range t = true → t ≠ 0 →
  wp (addPendingMessage userIds m) (λ o w',
    o = Ok tt ∧ (∀ u, u ∈ userIds → rentry (w_redis w') (RedisKeys.pending u) = enqueued (now_at (S (w_tick w))) t m w u) ∧
    (∀ k, k ∉ map RedisKeys.pending userIds → rentry (w_redis w') k = rentry (w_redis w) k) ∧
    w_db w' = w_db w ∧ w_tick w' = S (S (w_tick w))) w.
Proof.
  intros Hready Hnd Hne Hz Hm Hr Ht. unfold addPendingMessage. wp_steps. apply wp_getClient_ready; [done|].
  rewrite bool_decide_eq_false_2 by done. cbn [negb orb]. wp_steps.
  rewrite Hm, Date_parse_toISOString by done. rewrite (proj2 (Z.eqb_neq t 0)) by done. wp_steps.
  apply (wp_multi_groups RedisKeys.pending _ (enqueued (now_at (S (w_tick w))) t m w)); [done|by apply pending_NoDup| |].
  - intros u Hu. split; [by repeat constructor|].
    destruct (queue_wf (now_at (S (w_tick w))) w u (Hz u Hu)) as (Hzs & _).
    by destruct (chain_enqueue _ (RedisKeys.pending u) _ _ Hzs t (stringify (pending_json m))) as (rps & Hch); eauto.
  - intros r rps Hn Hf. wp_steps. split; [done|]. split; [done|]. split; [exact Hf|done].
Qed.

Lemma queue_enqueued now t t' m (w w' : World) u :
  rentry (w_redis w') (RedisKeys.pending u) = enqueued now t m w u → t' ≤ now + RedisTtl.pendingSeconds * 1000 →
  queue t' w' u = zset_add t (stringify (pending_json m)) (queue now w u).
Proof. intros He Ht. unfold queue at 1. rewrite He. unfold enqueued. by rewrite live_some. Qed.

(** Messages queued one after the other for one user, then popped. *)
Definition offline_then_pop (userId : string) (ms : list PendingMessage) (limit : Z) : M (list json * Z) :=
  do! for_each ms (λ m, addPendingMessage [userId] m);
  popPendingMessages userId limit.

(** Creation times, strictly increasing. *)
Inductive created : Z → list PendingMessage → Prop :=
| created_nil t : created t []
| created_cons t t' m ms : t < t' → t' ≠ 0 → iso_range t' = true → pm_createdAt m = toISOString t' → created t' ms →
    created t (m :: ms).

Lemma zset_add_newest t v z : Forall (λ x, x.1 < t) z → v ∉ members z → zset_add t v z = z ++ [(t, v)].
Proof.
  intros Ht Hv. unfold zset_add, zset_rem. rewrite filter_all.
  - apply insert_by_snoc. eapply Forall_impl; [exact Ht|]. intros [s u]; simpl; intros. unfold zset_leb; simpl. zcase; lia || done.
  - intros x Hx. rewrite bool_decide_eq_false_2; [done|]. intros Hin%list_elem_of_singleton. apply Hv. rewrite <-Hin.
    by apply (list_elem_of_fmap_2 snd).
Qed.

Lemma enqueue_all userId ms t0 (w : World) :
  redis_ready → (∀ a b, now_at a ≤ now_at b + RedisTtl.pendingSeconds * 1000) →
  zset_entry w (RedisKeys.pending userId) → created t0 ms → NoDup (map (stringify ∘ pending_json) ms) →
  (∀ a, Forall (λ x, x.1 ≤ t0) (queue (now_at a) w userId)) →
  (∀ m a, m ∈ ms → stringify (pending_json m) ∉ members (queue (now_at a) w userId)) →
  (∀ a b, queue (now_at a) w userId = queue (now_at b) w userId) →
  wp (for_each ms (λ m, addPendingMessage [userId] m)) (λ o w',
    o = Ok tt ∧ zset_entry w' (RedisKeys.pending userId) ∧
    (∀ a b, queue (now_at a) w' userId = queue (now_at b) w' userId) ∧
    (∀ a, members (queue (now_at a) w' userId) = members (queue (now_at a) w userId) ++ map (stringify ∘ pending_json) ms)) w.
Proof.
  intros Hready Hclock. revert t0 w. induction ms as [|m ms IH]; intros t0 w Hz Hcr Hnd Hle Hfresh Hsame.
  { cbn. split; [done|]. split; [done|]. split; [done|]. intros a. by rewrite app_nil_r. }
  inv Hcr. cbn [for_each]. wp_steps. apply NoDup_cons in Hnd as [Hm Hnd]. eapply wp_mono.
  { apply addPendingMessage_spec with (t := t'); try done; [apply NoDup_singleton|].
    intros u Hu%list_elem_of_singleton. by subst. }
  intros o w1 (-> & He & _ & _ & _). cbn beta match. specialize (He userId (proj2 (list_elem_of_singleton _ _) eq_refl)).
  assert (Hq1 : ∀ a, queue (now_at a) w1 userId = queue (now_at a) w userId ++ [(t', stringify (pending_json m))]).
  { intros a. rewrite (queue_enqueued _ _ _ _ _ _ _ He) by done. rewrite (Hsame a (S (w_tick w))).
    apply zset_add_newest; [|by apply Hfresh, list_elem_of_here]. eapply Forall_impl; [apply Hle|]. simpl. lia. }
  eapply wp_mono.
  { apply (IH t'); try done.
    - unfold zset_entry. rewrite He. destruct (queue_wf (now_at (S (w_tick w))) w userId Hz) as (_ & ? & ?).
      split; [|done]. split; [by apply NoDup_zset_add|by apply by_score_add].
    - intros a. rewrite Hq1. apply Forall_app. split; [|by repeat constructor].
      eapply Forall_impl; [apply Hle|]. simpl. lia.
    - intros m' a Hm'. rewrite Hq1. unfold members. rewrite map_app, elem_of_app. intros [Hin|Hin].
      + by apply (Hfresh m' a); [apply list_elem_of_further|].
      + apply list_elem_of_singleton in Hin. apply Hm. simpl in Hin. unfold compose. rewrite <-Hin.
        by apply (list_elem_of_fmap_2 (stringify ∘ pending_json)).
    - intros a b. by rewrite !Hq1, (Hsame a b). }
  intros o w2 (-> & Hz2 & Hs2 & Hq2). split; [done|]. split; [done|]. split; [done|]. intros a. rewrite Hq2, Hq1. unfold members.
  by rewrite map_app, <-app_assoc.
Qed.

Lemma omap_parse_stringify (js : list json) : omap parse (map stringify js) = js.
Proof. induction js as [|j js IH]; [done|]. cbn. by rewrite parse_stringify, IH. Qed.

(** C17: offline delivery: the messages queued for a user with an empty queue are
    handed out oldest first by their time of creation, whatever their channels, each
    exactly as [message:new] would have carried it, as many as fit in the batch, and the reply says how many are left. *)
Theorem offline_delivery userId ms (n : nat) (w : World)
  (Hready : redis_ready) (Hclock : ∀ a b, now_at a ≤ now_at b + RedisTtl.pendingSeconds * 1000)
  (Hempty : rentry (w_redis w) (RedisKeys.pending userId) = None)
  (Hcreated : created 0 ms) (Hdistinct : NoDup (map pending_json ms)) :
  wp (offline_then_pop userId ms (Z.of_nat (S n))) (λ o _,
    o = Ok (map pending_json (take (S n) ms), Z.of_nat (length (drop (S n) ms)))) w.
Proof.
  unfold offline_then_pop. wp_steps. eapply wp_mono.
  { apply (enqueue_all userId ms 0); try done.
    - unfold zset_entry. rewrite Hempty. by split.
    - change (NoDup ((stringify ∘ pending_json) <$> ms)). rewrite list_fmap_compose. by apply (NoDup_fmap_2 stringify).
    - intros a. unfold queue. rewrite Hempty. constructor.
    - intros m a _. unfold queue. rewrite Hempty. apply not_elem_of_nil.
    - intros a b. unfold queue. by rewrite Hempty. }
  intros o w' (-> & Hz & Hsame & Hq). cbn beta match. eapply wp_mono; [by apply popPending_spec|].
  intros o' w'' (-> & _ & _). f_equal. specialize (Hq (S (w_tick w'))). unfold queue at 2 in Hq. rewrite Hempty in Hq.
  unfold members in *. cbn [live as_zset default map app id] in Hq. f_equal.
  - rewrite <-(firstn_map snd), Hq, firstn_map.
    change (map (stringify ∘ pending_json) (take (S n) ms)) with ((stringify ∘ pending_json) <$> take (S n) ms).
    rewrite list_fmap_compose. apply omap_parse_stringify.
  - rewrite !length_drop. f_equal. f_equal. apply (f_equal length) in Hq. by rewrite !length_map in Hq.
Qed.
End SessionProofs.

(** ** The properties on a concrete state *)
Section Witnesses.
#[local] Existing Instance frozen_env.

(** Replaces a term of [H] by its value. *)
Ltac evaluates test H v :=
  match type of H with context [?m] => test m; let Hm := fresh in assert (m = v) as Hm by (vm_compute; reflexivity); rewrite Hm in H; clear Hm end.

(** Alice has a live socket and a stale one. *)
Definition two_sockets : World :=
  sample_world <| w_redis := {[ "zevra:sockets:alice" :=
    (RZset [(1600000000000, "old"); (1699999999000, "phone")], Some 1700000060000) ]} |>.

Lemma two_sockets_entry : zset_entry two_sockets "zevra:sockets:alice".
Proof.
  split; [|done]. cbn. split.
  - by apply (bool_decide_unpack _), I.
  - repeat constructor. cbn. lia.
Qed.

Lemma socket_registry_refines_witness :
  let key := "zevra:sockets:alice" in let now := 1700000000000 in
  wp (addSocket "alice" "phone") (λ o w', o = Ok (Some 1) ∧ stands_for {["phone" := now]} now key two_sockets w') two_sockets ∧
  wp (refreshSocket "alice" "phone") (λ o w', o = Ok tt ∧
    stands_for (<["phone" := now]> {["old" := 1600000000000]}) now key two_sockets w') two_sockets ∧
  wp (removeSocket "alice" "phone") (λ o w', o = Ok (Some 0) ∧
    registry now (rentry (w_redis w') key) = ∅ ∧ zset_entry w' key ∧
    (∀ k, k ≠ key → rentry (w_redis w') k = rentry (w_redis two_sockets) k) ∧ w_db w' = w_db two_sockets) two_sockets.
Proof.
  pose proof (socket_registry_refines "alice" "phone" two_sockets (λ _, eq_refl) two_sockets_entry) as (Ha & Hf & Hr).
  cbv zeta in Ha, Hf, Hr |- *. split_and!.
  - evaluates ltac:(fun m => lazymatch m with <["phone" := _]> _ => idtac end) Ha ({["phone" := 1700000000000]} : gmap string Z).
    exact Ha.
  - evaluates ltac:(fun m => lazymatch m with <["phone" := _]> _ => idtac end) Hf
      (<["phone" := 1700000000000]> {["old" := 1600000000000]} : gmap string Z). exact Hf.
  - evaluates ltac:(fun m => lazymatch m with not_stale _ _ => idtac end) Hr (∅ : gmap string Z). exact Hr.
Defined.

Definition sample_pending (id : string) (t : Z) : PendingMessage :=
  mkPendingMessage id id "g" "bob" (Some "bob") "hello" "iv" "tag" "sig" 1 1 "TEXT" None false (toISOString t).

(** Alice's queue holds two texts. *)
Definition two_pending : World :=
  sample_world <| w_redis := {[ "zevra:pending:alice" := (RZset [(1, "1"); (2, "2")], Some 1700000060000) ]} |>.

Lemma two_pending_entry : zset_entry two_pending "zevra:pending:alice".
Proof.
  split; [|done]. cbn. split.
  - by apply (bool_decide_unpack _), I.
  - repeat constructor. cbn. lia.
Qed.

Lemma popEntries_exact_witness :
  wp (popEntries "zevra:pending:alice" ["1"]) (λ o w',
    (∀ x, x ∈ queue 1700000000000 w' "alice" ↔ x ∈ [(1, "1"); (2, "2")] ∧ x.2 ∉ ["1"]) ∧
    o = Ok ([JNum 1], Z.of_nat (length (queue 1700000000000 w' "alice")))) two_pending.
Proof.
  pose proof (popEntries_exact "alice" ["1"] two_pending (λ _, eq_refl) two_pending_entry) as H.
  evaluates ltac:(fun m => lazymatch m with omap parse _ => idtac end) H [JNum 1]. exact H.
Defined.

Lemma popPendingMessages_oldest_witness :
  wp (popPendingMessages "alice" 1) (λ o w',
    o = Ok ([JNum 1], 1) ∧ queue 1700000000000 w' "alice" = [(2, "2")] ∧ by_score [(1, "1"); (2, "2")]) two_pending.
Proof.
  pose proof (popPendingMessages_oldest "alice" 0 two_pending (λ _, eq_refl) two_pending_entry eq_refl) as H. cbv zeta in H.
  evaluates ltac:(fun m => lazymatch m with omap parse _ => idtac end) H [JNum 1]. exact H.
Defined.

Lemma offline_delivery_witness :
  let ms := [sample_pending "a" 1690000000000; sample_pending "b" 1690000000001] in
  wp (offline_then_pop "alice" ms 1) (λ o _, o = Ok ([pending_json (sample_pending "a" 1690000000000)], 1)) sample_world.
Proof.
  intros ms. apply (offline_delivery "alice" ms 0 sample_world); [done|intros a b; unfold RedisTtl.pendingSeconds; cbn; lia|done| |].
  - apply (created_cons _ 1690000000000); [lia|lia|done|done|]. apply (created_cons _ 1690000000001); [lia|lia|done|done|]. constructor.
  - subst ms. cbn [map]. rewrite NoDup_cons, list_elem_of_singleton. split; [done|apply NoDup_singleton].
Defined.
End Witnesses.
