(* ===== verification/RedisCache.v ===== *)
(** * RedisCache: recent messages, unread counters, typing indicators

    Models redis/redis-cache.service.ts.  The last 50 messages of a channel are a
    list of JSON texts, an unread counter is an integer per user and channel, and
    typing users are a sorted set scored by the time the indicator fades. *)
From Stdlib Require Import String.
From S2P Require Import Prelude JsString Json Effects Errors Redis Schema World RedisSession.
From stdpp Require Import base list strings gmap.

Local Open Scope string_scope.
Local Open Scope Z_scope.
Local Open Scope list_scope.

(** [val ? parseInt(val, 10) || 0 : 0] *)
Definition count_of (val : option string) : Z :=
  match val with
  | Some v => if v === "" then 0 else default 0 (parseInt v)
  | None => 0
  end.

Definition syntax_error : thrown := ErrObj "SyntaxError" "Unexpected token" JNull NotObject JNull JNull JNull JNull.

Section Cache.
Context {R : Redis} {E : Env}.

(** ** Recent messages *)
Definition cacheMessage (channelId : string) (message : json) : M () :=
  with_redis tt
    (let key := RedisKeys.messageCache channelId in
     do! redis_multi [RPush key (stringify message);
                      LTrim key (- MESSAGE_CACHE_SIZE) (-1);
                      Expire key RedisTtl.messageCacheSeconds];
     Ret tt).

Definition getRecentMessages (channelId : string) (limit : Z) : M (list json) :=
  with_redis []
    (let! r := redis_cmd (LRange (RedisKeys.messageCache channelId) (- limit) (-1)) in
     match mapM parse (arr_of r) with
     | Some items => Ret items
     | None => Throw syntax_error
     end).

Definition invalidateMessages (channelId : string) : M () :=
  with_redis tt (do! redis_cmd (Del (RedisKeys.messageCache channelId)); Ret tt).

(** ** Unread counters *)
Definition incrementUnread (userId channelId : string) : M Z :=
  with_redis 0
    (let key := RedisKeys.unread userId channelId in
     let! res := redis_multi [Incr key; Expire key RedisTtl.unreadSeconds] in
     Ret (int_at 0 res)).

Definition incrementUnreadMany (userIds : list string) (channelId : string) : M () :=
  let! client := getClient in
  if negb client || (userIds === []) then Ret tt
  else catch
    (do! redis_multi (flat_map (λ userId,
           [Incr (RedisKeys.unread userId channelId); Expire (RedisKeys.unread userId channelId) RedisTtl.unreadSeconds]) userIds);
     Ret tt)
    (λ _, Ret tt).

Definition getUnreadCount (userId channelId : string) : M Z :=
  with_redis 0
    (let! r := redis_cmd (Get (RedisKeys.unread userId channelId)) in
     Ret (match r with RpStr val => count_of val | _ => 0 end)).

Definition getUnreadCounts (userId : string) (channelIds : list string) : M (gmap string Z) :=
  let zeros := list_to_map (map (λ id, (id, 0)) channelIds) in
  let! client := getClient in
  if negb client || (channelIds === []) then Ret zeros
  else catch
    (let! values := redis_mget (map (RedisKeys.unread userId) channelIds) in
     Ret (foldl (λ m p, <[p.1 := count_of p.2]> m) zeros (combine channelIds values)))
    (λ _, Ret zeros).

Definition resetUnread (userId channelId : string) : M () :=
  with_redis tt (do! redis_cmd (Del (RedisKeys.unread userId channelId)); Ret tt).

(** ** Typing indicators *)
Definition setTyping (channelId userId : string) : M () :=
  with_redis tt
    (let key := RedisKeys.typing channelId in
     let! now := Date_now in
     do! redis_multi [ZAdd key (now + RedisTtl.typingEntryMs) userId; Expire key RedisTtl.typingSeconds];
     Ret tt).

Definition clearTyping (channelId userId : string) : M () :=
  with_redis tt (do! redis_cmd (ZRem (RedisKeys.typing channelId) [userId]); Ret tt).

Definition getTypingUsers (channelId : string) : M (list string) :=
  with_redis []
    (let key := RedisKeys.typing channelId in
     let! now := Date_now in
     let! results := redis_multi [ZRemRangeByScore key NegInf (Score now); ZRangeByScore key (Score now) PosInf] in
     Ret (match results !! 1%nat with Some r => arr_of r | None => [] end)).
End Cache.
