(* ===== verification/Socket.v ===== *)
(** * Socket: emits to the rooms of Socket.IO

    Models socket/socket.service.ts.  The Socket.IO server is not code of the
    repository: what the service asks of it is the trace [w_out], and the sockets it
    reports in a room are an answer of [Env]. *)
From Stdlib Require Import String.
From S2P Require Import Prelude JsString Json Effects Errors Redis Schema World.
From stdpp Require Import base list strings.

Local Open Scope string_scope.
Local Open Scope list_scope.

Definition channelRoom (channelId : string) : string := "channel:" +:+ channelId.
Definition userRoom (userId : string) : string := "user:" +:+ userId.

Record EmitOptions := mkEmitOptions { exceptSocketId : option string; exceptUserId : option string }.
Definition no_options : EmitOptions := mkEmitOptions None None.

(** [if (id) except.push(...)]: the empty string is falsy. *)
Definition truthy (s : option string) : option string :=
  match s with Some v => if v === "" then None else Some v | None => None end.

Definition except_rooms (options : EmitOptions) : list string :=
  option_list (truthy (exceptSocketId options)) ++ option_list (userRoom <$> truthy (exceptUserId options)).

Section Socket.
Context {R : Redis} {E : Env}.

Definition emitToUser (userId event : string) (data : json) : M bool :=
  let! server := server_ready in
  if negb server then Ret false
  else do! send_effect (Emit [userRoom userId] [] event data); Ret true.

Definition emitToUsers (userIds : list string) (event : string) (data : json) : M () :=
  let! server := server_ready in
  if negb server || (userIds === []) then Ret tt
  else send_effect (Emit (map userRoom userIds) [] event data).

Definition emitToChannel (channelId event : string) (data : json) (options : EmitOptions) : M () :=
  let! server := server_ready in
  if negb server then Ret tt
  else send_effect (Emit [channelRoom channelId] (except_rooms options) event data).

Definition emitToChannelAndUsers (channelId : string) (userIds : list string) (event : string) (data : json) : M () :=
  let! server := server_ready in
  if negb server then Ret tt
  else send_effect (Emit (channelRoom channelId :: map userRoom userIds) [] event data).

Definition joinUsersToChannel (userIds : list string) (channelId : string) : M () :=
  let! server := server_ready in
  if negb server || (userIds === []) then Ret tt
  else send_effect (SocketsJoin (map userRoom userIds) (channelRoom channelId)).

Definition removeUserFromChannel (userId channelId : string) : M () :=
  let! server := server_ready in
  if negb server then Ret tt
  else send_effect (SocketsLeave [userRoom userId] (channelRoom channelId)).

Definition getConnectedUserIds (channelId : string) : M (option (list string)) :=
  let! server := server_ready in
  if negb server then Ret None
  else catch
    (let! sockets := fetchSockets (channelRoom channelId) in
     Ret (Some (unique (omap truthy sockets))))
    (λ _, Ret None).
End Socket.
