(* ===== verification/ChannelMembers.v ===== *)
(** * ChannelMembers: membership lookups with a Redis snapshot

    Models redis/channel-members.service.ts: a complete snapshot of a channel's
    members is cached in a Redis set for an hour; a membership change drops the key
    and the next read rebuilds it from Postgres. *)
From Stdlib Require Import String.
From S2P Require Import Prelude JsString Json Effects Errors Redis Schema World RedisSession.
From stdpp Require Import base list strings.

Local Open Scope string_scope.
Local Open Scope Z_scope.
Local Open Scope list_scope.

(** The rows of a channel, and one user's row in it. *)
Definition in_channel (channelId : string) (m : MembershipRow) : bool := mb_channelId m === channelId.
Definition is_membership (userId channelId : string) (m : MembershipRow) : bool :=
  (mb_userId m === userId) && (mb_channelId m === channelId).

Definition member_ids (channelId : string) (d : Db) : list string :=
  map mb_userId (select (in_channel channelId) (memberships d)).
Definition membership (userId channelId : string) (d : Db) : option MembershipRow :=
  head (select (is_membership userId channelId) (memberships d)).
Definition db_member (channelId userId : string) (d : Db) : bool := bool_decide (userId ∈ member_ids channelId d).

Section ChannelMembers.
Context {R : Redis} {E : Env}.

Definition setMembers (channelId : string) (userIds : list string) : M () :=
  let! client := getClient in
  if negb client || (userIds === []) then Ret tt
  else catch
    (let key := RedisKeys.channelMembers channelId in
     do! redis_multi [Del key; SAdd key userIds; Expire key RedisTtl.channelMembersSeconds];
     Ret tt)
    (λ _, Ret tt).

Definition getMembers (channelId : string) : M (list string) :=
  let! cached := with_redis []
    (let! r := redis_cmd (SMembers (RedisKeys.channelMembers channelId)) in Ret (arr_of r)) in
  if negb (cached === []) then Ret cached
  else
    let! members := query (member_ids channelId) in
    do! setMembers channelId members;
    Ret members.

Definition isMember (channelId userId : string) : M bool :=
  let! client := getClient in
  if client
  then
    let! cached := catch
      (let key := RedisKeys.channelMembers channelId in
       let! res := redis_multi [Exists_ key; SIsMember key userId] in
       Ret (if int_at 0 res =? 1 then Some (int_at 1 res =? 1) else None))
      (λ _, Ret None) in
    match cached with
    | Some b => Ret b
    | None => let! members := getMembers channelId in Ret (bool_decide (userId ∈ members))
    end
  else
    let! row := query (membership userId channelId) in
    Ret (match row with Some _ => true | None => false end).

Definition invalidate (channelId : string) : M () :=
  with_redis tt (do! redis_cmd (Del (RedisKeys.channelMembers channelId)); Ret tt).
End ChannelMembers.
