(* ===== verification/Messages.v ===== *)
(** * Messages: sending, history and deletion

    Models modules/messages/message-payload.ts, modules/messages/messages.service.ts
    and the delivery job of shared/queues/message-delivery.job.ts and
    message-delivery.processor.ts. *)
From Stdlib Require Import String.
From S2P Require Import Prelude JsString Json IsoDate Effects Errors Redis Schema World Crypto RedisSession.
From S2P Require Import RedisCache Socket ChannelMembers.
From stdpp Require Import base list strings.

Local Open Scope string_scope.
Local Open Scope Z_scope.
Local Open Scope list_scope.

(** ** Payloads *)
Definition toMessagePayload (row : MessageRow) (senderUsername : option string) : PendingMessage :=
  let deleted := m_isDeleted row in
  mkPendingMessage (m_id row) (m_id row) (m_channelId row) (m_senderId row) senderUsername
    (if deleted then "" else m_encryptedContent row) (m_contentIv row) (m_contentTag row) (m_signature row)
    (m_sequenceNumber row) (m_senderKeyEpoch row) (m_messageType row)
    (if deleted then None else m_metadata row) deleted (toISOString (m_createdAt row)).

Record SendMessageInput := mkSendMessageInput {
  si_userId : string; si_channelId : string; si_encryptedContent : string; si_contentIv : string; si_contentTag : string;
  si_signature : string; si_senderKeyEpoch : Z; si_messageType : option string; si_metadata : option json;
}.

Definition MESSAGE_TYPES : list string := ["TEXT"; "IMAGE"; "FILE"; "SYSTEM"].
Definition MAX_ENCRYPTED_CONTENT_BYTES : Z := 10 * 1024.
Definition MAX_METADATA_BYTES : Z := 64 * 1024.
Definition MAX_SEQUENCE_RETRIES : nat := 3.

(** The exception [assertSendLimits] throws, if any. *)
Definition assertSendLimits (input : SendMessageInput) : option thrown :=
  if si_encryptedContent input === "" then Some (BadRequestException "encryptedContent is required")
  else if MAX_ENCRYPTED_CONTENT_BYTES <? byteLength (si_encryptedContent input)
  then Some (PayloadTooLargeException "Message exceeds 10KB limit")
  else if (si_contentIv input === "") || (32 <? js_length (si_contentIv input)) || (si_contentTag input === "")
          || (32 <? js_length (si_contentTag input))
  then Some (BadRequestException "contentIv and contentTag must be 1-32 characters")
  else if match si_messageType input with Some t => negb (bool_decide (t ∈ MESSAGE_TYPES)) | None => false end
  then Some (BadRequestException "Invalid messageType")
  else match si_metadata input with
       | None | Some JNull => None
       | Some (JObj fs) =>
           if MAX_METADATA_BYTES <? byteLength (stringify (JObj fs))
           then Some (PayloadTooLargeException "metadata exceeds 64KB limit") else None
       | Some _ => Some (BadRequestException "metadata must be an object")
       end.

(** ** Queries *)
Definition of_channel (channelId : string) (m : MessageRow) : bool := m_channelId m === channelId.
Definition channel_messages (channelId : string) (d : Db) : list MessageRow := select (of_channel channelId) (messages d).
Definition find_user (id : string) (d : Db) : option UserRow := head (select (λ u, u_id u === id) (users d)).
Definition find_channel (id : string) (d : Db) : option ChannelRow := head (select (λ c, c_id c === id) (channels d)).
Definition find_message (id : string) (d : Db) : option MessageRow := head (select (λ m, m_id m === id) (messages d)).

(** Membership joined with its user and channel. *)
Definition sender_row (userId channelId : string) (d : Db) : option (UserRow * ChannelRow) :=
  _ ← membership userId channelId d; u ← find_user userId d; c ← find_channel channelId d; Some (u, c).

(** [coalesce(max(sequence_number), 0)] *)
Definition max_sequence (l : list MessageRow) : Z :=
  match map m_sequenceNumber l with [] => 0 | x :: xs => foldl Z.max x xs end.

Definition verify_error : thrown := ErrObj "Error" "Failed to read asymmetric key" JNull NotObject JNull JNull JNull JNull.

(** ** Delivery job *)
Record MessageDeliveryJob := mkMessageDeliveryJob {
  j_message : PendingMessage; j_recipientIds : list string; j_offlineUserIds : list string;
}.
Definition job_json (j : MessageDeliveryJob) : json :=
  JObj [("message", pending_json (j_message j)); ("recipientIds", JArr (map JStr (j_recipientIds j)));
        ("offlineUserIds", JArr (map JStr (j_offlineUserIds j)))].

Inductive MessagePageMode := Latest | Before | Since.
Definition is_since (m : MessagePageMode) : bool := match m with Since => true | _ => false end.

Record MessagePage := mkMessagePage { p_messages : list json; p_nextCursor : option Z; p_hasMore : bool; p_source : string }.

Section Messages.
Context {R : Redis} {E : Env} {C : Crypto}.

Definition runMessageDelivery (job : MessageDeliveryJob) : M (nat * nat) :=
  do! addPendingMessage (j_offlineUserIds job) (j_message job);
  do! incrementUnreadMany (j_recipientIds job) (pm_channelId (j_message job));
  Ret (length (j_offlineUserIds job), length (j_recipientIds job)).

(** A job as the queue delivers it: a field of another shape is [None]. *)
Definition process (message : option PendingMessage) (recipientIds offlineUserIds : option (list string)) : M (nat * nat) :=
  match message, recipientIds, offlineUserIds with
  | Some m, Some r, Some o => runMessageDelivery (mkMessageDeliveryJob m r o)
  | _, _, _ => Ret (0%nat, 0%nat)
  end.

(** ** Send *)
Definition nextSequence (channelId : string) : M Z :=
  do! query (find_channel channelId);
  let! maxSeq := query (λ d, max_sequence (channel_messages channelId d)) in
  Ret (maxSeq + 1).

(** [metadata ?? null] *)
Definition nullish (j : option json) : option json := match j with Some JNull => None | _ => j end.

Definition new_message (input : SendMessageInput) (seq : Z) (n : nat) : MessageRow :=
  mkMessage (uuid_at n 0) (default "TEXT" (si_messageType input)) (si_encryptedContent input) (si_contentIv input)
    (si_contentTag input) (si_signature input) seq (si_senderKeyEpoch input) (nullish (si_metadata input)) false
    (now_at n) (now_at n) (si_userId input) (si_channelId input).

Definition insert_new_message (input : SendMessageInput) (seq : Z) : M MessageRow :=
  statement (λ n d,
    let row := new_message input seq n in
    match insert_message d row with
    | Ok t => Ok (row, d <| messages := t |>)
    | Err e => Err e
    end).

Definition touch_channel (channelId : string) (msg : MessageRow) (now : Z) (d : Db) : Db :=
  d <| channels := update_where (λ c, c_id c === channelId)
    (λ c, c <| c_lastMessageId := Some (m_id msg) |> <| c_lastMessageAt := Some (m_createdAt msg) |> <| c_updatedAt := now |>)
    (channels d) |>.

Definition mark_own_read (userId channelId : string) (msg : MessageRow) (now : Z) (d : Db) : Db :=
  d <| memberships := update_where (is_membership userId channelId)
    (λ m, m <| mb_lastReadMessageId := Some (m_id msg) |> <| mb_lastReadAt := Some now |>) (memberships d) |>.

Definition insert_in_transaction (input : SendMessageInput) : M MessageRow :=
  let! seq := nextSequence (si_channelId input) in
  let! msg := insert_new_message input seq in
  let! now := Date_now in
  do! execute (λ _ d, (tt, touch_channel (si_channelId input) msg now d));
  let! now' := Date_now in
  do! execute (λ _ d, (tt, mark_own_read (si_userId input) (si_channelId input) msg now' d));
  Ret msg.

(** [left] attempts are left. *)
Fixpoint insert_attempts (left : nat) (input : SendMessageInput) : M MessageRow :=
  match left with
  | O => Throw (BadRequestException "Failed to assign sequence number")
  | S left' =>
      catch (transaction (insert_in_transaction input))
        (λ err, if match prop_code err with JStr code => code === "23505" | _ => false end && negb (left' =? 0)%nat
                then insert_attempts left' input else Throw err)
  end.
Definition insertWithSequence (input : SendMessageInput) : M MessageRow := insert_attempts MAX_SEQUENCE_RETRIES input.

Definition dispatchNewMessage (payload : PendingMessage) (exceptSocket : option string) : M () :=
  let! memberIds := getMembers (pm_channelId payload) in
  let! connected := getConnectedUserIds (pm_channelId payload) in
  do! emitToChannel (pm_channelId payload) "message:new" (pending_json payload) (mkEmitOptions exceptSocket None);
  do! cacheMessage (pm_channelId payload) (pending_json payload);
  let recipientIds := List.filter (λ id, id !== pm_senderId payload) memberIds in
  let offline := List.filter (λ id, match connected with Some l => negb (bool_decide (id ∈ l)) | None => true end) recipientIds in
  let job := mkMessageDeliveryJob payload recipientIds offline in
  if recipientIds === [] then Ret tt
  else catch (queue_add "deliver" (job_json job)) (λ _, do! runMessageDelivery job; Ret tt).

Definition check_signature (input : SendMessageInput) (publicKeySign : string) : M () :=
  if (si_signature input === "") || (publicKeySign === "") then Ret tt
  else match ed25519_verify (utf8 (si_channelId input +:+ ":" +:+ si_encryptedContent input))
               (from_base64 (si_signature input)) (from_base64 publicKeySign) with
       | Some true => Ret tt
       | Some false => Throw (BadRequestException "Invalid message signature")
       | None => Throw verify_error
       end.

Definition send (input : SendMessageInput) (exceptSocket : option string) : M PendingMessage :=
  match assertSendLimits input with
  | Some err => Throw err
  | None =>
      let! member := query (sender_row (si_userId input) (si_channelId input)) in
      match member with
      | None => Throw (ForbiddenException "Not a member of this channel")
      | Some (user, channel) =>
          if c_isArchived channel then Throw (BadRequestException "Channel is archived")
          else
            do! check_signature input (u_publicKeySign user);
            let! row := insertWithSequence input in
            let payload := toMessagePayload row (Some (u_username user)) in
            do! dispatchNewMessage payload exceptSocket;
            Ret payload
      end
  end.

(** ** History *)
Definition str_field (k : string) (j : json) : string := match get_field j k with Some (JStr s) => s | _ => "" end.
Definition num_field (k : string) (j : json) : Z := match get_field j k with Some (JNum n) => n | _ => 0 end.
Definition bool_field (k : string) (j : json) : bool := match get_field j k with Some (JBool b) => b | _ => false end.

(** [{ ...j, [k]: v }] *)
Definition set_field (k : string) (v : json) (j : json) : json :=
  match j with
  | JObj fs => JObj (if existsb (λ f, f.1 === k) fs then map (λ f, if f.1 === k then (k, v) else f) fs else fs ++ [(k, v)])
  | _ => JObj [(k, v)]
  end.

Definition reaction_rows (ids : list string) (d : Db) : list (ReactionRow * option string) :=
  map (λ r, (r, u_username <$> find_user (re_userId r) d)) (select (λ r, bool_decide (re_messageId r ∈ ids)) (reactions d)).
Definition reaction_json (r : ReactionRow * option string) : json :=
  JObj [("emoji", JStr (re_emoji r.1)); ("userId", JStr (re_userId r.1)); ("username", json_opt r.2)].

Definition attachReactions (items : list json) : M (list json) :=
  let ids := map (str_field "id") (List.filter (λ m, negb (bool_field "isDeleted" m)) items) in
  let! rows := (if ids === [] then Ret [] else query (reaction_rows ids)) in
  Ret (map (λ m, set_field "reactions"
                   (JArr (map reaction_json (List.filter (λ r, re_messageId r.1 === str_field "id" m) rows))) m) items).

Definition is_str (v : option json) : bool := match v with Some (JStr _) => true | _ => false end.
Definition is_num (v : option json) : bool := match v with Some (JNum _) => true | _ => false end.
Definition is_bool (v : option json) : bool := match v with Some (JBool _) => true | _ => false end.

Definition wellFormed (m : json) : bool :=
  is_str (get_field m "id") && is_str (get_field m "signature") && is_bool (get_field m "isDeleted")
  && is_num (get_field m "sequenceNumber").

(** Every item is well formed and follows the previous one. *)
Fixpoint complete (prev : option Z) (items : list json) : bool :=
  match items with
  | [] => true
  | m :: items' =>
      wellFormed m && match prev with Some p => num_field "sequenceNumber" m =? p + 1 | None => true end
      && complete (Some (num_field "sequenceNumber" m)) items'
  end.

Definition type_error : thrown := ErrObj "TypeError" "Cannot read properties of null" JNull NotObject JNull JNull JNull JNull.
Definition is_null (j : json) : bool := match j with JNull => true | _ => false end.

Definition getCachedPage (channelId : string) (limit : Z) : M (option MessagePage) :=
  let! cached := getRecentMessages channelId limit in
  if Z.of_nat (length cached) <? limit then Ret None
  else if existsb is_null cached && (1 <? length cached)%nat then Throw type_error
  else
    let items := sort_by (λ a b, num_field "sequenceNumber" a <=? num_field "sequenceNumber" b) cached in
    if negb (complete None items)
    then do! invalidateMessages channelId; Ret None
    else match items with
         | [] => Throw type_error
         | first :: _ =>
             let oldest := num_field "sequenceNumber" first in
             let! ms := attachReactions items in
             Ret (Some (mkMessagePage ms (if 1 <? oldest then Some oldest else None) (1 <? oldest) "cache"))
         end.

(** [Math.min(Math.max(Math.trunc(limit) || 50, 1), 100)] *)
Definition safe_limit (limit : Z) : Z := Z.min (Z.max (if limit =? 0 then 50 else limit) 1) 100.

Definition in_page (mode : MessagePageMode) (cursor : option Z) (m : MessageRow) : bool :=
  match mode, cursor with
  | Before, Some c => m_sequenceNumber m <? c
  | Since, Some c => c <? m_sequenceNumber m
  | _, _ => true
  end.

(** The cursor the statement compares with, in a page that has one. *)
Definition cursor_parameter (mode : MessagePageMode) (cursor : option Z) : option Z :=
  match mode with Before | Since => cursor | _ => None end.

Definition page_rows (channelId : string) (mode : MessagePageMode) (cursor : option Z) (n : nat) (d : Db)
    : list (MessageRow * option string) :=
  let rows := select (λ m, of_channel channelId m && in_page mode cursor m) (messages d) in
  let order a b := if is_since mode then m_sequenceNumber a <=? m_sequenceNumber b
                   else m_sequenceNumber b <=? m_sequenceNumber a in
  map (λ m, (m, u_username <$> find_user (m_senderId m) d)) (take n (sort_by order rows)).

(** The part of [getMessages] that reads the page from the tables. *)
Definition databasePage (channelId : string) (safeLimit : Z) (cursor : option Z) (mode : MessagePageMode) : M MessagePage :=
  let! rows := query_with (cursor_parameter mode cursor) (page_rows channelId mode cursor (Z.to_nat (safeLimit + 1))) in
  let hasMore := safeLimit <? Z.of_nat (length rows) in
  let page := if hasMore then take (Z.to_nat safeLimit) rows else rows in
  let ordered := if is_since mode then page else rev page in
  let payloads := map (λ r, toMessagePayload r.1 r.2) ordered in
  let nextCursor :=
    if hasMore then pm_sequenceNumber <$> (if is_since mode then last payloads else head payloads) else None in
  let! ms := attachReactions (map pending_json payloads) in
  Ret (mkMessagePage ms nextCursor hasMore "database").

Definition getMessages (channelId userId : string) (limit : Z) (cursor : option Z) (mode : MessagePageMode) : M MessagePage :=
  let safeLimit := safe_limit limit in
  let! member := query (membership userId channelId) in
  match member with
  | None => Throw (ForbiddenException "Not a member of this channel")
  | Some _ =>
      let! cached := (if bool_decide (cursor = None) && negb (is_since mode) && (safeLimit <=? MESSAGE_CACHE_SIZE)
                      then getCachedPage channelId safeLimit else Ret None) in
      match cached with
      | Some page => Ret page
      | None => databasePage channelId safeLimit cursor mode
      end
  end.

(** ** Delete *)
Definition wipe_message (messageId : string) (now : Z) (d : Db) : Db :=
  d <| messages := update_where (λ m, m_id m === messageId)
    (λ m, m <| m_isDeleted := true |> <| m_encryptedContent := "" |> <| m_metadata := None |> <| m_updatedAt := now |>)
    (messages d) |>.

Definition delete_reactions (messageId : string) (d : Db) : Db :=
  d <| reactions := delete_where (λ r, re_messageId r === messageId) (reactions d) |>.

Definition newest_remaining (channelId messageId : string) (d : Db) : option MessageRow :=
  head (sort_by (λ a b, m_sequenceNumber b <=? m_sequenceNumber a)
    (select (λ m, of_channel channelId m && negb (m_isDeleted m) && (m_id m !== messageId)) (messages d))).

Definition point_preview (channelId : string) (prev : option MessageRow) (now : Z) (d : Db) : Db :=
  d <| channels := update_where (λ c, c_id c === channelId)
    (λ c, c <| c_lastMessageId := m_id <$> prev |> <| c_lastMessageAt := m_createdAt <$> prev |> <| c_updatedAt := now |>)
    (channels d) |>.

Definition delete_in_transaction (channelId messageId : string) : M () :=
  let! now := Date_now in
  do! execute (λ _ d, (tt, wipe_message messageId now d));
  do! execute (λ _ d, (tt, delete_reactions messageId d));
  let! channel := query (find_channel channelId) in
  when (match channel with Some c => c_lastMessageId c === Some messageId | None => false end) do
    (let! prev := query (newest_remaining channelId messageId) in
     let! now' := Date_now in
     execute (λ _ d, (tt, point_preview channelId prev now' d))).

Definition deleteMessage (userId messageId : string) : M json :=
  let! row := query (find_message messageId) in
  match row with
  | None => Throw (NotFoundException "Message not found")
  | Some msg =>
      if m_senderId msg !== userId then Throw (ForbiddenException "Can only delete your own messages")
      else
        do! (when negb (m_isDeleted msg) do transaction (delete_in_transaction (m_channelId msg) messageId));
        do! invalidateMessages (m_channelId msg);
        do! emitToChannel (m_channelId msg) "message:deleted"
              (JObj [("messageId", JStr messageId); ("channelId", JStr (m_channelId msg))]) no_options;
        Ret (JObj [("success", JBool true); ("messageId", JStr messageId); ("channelId", JStr (m_channelId msg))])
  end.
End Messages.
