(* ===== verification/Channels.v ===== *)
(** * Channels: creation, membership, inbox and read watermarks

    Models modules/channels/channels.service.ts and the participant limit of
    dto/create-channel.dto.ts. *)
From Stdlib Require Import String.
From S2P Require Import Prelude JsString Json IsoDate Effects Errors Redis Schema World Crypto RedisSession.
From S2P Require Import RedisCache Socket ChannelMembers Messages.
From stdpp Require Import base list strings gmap.

Local Open Scope string_scope.
Local Open Scope Z_scope.
Local Open Scope list_scope.

Definition MAX_CHANNEL_PARTICIPANTS : Z := 50.

Record ChannelSummary := mkChannelSummary { cs_id : string; cs_type : string; cs_name : option string; cs_createdAt : Z }.
Record CreateChannelResult := mkCreateChannelResult { cr_channel : ChannelSummary; cr_created : bool }.

Definition summary (c : ChannelRow) : ChannelSummary := mkChannelSummary (c_id c) (c_type c) (c_name c) (c_createdAt c).

Definition role_of (channelId userId : string) (d : Db) : option string := mb_role <$> membership userId channelId d.
Definition active_users (ids : list string) (d : Db) : list UserRow :=
  select (λ u, bool_decide (u_id u ∈ ids) && u_isActive u) (users d).
Definition is_direct (d : Db) (channelId : string) : bool :=
  match find_channel channelId d with Some c => c_type c === "DIRECT" | None => false end.

(** Channels of type DIRECT that both users are in, grouped by channel. *)
Definition direct_channels (a b : string) (d : Db) : list string :=
  List.filter (λ c, is_direct d c && db_member c a d && db_member c b d)
    (unique (map mb_channelId (select (λ m, (mb_userId m === a) || (mb_userId m === b)) (memberships d)))).

Definition new_membership (n i : nat) (userId channelId role : string) : Env → MembershipRow := λ E,
  mkMembership (uuid_at n i) role (now_at n) None false None None userId channelId.

(** ** Inbox rows *)
Record InboxItem := mkInboxItem {
  ib_channel : ChannelRow; ib_lastMessage : option (MessageRow * option string);
  ib_lastReadMessageId : option string; ib_dmPeerId : option string; ib_unreadCount : Z;
}.

(** [ORDER BY last_message_at DESC]: Postgres puts NULL first. *)
Definition later_first (a b : option Z) : bool :=
  match a, b with None, _ => true | Some _, None => false | Some x, Some y => y <=? x end.

Definition last_message (c : ChannelRow) (d : Db) : option (MessageRow * option string) :=
  id ← c_lastMessageId c; m ← find_message id d; Some (m, u_username <$> find_user (m_senderId m) d).

Definition inbox_channels (ids : list string) (d : Db) : list (ChannelRow * option (MessageRow * option string)) :=
  map (λ c, (c, last_message c d))
    (sort_by (λ a b, later_first (c_lastMessageAt a) (c_lastMessageAt b))
       (select (λ c, bool_decide (c_id c ∈ ids)) (channels d))).

Definition dm_members (ids : list string) (userId : string) (d : Db) : list (string * string) :=
  map (λ m, (mb_channelId m, mb_userId m))
    (select (λ m, bool_decide (mb_channelId m ∈ ids) && is_direct d (mb_channelId m) && (mb_userId m !== userId)) (memberships d)).

(** [new Map(entries).get(k)]: the last entry wins. *)
Definition map_get {A} (k : string) (l : list (string * A)) : option A := snd <$> last (List.filter (λ e, e.1 === k) l).

(** ** Read watermarks *)
Definition seq_of (id : option string) (d : Db) : option Z := i ← id; m_sequenceNumber <$> find_message i d.

(** The join of [markRead]: membership id, sequence of the target, sequence of the
    last read message. *)
Definition read_row (userId channelId messageId : string) (d : Db) : option (string * option Z * option Z) :=
  mb ← membership userId channelId d;
  Some (mb_id mb,
        m_sequenceNumber <$> head (select (λ m, (m_id m === messageId) && of_channel channelId m) (messages d)),
        seq_of (mb_lastReadMessageId mb) d).

(** [lastReadMessageId IS NULL OR COALESCE((SELECT ...), 0) < targetSeq], the messages
    read in [d]. *)
Definition behind (d : Db) (targetSeq : Z) (mb : MembershipRow) : bool :=
  match mb_lastReadMessageId mb with
  | None => true
  | Some _ => default 0 (seq_of (mb_lastReadMessageId mb) d) <? targetSeq
  end.

Section Channels.
Context {R : Redis} {E : Env}.

Definition getRole (channelId userId : string) : M (option string) := query (role_of channelId userId).

(** [if (!role)]: an empty role counts as none. *)
Definition assertMember (channelId userId : string) : M string :=
  let! role := getRole channelId userId in
  match truthy role with
  | Some r => Ret r
  | None => Throw (ForbiddenException "Not a member of this channel")
  end.

(** ** Create *)
Definition insert_channel_row (type : string) (name : option string) : M ChannelSummary :=
  statement (λ n d,
    let row := mkChannel (uuid_at n 0) name type false None None (now_at n) (now_at n) in
    match insert_channel d row with
    | Ok t => Ok (summary row, d <| channels := t |>)
    | Err e => Err e
    end).

Definition insert_member_rows (channelId : string) (rows : list (string * string)) : M () :=
  statement (λ n d,
    match insert_rows (insert_membership d) (memberships d)
            (imap (λ i r, new_membership n i r.1 channelId r.2 E) rows) with
    | Ok t => Ok (tt, d <| memberships := t |>)
    | Err e => Err e
    end).

(** The body of [insertChannel], inside a transaction. *)
Definition insertChannel (creatorId : string) (others : list string) (type : string) (name : option string) : M CreateChannelResult :=
  let! channel := insert_channel_row type name in
  do! insert_member_rows (cs_id channel) ((creatorId, "ADMIN") :: map (λ uid, (uid, "MEMBER")) others);
  Ret (mkCreateChannelResult channel true).

(** [hashtext('zevra:dm:a:b')], the two ids sorted. *)
Definition direct_lock (userId targetId : string) : lock_key :=
  let pair := if String.leb userId targetId then userId +:+ ":" +:+ targetId else targetId +:+ ":" +:+ userId in
  inl (hashtext ("zevra:dm:" +:+ pair)).
(** The rest of the transaction, once it knows the channel that exists, if any. *)
Definition open_direct (userId targetId : string) (existing : option string) : M CreateChannelResult :=
  match existing with
  | Some channelId =>
      let! channel := query (λ d, summary <$> find_channel channelId d) in
      match channel with
      | Some c => Ret (mkCreateChannelResult c false)
      | None => Throw type_error
      end
  | None => insertChannel userId [targetId] "DIRECT" None
  end.
Definition createDirect (userId targetId : string) : M CreateChannelResult :=
  locked_transaction (direct_lock userId targetId) (λ d, head (direct_channels userId targetId d)) (open_direct userId targetId).

(** The arguments [create] refuses. *)
Definition create_guard (userId : string) (participants : list string) (type : string) : option thrown :=
  if type === "DIRECT" then
    if negb (length participants =? 1)%nat
    then Some (BadRequestException "Direct message requires exactly 1 other participant")
    else if bool_decide (head participants = Some userId) then Some (BadRequestException "Cannot create DM with yourself")
    else None
  else if type === "GROUP" then
    if MAX_CHANNEL_PARTICIPANTS <? Z.of_nat (length participants)
    then Some (BadRequestException ("A channel can have at most " +:+ z_to_string MAX_CHANNEL_PARTICIPANTS +:+ " participants"))
    else None
  else Some (BadRequestException "Invalid channel type").

Definition announce_created (result : CreateChannelResult) (memberIds : list string) (userId : string) : M () :=
  let c := cr_channel result in
  do! setMembers (cs_id c) memberIds;
  do! joinUsersToChannel memberIds (cs_id c);
  emitToUsers memberIds "channel:created"
    (JObj [("channel", JObj [("id", JStr (cs_id c)); ("type", JStr (cs_type c)); ("name", json_opt (cs_name c));
                             ("createdAt", JStr (toISOString (cs_createdAt c)))]);
           ("memberIds", JArr (map JStr memberIds)); ("createdBy", JStr userId)]).

Definition create (userId : string) (participantIds : list string) (type : string) (name : option string) : M CreateChannelResult :=
  let participants := unique participantIds in
  match create_guard userId participants type with
  | Some err => Throw err
  | None =>
      let others := List.filter (λ id, id !== userId) participants in
      match others with
      | [] => Throw (BadRequestException "At least one other participant is required")
      | target :: _ =>
          let! found := query (active_users others) in
          if negb (length found =? length others)%nat
          then Throw (NotFoundException "One or more participants do not exist")
          else
            let! result := (if type === "DIRECT" then createDirect userId target
                            else transaction (insertChannel userId others "GROUP" (truthy name))) in
            do! (if cr_created result then announce_created result (userId :: others) userId
                 else joinUsersToChannel [userId] (cs_id (cr_channel result)));
            Ret result
      end
  end.

(** ** Inbox *)
Definition getInbox (userId : string) : M (list InboxItem) :=
  let! memberChannels := query (λ d, map (λ m, (mb_channelId m, mb_lastReadMessageId m))
                                       (select (λ m, mb_userId m === userId) (memberships d))) in
  if memberChannels === [] then Ret []
  else
    let channelIds := map fst memberChannels in
    let! result := query (inbox_channels channelIds) in
    let! dmMembers := query (dm_members channelIds userId) in
    let! unread := getUnreadCounts userId channelIds in
    Ret (map (λ r, mkInboxItem r.1 r.2
                     (mjoin (map_get (c_id r.1) memberChannels))
                     (if c_type r.1 === "DIRECT" then map_get (c_id r.1) dmMembers else None)
                     (default 0 (unread !! c_id r.1))) result).

(** ** Mark read *)
(** The UPDATE at READ COMMITTED: it finds its row in the [snapshot] taken when it starts,
    waits for the transactions that are changing the row, and checks the row again as
    they left it, but against the messages of the snapshot. *)
Definition advance_watermark (snapshot : Db) (membershipId messageId : string) (targetSeq now : Z) (d : Db) : nat * Db :=
  let found := bool_decide (membershipId ∈ map mb_id (select (behind snapshot targetSeq) (memberships snapshot))) in
  let hit m := found && (mb_id m === membershipId) && behind snapshot targetSeq m in
  (length (select hit (memberships d)),
   d <| memberships := update_where hit
          (λ m, m <| mb_lastReadMessageId := Some messageId |> <| mb_lastReadAt := Some now |>) (memberships d) |>).

Definition record_read (messageId userId : string) (readAt : Z) : M () :=
  statement (λ n d,
    let row := mkMessageRead (uuid_at n 0) messageId userId readAt in
    match insert_or_ignore (insert_messageRead d) (λ a b, (mr_id a === mr_id b) || messageRead_index a b) (messageReads d) row with
    | Ok (Some t) => Ok (tt, d <| messageReads := t |>)
    | Ok None => Ok (tt, d)
    | Err e => Err e
    end).

Definition markRead (userId channelId messageId : string) : M (bool * bool) :=
  let! row := query (read_row userId channelId messageId) in
  match row with
  | None => Throw (ForbiddenException "Not a member of this channel")
  | Some (_, None, _) => Throw (NotFoundException "Message not found in this channel")
  | Some (membershipId, Some targetSeq, currentSeq) =>
      let! advanced :=
        (if match currentSeq with None => true | Some c => c <? targetSeq end
         then let! snapshot := query (λ d, d) in
              let! rowCount := execute (λ n d, advance_watermark snapshot membershipId messageId targetSeq (now_at n) d) in
              Ret (0 <? rowCount)%nat
         else Ret false) in
      do! resetUnread userId channelId;
      do! (when advanced do
             (let! readAt := Date_now in
              do! record_read messageId userId readAt;
              emitToChannel channelId "message:read"
                (JObj [("userId", JStr userId); ("messageId", JStr messageId); ("channelId", JStr channelId);
                       ("readAt", JStr (toISOString readAt))]) no_options));
      Ret (true, advanced)
  end.

(** ** Details *)
Definition channel_members (channelId : string) (d : Db) : list (UserRow * MembershipRow) :=
  omap (λ m, u ← find_user (mb_userId m) d; Some (u, m)) (select (in_channel channelId) (memberships d)).

Definition getChannel (channelId userId : string) : M (ChannelRow * string * list (UserRow * MembershipRow)) :=
  let! role := assertMember channelId userId in
  let! channel := query (find_channel channelId) in
  match channel with
  | None => Throw (NotFoundException "Channel not found")
  | Some c => let! members := query (channel_members channelId) in Ret (c, role, members)
  end.

(** ** Members *)
Definition set_updated (channelId : string) (now : Z) (d : Db) : Db :=
  d <| channels := update_where (λ c, c_id c === channelId) (λ c, c <| c_updatedAt := now |>) (channels d) |>.

Definition insert_member (userId channelId role : string) : M (option string) :=
  statement (λ n d,
    let row := new_membership n 0 userId channelId role E in
    match insert_or_ignore (insert_membership d) membership_index (memberships d) row with
    | Ok (Some t) => Ok (Some (mb_id row), d <| memberships := t |>)
    | Ok None => Ok (None, d)
    | Err e => Err e
    end).

Definition member_event (channelId userId : string) : json := JObj [("channelId", JStr channelId); ("userId", JStr userId)].

Definition addMember (channelId requesterId newUserId : string) (role : option string) : M (string * (string * string)) :=
  let! requesterRole := getRole channelId requesterId in
  if bool_decide (requesterRole ≠ Some "ADMIN") then Throw (ForbiddenException "Only admins can add members")
  else
    let! channel := query (find_channel channelId) in
    match channel with
    | None => Throw (NotFoundException "Channel not found")
    | Some c =>
        if c_type c !== "GROUP" then Throw (BadRequestException "Members can only be added to group channels")
        else
          let! user := query (λ d, head (active_users [newUserId] d)) in
          match user with
          | None => Throw (NotFoundException "User not found")
          | Some u =>
              let! count := query (λ d, Z.of_nat (length (member_ids channelId d))) in
              if MAX_CHANNEL_PARTICIPANTS + 1 <=? count then Throw (BadRequestException "Channel is full")
              else
                let! newMember := insert_member newUserId channelId (default "MEMBER" role) in
                match newMember with
                | None => Throw (ConflictException "User is already a member")
                | Some membershipId =>
                    let! now := Date_now in
                    do! execute (λ _ d, (tt, set_updated channelId now d));
                    do! invalidate channelId;
                    do! joinUsersToChannel [newUserId] channelId;
                    do! emitToChannelAndUsers channelId [newUserId] "channel:member-added" (member_event channelId newUserId);
                    Ret (membershipId, (u_id u, u_username u))
                end
          end
    end.

Definition delete_member (channelId userId : string) (d : Db) : option string * Db :=
  (mb_role <$> head (select (is_membership userId channelId) (memberships d)),
   d <| memberships := delete_where (is_membership userId channelId) (memberships d) |>).

Definition find_admin (channelId : string) (d : Db) : option MembershipRow :=
  head (select (λ m, in_channel channelId m && (mb_role m === "ADMIN")) (memberships d)).

Definition longest_standing (channelId : string) (d : Db) : option MembershipRow :=
  head (sort_by (λ a b, mb_joinedAt a <=? mb_joinedAt b) (select (in_channel channelId) (memberships d))).

Definition make_admin (membershipId : string) (d : Db) : Db :=
  d <| memberships := update_where (λ m, mb_id m === membershipId) (λ m, m <| mb_role := "ADMIN" |>) (memberships d) |>.

Definition promote (channelId : string) : M (option string) :=
  let! admin := query (find_admin channelId) in
  match admin with
  | Some _ => Ret None
  | None =>
      let! oldest := query (longest_standing channelId) in
      match oldest with
      | None => Ret None
      | Some o => do! execute (λ _ d, (tt, make_admin (mb_id o) d)); Ret (Some (mb_userId o))
      end
  end.

Definition remove_in_transaction (channelId targetUserId : string) : M (option string) :=
  do! query (find_channel channelId);
  let! removed := execute (λ _ d, delete_member channelId targetUserId d) in
  match removed with
  | None => Throw (NotFoundException "Member not found in channel")
  | Some role =>
      let! promoted := (if role === "ADMIN" then promote channelId else Ret None) in
      let! now := Date_now in
      do! execute (λ _ d, (tt, set_updated channelId now d));
      Ret promoted
  end.

Definition removeMember (channelId requesterId targetUserId : string) : M (option string) :=
  do! (when requesterId !== targetUserId do
         (let! requesterRole := getRole channelId requesterId in
          when bool_decide (requesterRole ≠ Some "ADMIN") do Throw (ForbiddenException "Only admins can remove members")));
  let! promotedUserId := transaction (remove_in_transaction channelId targetUserId) in
  do! invalidate channelId;
  do! resetUnread targetUserId channelId;
  do! emitToChannelAndUsers channelId [targetUserId] "channel:member-removed" (member_event channelId targetUserId);
  do! removeUserFromChannel targetUserId channelId;
  Ret promotedUserId.

Definition archive (channelId userId : string) : M bool :=
  let! role := getRole channelId userId in
  if bool_decide (role ≠ Some "ADMIN") then Throw (ForbiddenException "Only admins can archive channels")
  else
    let! channel := query (find_channel channelId) in
    match channel with
    | None => Throw (NotFoundException "Channel not found")
    | Some c =>
        let isArchived := negb (c_isArchived c) in
        let! now := Date_now in
        do! execute (λ _ d, (tt, d <| channels := update_where (λ c, c_id c === channelId)
              (λ c, c <| c_isArchived := isArchived |> <| c_updatedAt := now |>) (channels d) |>));
        Ret isArchived
    end.

(** ** Typing and read receipts *)
Definition getTypingUsersOf (channelId userId : string) : M (list string) :=
  do! assertMember channelId userId;
  let! typing := getTypingUsers channelId in
  Ret (List.filter (λ id, id !== userId) typing).

Definition getReadReceipts (channelId userId : string) : M (gmap string string) :=
  do! assertMember channelId userId;
  let! rows := query (λ d, map (λ m, (mb_userId m, mb_lastReadMessageId m)) (select (in_channel channelId) (memberships d))) in
  Ret (foldl (λ acc r, match truthy r.2 with Some id => <[r.1 := id]> acc | None => acc end) ∅ rows).
End Channels.
