(* ===== verification/Reactions.v ===== *)
(** * Reactions: one emoji per user and message

    Models modules/reactions/reactions.service.ts. *)
From Stdlib Require Import String.
From S2P Require Import Prelude JsString Json Effects Errors Redis Schema World Socket ChannelMembers Crypto.
From S2P Require Import RedisSession RedisCache Messages.
From stdpp Require Import base list strings.

Local Open Scope string_scope.
Local Open Scope Z_scope.
Local Open Scope list_scope.

Record ReactionActor := mkReactionActor { a_id : string; a_username : string }.
Inductive add_action := added | already_exists.
Inductive remove_action := removed | not_found.

Record ReactionGroup := mkReactionGroup { g_emoji : string; g_userIds : list string; g_count : Z }.

#[export] Instance ReactionRow_eq_dec : EqDecision ReactionRow.
Proof. solve_decision. Defined.
Definition user_reactions (messageId userId : string) (r : ReactionRow) : bool :=
  (re_messageId r === messageId) && (re_userId r === userId).

(** The message joined with the user's membership of its channel. *)
Record target := mkTarget { t_channelId : string; t_isDeleted : bool; t_membershipId : option string }.
Definition target_row (userId messageId : string) (d : Db) : option target :=
  m ← find_message messageId d;
  Some (mkTarget (m_channelId m) (m_isDeleted m) (mb_id <$> membership userId (m_channelId m) d)).

(** The properties every object inherits from [Object.prototype]: [grouped[emoji]] finds
    them before anything is assigned to it. *)
Definition object_prototype : list string :=
  ["__proto__"; "constructor"; "hasOwnProperty"; "isPrototypeOf"; "propertyIsEnumerable"; "toLocaleString"; "toString"; "valueOf";
   "__defineGetter__"; "__defineSetter__"; "__lookupGetter__"; "__lookupSetter__"].
Definition inherited (k : string) : bool := bool_decide (k ∈ object_prototype).

(** [grouped[emoji] ??= {...}; entry.userIds.push(userId); entry.count++]; what is
    inherited has no [userIds] to push to. *)
Definition group_reaction (groups : list ReactionGroup) (row : ReactionRow) : outcome thrown (list ReactionGroup) :=
  if inherited (re_emoji row) then Err type_error
  else if existsb (λ g, g_emoji g === re_emoji row) groups
  then Ok (map (λ g, if g_emoji g === re_emoji row
                     then mkReactionGroup (g_emoji g) (g_userIds g ++ [re_userId row]) (g_count g + 1) else g) groups)
  else Ok (groups ++ [mkReactionGroup (re_emoji row) [re_userId row] 1]).
Fixpoint grouped (groups : list ReactionGroup) (rows : list ReactionRow) : outcome thrown (list ReactionGroup) :=
  match rows with
  | [] => Ok groups
  | row :: rows' => match group_reaction groups row with Ok groups' => grouped groups' rows' | Err e => Err e end
  end.

(** [Object.values]: the array indices in ascending order, then the other keys in the
    order of their creation. *)
Definition array_index (k : string) : option Z :=
  n ← string_to_z k; if (0 <=? n) && (n <=? 4294967294) && (z_to_string n === k) then Some n else None.
Definition has_index (k : string) : bool := match array_index k with Some _ => true | None => false end.
Definition index_of (k : string) : Z := default 0 (array_index k).
Definition object_values (groups : list ReactionGroup) : list ReactionGroup :=
  sort_by (λ a b, index_of (g_emoji a) <=? index_of (g_emoji b)) (select (λ g, has_index (g_emoji g)) groups)
  ++ select (λ g, negb (has_index (g_emoji g))) groups.

Section Reactions.
Context {R : Redis} {E : Env}.

Definition loadTarget (userId channelId messageId : string) : M target :=
  let! row := query (target_row userId messageId) in
  match row with
  | None => Throw (NotFoundException "Message not found")
  | Some t =>
      if t_channelId t !== channelId then Throw (NotFoundException "Message not found")
      else match truthy (t_membershipId t) with
           | None => Throw (ForbiddenException "Not a member of this channel")
           | Some _ => Ret t
           end
  end.

Definition broadcast (event : string) (actor : ReactionActor) (channelId messageId emoji : string) : M () :=
  emitToChannel channelId event
    (JObj [("userId", JStr (a_id actor)); ("username", JStr (a_username actor)); ("messageId", JStr messageId);
           ("emoji", JStr emoji); ("channelId", JStr channelId)])
    (mkEmitOptions None (Some (a_id actor))).

Definition insert_reaction_row (messageId userId emoji : string) : M bool :=
  statement (λ n d,
    match insert_or_ignore (insert_reaction d) reaction_index (reactions d)
            (mkReaction (uuid_at n 0) emoji (now_at n) messageId userId) with
    | Ok (Some t) => Ok (true, d <| reactions := t |>)
    | Ok None => Ok (false, d)
    | Err e => Err e
    end).

(** The rows that the DELETE of the transaction selects; those that are still there when
    it commits are gone. *)
Definition replaced_rows (messageId userId emoji : string) (d : Db) : list ReactionRow :=
  select (λ r, user_reactions messageId userId r && (re_emoji r !== emoji)) (reactions d).
Definition delete_listed (rows : list ReactionRow) (d : Db) : Db :=
  d <| reactions := delete_where (λ r, bool_decide (r ∈ rows)) (reactions d) |>.

Definition reaction_lock (messageId userId : string) : lock_key := inr (hashtext messageId, hashtext userId).
Definition replace_reaction (messageId userId emoji : string) (replaced : list ReactionRow) : M (add_action * list string) :=
  do! execute (λ _ d, (tt, delete_listed replaced d));
  let! inserted := insert_reaction_row messageId userId emoji in
  Ret (if inserted then added else already_exists, map re_emoji replaced).

Definition addReaction (actor : ReactionActor) (channelId messageId emoji : string) : M (add_action * list string) :=
  let! t := loadTarget (a_id actor) channelId messageId in
  if t_isDeleted t then Throw (BadRequestException "Message has been deleted")
  else
    let! result := locked_transaction (reaction_lock messageId (a_id actor))
                     (replaced_rows messageId (a_id actor) emoji) (replace_reaction messageId (a_id actor) emoji) in
    do! for_each result.2 (λ replacedEmoji, broadcast "reaction:removed" actor channelId messageId replacedEmoji);
    do! (match result.1 with
         | added => broadcast "reaction:added" actor channelId messageId emoji
         | already_exists => Ret tt
         end);
    Ret result.

Definition delete_reaction (messageId userId emoji : string) (d : Db) : nat * Db :=
  let hit r := user_reactions messageId userId r && (re_emoji r === emoji) in
  (length (select hit (reactions d)), d <| reactions := delete_where hit (reactions d) |>).

Definition removeReaction (actor : ReactionActor) (channelId messageId emoji : string) : M remove_action :=
  do! loadTarget (a_id actor) channelId messageId;
  let! deleted := execute (λ _ d, delete_reaction messageId (a_id actor) emoji d) in
  if (0 <? deleted)%nat
  then do! broadcast "reaction:removed" actor channelId messageId emoji; Ret removed
  else Ret not_found.

Definition getReactions (messageId userId channelId : string) : M (list ReactionGroup) :=
  do! loadTarget userId channelId messageId;
  let! rows := query (λ d, select (λ r, re_messageId r === messageId) (reactions d)) in
  match grouped [] rows with Ok groups => Ret (object_values groups) | Err e => Throw e end.
End Reactions.
