(* ===== verification/Users.v ===== *)
(** * Users: profiles and search

    Models modules/users/users.service.ts, and the two statements other modules
    share: an UPDATE that checks column types, and the audit log entry. *)
From Stdlib Require Import Ascii String.
From S2P Require Import Prelude JsString Json Effects Errors Redis Schema World Socket ChannelMembers Crypto.
From S2P Require Import RedisSession RedisCache Messages.
From stdpp Require Import base list strings gmap.

Local Open Scope string_scope.
Local Open Scope Z_scope.
Local Open Scope list_scope.

(** UPDATE of rows: the statement fails when a new row violates a column type. *)
Definition checked_update {A} (column : A → option string) (p : A → bool) (f : A → A) (t : list A) : outcome string (list A) :=
  match omap (λ r, if p r then column (f r) else None) t with
  | [] => Ok (update_where p f t)
  | e :: _ => Err e
  end.

(** Details of an audit entry are optional. *)
Definition audit_row `{Env} (n : nat) (action : string) (userId : option string) (details : option json) (ip : option string) : AuditLogRow :=
  mkAuditLog (uuid_at n 0) action details ip userId (now_at n).

Section Audit.
Context {R : Redis} {E : Env}.

(** INSERT INTO audit_log; its failure is logged and swallowed. *)
Definition audit (action : string) (userId : option string) (details : option json) (ip : option string) : M () :=
  catch
    (statement (λ n d,
       match insert_auditLog d (audit_row n action userId details ip) with
       | Ok t => Ok (tt, d <| auditLog := t |>)
       | Err e => Err e
       end))
    (λ _, Ret tt).
End Audit.

Section Users.
Context {R : Redis} {E : Env}.

Definition findPublicById (id : string) : M UserRow :=
  let! user := query (λ d, head (select (λ u, (u_id u === id) && u_isActive u) (users d))) in
  match user with Some u => Ret u | None => Throw (NotFoundException "User not found") end.

(** UPDATE users SET username: the unique index applies to the new row. *)
Definition rename_row (userId username : string) (now : Z) : M (option UserRow) :=
  statement (λ _ d,
    let hit u := u_id u === userId in
    let f u := u <| u_username := username |> <| u_updatedAt := now |> in
    if existsb (λ u, (u_username u === username) && (u_id u !== userId)) (users d) && existsb hit (users d)
    then Err "23505"
    else match checked_update user_columns hit f (users d) with
         | Ok t => Ok (head (select hit t), d <| users := t |>)
         | Err e => Err e
         end).

Definition updateProfile (userId username : string) : M UserRow :=
  let! taken := query (λ d, head (select (λ u, (u_username u === username) && (u_id u !== userId)) (users d))) in
  match taken with
  | Some _ => Throw (ConflictException "Username already taken")
  | None =>
      let! now := Date_now in
      let! updated := rename_row userId username now in
      match updated with Some u => Ret u | None => Throw (NotFoundException "User not found") end
  end.

(** [input.replace(/[\\%_]/g, (ch) => '\' + ch)] *)
Definition is_like_meta (c : Ascii.ascii) : bool :=
  (Ascii.eqb c "\"%char || Ascii.eqb c "%"%char || Ascii.eqb c "_"%char)%bool.
Definition escapeLike (input : string) : string :=
  String.string_of_list_ascii
    (flat_map (λ c, if is_like_meta c then ["\"%char; c] else [c]) (String.list_ascii_of_string input)).

(** The comparison is the database's: [ilike text pattern]. *)
Definition search (term currentUserId : string) (limit : nat) : M (list UserRow) :=
  query (λ d, take limit (sort_by (λ a b, String.leb (u_username a) (u_username b))
    (select (λ u, ilike (u_username u) ("%" +:+ escapeLike term +:+ "%") && (u_id u !== currentUserId) && u_isActive u) (users d)))).
End Users.
