(* ===== verification/Keys.v ===== *)
(** * Keys: public keys, key rotation and sender keys

    Models modules/keys/keys.service.ts. *)
From Stdlib Require Import Ascii String.
From S2P Require Import Prelude JsString Json Effects Errors Redis Schema World Socket ChannelMembers Crypto.
From S2P Require Import RedisSession RedisCache Messages Users.
From stdpp Require Import base list strings gmap.

Local Open Scope string_scope.
Local Open Scope Z_scope.
Local Open Scope list_scope.

Record RotateKeysParams := mkRotateKeysParams {
  newPublicKey : string; newEncryptedPrivateKey : string; newKeySalt : string;
  newPublicKeySign : string; newEncryptedPrivateKeySign : string; newKeySaltSign : string; newKeyVersion : Z;
}.
Record SenderKeyItem := mkSenderKeyItem { i_receiverId : string; i_encryptedKey : string; i_keySignature : string }.

Section Keys.
Context {R : Redis} {E : Env}.

Record PublicKeys := mkPublicKeys { k_publicKey : string; k_publicKeySign : string; k_keyVersion : Z }.

Definition getPublicKeys (userIds : list string) : M (gmap string PublicKeys) :=
  if userIds === [] then Ret ∅
  else
    let! rows := query (λ d, select (λ u, bool_decide (u_id u ∈ userIds)) (users d)) in
    Ret (foldl (λ m u, <[u_id u := mkPublicKeys (u_publicKey u) (u_publicKeySign u) (u_keyVersion u)]> m) ∅ rows).

Definition getMyKeys (userId : string) : M UserRow :=
  let! user := query (find_user userId) in
  match user with Some u => Ret u | None => Throw (NotFoundException "User not found") end.

Definition apply_rotation (params : RotateKeysParams) (now : Z) (u : UserRow) : UserRow :=
  u <| u_publicKey := newPublicKey params |> <| u_encryptedPrivateKey := newEncryptedPrivateKey params |>
    <| u_keySalt := newKeySalt params |> <| u_publicKeySign := newPublicKeySign params |>
    <| u_encryptedPrivateKeySign := newEncryptedPrivateKeySign params |> <| u_keySaltSign := newKeySaltSign params |>
    <| u_keyVersion := newKeyVersion params |> <| u_updatedAt := now |>.

Definition rotate_row (userId : string) (params : RotateKeysParams) (now : Z) : M bool :=
  statement (λ _ d,
    let hit u := (u_id u === userId) && (u_keyVersion u <? newKeyVersion params) in
    match checked_update user_columns hit (apply_rotation params now) (users d) with
    | Ok t => Ok (existsb hit (users d), d <| users := t |>)
    | Err e => Err e
    end).

Definition rotateKeys (userId : string) (params : RotateKeysParams) : M Z :=
  let! now := Date_now in
  let! updated := rotate_row userId params now in
  if negb updated
  then
    let! current := query (find_user userId) in
    match current with
    | None => Throw (NotFoundException "User not found")
    | Some u => Throw (BadRequestException ("newKeyVersion must be greater than the current key version ("
                                            +:+ z_to_string (u_keyVersion u) +:+ ")"))
    end
  else
    do! audit "KEY_ROTATE" (Some userId) (Some (JObj [("newKeyVersion", JNum (newKeyVersion params))])) None;
    Ret (newKeyVersion params).

(** ** Sender keys *)
Definition active_members (groupId : string) (ids : list string) (d : Db) : list string :=
  map mb_userId (select (λ m, in_channel groupId m && bool_decide (mb_userId m ∈ ids) && bool_decide (mb_leftAt m = None))
                   (memberships d)).

Definition owned_keys (ownerId groupId : string) (epoch : Z) (k : SenderKeyRow) : bool :=
  (sk_groupId k === groupId) && (sk_epoch k =? epoch) && (sk_ownerId k === ownerId).

Definition new_sender_key (n i : nat) (ownerId groupId : string) (epoch : Z) (item : SenderKeyItem) : SenderKeyRow :=
  mkSenderKey (uuid_at n i) groupId epoch (i_encryptedKey item) (i_keySignature item) (now_at n) ownerId (i_receiverId item).

(** The query builder refuses an INSERT without values. *)
Definition no_values : thrown := ErrObj "Error" "values() must be called with at least one value" JNull NotObject JNull JNull JNull JNull.

Definition replace_sender_keys (ownerId groupId : string) (epoch : Z) (items : list SenderKeyItem) : M () :=
  do! execute (λ _ d, (tt, d <| senderKeys := delete_where (owned_keys ownerId groupId epoch) (senderKeys d) |>));
  if bool_decide (length items = 0%nat) then Throw no_values
  else statement (λ n d,
    match insert_rows (insert_senderKey d) (senderKeys d)
            (imap (λ i item, new_sender_key n i ownerId groupId epoch item) items) with
    | Ok t => Ok (tt, d <| senderKeys := t |>)
    | Err e => Err e
    end).

Definition uploadSenderKeys (ownerId groupId : string) (epoch : Z) (items : list SenderKeyItem) : M () :=
  let receiverIds := unique (map i_receiverId items) in
  if negb (length receiverIds =? length items)%nat then Throw (BadRequestException "Duplicate receiverId in items")
  else
    let! members := query (active_members groupId (ownerId :: receiverIds)) in
    if negb (bool_decide (ownerId ∈ members)) then Throw (ForbiddenException "Not a member of this group")
    else if negb (forallb (λ id, bool_decide (id ∈ members)) receiverIds)
    then Throw (BadRequestException "All receivers must be members of this group")
    else transaction (replace_sender_keys ownerId groupId epoch items).

Definition getSenderKeys (groupId receiverId : string) (epoch : option Z) : M (list SenderKeyRow) :=
  query_with epoch (λ d, sort_by (λ a b, sk_epoch a <=? sk_epoch b)
    (select (λ k, (sk_groupId k === groupId) && (sk_receiverId k === receiverId)
                  && match epoch with Some e => sk_epoch k =? e | None => true end) (senderKeys d))).
End Keys.
