(* ===== verification/Srp.v ===== *)
(** * Srp: SRP-6a arithmetic and proofs

    Models modules/auth/srp.service.ts and modules/auth/srp-state.service.ts: bigints
    are integers, buffers lists of bytes. *)
From Stdlib Require Import Ascii String.
From S2P Require Import Prelude JsString Json Effects Errors Redis Schema World Crypto.
From stdpp Require Import base list strings.

Local Open Scope string_scope.
Local Open Scope Z_scope.
Local Open Scope list_scope.

Definition N_HEX : string :=
  "FFFFFFFFFFFFFFFFC90FDAA22168C234C4C6628B80DC1CD1" +:+
  "29024E088A67CC74020BBEA63B139B22514A08798E3404DD" +:+
  "EF9519B3CD3A431B302B0A6DF25F14374FE1356D6D51C245" +:+
  "E485B576625E7EC6F44C42E9A637ED6B0BFF5CB6F406B7ED" +:+
  "EE386BFB5A899FA5AE9F24117C4B1FE649286651ECE45B3D" +:+
  "C2007CB8A163BF0598DA48361C55D39A69163FA8FD24CF5F" +:+
  "83655D23DCA3AD961C62F356208552BB9ED529077096966D" +:+
  "670C354E4ABC9804F1746C08CA18217C32905E462E36CE3B" +:+
  "E39E772C180E86039B2783A2EC07A28FB5C55DF06F4C52C9" +:+
  "DE2BCBF6955817183995497CEA956AE515D2261898FA0510" +:+
  "15728E5A8AACAA68FFFFFFFFFFFFFFFF".

Definition G : Z := 2.
Definition N : Z := Eval vm_compute in hex_fold 0 (String.list_ascii_of_string N_HEX).

(** The loop of [modPow]: [fuel] bounds the number of bits of the exponent. *)
Fixpoint modPow_loop (fuel : nat) (result base exponent modulus : Z) : Z :=
  match fuel with
  | O => result
  | S fuel' =>
      if 0 <? exponent
      then modPow_loop fuel' (if exponent mod 2 =? 1 then (result * base) mod modulus else result)
             ((base * base) mod modulus) (Z.shiftr exponent 1) modulus
      else result
  end.
Definition modPow (base exponent modulus : Z) : Z :=
  modPow_loop (Z.to_nat (Z.log2 exponent + 1)) 1 ((base mod modulus + modulus) mod modulus) exponent modulus.

Definition bigintToBuffer (n : Z) : bytes := fromHex (padStart 512 "0" (toString16 n)).
Definition bufferToBigInt (b : bytes) : Z := hex_fold 0 (hex_bytes b).

Definition MAX_A_HEX_LENGTH : Z := 1024.

Definition parseClientEphemeral (hex : string) : option Z :=
  if (hex === "") || (MAX_A_HEX_LENGTH <? js_length hex) then None
  else if negb (all_chars is_hex hex) then None
  else match BigInt_hex hex with
       | Some A => if A mod N =? 0 then None else Some A
       | None => None
       end.

Definition computeVerifier (x : Z) : Z := modPow G x N.

Record proof_params := mkProofParams {
  pp_A : Z; pp_M1 : string; pp_b : Z; pp_B : Z; pp_v : Z; pp_srpSalt : string; pp_username : string;
}.
Record proof_result := mkProofResult { pr_valid : bool; pr_M2 : string; pr_K : bytes }.
Definition rejected : proof_result := mkProofResult false "" [].

Section Srp.
Context {C : Crypto}.

Definition decoyCredentials (username secret : string) : string * Z :=
  (toHex (take 16 (hmac_sha256 (utf8 secret) (utf8 ("zevra-srp-salt:" +:+ username)))),
   computeVerifier (bufferToBigInt (hmac_sha256 (utf8 secret) (utf8 ("zevra-srp-x:" +:+ username))))).

Definition multiplier : Z := bufferToBigInt (sha256_all [bigintToBuffer N; bigintToBuffer G]).

Definition server_ephemeral (v : Z) (random : bytes) : Z * Z :=
  let b := bufferToBigInt random in
  ((multiplier * v + modPow G b N) mod N, b).

(** [u = H(A, B)], [S = (A * v^u)^b mod N], [K = H(S)] *)
Definition scramble (A B : Z) : Z := bufferToBigInt (sha256_all [bigintToBuffer A; bigintToBuffer B]).
Definition premaster (A B b v : Z) : Z := modPow (A * modPow v (scramble A B) N) b N.
Definition session_key (S : Z) : bytes := sha256_all [bigintToBuffer S].

Fixpoint xor_bytes (a b : bytes) : bytes :=
  match a, b with
  | x :: a', y :: b' => Z.lxor x y :: xor_bytes a' b'
  | _, _ => []
  end.

Definition expected_M1 (A B : Z) (srpSalt : string) (K : bytes) : bytes :=
  sha256_all [xor_bytes (sha256_all [bigintToBuffer N]) (sha256_all [bigintToBuffer G]);
              sha256_all [fromHex srpSalt]; bigintToBuffer A; bigintToBuffer B; K].

Definition is_proof_text (M1 : string) : bool := (String.length M1 =? 64)%nat && all_chars is_hex M1.

Definition verifyClientProof (p : proof_params) : proof_result :=
  if pp_A p mod N =? 0 then rejected
  else
    let K := session_key (premaster (pp_A p) (pp_B p) (pp_b p) (pp_v p)) in
    let expectedM1 := expected_M1 (pp_A p) (pp_B p) (pp_srpSalt p) K in
    let provided := if is_proof_text (pp_M1 p) then fromHex (pp_M1 p) else [] in
    if negb ((length provided =? length expectedM1)%nat && (provided === expectedM1)) then rejected
    else mkProofResult true (toHex (sha256_all [bigintToBuffer (pp_A p); fromHex (pp_M1 p); K])) K.

Context {R : Redis} {E : Env}.

Definition randomBytes (len : nat) : M bytes := act (λ n w, (Ok (random_at n len), w)).
Definition randomHex (len : nat) : M string := let! b := randomBytes len in Ret (toHex b).

Definition generateServerEphemeral (v : Z) : M (Z * Z) :=
  let! random := randomBytes 32 in Ret (server_ephemeral v random).
End Srp.

(** ** SrpStateService *)
Record SrpState := mkSrpState { s_b : Z; s_B : Z; s_userId : option string }.
Definition SRP_STATE_TTL_SECONDS : Z := 120.
Definition srp_key (username : string) : string := "zevra:srp:" +:+ username.

Definition srp_state_json (s : SrpState) : json :=
  JObj [("b", JStr (toString16 (s_b s))); ("B", JStr (toString16 (s_B s)));
        ("userId", match s_userId s with Some u => JStr u | None => JNull end)].

(** [JSON.parse] and the two [BigInt] conversions; [None] when one of them throws. *)
Definition read_srp_state (raw : string) : option SrpState :=
  j ← parse raw;
  b ← match get_field j "b" with Some (JStr s) => BigInt_hex s | _ => None end;
  B ← match get_field j "B" with Some (JStr s) => BigInt_hex s | _ => None end;
  Some (mkSrpState b B (match get_field j "userId" with Some (JStr u) => Some u | _ => None end)).

Section SrpState.
Context {R : Redis} {E : Env}.

Definition srp_client : M () :=
  let! client := getClient in
  if client then Ret tt else Throw (ServiceUnavailableException "Login is temporarily unavailable").

Definition srp_set (username : string) (state : SrpState) : M () :=
  do! srp_client;
  do! redis_cmd (SetEx (srp_key username) SRP_STATE_TTL_SECONDS (stringify (srp_state_json state)));
  Ret tt.

Definition consume (username : string) : M (option SrpState) :=
  do! srp_client;
  let! raw := redis_cmd (GetDel (srp_key username)) in
  Ret (match raw with
       | RpStr (Some r) => if r === "" then None else read_srp_state r
       | _ => None
       end).
End SrpState.
