(* ===== verification/Auth.v ===== *)
(** * Auth: registration, SRP login, refresh tokens

    Models modules/auth/auth.service.ts. *)
From Stdlib Require Import Ascii String.
From S2P Require Import Prelude JsString Json Effects Errors Redis Schema World Crypto Config RateLimit RedisSession.
From S2P Require Import Socket ChannelMembers RedisCache Messages Users Srp.
From stdpp Require Import base list strings.

Local Open Scope string_scope.
Local Open Scope Z_scope.
Local Open Scope list_scope.

Definition REFRESH_TOKEN_TTL_MS : Z := 7 * 24 * 60 * 60 * 1000.
Definition INVALID_CREDENTIALS : string := "Invalid username or password".
Definition INVALID_REFRESH : string := "Invalid or expired refresh token".

(** [n.toString(16).padStart(2, '0')] *)
Definition bigintToHex (n : Z) : string := padStart 2 "0" (toString16 n).

Record Tokens := mkTokens { accessToken : string; refreshToken : string; expiresIn : Z }.

Record LoginStart := mkLoginStart { ls_username : string; ls_srpSalt : string; ls_B : string }.
Record LoginParams := mkLoginParams { lp_username : string; lp_A : string; lp_M1 : string; lp_ip : option string }.
Record LoginResult := mkLoginResult { lr_user : UserRow; lr_tokens : Tokens; lr_M2 : string }.

Definition drop_expired (userId : string) (now : Z) (d : Db) : Db :=
  d <| refreshTokens := delete_where (λ t, (rt_userId t === userId) && (rt_expiresAt t <? now)) (refreshTokens d) |>.
Definition drop_tokens (userId : string) (d : Db) : Db :=
  d <| refreshTokens := delete_where (λ t, rt_userId t === userId) (refreshTokens d) |>.

(** DELETE ... RETURNING *)
Definition take_token (hash : string) (d : Db) : option RefreshTokenRow * Db :=
  (head (select (λ t, rt_tokenHash t === hash) (refreshTokens d)),
   d <| refreshTokens := delete_where (λ t, rt_tokenHash t === hash) (refreshTokens d) |>).

Definition set_status (userId status : string) (d : Db) : Db :=
  d <| users := update_where (λ u, u_id u === userId) (λ u, u <| u_status := status |>) (users d) |>.
Definition set_logged_in (userId : string) (now : Z) (d : Db) : Db :=
  d <| users := update_where (λ u, u_id u === userId)
         (λ u, u <| u_lastLoginAt := Some now |> <| u_status := "ONLINE" |>) (users d) |>.

Definition argon2Params : json := JObj [("m", JNum 65536); ("t", JNum 3); ("p", JNum 4)].

Section Auth.
Context {R : Redis} {E : Env} {C : Crypto} {J : Jwt} {P : Environment}.

Definition jwt_secret : string := default "" (process_env "JWT_SECRET").

(** ** Registration *)
Definition existing_user (username email : string) (d : Db) : option UserRow :=
  head (select (λ u, (u_username u === username) || (u_email u === email)) (users d)).

Definition insert_user_row (row : nat → UserRow) : M UserRow :=
  statement (λ n d, match insert_user d (row n) with
                    | Ok t => Ok (row n, d <| users := t |>)
                    | Err e => Err e
                    end).

Definition generateX25519KeyPair : M (bytes * bytes) := act (λ n w, (Ok (x25519_at n), w)).
Definition generateEd25519KeyPair : M (bytes * bytes) := act (λ n w, (Ok (ed25519_at n), w)).
Definition seal_key (privateKey kek : bytes) : M string :=
  let! iv := randomBytes 12 in Ret (sealPrivateKey iv privateKey kek).

Definition register (username email password : string) : M UserRow :=
  let! existing := query (existing_user username email) in
  match existing with
  | Some u => Throw (ConflictException (if u_username u === username then "Username already taken" else "Email already registered"))
  | None =>
      let! srpSalt := randomHex 16 in
      let srpVerifier := computeVerifier (bufferToBigInt (sha256 (utf8 (srpSalt +:+ password)))) in
      let! keySaltBytes := randomBytes 32 in
      let keySalt := base64 keySaltBytes in
      let kek := deriveKEK password (from_base64 keySalt) in
      let! keySaltSignBytes := randomBytes 32 in
      let keySaltSign := base64 keySaltSignBytes in
      let kekSign := deriveKEK password (from_base64 keySaltSign) in
      let! x25519 := generateX25519KeyPair in
      let! sealedX25519 := seal_key x25519.2 kek in
      let! ed25519 := generateEd25519KeyPair in
      let! sealedEd25519 := seal_key ed25519.2 kekSign in
      let! user := insert_user_row (λ n,
        mkUser (uuid_at n 0) username email srpSalt (bigintToHex srpVerifier) argon2Params (base64 x25519.1) sealedX25519
          keySalt (base64 ed25519.1) sealedEd25519 keySaltSign 1 "OFFLINE" true (now_at n) (now_at n) None) in
      do! audit "REGISTER" (Some (u_id user)) None None;
      Ret user
  end.

(** ** Login *)
Definition login_credentials (user : option UserRow) (username : string) : M (string * Z * option string) :=
  match user with
  | Some u =>
      if u_isActive u
      then match BigInt_hex (u_srpVerifier u) with
           | Some v => Ret (u_srpSalt u, v, Some (u_id u))
           | None => Throw syntax_error
           end
      else let decoy := decoyCredentials username jwt_secret in Ret (decoy.1, decoy.2, None)
  | None => let decoy := decoyCredentials username jwt_secret in Ret (decoy.1, decoy.2, None)
  end.

Definition user_by_name (username : string) (d : Db) : option UserRow := head (select (λ u, u_username u === username) (users d)).

Definition loginStart (username : string) : M LoginStart :=
  let! user := query (user_by_name username) in
  let! ' (srpSalt, verifier, userId) := login_credentials user username in
  let! ' (B, b) := generateServerEphemeral verifier in
  do! srp_set username (mkSrpState b B userId);
  Ret (mkLoginStart username srpSalt (bigintToHex B)).

(** ** Tokens *)
Definition insert_token (hash userId : string) (expiresAt : Z) : M () :=
  statement (λ n d, match insert_refreshToken d (mkRefreshToken (uuid_at n 0) hash expiresAt (now_at n) userId) with
                    | Ok t => Ok (tt, d <| refreshTokens := t |>)
                    | Err e => Err e
                    end).

Definition issueTokens (userId : string) : M Tokens :=
  let ttl := getAccessTokenTtl process_env in
  let! access := act (λ n w, (Ok (signAsync n userId ttl), w)) in
  let! refresh := randomHex 32 in
  let! now := Date_now in
  do! execute (λ _ d, (tt, drop_expired userId now d));
  do! insert_token (hashRefreshToken refresh) userId (now + REFRESH_TOKEN_TTL_MS);
  Ret (mkTokens access refresh ttl).

Definition loginFinish (params : LoginParams) : M LoginResult :=
  let! state := consume (lp_username params) in
  match state with
  | None => Throw (UnauthorizedException "Login session expired. Please try again.")
  | Some st =>
      match parseClientEphemeral (lp_A params) with
      | None => Throw (UnauthorizedException INVALID_CREDENTIALS)
      | Some A =>
          let! user := match truthy (s_userId st) with Some id => query (find_user id) | None => Ret None end in
          match (match user with
                 | Some u => if u_isActive u && (u_username u === lp_username params) then Some u else None
                 | None => None
                 end) with
          | None => Throw (UnauthorizedException INVALID_CREDENTIALS)
          | Some u =>
              match BigInt_hex (u_srpVerifier u) with
              | None => Throw syntax_error
              | Some v =>
                  let result := verifyClientProof (mkProofParams A (lp_M1 params) (s_b st) (s_B st) v (u_srpSalt u) (u_username u)) in
                  if negb (pr_valid result)
                  then
                    do! audit "LOGIN_FAILED" (Some (u_id u)) (Some (JObj [("reason", JStr "Invalid SRP proof")])) (lp_ip params);
                    Throw (UnauthorizedException INVALID_CREDENTIALS)
                  else
                    let! tokens := issueTokens (u_id u) in
                    let! now := Date_now in
                    do! execute (λ _ d, (tt, set_logged_in (u_id u) now d));
                    do! setOnline (u_id u);
                    do! audit "LOGIN" (Some (u_id u)) None (lp_ip params);
                    Ret (mkLoginResult u tokens (pr_M2 result))
              end
          end
      end
  end.

Definition refreshTokens_handler (token : string) : M Tokens :=
  let! record := execute (λ _ d, take_token (hashRefreshToken token) d) in
  match record with
  | None => Throw (UnauthorizedException INVALID_REFRESH)
  | Some r =>
      let! now := Date_now in
      if rt_expiresAt r <? now then Throw (UnauthorizedException INVALID_REFRESH)
      else
        let! user := query (find_user (rt_userId r)) in
        match (match user with Some u => u_isActive u | None => false end) with
        | false =>
            do! execute (λ _ d, (tt, drop_tokens (rt_userId r) d));
            Throw (UnauthorizedException INVALID_REFRESH)
        | true => issueTokens (rt_userId r)
        end
  end.

Definition getProfile (userId : string) : M UserRow :=
  let! user := query (find_user userId) in
  match user with Some u => Ret u | None => Throw (UnauthorizedException "Authentication required") end.

Definition logout (userId : string) : M () :=
  do! audit "LOGOUT" (Some userId) None None;
  do! execute (λ _ d, (tt, set_status userId "OFFLINE" d));
  do! execute (λ _ d, (tt, drop_tokens userId d));
  setOffline userId.
End Auth.
