(* ===== verification/Chat.v ===== *)
(** * Chat: lookups used by the gateways, and the audit queries

    Models chat/chat.service.ts and modules/audit/audit.service.ts. *)
From Stdlib Require Import String.
From S2P Require Import Prelude JsString Json Effects Errors Redis Schema World RedisSession RedisCache Socket.
From S2P Require Import ChannelMembers Crypto Messages Channels.
From stdpp Require Import base list strings gmap.

Local Open Scope string_scope.
Local Open Scope Z_scope.
Local Open Scope list_scope.

Definition PENDING_BATCH_SIZE : Z := 100.

Definition user_channel_ids (userId : string) (d : Db) : list string :=
  map mb_channelId (select (λ m, mb_userId m === userId) (memberships d)).

(** SELECT DISTINCT over the other members of the user's DIRECT channels. *)
Definition dm_peers (userId : string) (d : Db) : list string :=
  let mine := List.filter (is_direct d) (user_channel_ids userId d) in
  unique (map mb_userId (select (λ m, bool_decide (mb_channelId m ∈ mine) && (mb_userId m !== userId)) (memberships d))).

Record LogQuery := mkLogQuery {
  lq_userId : option string; lq_action : option string; lq_from : option Z; lq_to : option Z;
  lq_limit : option nat; lq_offset : option nat;
}.

Definition SECURITY_ACTIONS : list string := ["LOGIN_FAILED"; "LOGIN"; "REGISTER"; "KEY_ROTATE"; "PASSWORD_CHANGE"; "LOGOUT"].

Definition matches (q : LogQuery) (a : AuditLogRow) : bool :=
  match truthy (lq_userId q) with Some u => bool_decide (al_userId a = Some u) | None => true end
  && match truthy (lq_action q) with Some x => al_action a === x | None => true end
  && match lq_from q with Some t => t <=? al_createdAt a | None => true end
  && match lq_to q with Some t => al_createdAt a <=? t | None => true end.

Definition newest_first (l : list AuditLogRow) : list AuditLogRow := sort_by (λ a b, al_createdAt b <=? al_createdAt a) l.

Section Chat.
Context {R : Redis} {E : Env}.

Definition getUserChannelIds (userId : string) : M (list string) := query (user_channel_ids userId).
Definition getUserDMPeers (userId : string) : M (list string) := query (dm_peers userId).

Definition getUserUnreadCounts (userId : string) : M (gmap string Z) :=
  let! channelIds := getUserChannelIds userId in getUnreadCounts userId channelIds.

Definition deliverPendingMessages (userId : string) : M (list json * Z) := popPendingMessages userId PENDING_BATCH_SIZE.

(** ** AuditService *)
Definition getLogs (q : LogQuery) : M (list AuditLogRow) :=
  query (λ d, take (default 100%nat (lq_limit q)) (drop (default 0%nat (lq_offset q))
                (newest_first (select (matches q) (auditLog d))))).

Definition getSecurityEvents (userId : string) : M (list AuditLogRow) :=
  query (λ d, take 50 (newest_first
    (select (λ a, bool_decide (al_userId a = Some userId) && bool_decide (al_action a ∈ SECURITY_ACTIONS)) (auditLog d)))).
End Chat.
