(* ===== verification/LiveKit.v ===== *)
(** * LiveKit: rooms for group and fallback calls

    Models modules/livekit: the service (tokens, rooms, authorization), the webhook
    handlers that keep the call log, and the controller.  The LiveKit SDK is the
    class [LiveKit]: what it answers at each call. *)
From Stdlib Require Import Ascii String.
From S2P Require Import Prelude JsString Json Effects Errors Redis Schema World Crypto Config RateLimit RedisSession.
From S2P Require Import RedisCache Socket ChannelMembers Messages Users.
From stdpp Require Import base list strings.

Local Open Scope string_scope.
Local Open Scope Z_scope.
Local Open Scope list_scope.

(** ** Room names *)
Definition getDmRoomName (userId1 userId2 : string) : string :=
  let sorted := if String.leb userId1 userId2 then (userId1, userId2) else (userId2, userId1) in
  "dm-" +:+ sorted.1 +:+ "-" +:+ sorted.2.
Definition getGroupRoomName (channelId : string) : string := "group-" +:+ channelId.

(** [s.slice(from)] *)
Definition suffix_from (from : nat) (s : string) : string := String.substring from (String.length s - from) s.

(** [DM_ROOM_RE.exec(roomName)] and [GROUP_ROOM_RE.exec(roomName)]: the captured ids. *)
Definition dm_room (roomName : string) : option (string * string) :=
  let a := String.substring 3 36 roomName in
  let b := suffix_from 40 roomName in
  if (toLowerCase (String.substring 0 3 roomName) === "dm-") && is_uuid a && (String.substring 39 1 roomName === "-") && is_uuid b
  then Some (a, b) else None.
Definition group_room (roomName : string) : option string :=
  let channelId := suffix_from 6 roomName in
  if (toLowerCase (String.substring 0 6 roomName) === "group-") && is_uuid channelId then Some channelId else None.

(** A member who has not left; a uuid column compares ids whatever their case. *)
Definition active_membership (userId channelId : string) (d : Db) : option MembershipRow :=
  head (select (λ m, is_membership userId (toLowerCase channelId) m && bool_decide (mb_leftAt m = None)) (memberships d)).

(** ** The SDK *)
Record TokenRequest := mkTokenRequest {
  tr_identity : string; tr_name : string; tr_ttl : string; tr_room : string;
  tr_roomJoin : bool; tr_canPublish : bool; tr_canSubscribe : bool; tr_canPublishData : bool;
}.
Record WebhookEvent := mkWebhookEvent {
  we_event : string; we_roomName : option string; we_identity : option string; we_participantName : option string;
}.
Class LiveKit := {
  access_token : nat → TokenRequest → outcome thrown string;
  room_service : nat → option thrown;
  list_participants : nat → string → outcome thrown (list string);
  receive_webhook : nat → string → string → outcome thrown WebhookEvent;
}.
(** A concrete SDK, to evaluate the model: its webhooks start the room they name. *)
Definition toy_livekit : LiveKit := {|
  access_token _ t := Ok ("token:" +:+ tr_identity t +:+ "@" +:+ tr_room t);
  room_service _ := None;
  list_participants _ _ := Ok [];
  receive_webhook _ body _ := Ok (mkWebhookEvent "room_started" (Some body) None None);
|}.

Section LiveKit.
Context {R : Redis} {E : Env} {P : Environment} {L : LiveKit}.

(** The clients exist when the three variables are set. *)
Definition isConfigured : bool :=
  match truthy (process_env "LIVEKIT_API_KEY"), truthy (process_env "LIVEKIT_API_SECRET"), truthy (process_env "LIVEKIT_URL") with
  | Some _, Some _, Some _ => true
  | _, _, _ => false
  end.

Definition generateToken (roomName userId username : string) : M (option string) :=
  if negb isConfigured then Ret None
  else
    let! token := act (λ n w, (access_token n (mkTokenRequest userId username "10m" roomName true true true true), w)) in
    Ret (Some token).

(** A request to the room service, once it succeeds. *)
Definition room_request (e : effect) : M () :=
  act (λ n w, match room_service n with
              | Some err => (Err err, w)
              | None => (Ok tt, w <| w_out := w_out w ++ [e] |>)
              end).
Definition createRoom (roomName : string) (maxParticipants : Z) : M () :=
  if negb isConfigured then Ret tt
  else catch (room_request (CreateRoom roomName 60 maxParticipants)) (λ _, Ret tt).
Definition deleteRoom (roomName : string) : M () :=
  if negb isConfigured then Ret tt else catch (room_request (DeleteRoom roomName)) (λ _, Ret tt).
Definition getParticipants (roomName : string) : M (list string) :=
  if negb isConfigured then Ret []
  else catch (act (λ n w, (list_participants n roomName, w))) (λ _, Ret []).
Definition livekit_handleWebhook (body authHeader : string) : M (option WebhookEvent) :=
  if negb isConfigured then Ret None
  else catch (let! event := act (λ n w, (receive_webhook n body authHeader, w)) in Ret (Some event)) (λ _, Ret None).

Definition authorizeRoomAccess (roomName userId : string) : M bool :=
  match dm_room roomName with
  | Some (a, b) => Ret ((toLowerCase a === toLowerCase userId) || (toLowerCase b === toLowerCase userId))
  | None =>
      match group_room roomName with
      | Some channelId =>
          catch (let! row := query (active_membership userId channelId) in
                 Ret (match row with Some _ => true | None => false end))
                (λ _, Ret false)
      | None => Ret false
      end
  end.

(** ** Webhook: the log of LiveKit calls *)
Definition newest_call (p : CallLogRow → bool) (d : Db) : option CallLogRow :=
  head (sort_by (λ a b, cl_startedAt b <=? cl_startedAt a) (select p (callLogs d))).
Definition in_room (roomName : string) (c : CallLogRow) : bool := bool_decide (cl_roomName c = Some roomName).
Definition still_open (c : CallLogRow) : bool := bool_decide (cl_endedAt c = None).

Definition latestLogId (roomName : string) : M (option string) :=
  let! log := query (newest_call (in_room roomName)) in Ret (cl_id <$> log).

Definition insert_call_log (row : nat → CallLogRow) : M string :=
  statement (λ n d, match insert_callLog d (row n) with
                    | Ok t => Ok (cl_id (row n), d <| callLogs := t |>)
                    | Err e => Err e
                    end).

Definition handleRoomStarted (roomName : string) : M (option string) :=
  catch
    (let! existing := query (newest_call (λ c, in_room roomName c && still_open c)) in
     match existing with
     | Some c => Ret (Some (cl_id c))
     | None =>
         let! id := insert_call_log (λ n, mkCallLog (uuid_at n 0) "LIVEKIT" None None (Some roomName) (now_at n) None None "missed" None) in
         Ret (Some id)
     end)
    (λ _, Ret None).

(** [GREATEST(0, EXTRACT(EPOCH FROM (now() - started_at)))::int], times in milliseconds. *)
Definition elapsed_seconds (startedAt now : Z) : Z := Z.max 0 ((now - startedAt + 500) / 1000).

Definition close_open_calls (roomName : string) (endedAt : Z) : M nat :=
  statement (λ n d,
    let hit c := in_room roomName c && still_open c in
    match checked_update callLog_columns hit
            (λ c, c <| cl_endedAt := Some endedAt |> <| cl_duration := Some (elapsed_seconds (cl_startedAt c) (now_at n)) |>
                    <| cl_status := "completed" |>) (callLogs d) with
    | Ok t => Ok (length (select hit (callLogs d)), d <| callLogs := t |>)
    | Err e => Err e
    end).

Definition handleRoomFinished (roomName : string) : M () :=
  catch
    (let! now := Date_now in
     let! updated := close_open_calls roomName now in
     when (updated =? 0)%nat do
       (let! now' := Date_now in
        do! insert_call_log (λ n, mkCallLog (uuid_at n 0) "LIVEKIT" None None (Some roomName) (now_at n) (Some now') (Some 0) "completed" None);
        Ret tt))
    (λ _, Ret tt).

Definition is_participant (callLogId userId : string) (p : CallParticipantRow) : bool :=
  (cp_callLogId p === callLogId) && (cp_userId p === toLowerCase userId).

Definition reset_participant (logId identity : string) (joinedAt : Z) (d : Db) : bool * Db :=
  (existsb (is_participant logId identity) (callParticipants d),
   d <| callParticipants := update_where (is_participant logId identity)
          (λ p, p <| cp_joinedAt := joinedAt |> <| cp_leftAt := None |> <| cp_duration := None |>) (callParticipants d) |>).

(** INSERT INTO call_participants ... ON CONFLICT DO NOTHING *)
Definition insert_participants (rows : nat → list CallParticipantRow) : M () :=
  statement (λ n d, match insert_ignoring (insert_callParticipant d) callParticipant_conflict (callParticipants d) (rows n) with
                    | Ok t => Ok (tt, d <| callParticipants := t |>)
                    | Err e => Err e
                    end).

Definition handleParticipantJoined (roomName identity name : string) : M () :=
  if negb (is_uuid identity) then Ret tt
  else catch
    (let! logId := latestLogId roomName in
     match logId with
     | None => Ret tt
     | Some logId =>
         let! now := Date_now in
         let! reset := execute (λ _ d, reset_participant logId identity now d) in
         when negb reset do
           insert_participants (λ n, [mkCallParticipant (uuid_at n 0) logId (toLowerCase identity) (slice_units 32 name) (now_at n) None None])
     end)
    (λ _, Ret tt).

(** [Math.max(0, Math.floor((now - from) / 1000))] *)
Definition whole_seconds (from now : Z) : Z := Z.max 0 ((now - from) / 1000).

Definition participant_left (id : string) (now duration : Z) : M () :=
  statement (λ _ d,
    match checked_update callParticipant_columns (λ p, cp_id p === id)
            (λ p, p <| cp_leftAt := Some now |> <| cp_duration := Some duration |>) (callParticipants d) with
    | Ok t => Ok (tt, d <| callParticipants := t |>)
    | Err e => Err e
    end).

Definition handleParticipantLeft (roomName identity : string) : M () :=
  if negb (is_uuid identity) then Ret tt
  else catch
    (let! logId := latestLogId roomName in
     match logId with
     | None => Ret tt
     | Some logId =>
         let! participant := query (λ d, head (select (is_participant logId identity) (callParticipants d))) in
         match participant with
         | None => Ret tt
         | Some p =>
             let! now := Date_now in
             participant_left (cp_id p) now (whole_seconds (cp_joinedAt p) now)
         end
     end)
    (λ _, Ret tt).

(** ** The controller *)
Definition getToken (userId username roomName : string) : M json :=
  let! authorized := authorizeRoomAccess roomName userId in
  if negb authorized then Throw (ForbiddenException "Not allowed to join this room")
  else
    let! token := generateToken roomName userId username in
    match truthy token with
    | None => Throw (ServiceUnavailableException "Calls are not available")
    | Some t =>
        Ret (JObj [("serverUrl", json_opt (process_env "LIVEKIT_URL")); ("token", JStr t); ("roomName", JStr roomName)])
    end.

Definition webhook_event (event : WebhookEvent) : M () :=
  let roomName := truthy (we_roomName event) in
  let identity := truthy (we_identity event) in
  if we_event event === "room_started"
  then match roomName with Some r => do! handleRoomStarted r; Ret tt | None => Ret tt end
  else if we_event event === "room_finished"
  then match roomName with Some r => handleRoomFinished r | None => Ret tt end
  else if we_event event === "participant_joined"
  then match roomName, identity with
       | Some r, Some i => handleParticipantJoined r i (default i (truthy (we_participantName event)))
       | _, _ => Ret tt
       end
  else if we_event event === "participant_left"
  then match roomName, identity with Some r, Some i => handleParticipantLeft r i | _, _ => Ret tt end
  else Ret tt.

Definition webhook (rawBody authHeader : option string) : M () :=
  match truthy rawBody, truthy authHeader with
  | Some raw, Some auth =>
      let! event := livekit_handleWebhook raw auth in
      match event with
      | None => Throw (UnauthorizedException "Invalid webhook")
      | Some e => webhook_event e
      end
  | _, _ => Throw (UnauthorizedException "Invalid webhook")
  end.
End LiveKit.
