(* ===== verification/Validation.v ===== *)
(** * Validation: what class-validator and class-transformer do for the payload classes

    Models common/pipes/validation.ts and the error walk of socket/validate-payload.ts.
    A payload class is a function from a JSON value to the instance it accepts; its
    decorators are the readers of this file.  The texts of the constraints, and the
    validators whose rules are the library's own (UUIDs, e-mail addresses, dates, the
    length of a text), are the class [ClassValidator]. *)
From Stdlib Require Import Ascii String.
From S2P Require Import Prelude JsString Json Effects Errors Redis Schema World.
From stdpp Require Import base list strings.

Local Open Scope string_scope.
Local Open Scope Z_scope.
Local Open Scope list_scope.

(** A [ValidationError]: the constraints of a property, by name, and the errors of
    nested objects. *)
Inductive ValidationError := mkValidationError (property : string) (constraints : option (list (string * string))) (children : list ValidationError).

Definition messages_of (constraints : option (list (string * string))) : list string := map snd (default [] constraints).

(** [parent ? `${parent}.${err.property}` : err.property] *)
Definition child_path (parent property : string) : string := if parent === "" then property else parent +:+ "." +:+ property.

Fixpoint flatten_error (parent : string) (err : ValidationError) : list string :=
  match err with
  | mkValidationError property constraints children =>
      let path := child_path parent property in
      map (λ msg, if parent === "" then msg else path +:+ ": " +:+ msg) (messages_of constraints)
      ++ flat_map (flatten_error path) children
  end.
Definition flattenValidationErrors (errors : list ValidationError) (parent : string) : list string := flat_map (flatten_error parent) errors.

(** The first text of [firstConstraint], with the errors of one node; an empty text
    counts as none in the nested errors. *)
Definition first_of {A} (f : A → option string) : list A → option string :=
  fix go l := match l with [] => None | x :: l' => match f x with Some m => Some m | None => go l' end end.
Fixpoint error_constraint (err : ValidationError) : option string :=
  match err with
  | mkValidationError _ constraints children =>
      match messages_of constraints with
      | m :: _ => Some m
      | [] => match first_of error_constraint children with Some "" => None | r => r end
      end
  end.
Definition firstConstraint (errors : list ValidationError) : option string := first_of error_constraint errors.

Class ClassValidator := {
  valid_uuid : string → bool;
  valid_email : string → bool;
  valid_date : string → bool;
  string_length : string → Z;
  violations : string → json → list ValidationError;
}.
(** A concrete validator, to evaluate the model. *)
Definition toy_validator : ClassValidator := {|
  valid_uuid := is_uuid; valid_email s := existsb (λ c, Ascii.eqb c "@"%char) (String.list_ascii_of_string s);
  valid_date s := (0 <? String.length s)%nat; string_length := char_count;
  violations cls _ := [mkValidationError "payload" (Some [("isValid", cls +:+ " is not valid")]) []];
|}.

Section Readers.
Context {V : ClassValidator}.

Definition string_field (p : string → bool) (k : string) (data : json) : option string :=
  match get_field data k with Some (JStr s) => if p s then Some s else None | _ => None end.
Definition uuid_field := string_field valid_uuid.
Definition int_value (lo : Z) (hi : option Z) (v : json) : option Z :=
  match v with JNum n => if (lo <=? n) && match hi with Some h => n <=? h | None => true end then Some n else None | _ => None end.
(** [@IsOptional]: null and undefined are accepted as they are. *)
Definition optional {A} (read : json → option A) (k : string) (data : json) : option (option A) :=
  match get_field data k with None | Some JNull => Some None | Some v => Some <$> read v end.
Definition uuid_value (v : json) : option string := match v with JStr s => if valid_uuid s then Some s else None | _ => None end.
Definition uuid_list (lo hi : Z) (v : json) : option (list string) :=
  match v with
  | JArr l => if (lo <=? Z.of_nat (length l)) && (Z.of_nat (length l) <=? hi) then mapM uuid_value l else None
  | _ => None
  end.
Definition one_of (l : list string) (v : json) : option string :=
  match v with JStr s => if bool_decide (s ∈ l) then Some s else None | _ => None end.

(** [@Type(() => Number)]: what [Number] makes of a value; a text that is not an
    integer is left as it is, and refused by [@IsInt]. *)
Definition to_number (v : json) : json :=
  match v with
  | JBool b => JNum (if b then 1 else 0)
  | JStr s => match Number_integer s with Some n => JNum n | None => v end
  | _ => v
  end.
(** [@IsOptional @Type(() => Number) @IsInt] of a query string. *)
Definition int_query (lo : Z) (hi : option Z) (k : string) (q : json) : option (option Z) := optional (λ v, int_value lo hi (to_number v)) k q.

Definition length_between (lo hi : Z) (s : string) : bool := (lo <=? string_length s) && (string_length s <=? hi).
End Readers.

(** ** The global pipe: [whitelist], [forbidNonWhitelisted], [transform] *)
Section ValidationPipe.
Context {R : Redis} {V : ClassValidator}.

(** Only declared properties. *)
Definition whitelisted (fields : list string) (v : json) : bool :=
  match v with JObj fs => forallb (λ f, bool_decide (f.1 ∈ fields)) fs | _ => false end.

Definition validation_exception (errors : list ValidationError) : thrown :=
  let details := flattenValidationErrors errors "" in
  let message := default "Validation failed" (head details) in
  HttpException 400 (JObj [("message", JStr message); ("details", JArr (map JStr details))]) message.

(** A payload class: its name, its properties and what it makes of a value. *)
Record PayloadClass (T : Type) := mkPayloadClass { pc_name : string; pc_fields : list string; pc_read : json → option T }.
#[global] Arguments mkPayloadClass {T}.
#[global] Arguments pc_name {T}.
#[global] Arguments pc_fields {T}.
#[global] Arguments pc_read {T}.

(** A missing body is validated as an empty object. *)
Definition empty_if_nil (v : json) : json := match v with JNull => JObj [] | _ => v end.

Definition accepts {T} (cls : PayloadClass T) (value : json) : option T :=
  let value := empty_if_nil value in
  if whitelisted (pc_fields cls) value then pc_read cls value else None.

Definition validate {T} (cls : PayloadClass T) (value : json) : prog World thrown T :=
  match accepts cls value with
  | Some t => Ret t
  | None => Throw (validation_exception (violations (pc_name cls) value))
  end.
End ValidationPipe.
