(* ===== verification/SocketAuth.v ===== *)
(** * SocketAuth: who is behind a socket

    Models socket/socket-auth.guard.ts, socket/validate-payload.ts and the payload
    classes of the socket events.  A socket is its handshake ([Client]); what the
    gateways attach to it ([client.data]) is in [w_gateway]. *)
From Stdlib Require Import Ascii String.
From S2P Require Import Prelude JsString Json Effects Errors Redis Schema World Crypto Config RateLimit RedisSession.
From S2P Require Import RedisCache Socket ChannelMembers Messages Channels LiveKit Validation.
From stdpp Require Import base list strings gmap.

Local Open Scope string_scope.
Local Open Scope Z_scope.
Local Open Scope list_scope.

(** A request header: absent, a string or several values. *)
Inductive header := HNone | HStr (s : string) | HArr (l : list string).
Record Client := mkClient {
  ws_id : string; ws_address : string; ws_authToken : option string; ws_authorization : option string; ws_forwardedFor : header;
}.

(** ** Acks *)
Definition ack_json (a : SocketErrorAck) : json :=
  JObj [("success", JBool false); ("error", JStr (socket_code_string (ack_error a))); ("message", JStr (ack_message a))].
Definition failure (code message : string) : json :=
  JObj [("success", JBool false); ("error", JStr code); ("message", JStr message)].

(** [try { p } catch (err) { return toSocketError(err) }] *)
Definition with_ack `{R : Redis} (p : prog World thrown json) : prog World thrown json :=
  catch p (λ err, Ret (ack_json (toSocketError err))).

(** ** The guard *)
Definition extractSocketToken (client : Client) : option string :=
  match truthy (ws_authToken client) with
  | Some token => Some token
  | None => match ws_authorization client with
            | Some h => if startsWith h "Bearer " then Some (suffix_from 7 h) else None
            | None => None
            end
  end.

Definition isTokenExpired (data : SocketData) (nowMs : Z) : bool :=
  match sd_tokenExp data with Some exp => exp * 1000 <=? nowMs | None => false end.

Definition socket_user (u : UserRow) : SocketUser := mkSocketUser (u_id u) (u_username u) (u_status u).
Definition active_user_by_id (id : string) (d : Db) : option SocketUser :=
  socket_user <$> head (select (λ u, (u_id u === id) && u_isActive u) (users d)).

Section SocketAuth.
Context {R : Redis} {E : Env} {J : Jwt}.

Definition set_data (socketId : string) (data : SocketData) : M () :=
  gateway (λ g, (tt, g <| g_data := <[socketId := data]> (g_data g) |>)).

Definition error_event (code message : string) : json := JObj [("code", JStr code); ("message", JStr message)].
Definition reject (client : Client) (code message : string) : M bool :=
  do! send_effect (SocketEmit (ws_id client) "error" (error_event code message));
  do! send_effect (SocketDisconnect (ws_id client));
  Ret false.

(** [jwt.verifyAsync(token, SOCKET_JWT_VERIFY_OPTIONS)] *)
Definition verify_socket_token (token : string) : M (string * option Z) := act (λ n w, (verifyHS256 n token, w)).

Definition ws_canActivate (client : Client) : M bool :=
  let! data := socket_data (ws_id client) in
  match sd_user data with
  | Some _ =>
      let! now := Date_now in
      if negb (isTokenExpired data now) then Ret true else reject client "TOKEN_EXPIRED" "TOKEN_EXPIRED"
  | None =>
      match extractSocketToken client with
      | None => reject client "NO_TOKEN" "No token provided"
      | Some token =>
          catch
            (let! ' (sub, exp) := verify_socket_token token in
             let! user := query (active_user_by_id sub) in
             match user with
             | None => reject client "USER_NOT_FOUND" "User not found"
             | Some u => do! set_data (ws_id client) (mkSocketData (Some u) exp); Ret true
             end)
            (λ err, let code := if prop_name err === "TokenExpiredError" then "TOKEN_EXPIRED" else "INVALID_TOKEN" in
                    reject client code code)
      end
  end.

(** An event behind the guard: the handler runs with the user of the socket, and the
    client gets no ack when the guard refuses. *)
Definition guarded (client : Client) (handler : SocketUser → M json) : M (option json) :=
  let! ok := ws_canActivate client in
  if negb ok then Ret None
  else
    let! data := socket_data (ws_id client) in
    match sd_user data with
    | Some u => let! ack := handler u in Ret (Some ack)
    | None => Ret None
    end.
End SocketAuth.

(** ** Payload classes *)
Section Payloads.
Context {V : ClassValidator}.

(** The fields of the message, and its [messageType] and [metadata]: a [messageType] of
    null is refused by the service like any other text that is not a type. *)
Definition SendMessageDto (userId : string) (data : json) : option SendMessageInput :=
  channelId ← uuid_field "channelId" data;
  encryptedContent ← string_field (λ s, s !== "") "encryptedContent" data;
  contentIv ← string_field (λ s, (s !== "") && length_between 0 32 s) "contentIv" data;
  contentTag ← string_field (λ s, (s !== "") && length_between 0 32 s) "contentTag" data;
  signature ← string_field (length_between 0 256) "signature" data;
  _ ← int_value 0 None (default JNull (get_field data "sequenceNumber"));
  senderKeyEpoch ← int_value 0 None (default JNull (get_field data "senderKeyEpoch"));
  messageType ← match get_field data "messageType" with
                | None => Some None
                | Some JNull => Some (Some "")
                | Some v => Some <$> one_of MESSAGE_TYPES v
                end;
  metadata ← match get_field data "metadata" with
             | None => Some None
             | Some JNull => Some (Some JNull)
             | Some (JObj fs) => Some (Some (JObj fs))
             | Some _ => None
             end;
  Some (mkSendMessageInput userId channelId encryptedContent contentIv contentTag signature senderKeyEpoch messageType metadata).

Definition page_mode (s : string) : MessagePageMode :=
  if s === "latest" then Latest else if s === "since" then Since else Before.
(** A [mode] of null counts as 'latest' does: it is neither 'before' nor 'since'. *)
Definition GetMessagesQueryDto (data : json) : option (option Z * option Z * MessagePageMode) :=
  limit ← int_query 1 (Some 100) "limit" data;
  cursor ← int_query 0 None "cursor" data;
  mode ← optional (one_of ["latest"; "before"; "since"]) "mode" data;
  Some (limit, cursor,
        match mode, get_field data "mode" with Some m, _ => page_mode m | None, Some JNull => Latest | None, _ => Before end).

Record PageQuery := mkPageQuery { pq_channelId : string; pq_limit : option Z; pq_cursor : option Z; pq_mode : MessagePageMode }.
Definition GetMessagesSocketDto (data : json) : option PageQuery :=
  ' (limit, cursor, mode) ← GetMessagesQueryDto data;
  channelId ← uuid_field "channelId" data;
  Some (mkPageQuery channelId limit cursor mode).

Definition MarkReadSocketDto (data : json) : option (string * string) :=
  channelId ← uuid_field "channelId" data; messageId ← uuid_field "messageId" data; Some (channelId, messageId).
Definition ChannelIdDto (data : json) : option string := uuid_field "channelId" data.

Record ReactionPayload := mkReactionPayload { rp_channelId : string; rp_messageId : string; rp_emoji : string }.
Definition ReactionDto (data : json) : option ReactionPayload :=
  channelId ← uuid_field "channelId" data; messageId ← uuid_field "messageId" data;
  emoji ← string_field (length_between 1 16) "emoji" data;
  Some (mkReactionPayload channelId messageId emoji).

Record CreateChannelPayload := mkCreateChannelPayload { cc_type : string; cc_name : option string; cc_participantIds : list string }.
Definition CreateChannelDto (data : json) : option CreateChannelPayload :=
  type ← one_of ["DIRECT"; "GROUP"] (default JNull (get_field data "type"));
  name ← optional (λ v, match v with JStr s => if length_between 0 64 (trim s) then Some (trim s) else None | _ => None end) "name" data;
  participantIds ← uuid_list 1 MAX_CHANNEL_PARTICIPANTS (default JNull (get_field data "participantIds"));
  Some (mkCreateChannelPayload type name participantIds).

Definition PresenceBulkDto (data : json) : option (list string) :=
  userIds ← optional (uuid_list 0 500) "userIds" data; Some (default [] userIds).

Definition validatePayload `{R : Redis} {T} (cls : string) (dto : json → option T) (data : json) : prog World thrown T :=
  match data with
  | JObj _ => match dto data with
              | Some t => Ret t
              | None => Throw (SocketError S_VALIDATION_ERROR (default "Invalid payload" (firstConstraint (violations cls data))))
              end
  | _ => Throw (SocketError S_VALIDATION_ERROR "Invalid payload")
  end.
End Payloads.
