(* ===== verification/SocketGateway.v ===== *)
(** * SocketGateway: connections, presence, rooms and typing

    Models socket/socket.gateway.ts.  The intervals and timers of the gateway are in
    [w_gateway]; an interval that ticks or a timer that fires is a request of its own
    ([heartbeat_tick], [typing_timeout]).  A promise the code does not await runs in
    its place. *)
From Stdlib Require Import Ascii String.
From S2P Require Import Prelude JsString Json Effects Errors Redis Schema World Crypto Config RateLimit RedisSession.
From S2P Require Import RedisCache Socket ChannelMembers Messages Channels Chat LiveKit Validation SocketAuth.
From stdpp Require Import base list strings gmap.

Local Open Scope string_scope.
Local Open Scope Z_scope.
Local Open Scope list_scope.

Definition TYPING_AUTO_STOP_MS : Z := 6000.
Definition HEARTBEAT_INTERVAL_MS : Z := 30000.

(** The key of a typing timer: the socket and the channel. *)
Definition timeout_key (socketId channelId : string) : string := socketId +:+ "|" +:+ channelId.

Section SocketGateway.
Context {R : Redis} {E : Env} {C : Crypto} {J : Jwt} {P : Environment} {V : ClassValidator}.

(** [raw?.split(',')[0]?.trim()] of the forwarded address, if the proxy is trusted. *)
Definition clientIp (client : Client) : string :=
  if bool_decide (process_env "TRUST_PROXY" = Some "true")
  then
    let raw := match ws_forwardedFor client with HNone => None | HStr s => Some s | HArr l => head l end in
    match truthy (raw ≫= λ r, trim <$> head (JsString.split ","%char r)) with
    | Some first => first
    | None => ws_address client
    end
  else ws_address client.

Definition rejectConnection (client : Client) (code message : string) : M () :=
  do! send_effect (SocketEmit (ws_id client) "error" (error_event code message));
  send_effect (SocketDisconnect (ws_id client)).

(** ** Heartbeat *)
Definition stopHeartbeat (socketId : string) : M () :=
  gateway (λ g, (tt, g <| g_heartbeats := g_heartbeats g ∖ {[socketId]} |>)).
Definition startHeartbeat (client : Client) : M () :=
  do! stopHeartbeat (ws_id client);
  gateway (λ g, (tt, g <| g_heartbeats := g_heartbeats g ∪ {[ws_id client]} |>)).

(** Shutdown: every interval and every timer the maps hold is cleared. *)
Definition SocketGateway_onModuleDestroy : M () :=
  gateway (λ g, (tt, g <| g_heartbeats := ∅ |>
                       <| g_timers := foldr delete (g_timers g) (map snd (map_to_list (g_typing g))) |>
                       <| g_typing := ∅ |>)).

Definition beat (client : Client) : M bool :=
  let! data := socket_data (ws_id client) in
  match sd_user data with
  | None => Ret false
  | Some user =>
      let! now := Date_now in
      if isTokenExpired data now
      then do! rejectConnection client "TOKEN_EXPIRED" "Token expired"; Ret false
      else
        do! refreshSocket (su_id user) (ws_id client);
        do! setOnline (su_id user);
        Ret true
  end.

(** The interval of a socket ticks. *)
Definition heartbeat_tick (client : Client) : M () :=
  let! running := gateway (λ g, (bool_decide (ws_id client ∈ g_heartbeats g), g)) in
  when running do
    (let! connected := is_connected (ws_id client) in
     if negb connected then stopHeartbeat (ws_id client)
     else catch (do! beat client; Ret tt) (λ _, Ret tt)).

Definition handleHeartbeat (client : Client) : M json :=
  let! data := socket_data (ws_id client) in
  match sd_user data with
  | None => Ret (failure "NOT_AUTHENTICATED" "Authentication required")
  | Some _ =>
      let! alive := beat client in
      if negb alive then Ret (failure "NOT_AUTHENTICATED" "Token expired")
      else
        let! timestamp := Date_now in
        do! send_effect (SocketEmit (ws_id client) "heartbeat-ack" (JObj [("timestamp", JNum timestamp)]));
        Ret (JObj [("success", JBool true); ("timestamp", JNum timestamp)])
  end.

(** ** Connection *)
Definition pushPresence (client : Client) (user : SocketUser) (firstSocket : bool) : M () :=
  let! peerIds := getUserDMPeers (su_id user) in
  if peerIds === [] then Ret tt
  else
    let! onlinePeers := getOnlineUsers peerIds in
    do! send_effect (SocketEmit (ws_id client) "presence:bulk" (JObj [("online", JArr (map JStr onlinePeers))]));
    when firstSocket do
      emitToUsers onlinePeers "user:joined"
        (JObj [("userId", JStr (su_id user)); ("username", JStr (su_username user))]).

(** The user behind the token of the handshake: [None] to reject the socket, else the
    user, if any, with the expiry of the token. *)
Definition authenticate (client : Client) : M (option (option SocketUser * option Z)) :=
  match truthy (extractSocketToken client) with
  | None => Ret (Some (None, None))
  | Some token =>
      catch
        (let! ' (sub, exp) := verify_socket_token token in
         let! user := query (active_user_by_id sub) in
         Ret (Some (user, exp)))
        (λ err, if prop_name err === "TokenExpiredError" then Ret None else Ret (Some (None, None)))
  end.

(** The rooms, the registration and the presence of an authenticated socket: [None]
    when the setup failed, [Some None] when the socket left before it joined. *)
Definition setup_socket (client : Client) (user : SocketUser) : M (option (option (option Z))) :=
  catch
    (let! channelIds := getUserChannelIds (su_id user) in
     do! join_rooms (ws_id client) (userRoom (su_id user) :: map channelRoom channelIds);
     let! connected := is_connected (ws_id client) in
     if negb connected then Ret (Some None)
     else
       let! socketCount := addSocket (su_id user) (ws_id client) in
       do! setOnline (su_id user);
       Ret (Some (Some socketCount)))
    (λ _, Ret None).

Definition connected_event (client : Client) (user : SocketUser) : json :=
  JObj [("userId", JStr (su_id user)); ("username", JStr (su_username user)); ("socketId", JStr (ws_id client))].

Definition welcome (client : Client) (user : SocketUser) (socketCount : option Z) : M () :=
  let! connected := is_connected (ws_id client) in
  if negb connected then do! removeSocket (su_id user) (ws_id client); Ret tt
  else
    do! startHeartbeat client;
    do! send_effect (SocketEmit (ws_id client) "connected" (connected_event client user));
    catch (pushPresence client user (bool_decide (socketCount = Some 1))) (λ _, Ret tt).

Definition handleConnection (client : Client) : M () :=
  let! ipResult := checkRateLimit ("conn-ip:" +:+ clientIp client) CONNECTION_PER_IP in
  if negb (allowed ipResult) then rejectConnection client "RATE_LIMITED" "Too many connections"
  else
    let! who := authenticate client in
    match who with
    | None => rejectConnection client "TOKEN_EXPIRED" "Token expired"
    | Some (None, _) => rejectConnection client "NOT_AUTHENTICATED" "Authentication required"
    | Some (Some user, tokenExp) =>
        do! set_data (ws_id client) (mkSocketData (Some user) tokenExp);
        let! ready := setup_socket client user in
        match ready with
        | None => rejectConnection client "INTERNAL_ERROR" "Connection setup failed"
        | Some None => Ret tt
        | Some (Some socketCount) => welcome client user socketCount
        end
    end.

(** ** Typing *)
Definition emitTyping (event : string) (user : SocketUser) (channelId : string) : M () :=
  emitToChannel channelId event
    (JObj [("userId", JStr (su_id user)); ("username", JStr (su_username user)); ("channelId", JStr channelId)])
    (mkEmitOptions None (Some (su_id user))).
Definition stopTyping (user : SocketUser) (channelId : string) : M () :=
  do! clearTyping channelId (su_id user);
  emitTyping "typing:stop" user channelId.

(** [clearTimeout(this.typingTimeouts.get(key))] *)
Definition cancel_timer (key : string) (g : Gateway) : Gateway :=
  match g_typing g !! key with
  | Some t => g <| g_timers := delete t (g_timers g) |>
  | None => g
  end.
(** [this.typingTimeouts.set(key, setTimeout(...))] *)
Definition start_timer (key : string) (user : SocketUser) (channelId : string) (g : Gateway) : Gateway :=
  g <| g_typing := <[key := g_nextTimer g]> (g_typing g) |>
    <| g_timers := <[g_nextTimer g := mkTypingTimer key user channelId]> (g_timers g) |>
    <| g_nextTimer := S (g_nextTimer g) |>.
Definition forget_timer (key : string) (g : Gateway) : Gateway := g <| g_typing := delete key (g_typing g) |>.

(** Timer [t] fires, unless it was cleared. *)
Definition typing_timeout (t : nat) : M () :=
  let! timer := gateway (λ g, match g_timers g !! t with
                              | Some x => (Some x, forget_timer (tt_key x) (g <| g_timers := delete t (g_timers g) |>))
                              | None => (None, g)
                              end) in
  match timer with
  | Some x => stopTyping (tt_user x) (tt_channelId x)
  | None => Ret tt
  end.

Definition requireMember (channelId userId : string) : M () :=
  let! member := isMember channelId userId in
  when negb member do Throw (SocketError S_NOT_MEMBER "Not a member of this channel").

Definition typing_limit (user : SocketUser) : M () :=
  let! rl := checkRateLimit ("typing:" +:+ su_id user) TYPING in
  when negb (allowed rl) do Throw (SocketError S_RATE_LIMITED "Too many typing events").

Definition success : json := JObj [("success", JBool true)].

Definition handleTypingStart (client : Client) (data : json) (user : SocketUser) : M json :=
  with_ack
    (let! channelId := validatePayload "ChannelIdDto" ChannelIdDto data in
     do! typing_limit user;
     do! requireMember channelId (su_id user);
     let key := timeout_key (ws_id client) channelId in
     do! gateway (λ g, (tt, cancel_timer key g));
     do! setTyping channelId (su_id user);
     do! emitTyping "typing:start" user channelId;
     do! gateway (λ g, (tt, start_timer key user channelId g));
     Ret success).

Definition handleTypingStop (client : Client) (data : json) (user : SocketUser) : M json :=
  with_ack
    (let! channelId := validatePayload "ChannelIdDto" ChannelIdDto data in
     do! typing_limit user;
     do! requireMember channelId (su_id user);
     let key := timeout_key (ws_id client) channelId in
     do! gateway (λ g, (tt, forget_timer key (cancel_timer key g)));
     do! stopTyping user channelId;
     Ret success).

(** The keys of [typingTimeouts] that belong to a socket, in some order. *)
Definition socket_timers (socketId : string) (g : Gateway) : list string :=
  List.filter (λ key, startsWith key (socketId +:+ "|")) (map fst (map_to_list (g_typing g))).

Definition clearTypingFor (client : Client) : M () :=
  let! data := socket_data (ws_id client) in
  let! keys := gateway (λ g, (socket_timers (ws_id client) g, g)) in
  for_each keys (λ key,
    do! gateway (λ g, (tt, forget_timer key (cancel_timer key g)));
    match sd_user data with
    | Some user => stopTyping user (suffix_from (String.length (ws_id client) + 1) key)
    | None => Ret tt
    end).

(** ** Disconnection *)
Definition handleDisconnect (client : Client) : M () :=
  do! stopHeartbeat (ws_id client);
  do! clearTypingFor client;
  let! data := socket_data (ws_id client) in
  match sd_user data with
  | None => Ret tt
  | Some user =>
      let! remaining := removeSocket (su_id user) (ws_id client) in
      if bool_decide (remaining ≠ Some 0) then Ret tt
      else
        do! setOffline (su_id user);
        catch
          (let! peerIds := getUserDMPeers (su_id user) in
           emitToUsers peerIds "user:left" (JObj [("userId", JStr (su_id user)); ("username", JStr (su_username user))]))
          (λ _, Ret tt)
  end.

(** ** Events *)
Definition handlePresenceBulk (data : json) (user : SocketUser) : M json :=
  with_ack
    (let! asked := validatePayload "PresenceBulkDto" PresenceBulkDto (match data with JNull => JObj [] | _ => data end) in
     let! userIds := (if asked === [] then getUserDMPeers (su_id user) else Ret asked) in
     let! online := getOnlineUsers userIds in
     Ret (JObj [("success", JBool true); ("online", JArr (map JStr online))])).

Definition handleCreateOrJoin (client : Client) (data : json) (user : SocketUser) : M json :=
  with_ack
    (let! dto := validatePayload "CreateChannelDto" CreateChannelDto data in
     let! result := create (su_id user) (cc_participantIds dto) (cc_type dto) (cc_name dto) in
     do! join_rooms (ws_id client) [channelRoom (cs_id (cr_channel result))];
     Ret (JObj [("success", JBool true); ("channelId", JStr (cs_id (cr_channel result))); ("created", JBool (cr_created result))])).

Definition handleJoinChannel (client : Client) (data : json) (user : SocketUser) : M json :=
  with_ack
    (let! channelId := validatePayload "ChannelIdDto" ChannelIdDto data in
     do! requireMember channelId (su_id user);
     do! join_rooms (ws_id client) [channelRoom channelId];
     Ret success).

Definition handleLeaveChannel (client : Client) (data : json) (user : SocketUser) : M json :=
  with_ack
    (let! channelId := validatePayload "ChannelIdDto" ChannelIdDto data in
     do! requireMember channelId (su_id user);
     do! send_effect (SocketLeave (ws_id client) (channelRoom channelId));
     Ret success).
End SocketGateway.
