(* ===== verification/ChatGateway.v ===== *)
(** * ChatGateway: the socket events of messages and reactions

    Models chat/chat.gateway.ts.  The handlers run behind the guard of the sockets
    ([SocketAuth.guarded]), with the user it put on the socket. *)
From Stdlib Require Import Ascii String.
From S2P Require Import Prelude JsString Json Effects Errors Redis Schema World Crypto RateLimit RedisSession.
From S2P Require Import RedisCache Socket ChannelMembers Messages Channels Reactions Chat Validation SocketAuth.
From stdpp Require Import base list strings gmap.

Local Open Scope string_scope.
Local Open Scope Z_scope.
Local Open Scope list_scope.

Definition message_page_json (page : MessagePage) : json :=
  JObj [("success", JBool true); ("messages", JArr (p_messages page));
        ("nextCursor", match p_nextCursor page with Some c => JNum c | None => JNull end);
        ("hasMore", JBool (p_hasMore page)); ("source", JStr (p_source page))].
Definition counts_json (counts : gmap string Z) : json :=
  JObj (map (λ kv, (kv.1, JNum kv.2)) (map_to_list counts)).
Definition add_json (result : add_action * list string) : json :=
  JObj [("success", JBool true);
        ("action", JStr (match result.1 with added => "added" | already_exists => "already_exists" end));
        ("replaced", JArr (map JStr result.2))].
Definition remove_json (action : remove_action) : json :=
  JObj [("success", JBool true); ("action", JStr (match action with removed => "removed" | not_found => "not_found" end))].
Definition reaction_actor (user : SocketUser) : ReactionActor := mkReactionActor (su_id user) (su_username user).

Section ChatGateway.
Context {R : Redis} {E : Env} {C : Crypto} {V : ClassValidator}.

Definition limit (key : string) (config : RateLimitConfig) (message : string) : M () :=
  let! rl := checkRateLimit key config in
  when negb (allowed rl) do Throw (SocketError S_RATE_LIMITED message).

Definition handleSendMessage (client : Client) (data : json) (user : SocketUser) : M json :=
  with_ack
    (do! limit ("send:" +:+ su_id user) SEND_MESSAGE "Too many messages";
     do! (match get_field data "encryptedContent" with
          | Some (JStr content) =>
              when MAX_ENCRYPTED_CONTENT_BYTES <? byteLength content do
                Throw (SocketError S_PAYLOAD_TOO_LARGE "Message exceeds 10KB limit")
          | _ => Ret tt
          end);
     let! dto := validatePayload "SendMessageDto" (SendMessageDto (su_id user)) data in
     let! message := send dto (Some (ws_id client)) in
     Ret (JObj [("success", JBool true); ("message", pending_json message)])).

Definition handleGetMessages (data : json) (user : SocketUser) : M json :=
  with_ack
    (do! limit ("getmsg:" +:+ su_id user) GET_MESSAGES "Too many requests";
     let! dto := validatePayload "GetMessagesSocketDto" GetMessagesSocketDto data in
     let! page := getMessages (pq_channelId dto) (su_id user) (default 50 (pq_limit dto)) (pq_cursor dto) (pq_mode dto) in
     Ret (message_page_json page)).

Definition handleMarkRead (data : json) (user : SocketUser) : M json :=
  with_ack
    (let! ' (channelId, messageId) := validatePayload "MarkReadSocketDto" MarkReadSocketDto data in
     let! ' (success, advanced) := markRead (su_id user) channelId messageId in
     Ret (JObj [("success", JBool success); ("advanced", JBool advanced)])).

Definition handleGetUnread (user : SocketUser) : M json :=
  with_ack
    (let! counts := getUserUnreadCounts (su_id user) in
     Ret (JObj [("success", JBool true); ("counts", counts_json counts)])).

Definition handleGetPending (user : SocketUser) : M json :=
  with_ack
    (do! limit ("pending:" +:+ su_id user) GET_MESSAGES "Too many requests";
     let! ' (messages, remaining) := deliverPendingMessages (su_id user) in
     Ret (JObj [("success", JBool true); ("count", JNum (Z.of_nat (length messages))); ("messages", JArr messages);
                ("hasMore", JBool (0 <? remaining))])).

Definition handleReactionAdd (data : json) (user : SocketUser) : M json :=
  with_ack
    (do! limit ("reaction:" +:+ su_id user) REACTION "Too many requests";
     let! dto := validatePayload "ReactionDto" ReactionDto data in
     let! result := addReaction (reaction_actor user) (rp_channelId dto) (rp_messageId dto) (rp_emoji dto) in
     Ret (add_json result)).

Definition handleReactionRemove (data : json) (user : SocketUser) : M json :=
  with_ack
    (do! limit ("reaction:" +:+ su_id user) REACTION "Too many requests";
     let! dto := validatePayload "ReactionDto" ReactionDto data in
     let! action := removeReaction (reaction_actor user) (rp_channelId dto) (rp_messageId dto) (rp_emoji dto) in
     Ret (remove_json action)).

Definition handleReactionRemoveLegacy : json → SocketUser → M json := handleReactionRemove.
End ChatGateway.
