(* ===== verification/Calls.v ===== *)
(** * Calls: the state of a call, its log and its history

    Models modules/calls/calls.service.ts, the controller of the history and its
    query classes.  Redis holds a call while it lasts: a hash per call and a key per
    user in a call; the tables hold its log.  An id column compares and stores ids
    in lower case ([toLowerCase]), while a Redis key and a JavaScript map do not. *)
From Stdlib Require Import Ascii String.
From S2P Require Import Prelude JsString Json Effects Errors Redis Schema World Crypto Config RateLimit RedisSession.
From S2P Require Import RedisCache Socket ChannelMembers Messages Users LiveKit Validation SocketAuth.
From stdpp Require Import base list strings gmap.

Local Open Scope string_scope.
Local Open Scope Z_scope.
Local Open Scope list_scope.

Definition RINGING_TTL_SECONDS : Z := 120.
Definition CONNECTED_TTL_SECONDS : Z := 4 * 60 * 60.
Definition roomKey (callId : string) : string := "zevra:call:room:" +:+ callId.
Definition userCallKey (userId : string) : string := "zevra:call:user:" +:+ userId.

(** [ac_startedAt] is [None] for a time that is not a number. *)
Record ActiveCall := mkActiveCall {
  ac_callId : string; ac_initiatorId : string; ac_targetId : string; ac_status : string;
  ac_startedAt : option Z; ac_callLogId : option string;
}.

Definition hash_field (k : string) (data : list (string * string)) : option string :=
  snd <$> List.find (λ f, f.1 === k) data.

(** [createCall] writes the fields of a room together: a hash with an initiator has
    them all.  A missing one would read as undefined. *)
Definition toActiveCall (callId : string) (data : list (string * string)) : option ActiveCall :=
  match truthy (hash_field "initiatorId" data) with
  | None => None
  | Some initiatorId =>
      Some (mkActiveCall callId initiatorId
              (default "undefined" (hash_field "targetId" data)) (default "undefined" (hash_field "status" data))
              (hash_field "startedAt" data ≫= string_to_z) (truthy (hash_field "callLogId" data)))
  end.

Definition map_of (rp : reply) : list (string * string) := match rp with RpMap h => h | _ => [] end.

(** ** History *)
Record HistoryParticipant := mkHistoryParticipant {
  hp_userId : string; hp_username : string; hp_joinedAt : Z; hp_leftAt : option Z; hp_duration : option Z;
}.
Record CallHistoryRow := mkCallHistoryRow {
  ch_log : CallLogRow; ch_caller : option (string * string); ch_callee : option (string * string);
  ch_participants : list HistoryParticipant;
}.

Definition joined_user (id : option string) (d : Db) : option (string * string) :=
  i ← id; u ← find_user i d; Some (u_id u, u_username u).
Definition participants_of (callLogId : string) (d : Db) : list HistoryParticipant :=
  map (λ p, mkHistoryParticipant (cp_userId p) (cp_username p) (cp_joinedAt p) (cp_leftAt p) (cp_duration p))
    (select (λ p, cp_callLogId p === callLogId) (callParticipants d)).
Definition history_row (d : Db) (c : CallLogRow) : CallHistoryRow :=
  mkCallHistoryRow c (joined_user (cl_callerId c) d) (joined_user (cl_calleeId c) d) (participants_of (cl_id c) d).
Definition newest_calls (p : CallLogRow → bool) (d : Db) : list CallLogRow :=
  sort_by (λ a b, cl_startedAt b <=? cl_startedAt a) (select p (callLogs d)).

Definition took_part (userId : string) (d : Db) (c : CallLogRow) : bool :=
  bool_decide (cl_callerId c = Some userId) || bool_decide (cl_calleeId c = Some userId)
  || existsb (is_participant (cl_id c) userId) (callParticipants d).
Definition between_users (a b : string) (c : CallLogRow) : bool :=
  bool_decide (cl_callerId c = Some a) && bool_decide (cl_calleeId c = Some b)
  || bool_decide (cl_callerId c = Some b) && bool_decide (cl_calleeId c = Some a).

Definition usernames (ids : list string) (d : Db) : list (string * string) :=
  map (λ u, (u_id u, u_username u)) (select (λ u, bool_decide (u_id u ∈ map toLowerCase ids)) (users d)).

Section Calls.
Context {R : Redis} {E : Env} {P : Environment}.

(** ** Redis state *)
Definition getActiveCall (userId : string) : M (option ActiveCall) :=
  with_redis None
    (let! r := redis_cmd (Get (userCallKey userId)) in
     match truthy (match r with RpStr s => s | _ => None end) with
     | None => Ret None
     | Some callId => let! data := redis_cmd (HGetAll (roomKey callId)) in Ret (toActiveCall callId (map_of data))
     end).

Definition createCall_cmds (call : ActiveCall) (now : Z) : list rcmd :=
  [HSet (roomKey (ac_callId call))
     [("initiatorId", ac_initiatorId call); ("targetId", ac_targetId call); ("status", "ringing");
      ("startedAt", z_to_string now); ("callLogId", default "" (ac_callLogId call))];
   Expire (roomKey (ac_callId call)) RINGING_TTL_SECONDS;
   SetEx (userCallKey (ac_initiatorId call)) RINGING_TTL_SECONDS (ac_callId call);
   SetEx (userCallKey (ac_targetId call)) RINGING_TTL_SECONDS (ac_callId call)].

Definition createCall (initiatorId targetId : string) (callLogId : option string) : M ActiveCall :=
  let! callId := randomUUID in
  let! now := Date_now in
  let call := mkActiveCall callId initiatorId targetId "ringing" (Some now) callLogId in
  let! client := getClient in
  do! (when client do (do! redis_multi (createCall_cmds call now); Ret tt));
  Ret call.

Definition acceptCall_cmds (call : ActiveCall) (now : Z) : list rcmd :=
  [HSet (roomKey (ac_callId call)) [("status", "connected"); ("startedAt", z_to_string now)];
   Expire (roomKey (ac_callId call)) CONNECTED_TTL_SECONDS;
   Expire (userCallKey (ac_initiatorId call)) CONNECTED_TTL_SECONDS;
   Expire (userCallKey (ac_targetId call)) CONNECTED_TTL_SECONDS].

Definition acceptCall (call : ActiveCall) : M () :=
  with_redis tt (let! now := Date_now in do! redis_multi (acceptCall_cmds call now); Ret tt).

Definition cleanupCall_cmds (callId : string) (data : list (string * string)) : list rcmd :=
  [Del (roomKey callId)]
  ++ match truthy (hash_field "initiatorId" data) with Some u => [Del (userCallKey u)] | None => [] end
  ++ match truthy (hash_field "targetId" data) with Some u => [Del (userCallKey u)] | None => [] end.

Definition cleanupCall (callId : string) : M (option ActiveCall) :=
  with_redis None
    (let! r := redis_cmd (HGetAll (roomKey callId)) in
     do! redis_multi (cleanupCall_cmds callId (map_of r));
     Ret (toActiveCall callId (map_of r))).

Definition cleanupUserCall (userId : string) : M (option ActiveCall) :=
  let! client := getClient in
  let! callId := (if client then let! r := redis_cmd (Get (userCallKey userId)) in
                                 Ret (match r with RpStr s => s | _ => None end)
                  else Ret None) in
  match truthy callId with
  | None => Ret None
  | Some id => cleanupCall id
  end.

(** ** Tables *)
Definition getUsernames (userIds : list string) : M (gmap string string) :=
  let ids := unique (List.filter (λ id, id !== "") userIds) in
  if ids === [] then Ret ∅
  else let! rows := query (usernames ids) in Ret (list_to_map (rev rows)).

Definition createCallLog (callType initiatorId : string) (calleeId roomName channelId : option string) : M string :=
  insert_call_log (λ n, mkCallLog (uuid_at n 0) callType (Some (toLowerCase initiatorId)) (toLowerCase <$> calleeId) roomName
                          (now_at n) None None "missed" (toLowerCase <$> channelId)).

Definition set_call_status (callLogId status : string) (d : Db) : Db :=
  d <| callLogs := update_where (λ c, cl_id c === callLogId) (λ c, c <| cl_status := status |>) (callLogs d) |>.
Definition updateCallLogAccepted (callLogId : string) : M () := execute (λ _ d, (tt, set_call_status callLogId "completed" d)).
Definition updateCallLogRejected (callLogId : string) : M () := execute (λ _ d, (tt, set_call_status callLogId "rejected" d)).

Definition close_call_log (callLogId : string) (endedAt duration : Z) : M () :=
  statement (λ _ d,
    match checked_update callLog_columns (λ c, cl_id c === callLogId)
            (λ c, c <| cl_endedAt := Some endedAt |> <| cl_duration := Some duration |> <| cl_status := "completed" |>)
            (callLogs d) with
    | Ok t => Ok (tt, d <| callLogs := t |>)
    | Err e => Err e
    end).

(** A duration that is not a number is not an integer for the column. *)
Definition endCallLog (callLogId callerId calleeId : string) (startedAt : option Z) : M () :=
  let! now := Date_now in
  let! names := getUsernames [callerId; calleeId] in
  match startedAt with
  | None => Throw (sql_error "22P02")
  | Some t =>
      let duration := whole_seconds t now in
      do! close_call_log callLogId now duration;
      insert_participants (λ n,
        zip_with (λ i userId, mkCallParticipant (uuid_at n i) callLogId (toLowerCase userId) (default "" (names !! userId)) t
                                (Some now) (Some duration)) [0%nat; 1%nat] [callerId; calleeId])
  end.

Definition getCallHistory (userId : string) (limit offset : nat) : M (list CallHistoryRow) :=
  query (λ d, map (history_row d) (take limit (drop offset (newest_calls (took_part (toLowerCase userId) d) d)))).

Definition getCallHistoryWithUser (userId otherUserId : string) (limit : nat) : M (list CallHistoryRow) :=
  query (λ d, map (history_row d) (take limit (newest_calls (between_users (toLowerCase userId) (toLowerCase otherUserId)) d))).

(** ** The history controller: the values of a query string are texts *)
Definition CallHistoryQueryDto (q : json) : option (Z * Z) :=
  page ← int_query 1 (Some 1000) "page" q;
  limit ← int_query 1 (Some 50) "limit" q;
  Some (default 1 page, default 20 limit).
Definition CallHistoryWithUserQueryDto (q : json) : option Z :=
  limit ← int_query 1 (Some 50) "limit" q; Some (default 20 limit).

Definition getHistory (userId : string) (page limit : Z) : M (list CallHistoryRow * Z * bool) :=
  let offset := (page - 1) * limit in
  let! calls := getCallHistory userId (Z.to_nat limit) (Z.to_nat offset) in
  Ret (calls, page, Z.of_nat (length calls) =? limit).
Definition getHistoryWithUser (userId otherUserId : string) (limit : Z) : M (list CallHistoryRow) :=
  getCallHistoryWithUser userId otherUserId (Z.to_nat limit).
End Calls.
