(* ===== verification/Dto.v ===== *)
(** * Dto: the payload classes of the REST routes

    Models the dto/ files of modules/*: a class is its name, the properties it declares
    and what it makes of a JSON value ([Validation.PayloadClass]).  The classes the
    sockets share ([SendMessageDto], [CreateChannelDto], [ReactionDto],
    [GetMessagesQueryDto]) are in SocketAuth, those of the call history in Calls. *)
From Stdlib Require Import Ascii String.
From S2P Require Import Prelude JsString Json IsoDate Effects Errors Redis Schema World Crypto RedisSession.
From S2P Require Import RedisCache Socket ChannelMembers Messages Channels Reactions Users Keys LiveKit Validation SocketAuth Calls.
From stdpp Require Import base list strings.

Local Open Scope string_scope.
Local Open Scope Z_scope.
Local Open Scope list_scope.

(** ** Patterns *)
Definition all_of (f : ascii → bool) (l : list ascii) : bool := forallb f l.
Definition is_alnum (c : ascii) : bool := is_digit c || is_upper c || is_lower c.
(** [/^[a-zA-Z0-9_]+$/] *)
Definition USERNAME_PATTERN (s : string) : bool := (s !== "") && all_chars (λ c, is_alnum c || Ascii.eqb c "_") s.
(** [/^[A-Z_]+$/] *)
Definition ACTION_PATTERN (s : string) : bool := (s !== "") && all_chars (λ c, is_upper c || Ascii.eqb c "_") s.
(** [/^[0-9a-fA-F]{lo,hi}$/] *)
Definition hex_text (lo hi : nat) (s : string) : bool := (lo <=? String.length s)%nat && (String.length s <=? hi)%nat && all_chars is_hex s.

Definition is_base64 (c : ascii) : bool := is_alnum c || Ascii.eqb c "+" || Ascii.eqb c "/".
(** [[A-Za-z0-9+/]{lo,hi}={0,2}]: the padding, then the digits before it. *)
Definition base64_text (lo hi : nat) (s : string) : bool :=
  let digits := trim_end_by (λ c, Ascii.eqb c "=") (String.list_ascii_of_string s) in
  let padding := (String.length s - length digits)%nat in
  (padding <=? 2)%nat && (lo <=? length digits)%nat && (length digits <=? hi)%nat && all_of is_base64 digits.
(** [/^[A-Za-z0-9+/]{43}=$/] *)
Definition PUBLIC_KEY_RE (s : string) : bool :=
  let digits := trim_end_by (λ c, Ascii.eqb c "=") (String.list_ascii_of_string s) in
  (length digits =? 43)%nat && (String.length s =? 44)%nat && all_of is_base64 digits.
Definition SEALED_KEY_RE (s : string) : bool :=
  match JsString.split ":"%char s with
  | [iv; tag; ct] => forallb (λ part, base64_text 1 (String.length part) part) [iv; tag; ct]
  | _ => false
  end.
Definition SALT_RE (s : string) : bool := base64_text 16 128 s.
(** [/^(dm|group)-[0-9a-fA-F-]{36,73}$/] *)
Definition ROOM_NAME_RE (s : string) : bool :=
  let ids n := let rest := suffix_from n s in
               (36 <=? String.length rest)%nat && (String.length rest <=? 73)%nat
               && all_chars (λ c, is_hex c || Ascii.eqb c "-") rest in
  (startsWith s "dm-" && ids 3%nat) || (startsWith s "group-" && ids 6%nat).

Section Dto.
Context {V : ClassValidator}.

(** [value.trim()] of a text, before its checks. *)
Definition trimmed (p : string → bool) (k : string) (v : json) : option string :=
  match get_field v k with Some (JStr s) => if p (trim s) then Some (trim s) else None | _ => None end.
Definition username_field : string → json → option string := trimmed (λ s, length_between 3 32 s && USERNAME_PATTERN s).

(** ** Authentication *)
Definition RegisterDto : PayloadClass (string * string * string) :=
  mkPayloadClass "RegisterDto" ["username"; "email"; "password"] (λ body,
    username ← username_field "username" body;
    email ← match get_field body "email" with
            | Some (JStr s) => let s := toLowerCase (trim s) in if valid_email s && (string_length s <=? 255) then Some s else None
            | _ => None
            end;
    password ← string_field (length_between 8 128) "password" body;
    Some (username, email, password)).

Definition LoginStartDto : PayloadClass string :=
  mkPayloadClass "LoginStartDto" ["username"] (username_field "username").

Definition LoginFinishDto : PayloadClass (string * string * string) :=
  mkPayloadClass "LoginFinishDto" ["username"; "A"; "M1"] (λ body,
    username ← username_field "username" body;
    A ← string_field (hex_text 1 1024) "A" body;
    M1 ← string_field (hex_text 64 64) "M1" body;
    Some (username, A, M1)).

Definition RefreshDto : PayloadClass string :=
  mkPayloadClass "RefreshDto" ["refreshToken"] (string_field (hex_text 64 64) "refreshToken").

(** ** Users *)
Definition SearchUsersQueryDto : PayloadClass (string * Z) :=
  mkPayloadClass "SearchUsersQueryDto" ["q"; "limit"] (λ query,
    q ← trimmed (length_between 1 64) "q" query;
    limit ← int_query 1 (Some 25) "limit" query;
    Some (q, default 20 limit)).

Definition UpdateProfileDto : PayloadClass string :=
  mkPayloadClass "UpdateProfileDto" ["username"] (username_field "username").

(** [value.split(',')] of a text, the values of an array as they are. *)
Definition trim_value (v : json) : json := match v with JStr s => JStr (trim s) | _ => v end.
Definition nonempty_values (l : list json) : list json := List.filter (λ v, match v with JStr "" => false | _ => true end) (map trim_value l).
Definition split_values (v : json) : list json := match v with JStr s => map JStr (JsString.split ","%char s) | _ => [v] end.

Definition OnlineUsersQueryDto : PayloadClass (list string) :=
  mkPayloadClass "OnlineUsersQueryDto" ["ids"] (λ query,
    match get_field query "ids" with
    | None => Some []
    | Some v =>
        let parts := match v with JArr l => l | JStr s => split_values v | _ => [] end in
        uuid_list 0 200 (JArr (nonempty_values parts))
    end).

(** ** Keys *)
Definition PublicKeysQueryDto : PayloadClass (list string) :=
  mkPayloadClass "PublicKeysQueryDto" ["userIds"] (λ query,
    v ← get_field query "userIds";
    let raw := match v with JArr l => l | _ => [v] end in
    let ids := nonempty_values (flat_map split_values raw) in
    userIds ← mapM uuid_value ids;
    let distinct := unique userIds in
    if (1 <=? length distinct)%nat && (length distinct <=? 100)%nat then Some distinct else None).

Definition SenderKeysQueryDto : PayloadClass (option Z) :=
  mkPayloadClass "SenderKeysQueryDto" ["epoch"] (int_query 0 None "epoch").

Definition RotateKeysDto : PayloadClass RotateKeysParams :=
  mkPayloadClass "RotateKeysDto"
    ["newPublicKey"; "newEncryptedPrivateKey"; "newKeySalt"; "newPublicKeySign"; "newEncryptedPrivateKeySign"; "newKeySaltSign";
     "newKeyVersion"] (λ body,
    newPublicKey ← string_field PUBLIC_KEY_RE "newPublicKey" body;
    newEncryptedPrivateKey ← string_field SEALED_KEY_RE "newEncryptedPrivateKey" body;
    newKeySalt ← string_field SALT_RE "newKeySalt" body;
    newPublicKeySign ← string_field PUBLIC_KEY_RE "newPublicKeySign" body;
    newEncryptedPrivateKeySign ← string_field SEALED_KEY_RE "newEncryptedPrivateKeySign" body;
    newKeySaltSign ← string_field SALT_RE "newKeySaltSign" body;
    newKeyVersion ← int_value 2 (Some 1000000) (default JNull (get_field body "newKeyVersion"));
    Some (mkRotateKeysParams newPublicKey newEncryptedPrivateKey newKeySalt newPublicKeySign newEncryptedPrivateKeySign
            newKeySaltSign newKeyVersion)).

Definition SenderKeyItemDto (v : json) : option SenderKeyItem :=
  if whitelisted ["receiverId"; "encryptedKey"; "keySignature"] v then
    receiverId ← uuid_field "receiverId" v;
    encryptedKey ← string_field (length_between 1 4096) "encryptedKey" v;
    keySignature ← string_field (length_between 1 1024) "keySignature" v;
    Some (mkSenderKeyItem receiverId encryptedKey keySignature)
  else None.
Record UploadSenderKey := mkUploadSenderKey { us_groupId : string; us_epoch : Z; us_items : list SenderKeyItem }.
Definition UploadSenderKeyDto : PayloadClass UploadSenderKey :=
  mkPayloadClass "UploadSenderKeyDto" ["groupId"; "epoch"; "items"] (λ body,
    groupId ← uuid_field "groupId" body;
    epoch ← int_value 0 None (default JNull (get_field body "epoch"));
    items ← match get_field body "items" with
            | Some (JArr l) => if (1 <=? Z.of_nat (length l)) && (Z.of_nat (length l) <=? 500) then mapM SenderKeyItemDto l else None
            | _ => None
            end;
    Some (mkUploadSenderKey groupId epoch items)).

(** ** Channels, messages, reactions *)
Definition CreateChannelBody : PayloadClass CreateChannelPayload :=
  mkPayloadClass "CreateChannelDto" ["type"; "name"; "participantIds"] CreateChannelDto.
Definition AddMemberDto : PayloadClass (string * option string) :=
  mkPayloadClass "AddMemberDto" ["userId"; "role"] (λ body,
    userId ← uuid_field "userId" body; role ← optional (one_of ["MEMBER"; "ADMIN"]) "role" body; Some (userId, role)).
Definition MarkReadDto : PayloadClass (string * string) :=
  mkPayloadClass "MarkReadDto" ["channelId"; "lastReadMessageId"] (λ body,
    channelId ← uuid_field "channelId" body; lastReadMessageId ← uuid_field "lastReadMessageId" body;
    Some (channelId, lastReadMessageId)).
Definition SendMessageBody (userId : string) : PayloadClass SendMessageInput :=
  mkPayloadClass "SendMessageDto"
    ["channelId"; "encryptedContent"; "contentIv"; "contentTag"; "signature"; "sequenceNumber"; "senderKeyEpoch"; "messageType"; "metadata"]
    (SendMessageDto userId).
Definition GetMessagesQuery : PayloadClass (option Z * option Z * MessagePageMode) :=
  mkPayloadClass "GetMessagesQueryDto" ["limit"; "cursor"; "mode"] GetMessagesQueryDto.
Definition ReactionBody (name : string) : PayloadClass ReactionPayload :=
  mkPayloadClass name ["channelId"; "messageId"; "emoji"] ReactionDto.
Definition AddReactionDto : PayloadClass ReactionPayload := ReactionBody "AddReactionDto".
Definition RemoveReactionDto : PayloadClass ReactionPayload := ReactionBody "RemoveReactionDto".

(** ** Audit, calls, LiveKit *)
Record AuditLogsQuery := mkAuditLogsQuery { aq_action : option string; aq_from : option string; aq_to : option string; aq_limit : Z; aq_offset : Z }.
Definition date_value (v : json) : option string := match v with JStr s => if valid_date s then Some s else None | _ => None end.
Definition AuditLogsQueryDto : PayloadClass AuditLogsQuery :=
  mkPayloadClass "AuditLogsQueryDto" ["action"; "from"; "to"; "limit"; "offset"] (λ query,
    action ← optional (λ v, match v with JStr s => if (string_length s <=? 64) && ACTION_PATTERN s then Some s else None | _ => None end)
               "action" query;
    from ← optional date_value "from" query;
    to ← optional date_value "to" query;
    limit ← int_query 1 (Some 100) "limit" query;
    offset ← int_query 0 (Some 10000) "offset" query;
    Some (mkAuditLogsQuery action from to (default 50 limit) (default 0 offset))).
Definition CallHistoryQuery : PayloadClass (Z * Z) := mkPayloadClass "CallHistoryQueryDto" ["page"; "limit"] CallHistoryQueryDto.
Definition CallHistoryWithUserQuery : PayloadClass Z := mkPayloadClass "CallHistoryWithUserQueryDto" ["limit"] CallHistoryWithUserQueryDto.
Definition LivekitTokenDto : PayloadClass string :=
  mkPayloadClass "LivekitTokenDto" ["roomName"; "participantName"] (λ body,
    roomName ← string_field ROOM_NAME_RE "roomName" body;
    _ ← optional (λ v, match v with JStr s => if string_length s <=? 64 then Some s else None | _ => None end) "participantName" body;
    Some roomName).
End Dto.
