(* ===== verification/Http.v ===== *)
(** * Http: what happens to a request before and after its route

    Models common/request-id.middleware.ts, shared/guards/jwt.strategy.ts and
    jwt-auth.guard.ts, the throttling of app.module.ts with the guards of RateLimit,
    ParseUUIDPipe and ValidationPipe as the controllers use them, and the filter of
    common/filters/all-exceptions.filter.ts.  A request is what Express hands over: its
    path cut into segments, its query and body parsed, the upload received.  The class
    [Framework] is what the frameworks decide: which token passport accepts, how the
    throttler answers to a counter, what a UUID is, the dates [new Date] reads, and the
    texts of timestamps in the rows of a raw query and in the JSON Postgres builds. *)
From Stdlib Require Import Ascii String.
From S2P Require Import Prelude JsString Json IsoDate Effects Errors Redis Schema World Crypto Config RateLimit RedisSession.
From S2P Require Import RedisCache Socket ChannelMembers Messages Channels LiveKit Validation SocketAuth.
From stdpp Require Import base list strings.

Local Open Scope string_scope.
Local Open Scope Z_scope.
Local Open Scope list_scope.

Record IncomingFile := mkIncomingFile { f_buffer : bytes; f_mimetype : string; f_originalname : string; f_size : Z }.
(** [hr_body] and [hr_file]: what the parsers of the body and of the upload gave, or the
    error they raised. *)
Record HttpRequest := mkHttpRequest {
  hr_method : string; hr_path : list string; hr_originalUrl : string; hr_query : json; hr_body : outcome thrown json;
  hr_rawBody : option string; hr_ip : option string; hr_authorization : option string; hr_xRequestId : header;
  hr_file : outcome thrown (option IncomingFile);
}.
Record HttpResponse := mkHttpResponse { rs_status : Z; rs_body : option json }.
Record AuthenticatedUser := mkAuthenticatedUser { au_id : string; au_username : string; au_email : string; au_status : string }.

Class Framework := {
  jwt_payload : nat → option string → option json;
  throttle : ThrottlerStorageRecord → Z → list (string * string) * option thrown;
  parse_uuid : string → bool;
  new_date : string → option Z;
  row_timestamp : Z → string;
  json_timestamp : Z → string;
}.

(** What a handler sees of a request. *)
Record Ctx := mkCtx { cx_req : HttpRequest; cx_body : json; cx_params : list (string * string) }.

(** [/^[A-Za-z0-9._-]{8,128}$/] *)
Definition SAFE_ID (s : string) : bool :=
  (8 <=? String.length s)%nat && (String.length s <=? 128)%nat
  && all_chars (λ c, is_digit c || is_upper c || is_lower c || Ascii.eqb c "." || Ascii.eqb c "_" || Ascii.eqb c "-") s.

Definition http_code_string (c : HttpErrorCode) : string :=
  match c with
  | VALIDATION_ERROR => "VALIDATION_ERROR" | UNAUTHORIZED => "UNAUTHORIZED" | FORBIDDEN => "FORBIDDEN" | NOT_FOUND => "NOT_FOUND"
  | CONFLICT => "CONFLICT" | RATE_LIMITED => "RATE_LIMITED" | PAYLOAD_TOO_LARGE => "PAYLOAD_TOO_LARGE"
  | INTERNAL_ERROR => "INTERNAL_ERROR"
  end.

Definition HttpErrorBody (n : NormalizedError) (path requestId : string) (now : Z) : json :=
  JObj ([("success", JBool false); ("statusCode", JNum (ne_status n)); ("error", JStr (http_code_string (ne_error n)));
         ("message", JStr (ne_message n))]
        ++ match ne_details n with Some l => [("details", JArr (map JStr l))] | None => [] end
        ++ [("path", JStr path); ("timestamp", JStr (toISOString now)); ("requestId", JStr requestId)]).

Definition unauthorized : thrown :=
  HttpException 401 (JObj [("message", JStr "Unauthorized"); ("statusCode", JNum 401)]) "Unauthorized".

Section Http.
Context {R : Redis} {E : Env} {C : Crypto} {J : Jwt} {P : Environment} {V : ClassValidator} {F : Framework}.

(** RequestIdMiddleware.use: the id the request goes by. *)
Definition RequestIdMiddleware (req : HttpRequest) : M string :=
  let! requestId := (match hr_xRequestId req with
                     | HStr s => if SAFE_ID s then Ret s else randomUUID
                     | _ => randomUUID
                     end) in
  do! send_effect (SetHeader "X-Request-Id" requestId);
  Ret requestId.

(** JwtStrategy.validate *)
Definition active_row (id : string) (d : Db) : option UserRow :=
  u ← find_user id d; if u_isActive u then Some u else None.
Definition authenticated_user (u : UserRow) : AuthenticatedUser := mkAuthenticatedUser (u_id u) (u_username u) (u_email u) (u_status u).
Definition subject (payload : json) : option string :=
  match get_field payload "sub" with Some (JStr sub) => if sub === "" then None else Some sub | _ => None end.
Definition jwt_validate (payload : json) : M (option AuthenticatedUser) :=
  match subject payload with
  | None => Ret None
  | Some sub => query (λ d, authenticated_user <$> active_row sub d)
  end.

(** JwtAuthGuard, [AuthGuard('jwt')] *)
Definition JwtAuthGuard (req : HttpRequest) : M AuthenticatedUser :=
  let! payload := act (λ n w, (Ok (jwt_payload n (hr_authorization req)), w)) in
  match payload with
  | None => Throw unauthorized
  | Some payload =>
      let! user := jwt_validate payload in
      match user with Some u => Ret u | None => Throw unauthorized end
  end.

(** What the guards of RateLimit read of a request. *)
Definition guard_request (req : HttpRequest) (userId : option string) : Request :=
  mkRequest userId (hr_ip req)
    (match hr_body req with Ok body => match get_field body "username" with Some (JStr s) => Some s | _ => None end | Err _ => None end)
    (hr_authorization req).

Definition API_RATE_LIMIT : Z := number_env process_env "API_RATE_LIMIT_PER_MIN" 300.

(** AppThrottlerGuard within the ThrottlerGuard it extends. *)
Definition throttler_canActivate (skip : bool) (req : HttpRequest) : M () :=
  if shouldSkip true || skip then Ret tt
  else
    let! tracker := getTracker (guard_request req None) in
    let! record := throttler_increment (generateKey tracker "default") 60000 API_RATE_LIMIT "default" in
    let (headers, refused) := throttle record API_RATE_LIMIT in
    do! for_each headers (λ h, send_effect (SetHeader h.1 h.2));
    match refused with Some e => Throw e | None => Ret tt end.

(** RateLimitGuard on a route with these options. *)
Definition route_limit (options : option RouteRateLimit) (req : HttpRequest) (userId : option string) : M () :=
  do! canActivate options true (guard_request req userId); Ret tt.

(** ** Pipes *)
Definition uuid_expected : thrown := BadRequestException "Validation failed (uuid is expected)".
Definition ParseUUIDPipe (value : option json) : M string :=
  match value with
  | Some (JStr s) => if parse_uuid s then Ret s else Throw uuid_expected
  | _ => Throw uuid_expected
  end.
Definition uuid_param (name : string) (c : Ctx) : M string :=
  ParseUUIDPipe (JStr ∘ snd <$> List.find (λ p, p.1 === name) (cx_params c)).
Definition uuid_query (name : string) (c : Ctx) : M string := ParseUUIDPipe (get_field (hr_query (cx_req c)) name).
Definition valid_body {T} (cls : PayloadClass T) (c : Ctx) : M T := validate cls (cx_body c).
Definition valid_query {T} (cls : PayloadClass T) (c : Ctx) : M T := validate cls (hr_query (cx_req c)).

(** ** AllExceptionsFilter.catch: [requestId] is what the middleware put on the request. *)
Definition AllExceptionsFilter (req : HttpRequest) (requestId : option string) (exception : thrown) : M HttpResponse :=
  let normalized := normalizeException exception in
  let! id := (match requestId with
              | Some id => Ret id
              | None => match hr_xRequestId req with HStr s => Ret s | _ => randomUUID end
              end) in
  let! now := Date_now in
  do! send_effect (SetHeader "X-Request-Id" id);
  Ret (mkHttpResponse (ne_status normalized) (Some (HttpErrorBody normalized (hr_originalUrl req) id now))).
End Http.

(** The frameworks on concrete requests: tokens are "Bearer <user id>", the throttler
    answers 429 to a blocked record. *)
Definition toy_framework : Framework := {|
  jwt_payload _ h := match h with
                     | Some h => if startsWith h "Bearer " then Some (JObj [("sub", JStr (suffix_from 7 h))]) else None
                     | None => None
                     end;
  throttle record limit :=
    if isBlocked record
    then ([("Retry-After", z_to_string (timeToBlockExpire record))], Some (HttpException 429 (JStr "ThrottlerException: Too Many Requests") "ThrottlerException: Too Many Requests"))
    else ([("X-RateLimit-Limit", z_to_string limit)], None);
  parse_uuid := is_uuid; new_date := Date_parse; row_timestamp := toISOString; json_timestamp := toISOString;
|}.
