(* ===== verification/Uploads.v ===== *)
(** * Uploads: files sent to the object storage

    Models modules/uploads/uploads.service.ts and uploads.controller.ts.  The storage
    (Cloudinary) is the class [Cloudinary]; what it is asked to store is the effect
    [StoreFile]. *)
From Stdlib Require Import Ascii String.
From S2P Require Import Prelude JsString Json Effects Errors Redis Schema World Crypto Config FileType RateLimit Validation SocketAuth Http.
From S2P Require Import RedisSession RedisCache Socket ChannelMembers Messages.
From stdpp Require Import base list strings.

Local Open Scope string_scope.
Local Open Scope Z_scope.
Local Open Scope list_scope.

Record UploadApiResponse := mkUploadApiResponse {
  ua_secure_url : string; ua_public_id : string; ua_format : string; ua_resource_type : string; ua_bytes : Z;
  ua_width : option Z; ua_height : option Z;
}.
(** [upload_stream]: no response when the upload failed; [thumbnail_url]: the URL of the
    200 by 200 thumbnail of an image. *)
Class Cloudinary := {
  upload_stream : nat → string → string → bytes → option UploadApiResponse;
  thumbnail_url : string → string;
}.

Record UploadResult := mkUploadResult { up_response : UploadApiResponse; up_thumbnailUrl : option string }.

Definition DEFAULT_FOLDER : string := "zevra/uploads".
Definition MAX_UPLOAD_BYTES : Z := 10 * 1024 * 1024.

Section Uploads.
Context {R : Redis} {E : Env} {P : Environment} {K : Cloudinary}.

(** onModuleInit: are the credentials set? *)
Definition configured : bool :=
  forallb (λ name, bool_decide (is_Some (truthy (process_env name)))) ["CLOUDINARY_CLOUD_NAME"; "CLOUDINARY_API_KEY"; "CLOUDINARY_API_SECRET"].

Definition upload (file : IncomingFile) (folder resource_type : string) : M UploadApiResponse :=
  if negb configured then Throw (ServiceUnavailableException "File uploads are not available")
  else
    do! send_effect (StoreFile folder resource_type (f_buffer file));
    let! result := act (λ n w, (Ok (upload_stream n folder resource_type (f_buffer file)), w)) in
    match result with
    | None => Throw (ServiceUnavailableException "Upload failed, please try again")
    | Some r => Ret r
    end.

Definition uploadImage (file : IncomingFile) (folder : string) : M UploadResult :=
  let! result := upload file folder "image" in
  Ret (mkUploadResult result (Some (thumbnail_url (ua_public_id result)))).
Definition uploadFile (file : IncomingFile) (folder : string) : M UploadResult :=
  let! result := upload file folder "raw" in Ret (mkUploadResult result None).

(** ** The controller *)
Definition unsupported_type : string :=
  "Unsupported file type. Allowed: images (JPEG, PNG, GIF, WebP) and documents (PDF, DOC, DOCX, TXT)".

Definition uploadFile_handler (file : option IncomingFile) : M UploadResult :=
  match file with
  | None => Throw (BadRequestException "No file provided")
  | Some f =>
      if f_size f =? 0 then Throw (BadRequestException "No file provided")
      else
        match detectAllowedMime (f_buffer f) (f_mimetype f) with
        | None => Throw (BadRequestException unsupported_type)
        | Some mime =>
            let verified := mkIncomingFile (f_buffer f) (mime_string mime) (f_originalname f) (f_size f) in
            if bool_decide (mime ∈ IMAGE_MIMES) then uploadImage verified DEFAULT_FOLDER else uploadFile verified DEFAULT_FOLDER
        end
  end.

Definition num_field (k : string) (v : option Z) : list (string * json) := match v with Some n => [(k, JNum n)] | None => [] end.
Definition upload_json (r : UploadResult) : json :=
  let a := up_response r in
  JObj ([("url", JStr (ua_secure_url a)); ("publicId", JStr (ua_public_id a)); ("format", JStr (ua_format a));
         ("resourceType", JStr (ua_resource_type a)); ("bytes", JNum (ua_bytes a))]
        ++ match up_thumbnailUrl r with
           | Some t => num_field "width" (ua_width a) ++ num_field "height" (ua_height a) ++ [("thumbnailUrl", JStr t)]
           | None => []
           end).
End Uploads.

(** A storage that answers. *)
Definition toy_cloudinary : Cloudinary := {|
  upload_stream n folder resource_type buffer :=
    Some (mkUploadApiResponse ("https://cdn.example.org/" +:+ folder) folder "bin" resource_type (Z.of_nat (length buffer)) None None);
  thumbnail_url id := "https://cdn.example.org/thumb/" +:+ id;
|}.

(** ** What a stored file is *)

(** The signatures of the types that have one. *)
Definition signatures (m : AllowedMime) : list (nat * bytes) :=
  match m with
  | ImageJpeg => [(0%nat, [255; 216; 255])]
  | ImagePng => [(0%nat, [137; 80; 78; 71; 13; 10; 26; 10])]
  | ImageGif => [(0%nat, [71; 73; 70; 56])]
  | ImageWebp => [(0%nat, [82; 73; 70; 70]); (8%nat, [87; 69; 66; 80])]
  | ApplicationPdf => [(0%nat, [37; 80; 68; 70; 45])]
  | ApplicationMsword => [(0%nat, [208; 207; 17; 224; 161; 177; 26; 225])]
  | ApplicationDocx => [(0%nat, [80; 75; 3; 4])]
  | TextPlain => []
  end.

Definition has_type (m : AllowedMime) (buf : bytes) : Prop :=
  Forall (λ s, take (length s.2) (drop s.1 buf) = s.2) (signatures m)
  ∧ (m = TextPlain → buf ≠ [] ∧ 0 ∉ take SAMPLE buf ∧ isProbablyUtf8Text buf = true).

Lemma bytes_match_take buf pattern : bytes_match buf pattern = true → take (length pattern) buf = pattern.
Proof.
  revert buf. induction pattern as [|p pattern IH]; intros [|b buf]; simpl; try done.
  intros [->%Z.eqb_eq H]%andb_true_iff. by rewrite IH.
Qed.

Lemma startsWith_take buf pattern offset :
  buf_startsWith buf pattern offset = true → take (length pattern) (drop offset buf) = pattern.
Proof. unfold buf_startsWith. case_match; [done|]. apply bytes_match_take. Qed.

Lemma text_no_nul buf : isProbablyUtf8Text buf = true → 0 ∉ take SAMPLE buf.
Proof.
  unfold isProbablyUtf8Text. destruct (existsb _ _) eqn:Hz; [discriminate|]. intros _ Hin.
  apply not_true_iff_false in Hz. apply Hz, existsb_exists. exists 0. by rewrite <-list_elem_of_In.
Qed.

Lemma detectAllowedMime_sound buf declared m : detectAllowedMime buf declared = Some m → has_type m buf.
Proof.
  pose proof (text_no_nul buf) as Hnul. unfold has_type. revert Hnul. generalize (0 ∉ take SAMPLE buf). intros no_nul Hnul.
  unfold detectAllowedMime. intros H.
  repeat match type of H with (if ?b then _ else _) = _ => destruct b eqn:?; simplify_eq end; boolp;
    (split; [repeat constructor; by apply startsWith_take|intros Hm]); try discriminate Hm.
  split_and!; [by intros ->|by apply Hnul|done].
Qed.
