(* ===== verification/Controllers.v ===== *)
(** * Controllers: the REST handlers and the JSON they answer

    Models the controllers of modules/* and health.controller.ts: a handler validates
    its parameters, calls its service and shapes the result.  The views are the columns
    the services select, as Express serialises them: dates as ISO texts. *)
From Stdlib Require Import Ascii String.
From S2P Require Import Prelude JsString Json IsoDate Effects Errors Redis Schema World Crypto Config RateLimit RedisSession.
From S2P Require Import RedisCache Socket ChannelMembers Messages Channels Reactions Users Keys Srp Auth Chat LiveKit Validation.
From S2P Require Import SocketAuth ChatGateway Calls Dto Http Uploads.
From stdpp Require Import base list strings gmap.

Local Open Scope string_scope.
Local Open Scope Z_scope.
Local Open Scope list_scope.

(** ** Views *)
Definition date_json (t : Z) : json := JStr (toISOString t).
Definition opt_json {A} (f : A → json) (o : option A) : json := match o with Some a => f a | None => JNull end.
Definition success (fields : list (string * json)) : json := JObj (("success", JBool true) :: fields).

Definition registered_json (u : UserRow) : json :=
  JObj [("id", JStr (u_id u)); ("username", JStr (u_username u)); ("email", JStr (u_email u)); ("createdAt", date_json (u_createdAt u))].
(** [publicUserColumns] *)
Definition publicUserColumns (u : UserRow) : list (string * json) :=
  [("id", JStr (u_id u)); ("username", JStr (u_username u)); ("status", JStr (u_status u)); ("keyVersion", JNum (u_keyVersion u));
   ("createdAt", date_json (u_createdAt u))].
Definition public_profile_json (u : UserRow) : json := JObj (publicUserColumns u ++ [("lastLoginAt", opt_json date_json (u_lastLoginAt u))]).
Definition own_profile_json (u : UserRow) : json :=
  JObj [("id", JStr (u_id u)); ("username", JStr (u_username u)); ("email", JStr (u_email u)); ("status", JStr (u_status u));
        ("keyVersion", JNum (u_keyVersion u)); ("createdAt", date_json (u_createdAt u));
        ("lastLoginAt", opt_json date_json (u_lastLoginAt u))].
Definition profile_json (u : UserRow) : json :=
  JObj [("id", JStr (u_id u)); ("username", JStr (u_username u)); ("email", JStr (u_email u)); ("status", JStr (u_status u));
        ("createdAt", date_json (u_createdAt u)); ("lastLoginAt", opt_json date_json (u_lastLoginAt u));
        ("keyVersion", JNum (u_keyVersion u))].
Definition my_keys_json (u : UserRow) : json :=
  JObj [("id", JStr (u_id u)); ("publicKey", JStr (u_publicKey u)); ("encryptedPrivateKey", JStr (u_encryptedPrivateKey u));
        ("keySalt", JStr (u_keySalt u)); ("publicKeySign", JStr (u_publicKeySign u));
        ("encryptedPrivateKeySign", JStr (u_encryptedPrivateKeySign u)); ("keySaltSign", JStr (u_keySaltSign u));
        ("keyVersion", JNum (u_keyVersion u)); ("argon2Params", u_argon2Params u)].
Definition login_keys_json (u : UserRow) : json :=
  JObj [("publicKey", JStr (u_publicKey u)); ("publicKeySign", JStr (u_publicKeySign u));
        ("encryptedPrivateKey", JStr (u_encryptedPrivateKey u)); ("keySalt", JStr (u_keySalt u));
        ("encryptedPrivateKeySign", JStr (u_encryptedPrivateKeySign u)); ("keySaltSign", JStr (u_keySaltSign u));
        ("argon2Params", u_argon2Params u); ("keyVersion", JNum (u_keyVersion u))].
Definition tokens_fields (t : Tokens) : list (string * json) :=
  [("accessToken", JStr (accessToken t)); ("refreshToken", JStr (refreshToken t)); ("expiresIn", JNum (expiresIn t))].
Definition login_json (r : LoginResult) : json :=
  let u := lr_user r in
  success (("user", JObj [("id", JStr (u_id u)); ("username", JStr (u_username u)); ("email", JStr (u_email u))])
           :: tokens_fields (lr_tokens r) ++ [("keys", login_keys_json u); ("M2", JStr (lr_M2 r))]).

Definition public_keys_json (keys : gmap string PublicKeys) : json :=
  JObj (map (λ kv, (kv.1, JObj [("publicKey", JStr (k_publicKey kv.2)); ("publicKeySign", JStr (k_publicKeySign kv.2));
                                ("keyVersion", JNum (k_keyVersion kv.2))])) (map_to_list keys)).
Definition sender_key_json (k : SenderKeyRow) : json :=
  JObj [("id", JStr (sk_id k)); ("groupId", JStr (sk_groupId k)); ("epoch", JNum (sk_epoch k)); ("encryptedKey", JStr (sk_encryptedKey k));
        ("keySignature", JStr (sk_keySignature k)); ("ownerId", JStr (sk_ownerId k)); ("createdAt", date_json (sk_createdAt k))].

Definition created_json (r : CreateChannelResult) : json :=
  let c := cr_channel r in
  JObj [("id", JStr (cs_id c)); ("type", JStr (cs_type c)); ("name", json_opt (cs_name c)); ("createdAt", date_json (cs_createdAt c));
        ("created", JBool (cr_created r))].
Definition inbox_json (i : InboxItem) : json :=
  let c := ib_channel i in
  let of_message {A} (f : MessageRow → A) (show : A → json) := opt_json (λ m, show (f m.1)) (ib_lastMessage i) in
  JObj [("id", JStr (c_id c)); ("name", json_opt (c_name c)); ("type", JStr (c_type c)); ("isArchived", JBool (c_isArchived c));
        ("lastMessageId", json_opt (c_lastMessageId c)); ("lastMessageAt", opt_json date_json (c_lastMessageAt c));
        ("lastMessageContent", of_message m_encryptedContent JStr); ("lastMessageSenderId", of_message m_senderId JStr);
        ("lastMessageSenderName", opt_json (λ m, json_opt m.2) (ib_lastMessage i));
        ("lastMessageIv", of_message m_contentIv JStr); ("lastMessageTag", of_message m_contentTag JStr);
        ("lastMessageMetadata", of_message m_metadata (opt_json id));
        ("lastMessageSenderKeyEpoch", of_message m_senderKeyEpoch JNum); ("createdAt", date_json (c_createdAt c));
        ("lastReadMessageId", json_opt (ib_lastReadMessageId i)); ("dmPeerId", json_opt (ib_dmPeerId i));
        ("unreadCount", JNum (ib_unreadCount i))].
Definition channel_fields (c : ChannelRow) : list (string * json) :=
  [("id", JStr (c_id c)); ("name", json_opt (c_name c)); ("type", JStr (c_type c)); ("isArchived", JBool (c_isArchived c));
   ("lastMessageId", json_opt (c_lastMessageId c)); ("lastMessageAt", opt_json date_json (c_lastMessageAt c));
   ("createdAt", date_json (c_createdAt c)); ("updatedAt", date_json (c_updatedAt c))].
Definition channel_member_json (m : UserRow * MembershipRow) : json :=
  JObj [("id", JStr (u_id m.1)); ("username", JStr (u_username m.1)); ("status", JStr (u_status m.1)); ("role", JStr (mb_role m.2));
        ("joinedAt", date_json (mb_joinedAt m.2))].
Definition channel_json (r : ChannelRow * string * list (UserRow * MembershipRow)) : json :=
  let '(c, role, members) := r in
  JObj (channel_fields c ++ [("role", JStr role); ("members", JArr (map channel_member_json members))]).
Definition texts_json (m : gmap string string) : json := JObj (map (λ kv, (kv.1, JStr kv.2)) (map_to_list m)).

Definition page_json (page : MessagePage) : json :=
  JObj [("messages", JArr (p_messages page)); ("nextCursor", opt_json JNum (p_nextCursor page)); ("hasMore", JBool (p_hasMore page));
        ("source", JStr (p_source page))].
Definition group_json (g : ReactionGroup) : json :=
  JObj [("emoji", JStr (g_emoji g)); ("userIds", JArr (map JStr (g_userIds g))); ("count", JNum (g_count g))].
Definition audit_json (a : AuditLogRow) : json :=
  JObj [("id", JStr (al_id a)); ("action", JStr (al_action a)); ("details", opt_json id (al_details a)); ("ipAddress", json_opt (al_ipAddress a));
        ("userId", json_opt (al_userId a)); ("createdAt", date_json (al_createdAt a))].

(** ** Handlers *)
Section Controllers.
Context {R : Redis} {E : Env} {C : Crypto} {J : Jwt} {P : Environment} {V : ClassValidator} {L : LiveKit} {F : Framework} {K : Cloudinary}.

(** What Nest does with the result of a handler. *)
Definition reply (status : Z) (p : M json) : M HttpResponse := let! body := p in Ret (mkHttpResponse status (Some body)).

(** *** auth.controller.ts *)
Definition auth_register (c : Ctx) : M json :=
  let! ' (username, email, password) := valid_body RegisterDto c in
  let! user := register username email password in
  Ret (success [("user", registered_json user)]).
Definition auth_loginStart (c : Ctx) : M json :=
  let! username := valid_body LoginStartDto c in
  let! r := loginStart username in
  Ret (success [("username", JStr (ls_username r)); ("srpSalt", JStr (ls_srpSalt r)); ("B", JStr (ls_B r))]).
Definition auth_loginFinish (c : Ctx) : M json :=
  let! ' (username, A, M1) := valid_body LoginFinishDto c in
  let! r := loginFinish (mkLoginParams username A M1 (hr_ip (cx_req c))) in
  Ret (login_json r).
Definition auth_getMe (c : Ctx) (user : AuthenticatedUser) : M json :=
  let! profile := getProfile (au_id user) in Ret (success [("user", profile_json profile)]).
Definition auth_logout (c : Ctx) (user : AuthenticatedUser) : M json :=
  do! logout (au_id user); Ret (success [("message", JStr "Logged out")]).
Definition auth_refresh (c : Ctx) : M json :=
  let! token := valid_body RefreshDto c in
  let! tokens := refreshTokens_handler token in
  Ret (success (tokens_fields tokens)).

(** *** users.controller.ts *)
Definition users_updateMe (c : Ctx) (user : AuthenticatedUser) : M json :=
  let! username := valid_body UpdateProfileDto c in
  let! updated := updateProfile (au_id user) username in Ret (own_profile_json updated).
Definition users_search (c : Ctx) (user : AuthenticatedUser) : M json :=
  let! ' (q, limit) := valid_query SearchUsersQueryDto c in
  let! found := search q (au_id user) (Z.to_nat limit) in
  Ret (JArr (map (λ u, JObj (publicUserColumns u)) found)).
Definition users_getOnline (c : Ctx) (user : AuthenticatedUser) : M json :=
  let! ids := valid_query OnlineUsersQueryDto c in
  let! online := getOnlineUsers ids in Ret (JObj [("online", JArr (map JStr online))]).
Definition users_findOne (c : Ctx) (user : AuthenticatedUser) : M json :=
  let! id := uuid_param "id" c in let! found := findPublicById id in Ret (public_profile_json found).

(** *** keys.controller.ts *)
Definition keys_getMyKeys (c : Ctx) (user : AuthenticatedUser) : M json :=
  let! keys := getMyKeys (au_id user) in Ret (my_keys_json keys).
Definition keys_rotateKeys (c : Ctx) (user : AuthenticatedUser) : M json :=
  let! params := valid_body RotateKeysDto c in
  let! keyVersion := rotateKeys (au_id user) params in Ret (success [("keyVersion", JNum keyVersion)]).
Definition keys_getPublicKeys (c : Ctx) (user : AuthenticatedUser) : M json :=
  let! userIds := valid_query PublicKeysQueryDto c in let! keys := getPublicKeys userIds in Ret (public_keys_json keys).
Definition keys_uploadSenderKeys (c : Ctx) (user : AuthenticatedUser) : M json :=
  let! dto := valid_body UploadSenderKeyDto c in
  do! uploadSenderKeys (au_id user) (us_groupId dto) (us_epoch dto) (us_items dto);
  Ret (success [("message", JStr "Sender keys uploaded")]).
Definition keys_getSenderKeys (c : Ctx) (user : AuthenticatedUser) : M json :=
  let! groupId := uuid_param "groupId" c in
  let! epoch := valid_query SenderKeysQueryDto c in
  let! keys := getSenderKeys groupId (au_id user) epoch in Ret (JArr (map sender_key_json keys)).

(** *** channels.controller.ts *)
Definition channels_create (c : Ctx) (user : AuthenticatedUser) : M json :=
  let! dto := valid_body CreateChannelBody c in
  let! result := create (au_id user) (cc_participantIds dto) (cc_type dto) (cc_name dto) in Ret (created_json result).
Definition channels_getInbox (c : Ctx) (user : AuthenticatedUser) : M json :=
  let! inbox := getInbox (au_id user) in Ret (JArr (map inbox_json inbox)).
Definition channels_markRead (c : Ctx) (user : AuthenticatedUser) : M json :=
  let! ' (channelId, lastReadMessageId) := valid_body MarkReadDto c in
  let! ' (ok, advanced) := markRead (au_id user) channelId lastReadMessageId in
  Ret (JObj [("success", JBool ok); ("advanced", JBool advanced)]).
Definition channels_getChannel (c : Ctx) (user : AuthenticatedUser) : M json :=
  let! channelId := uuid_param "channelId" c in let! channel := getChannel channelId (au_id user) in Ret (channel_json channel).
Definition channels_addMember (c : Ctx) (user : AuthenticatedUser) : M json :=
  let! channelId := uuid_param "channelId" c in
  let! ' (userId, role) := valid_body AddMemberDto c in
  let! ' (membershipId, (id, username)) := addMember channelId (au_id user) userId role in
  Ret (JObj [("membershipId", JStr membershipId); ("user", JObj [("id", JStr id); ("username", JStr username)])]).
Definition channels_removeMember (c : Ctx) (user : AuthenticatedUser) : M json :=
  let! channelId := uuid_param "channelId" c in
  let! targetUserId := uuid_param "targetUserId" c in
  let! promoted := removeMember channelId (au_id user) targetUserId in Ret (success [("promotedUserId", json_opt promoted)]).
Definition channels_archive (c : Ctx) (user : AuthenticatedUser) : M json :=
  let! channelId := uuid_param "channelId" c in
  let! isArchived := archive channelId (au_id user) in Ret (JObj [("isArchived", JBool isArchived)]).
Definition channels_getTypingUsers (c : Ctx) (user : AuthenticatedUser) : M json :=
  let! channelId := uuid_param "channelId" c in let! ids := getTypingUsersOf channelId (au_id user) in Ret (JArr (map JStr ids)).
Definition channels_getReadReceipts (c : Ctx) (user : AuthenticatedUser) : M json :=
  let! channelId := uuid_param "channelId" c in let! receipts := getReadReceipts channelId (au_id user) in Ret (texts_json receipts).

(** *** messages.controller.ts *)
Definition messages_send (c : Ctx) (user : AuthenticatedUser) : M json :=
  let! dto := valid_body (SendMessageBody (au_id user)) c in
  let! message := send dto None in Ret (pending_json message).
Definition messages_getMessages (c : Ctx) (user : AuthenticatedUser) : M json :=
  let! channelId := uuid_param "channelId" c in
  let! ' (limit, cursor, mode) := valid_query GetMessagesQuery c in
  let! page := getMessages channelId (au_id user) (default 50 limit) cursor mode in Ret (page_json page).
Definition messages_deleteMessage (c : Ctx) (user : AuthenticatedUser) : M json :=
  let! messageId := uuid_param "messageId" c in deleteMessage (au_id user) messageId.

(** *** reactions.controller.ts *)
Definition actor_of (user : AuthenticatedUser) : ReactionActor := mkReactionActor (au_id user) (au_username user).
Definition reactions_addReaction (c : Ctx) (user : AuthenticatedUser) : M json :=
  let! dto := valid_body AddReactionDto c in
  let! result := addReaction (actor_of user) (rp_channelId dto) (rp_messageId dto) (rp_emoji dto) in Ret (add_json result).
Definition reactions_removeReaction (c : Ctx) (user : AuthenticatedUser) : M json :=
  let! dto := valid_body RemoveReactionDto c in
  let! action := removeReaction (actor_of user) (rp_channelId dto) (rp_messageId dto) (rp_emoji dto) in Ret (remove_json action).
Definition reactions_getReactions (c : Ctx) (user : AuthenticatedUser) : M json :=
  let! messageId := uuid_query "messageId" c in
  let! channelId := uuid_query "channelId" c in
  let! groups := getReactions messageId (au_id user) channelId in Ret (JArr (map group_json groups)).

(** *** audit.controller.ts: a date the driver cannot send makes the statement fail *)
Definition sql_date (text : option string) : M (option Z) :=
  match truthy text with
  | None => Ret None
  | Some s => match new_date s with Some t => Ret (Some t) | None => Throw (sql_error "22007") end
  end.
Definition audit_getLogs (c : Ctx) (user : AuthenticatedUser) : M json :=
  let! query := valid_query AuditLogsQueryDto c in
  let! from := sql_date (aq_from query) in
  let! to := sql_date (aq_to query) in
  let! logs := getLogs (mkLogQuery (Some (au_id user)) (aq_action query) from to (Some (Z.to_nat (aq_limit query)))
                          (Some (Z.to_nat (aq_offset query)))) in
  Ret (success [("logs", JArr (map audit_json logs))]).
Definition audit_getSecurityEvents (c : Ctx) (user : AuthenticatedUser) : M json :=
  let! events := getSecurityEvents (au_id user) in Ret (success [("events", JArr (map audit_json events))]).

(** *** uploads.controller.ts: the interceptor receives the file *)
Definition uploads_uploadFile (c : Ctx) (user : AuthenticatedUser) : M json :=
  match hr_file (cx_req c) with
  | Err e => Throw e
  | Ok file => let! result := uploadFile_handler file in Ret (upload_json result)
  end.

(** *** calls-history.controller.ts *)
Definition participant_json (p : HistoryParticipant) : json :=
  JObj [("userId", JStr (hp_userId p)); ("username", JStr (hp_username p)); ("joinedAt", JStr (json_timestamp (hp_joinedAt p)));
        ("leftAt", opt_json (JStr ∘ json_timestamp) (hp_leftAt p)); ("duration", opt_json JNum (hp_duration p))].
Definition call_json (r : CallHistoryRow) : json :=
  let c := ch_log r in
  JObj [("id", JStr (cl_id c)); ("type", JStr (cl_type c)); ("status", JStr (cl_status c)); ("started_at", JStr (row_timestamp (cl_startedAt c)));
        ("ended_at", opt_json (JStr ∘ row_timestamp) (cl_endedAt c)); ("duration", opt_json JNum (cl_duration c));
        ("room_name", json_opt (cl_roomName c)); ("caller_id", json_opt (fst <$> ch_caller r)); ("caller_username", json_opt (snd <$> ch_caller r));
        ("callee_id", json_opt (fst <$> ch_callee r)); ("callee_username", json_opt (snd <$> ch_callee r));
        ("participants", JArr (map participant_json (ch_participants r)))].
Definition calls_getHistory (c : Ctx) (user : AuthenticatedUser) : M json :=
  let! ' (page, limit) := valid_query CallHistoryQuery c in
  let! ' (calls, page, hasMore) := getHistory (au_id user) page limit in
  Ret (JObj [("calls", JArr (map call_json calls)); ("page", JNum page); ("hasMore", JBool hasMore)]).
Definition calls_getHistoryWithUser (c : Ctx) (user : AuthenticatedUser) : M json :=
  let! otherUserId := uuid_param "userId" c in
  let! limit := valid_query CallHistoryWithUserQuery c in
  let! calls := getHistoryWithUser (au_id user) otherUserId limit in Ret (JObj [("calls", JArr (map call_json calls))]).

(** *** livekit.controller.ts *)
Definition livekit_getToken (c : Ctx) (user : AuthenticatedUser) : M json :=
  let! roomName := valid_body LivekitTokenDto c in getToken (au_id user) (au_username user) roomName.
Definition livekit_webhook (c : Ctx) : M json :=
  do! webhook (hr_rawBody (cx_req c)) (hr_authorization (cx_req c)); Ret (JObj []).

(** *** health.controller.ts: a check that times out fails *)
Definition health_root (c : Ctx) : M json := Ret (JObj [("status", JStr "ok")]).
Definition health (c : Ctx) : M json := Ret (JObj [("status", JStr "ok")]).
Definition checkDb : M bool := catch (do! query (λ _, tt); Ret true) (λ _, Ret false).
(** RedisService.ping *)
Definition ping : M bool :=
  let! client := getClient in if negb client then Ret false else catch (on_redis (λ _ r, (Some true, r))) (λ _, Ret false).
Definition up_down (b : bool) : json := JStr (if b then "up" else "down").
Definition health_ready (c : Ctx) : M HttpResponse :=
  let! db := checkDb in
  let! redis := ping in
  let ok := db && redis in
  Ret (mkHttpResponse (if ok then 200 else 503)
         (Some (JObj [("status", JStr (if ok then "ok" else "error")); ("db", up_down db); ("redis", up_down redis)]))).
Definition favicon (c : Ctx) : M HttpResponse := Ret (mkHttpResponse 204 None).
End Controllers.
