(* ===== verification/Routes.v ===== *)
(** * Routes: which handler serves which request

    The decorators of the controllers: method, path, guards, limits and status of each
    route, and the way of a request through middleware, guards, handler and filter.
    [Protected] routes are behind JwtAuthGuard; the other guards run in the order Nest
    gives them: the global throttler, the guard of the token, the limit of the route. *)
From Stdlib Require Import Ascii String.
From S2P Require Import Prelude JsString Json Effects Errors Redis Schema World Crypto Config RateLimit RedisSession.
From S2P Require Import RedisCache Socket ChannelMembers Messages Channels Reactions Users Keys Srp Auth Chat LiveKit Validation.
From S2P Require Import SocketAuth Calls Dto Http Uploads Controllers.
From stdpp Require Import base list strings gmap.

Local Open Scope string_scope.
Local Open Scope Z_scope.
Local Open Scope list_scope.

Section Routes.
Context {R : Redis} {E : Env} {C : Crypto} {J : Jwt} {P : Environment} {V : ClassValidator} {L : LiveKit} {F : Framework} {K : Cloudinary}.

Inductive access :=
| Open (handler : Ctx → M HttpResponse)
| Protected (handler : Ctx → AuthenticatedUser → M HttpResponse).
Record Route := mkRoute {
  rt_method : string; rt_path : list string; rt_limit : option RouteRateLimit; rt_skipThrottle : bool; rt_access : access;
}.

Definition open (method : string) (path : list string) (status : Z) (h : Ctx → M json) : Route :=
  mkRoute method path None false (Open (λ c, reply status (h c))).
Definition limited (path : list string) (status : Z) (limit : RouteRateLimit) (h : Ctx → M json) : Route :=
  mkRoute "POST" path (Some limit) false (Open (λ c, reply status (h c))).
Definition protected (method : string) (path : list string) (status : Z) (h : Ctx → AuthenticatedUser → M json) : Route :=
  mkRoute method path None false (Protected (λ c u, reply status (h c u))).
Definition unthrottled (path : list string) (h : Ctx → M HttpResponse) : Route := mkRoute "GET" path None true (Open h).

Definition MINUTE : Z := 60000.
Definition per_minute (scope : string) (limit : Z) (byUsername byUser : bool) : RouteRateLimit :=
  mkRouteRateLimit scope limit MINUTE byUsername byUser.

Definition auth_routes : list Route :=
  [limited ["api"; "auth"; "register"] 201 (per_minute "register" 5 false false) auth_register;
   limited ["api"; "auth"; "login"; "start"] 200 (per_minute "login-start" 10 true false) auth_loginStart;
   limited ["api"; "auth"; "login"; "finish"] 200 (per_minute "login-finish" 10 true false) auth_loginFinish;
   protected "GET" ["api"; "auth"; "me"] 200 auth_getMe;
   protected "POST" ["api"; "auth"; "logout"] 200 auth_logout;
   limited ["api"; "auth"; "refresh"] 200 (per_minute "refresh" 30 false false) auth_refresh].
Definition users_routes : list Route :=
  [protected "PUT" ["api"; "users"; "me"] 200 users_updateMe;
   protected "GET" ["api"; "users"; "search"] 200 users_search;
   protected "GET" ["api"; "users"; "online"] 200 users_getOnline;
   protected "GET" ["api"; "users"; ":id"] 200 users_findOne].
Definition messages_routes : list Route :=
  [protected "POST" ["messages"] 201 messages_send;
   protected "GET" ["messages"; "channel"; ":channelId"] 200 messages_getMessages;
   protected "DELETE" ["messages"; ":messageId"] 200 messages_deleteMessage].
Definition channels_routes : list Route :=
  [protected "POST" ["channels"] 201 channels_create;
   protected "GET" ["channels"] 200 channels_getInbox;
   protected "POST" ["channels"; "mark-read"] 201 channels_markRead;
   protected "GET" ["channels"; ":channelId"] 200 channels_getChannel;
   protected "POST" ["channels"; ":channelId"; "members"] 201 channels_addMember;
   protected "DELETE" ["channels"; ":channelId"; "members"; ":targetUserId"] 200 channels_removeMember;
   protected "POST" ["channels"; ":channelId"; "archive"] 201 channels_archive;
   protected "GET" ["channels"; ":channelId"; "typing"] 200 channels_getTypingUsers;
   protected "GET" ["channels"; ":channelId"; "read-receipts"] 200 channels_getReadReceipts].
Definition keys_routes : list Route :=
  [protected "GET" ["keys"; "me"] 200 keys_getMyKeys;
   protected "POST" ["keys"; "rotate"] 200 keys_rotateKeys;
   protected "GET" ["keys"; "public"] 200 keys_getPublicKeys;
   protected "POST" ["keys"; "sender-keys"] 201 keys_uploadSenderKeys;
   protected "GET" ["keys"; "sender-keys"; ":groupId"] 200 keys_getSenderKeys].
Definition audit_routes : list Route :=
  [protected "GET" ["api"; "audit"; "logs"] 200 audit_getLogs;
   protected "GET" ["api"; "audit"; "security"] 200 audit_getSecurityEvents].
Definition reactions_routes : list Route :=
  [protected "POST" ["reactions"] 201 reactions_addReaction;
   protected "DELETE" ["reactions"] 200 reactions_removeReaction;
   protected "GET" ["reactions"] 200 reactions_getReactions].
Definition uploads_routes : list Route :=
  [mkRoute "POST" ["uploads"] (Some (per_minute "upload" 20 false true)) false
     (Protected (λ c u, reply 201 (uploads_uploadFile c u)))].
Definition calls_routes : list Route :=
  [protected "GET" ["calls"; "history"] 200 calls_getHistory;
   protected "GET" ["calls"; "history"; ":userId"] 200 calls_getHistoryWithUser].
Definition livekit_routes : list Route :=
  [protected "POST" ["livekit"; "token"] 200 livekit_getToken;
   open "POST" ["livekit"; "webhook"] 200 livekit_webhook].
Definition health_routes : list Route :=
  [unthrottled [] (λ c, reply 200 (health_root c));
   unthrottled ["health"] (λ c, reply 200 (health c));
   unthrottled ["health"; "ready"] health_ready;
   unthrottled ["favicon.ico"] favicon].

Definition routes : list Route :=
  auth_routes ++ users_routes ++ messages_routes ++ channels_routes ++ keys_routes ++ audit_routes ++ reactions_routes
  ++ uploads_routes ++ calls_routes ++ livekit_routes ++ health_routes.

(** A segment [":name"] of a path takes any segment of the request. *)
Fixpoint match_path (pattern path : list string) : option (list (string * string)) :=
  match pattern, path with
  | [], [] => Some []
  | p :: pattern', s :: path' =>
      if startsWith p ":" then params ← match_path pattern' path'; Some ((suffix_from 1 p, s) :: params)
      else if p === s then match_path pattern' path' else None
  | _, _ => None
  end.
(** HEAD requests go to the GET routes. *)
Definition serves (method : string) (route : Route) : bool :=
  (rt_method route === method) || ((method === "HEAD") && (rt_method route === "GET")).
Definition match_route (req : HttpRequest) (route : Route) : option (list (string * string)) :=
  if serves (hr_method req) route then match_path (rt_path route) (hr_path req) else None.
Fixpoint find_route (req : HttpRequest) (table : list Route) : option (Route * list (string * string)) :=
  match table with
  | [] => None
  | route :: table' => match match_route req route with Some params => Some (route, params) | None => find_route req table' end
  end.

Lemma find_route_elem req table r ps : find_route req table = Some (r, ps) → r ∈ table.
Proof.
  induction table as [|r' table IH]; [done|]. cbn [find_route]. destruct (match_route req r').
  - intros [= -> _]. apply list_elem_of_here.
  - intros H. apply list_elem_of_further. auto.
Qed.

Definition no_route (req : HttpRequest) : thrown := NotFoundException ("Cannot " +:+ hr_method req +:+ " " +:+ hr_originalUrl req).

(** Guards, then the handler. *)
Definition run_route (req : HttpRequest) (body : json) (route : Route) (params : list (string * string)) : M HttpResponse :=
  do! throttler_canActivate (rt_skipThrottle route) req;
  let c := mkCtx req body params in
  match rt_access route with
  | Open handler => do! route_limit (rt_limit route) req None; handler c
  | Protected handler =>
      let! user := JwtAuthGuard req in
      do! route_limit (rt_limit route) req (Some (au_id user));
      handler c user
  end.

Definition dispatch (req : HttpRequest) (body : json) : M HttpResponse :=
  match find_route req routes with
  | Some (route, params) => run_route req body route params
  | None => Throw (no_route req)
  end.

(** One request: the parsers of the body run before the middleware. *)
Definition serve_http (req : HttpRequest) : M HttpResponse :=
  match hr_body req with
  | Err e => AllExceptionsFilter req None e
  | Ok body =>
      let! requestId := RequestIdMiddleware req in
      catch (dispatch req body) (AllExceptionsFilter req (Some requestId))
  end.
End Routes.
