(* ===== verification/CallGateway.v ===== *)
(** * CallGateway: the socket events of calls

    Models modules/calls/calls.gateway.ts.  This gateway has no guard: each handler
    reads the user of the socket itself.  The relays of WebRTC signalling send no
    ack. *)
From Stdlib Require Import Ascii String.
From S2P Require Import Prelude JsString Json Effects Errors Redis Schema World Crypto Config RateLimit RedisSession.
From S2P Require Import RedisCache Socket ChannelMembers Messages Users LiveKit Validation SocketAuth Calls.
From stdpp Require Import base list strings gmap.

Local Open Scope string_scope.
Local Open Scope Z_scope.
Local Open Scope list_scope.

Definition CALL_RATE_LIMIT := mkRateLimitConfig 5000 10.
Definition SIGNAL_RATE_LIMIT := mkRateLimitConfig 1000 50.
Definition MAX_SDP_LENGTH : Z := 64 * 1024.
Definition MAX_CANDIDATE_LENGTH : Z := 4096.
Definition MAX_GROUP_TARGETS : Z := 50.

Definition isUuid (value : option json) : option string :=
  match value with Some (JStr s) => if is_uuid s then Some s else None | _ => None end.
Definition isUuidList (value : option json) (max : Z) : option (list string) :=
  match value with
  | Some (JArr l) => if Z.of_nat (length l) <=? max then mapM (λ v, isUuid (Some v)) l else None
  | _ => None
  end.
(** An id that may be left out: [None] when it is neither absent, null nor an id. *)
Definition optional_uuid (value : option json) : option (option string) :=
  match value with None | Some JNull => Some None | _ => Some <$> isUuid value end.

(** [ROOM_NAME_RE.test(roomName)] *)
Definition is_room_char (c : ascii) : bool := is_hex c || (c =? "-")%char.
Definition room_name_ok (roomName : string) : bool :=
  let lower := toLowerCase roomName in
  let ok rest := all_chars is_room_char rest && (36 <=? String.length rest)%nat && (String.length rest <=? 73)%nat in
  if startsWith lower "dm-" then ok (suffix_from 3 roomName)
  else if startsWith lower "group-" then ok (suffix_from 6 roomName) else false.

Definition invalid (message : string) : json := ack_json (socketError S_VALIDATION_ERROR message).
Definition notAuthenticated : json := ack_json (socketError S_NOT_AUTHENTICATED "Not authenticated").
Definition too_many_calls : json := ack_json (socketError S_RATE_LIMITED "Too many call attempts").
Definition call_ok : json := JObj [("success", JBool true)].

Definition getOtherUserId (call : ActiveCall) (userId : string) : string :=
  if ac_initiatorId call === userId then ac_targetId call else ac_initiatorId call.

(** The session description of an offer or an answer. *)
Definition valid_sdp (data : json) : option string :=
  match get_field data "sdp" with
  | Some (JStr sdp) => if (js_length sdp =? 0) || (MAX_SDP_LENGTH <? js_length sdp) then None else Some sdp
  | _ => None
  end.
Definition valid_candidate (data : json) : option json :=
  match get_field data "candidate" with
  | Some candidate => if MAX_CANDIDATE_LENGTH <? js_length (stringify candidate) then None else Some candidate
  | None => None
  end.

Section CallGateway.
Context {R : Redis} {E : Env} {P : Environment} {L : LiveKit}.

Definition user (client : Client) : M (option SocketUser) := let! data := socket_data (ws_id client) in Ret (sd_user data).

Definition call_allowed (userId scope : string) (limit : RateLimitConfig) : M bool :=
  let! rl := checkRateLimit (scope +:+ ":" +:+ userId) limit in Ret (allowed rl).

(** [call.callLogId ?? (await createCallLog(...))] *)
Definition log_of_call (call : ActiveCall) : M string :=
  match ac_callLogId call with
  | Some id => Ret id
  | None => createCallLog "WEBRTC" (ac_initiatorId call) (Some (ac_targetId call)) None None
  end.

Definition finishConnectedCall (call : ActiveCall) : M () :=
  let! callLogId := log_of_call call in
  endCallLog callLogId (ac_initiatorId call) (ac_targetId call) (ac_startedAt call).

Definition hangup_event (call : ActiveCall) (reason : string) : json :=
  JObj [("callId", JStr (ac_callId call)); ("reason", JStr reason)].
Definition call_id_event (call : ActiveCall) : json := JObj [("callId", JStr (ac_callId call))].

Definition call_handleDisconnect (client : Client) : M () :=
  let! user := user client in
  match user with
  | None => Ret tt
  | Some user =>
      catch
        (let! remaining := catch (fetchSocketIds (userRoom (su_id user))) (λ _, Ret []) in
         if existsb (λ s, s !== ws_id client) remaining then Ret tt
         else
           let! call := cleanupUserCall (su_id user) in
           match call with
           | None => Ret tt
           | Some call =>
               let otherId := getOtherUserId call (su_id user) in
               if ac_status call === "connected"
               then do! finishConnectedCall call;
                    do! emitToUser otherId "call:hangup" (hangup_event call "disconnected"); Ret tt
               else do! emitToUser otherId "call:hangup" (hangup_event call "caller_disconnected"); Ret tt
           end)
        (λ _, Ret tt)
  end.

(** A handler with an ack: it needs a user, and its errors become the ack. *)
Definition with_user (client : Client) (handler : SocketUser → M json) : M json :=
  with_ack (let! user := user client in match user with None => Ret notAuthenticated | Some u => handler u end).

Definition incoming_event (call : ActiveCall) (user : SocketUser) : json :=
  JObj [("callId", JStr (ac_callId call)); ("callerId", JStr (su_id user)); ("callerUsername", JStr (su_username user))].

Definition handleInvite (client : Client) (data : json) : M json :=
  with_user client (λ user,
    match isUuid (get_field data "targetUserId") with
    | None => Ret (invalid "targetUserId must be a valid user id")
    | Some targetUserId =>
        if targetUserId === su_id user then Ret (invalid "targetUserId must be a valid user id")
        else
          let! ok := call_allowed (su_id user) "call" CALL_RATE_LIMIT in
          if negb ok then Ret too_many_calls
          else
            let! mine := getActiveCall (su_id user) in
            if mine then Ret (failure "ALREADY_IN_CALL" "You are already in a call")
            else
              let! theirs := getActiveCall targetUserId in
              if theirs then Ret (failure "TARGET_BUSY" "User is busy")
              else
                let! online := isOnline targetUserId in
                if negb online then Ret (failure "TARGET_OFFLINE" "User is offline")
                else
                  let! callLogId := createCallLog "WEBRTC" (su_id user) (Some targetUserId) None None in
                  let! call := createCall (su_id user) targetUserId (Some callLogId) in
                  do! emitToUser targetUserId "call:incoming" (incoming_event call user);
                  Ret (JObj [("success", JBool true); ("callId", JStr (ac_callId call)); ("callLogId", JStr callLogId)])
    end).

Definition accepted_event (call : ActiveCall) (user : SocketUser) : json :=
  JObj [("callId", JStr (ac_callId call)); ("calleeId", JStr (su_id user)); ("calleeUsername", JStr (su_username user))].

Definition handleAccept (client : Client) (data : json) : M json :=
  with_user client (λ user,
    match isUuid (get_field data "callId") with
    | None => Ret (invalid "callId must be a valid id")
    | Some callId =>
        let! call := getActiveCall (su_id user) in
        match call with
        | None => Ret (failure "INVALID_CALL" "Call not found")
        | Some call =>
            if (ac_callId call !== callId) || (ac_targetId call !== su_id user)
            then Ret (failure "INVALID_CALL" "Call not found")
            else
              do! acceptCall call;
              do! (match ac_callLogId call with Some id => updateCallLogAccepted id | None => Ret tt end);
              do! emitToUser (ac_initiatorId call) "call:accepted" (accepted_event call user);
              Ret call_ok
        end
    end).

(** A call of the user that has the given id. *)
Definition with_own_call (user : SocketUser) (data : json) (handler : ActiveCall → M json) : M json :=
  match isUuid (get_field data "callId") with
  | None => Ret (invalid "callId must be a valid id")
  | Some callId =>
      let! call := getActiveCall (su_id user) in
      match call with
      | None => Ret (failure "INVALID_CALL" "Call not found")
      | Some call => if ac_callId call !== callId then Ret (failure "INVALID_CALL" "Call not found") else handler call
      end
  end.

Definition handleReject (client : Client) (data : json) : M json :=
  with_user client (λ user,
    with_own_call user data (λ call,
      let! callLogId := log_of_call call in
      do! updateCallLogRejected callLogId;
      do! cleanupCall (ac_callId call);
      do! emitToUser (getOtherUserId call (su_id user)) "call:rejected" (call_id_event call);
      Ret call_ok)).

Definition handleHangup (client : Client) (data : json) : M json :=
  with_user client (λ user,
    with_own_call user data (λ call,
      do! (when ac_status call === "connected" do finishConnectedCall call);
      do! cleanupCall (ac_callId call);
      do! emitToUser (getOtherUserId call (su_id user)) "call:hangup" (call_id_event call);
      Ret call_ok)).

(** ** WebRTC signalling relays *)
Definition relayTarget (client : Client) (callId : option json) : M (option (SocketUser * ActiveCall)) :=
  let! user := user client in
  match user, isUuid callId with
  | Some user, Some callId =>
      let! ok := call_allowed (su_id user) "call-signal" SIGNAL_RATE_LIMIT in
      if negb ok then Ret None
      else
        let! call := getActiveCall (su_id user) in
        match call with
        | None => Ret None
        | Some call => if ac_callId call !== callId then Ret None else Ret (Some (user, call))
        end
  | _, _ => Ret None
  end.

(** The three relays send [event] to the other user of the call. *)
Definition relay (client : Client) (data : json) (event : string) (payload : SocketUser → ActiveCall → json) : M () :=
  let! ctx := catch (relayTarget client (get_field data "callId")) (λ _, Ret None) in
  match ctx with
  | None => Ret tt
  | Some (user, call) => do! emitToUser (getOtherUserId call (su_id user)) event (payload user call); Ret tt
  end.

Definition handleOffer (client : Client) (data : json) : M () :=
  match valid_sdp data with
  | None => Ret tt
  | Some sdp => relay client data "call:offer" (λ user call,
      JObj [("callId", JStr (ac_callId call)); ("offer", JObj [("type", JStr "offer"); ("sdp", JStr sdp)]);
            ("callerId", JStr (su_id user)); ("callerUsername", JStr (su_username user))])
  end.
Definition handleAnswer (client : Client) (data : json) : M () :=
  match valid_sdp data with
  | None => Ret tt
  | Some sdp => relay client data "call:answer" (λ user call,
      JObj [("callId", JStr (ac_callId call)); ("answer", JObj [("type", JStr "answer"); ("sdp", JStr sdp)]);
            ("calleeId", JStr (su_id user)); ("calleeUsername", JStr (su_username user))])
  end.
Definition handleIceCandidate (client : Client) (data : json) : M () :=
  match valid_candidate data with
  | None => Ret tt
  | Some candidate => relay client data "call:ice-candidate" (λ user call,
      JObj [("callId", JStr (ac_callId call)); ("candidate", candidate); ("from", JStr (su_id user))])
  end.

(** ** Calls that choose their method *)
Definition livekit_url : json := json_opt (process_env "LIVEKIT_URL").
Definition invitation (roomName token idKey nameKey : string) (user : SocketUser) : json :=
  JObj [("roomName", JStr roomName); ("serverUrl", livekit_url); ("token", JStr token);
        (idKey, JStr (su_id user)); (nameKey, JStr (su_username user))].
Definition livekit_ack (roomName callLogId : string) (token : option string) : json :=
  JObj [("success", JBool true); ("method", JStr "LIVEKIT"); ("roomName", JStr roomName); ("serverUrl", livekit_url);
        ("token", json_opt token); ("callLogId", JStr callLogId)].

(** One candidate of a group call: invited when it is a user and a member. *)
Definition invite_member (user : SocketUser) (roomName : string) (names : gmap string string) (targetId : string) : M () :=
  match truthy (names !! targetId) with
  | None => Ret tt
  | Some name =>
      let! authorized := authorizeRoomAccess roomName targetId in
      if negb authorized then Ret tt
      else
        let! targetToken := generateToken roomName targetId name in
        match truthy targetToken with
        | None => Ret tt
        | Some t => do! emitToUser targetId "livekit:group-invite" (invitation roomName t "creatorId" "creatorUsername" user); Ret tt
        end
  end.

Definition initiateLiveKitGroupCall (user : SocketUser) (channelId : string) (targetUserIds : list string) : M json :=
  if negb isConfigured then Ret (failure "LIVEKIT_NOT_CONFIGURED" "Calls are not available")
  else
    let roomName := getGroupRoomName channelId in
    do! createRoom roomName 10;
    let! callLogId := createCallLog "LIVEKIT" (su_id user) None (Some roomName) (Some channelId) in
    let! creatorToken := generateToken roomName (su_id user) (su_username user) in
    let candidates := unique (List.filter (λ id, id !== su_id user) targetUserIds) in
    let! names := getUsernames candidates in
    do! for_each candidates (invite_member user roomName names);
    Ret (livekit_ack roomName callLogId creatorToken).

Definition initiate_group (user : SocketUser) (channelId : option string) (targetUserIds : list string) : M json :=
  match channelId with
  | None => Ret (failure "CHANNEL_REQUIRED" "channelId is required")
  | Some channelId =>
      let! authorized := authorizeRoomAccess (getGroupRoomName channelId) (su_id user) in
      if negb authorized then Ret (ack_json (socketError S_NOT_MEMBER "Not a member of this channel"))
      else initiateLiveKitGroupCall user channelId targetUserIds
  end.

Definition offline_fallback : json :=
  JObj [("success", JBool false); ("error", JStr "TARGET_OFFLINE"); ("message", JStr "User is offline"); ("fallback", JStr "LIVEKIT")].
Definition method_selected (call : ActiveCall) (targetId targetUsername : string) : json :=
  JObj [("callId", JStr (ac_callId call)); ("method", JStr "WEBRTC"); ("targetUserId", JStr targetId);
        ("targetUsername", JStr targetUsername)].

(** [targetUserIds[0]], another user than the caller. *)
Definition first_target (user : SocketUser) (targetUserIds : list string) : option string :=
  match truthy (head targetUserIds) with Some t => if t === su_id user then None else Some t | None => None end.

Definition initiate_dm (user : SocketUser) (channelId : option string) (targetUserIds : list string) : M json :=
  match first_target user targetUserIds with
  | None => Ret (failure "NO_TARGET" "A target user is required")
  | Some targetId =>
      let! theirs := getActiveCall targetId in
      if theirs then Ret (failure "TARGET_BUSY" "User is busy")
      else
        let! online := isOnline targetId in
        if negb online then Ret offline_fallback
        else
          let! callLogId := createCallLog "WEBRTC" (su_id user) (Some targetId) None channelId in
          let! call := createCall (su_id user) targetId (Some callLogId) in
          let! names := getUsernames [targetId] in
          do! emitToUser (su_id user) "call:method-selected" (method_selected call targetId (default "Unknown" (names !! targetId)));
          do! emitToUser targetId "call:incoming" (incoming_event call user);
          Ret (JObj [("success", JBool true); ("method", JStr "WEBRTC"); ("callId", JStr (ac_callId call));
                     ("callLogId", JStr callLogId)])
  end.

Definition handleInitiate (client : Client) (data : json) : M json :=
  with_user client (λ user,
    match get_field data "type", isUuidList (get_field data "targetUserIds") MAX_GROUP_TARGETS,
          optional_uuid (get_field data "channelId") with
    | Some (JStr type), targets, channel =>
        if (type !== "DM") && (type !== "GROUP") then Ret (invalid "type must be DM or GROUP")
        else match targets, channel with
        | None, _ => Ret (invalid "targetUserIds must be a list of user ids")
        | _, None => Ret (invalid "channelId must be a valid id")
        | Some targetUserIds, Some channelId =>
            let! ok := call_allowed (su_id user) "call" CALL_RATE_LIMIT in
            if negb ok then Ret too_many_calls
            else
              let! mine := getActiveCall (su_id user) in
              if mine then Ret (failure "ALREADY_IN_CALL" "You are already in a call")
              else if type === "GROUP" then initiate_group user channelId targetUserIds
              else initiate_dm user channelId targetUserIds
        end
    | _, _, _ => Ret (invalid "type must be DM or GROUP")
    end).

(** ** LiveKit *)
Definition livekit_unavailable : json := failure "LIVEKIT_NOT_CONFIGURED" "Calls are not available".

(** The invitation of the callee of a fallback call, if it is a user. *)
Definition invite_callee (user : SocketUser) (roomName targetId : string) : M () :=
  let! names := getUsernames [targetId] in
  match truthy (names !! targetId) with
  | None => Ret tt
  | Some targetName =>
      let! targetToken := generateToken roomName targetId targetName in
      match truthy targetToken with
      | None => Ret tt
      | Some t => do! emitToUser targetId "livekit:incoming" (invitation roomName t "callerId" "callerUsername" user); Ret tt
      end
  end.

Definition handleLiveKitFallback (client : Client) (data : json) : M json :=
  with_user client (λ user,
    match isUuidList (get_field data "targetUserIds") MAX_GROUP_TARGETS, optional_uuid (get_field data "channelId") with
    | None, _ => Ret (invalid "targetUserIds must be a list of user ids")
    | _, None => Ret (invalid "channelId must be a valid id")
    | Some targetUserIds, Some channelId =>
        if negb isConfigured then Ret livekit_unavailable
        else
          let! ok := call_allowed (su_id user) "call" CALL_RATE_LIMIT in
          if negb ok then Ret too_many_calls
          else match first_target user targetUserIds with
          | None => Ret (failure "NO_TARGET" "A target user is required")
          | Some targetId =>
              let roomName := getDmRoomName (su_id user) targetId in
              do! createRoom roomName 2;
              let! callLogId := createCallLog "LIVEKIT" (su_id user) (Some targetId) (Some roomName) channelId in
              let! token := generateToken roomName (su_id user) (su_username user) in
              match truthy token with
              | None => Ret (failure "TOKEN_FAILED" "Could not start the call")
              | Some t => do! invite_callee user roomName targetId; Ret (livekit_ack roomName callLogId (Some t))
              end
          end
    end).

Definition handleLiveKitActive (client : Client) (data : json) : M json :=
  with_user client (λ user,
    match isUuid (get_field data "channelId") with
    | None => Ret (invalid "channelId must be a valid id")
    | Some channelId =>
        let roomName := getGroupRoomName channelId in
        let! authorized := authorizeRoomAccess roomName (su_id user) in
        if negb authorized then Ret (ack_json (socketError S_NOT_MEMBER "Not a member of this channel"))
        else if negb isConfigured
        then Ret (JObj [("success", JBool true); ("active", JBool false); ("participantCount", JNum 0)])
        else
          let! participants := getParticipants roomName in
          Ret (JObj [("success", JBool true); ("active", JBool (0 <? length participants)%nat);
                     ("participantCount", JNum (Z.of_nat (length participants))); ("roomName", JStr roomName)])
    end).

Definition handleLiveKitJoinGroup (client : Client) (data : json) : M json :=
  with_user client (λ user,
    match get_field data "roomName" with
    | Some (JStr roomName) =>
        if negb (room_name_ok roomName) then Ret (invalid "roomName is invalid")
        else if negb isConfigured then Ret livekit_unavailable
        else
          let! authorized := authorizeRoomAccess roomName (su_id user) in
          if negb authorized then Ret (ack_json (socketError S_NOT_MEMBER "Not allowed to join this call"))
          else
            let! token := generateToken roomName (su_id user) (su_username user) in
            match truthy token with
            | None => Ret (failure "TOKEN_FAILED" "Could not join the call")
            | Some t => Ret (JObj [("success", JBool true); ("serverUrl", livekit_url); ("token", JStr t); ("roomName", JStr roomName)])
            end
    | _ => Ret (invalid "roomName is invalid")
    end).
End CallGateway.
