(* ===== verification/Events.v ===== *)
(** * Events: which handler serves which socket event

    The [@SubscribeMessage] decorators of the three gateways, with the guard of each
    handler: the events of chat.gateway.ts and all but [heartbeat] of
    socket.gateway.ts are behind [SocketAuthGuard], those of calls.gateway.ts are
    not. *)
From Stdlib Require Import String.
From S2P Require Import Prelude JsString Json Effects Errors Redis Schema World Crypto Config RateLimit RedisSession.
From S2P Require Import RedisCache Socket ChannelMembers Messages Channels Reactions Users Chat LiveKit Validation SocketAuth.
From S2P Require Import SocketGateway ChatGateway Calls CallGateway.
From stdpp Require Import base list strings gmap.

Local Open Scope string_scope.
Local Open Scope list_scope.

Section Events.
Context {R : Redis} {E : Env} {C : Crypto} {J : Jwt} {P : Environment} {V : ClassValidator} {L : LiveKit}.

(** [None] when the guard refused: the client gets no ack. *)
Definition handler : Type := Client → json → M (option json).
Definition guarded_event (h : Client → json → SocketUser → M json) : handler := λ client data, guarded client (h client data).
Definition open_event (h : Client → json → M json) : handler := λ client data, let! ack := h client data in Ret (Some ack).
Definition relay_event (h : Client → json → M ()) : handler := λ client data, do! h client data; Ret None.

Definition socket_gateway_events : list (string * handler) :=
  [("presence:bulk", guarded_event (λ _, handlePresenceBulk));
   ("create-or-join", guarded_event handleCreateOrJoin);
   ("join-channel", guarded_event handleJoinChannel);
   ("leave-channel", guarded_event handleLeaveChannel);
   ("typing:start", guarded_event handleTypingStart);
   ("typing:stop", guarded_event handleTypingStop);
   ("heartbeat", open_event (λ client _, handleHeartbeat client))].

Definition chat_gateway_events : list (string * handler) :=
  [("send-message", guarded_event handleSendMessage);
   ("get-messages", guarded_event (λ _, handleGetMessages));
   ("mark-read", guarded_event (λ _, handleMarkRead));
   ("get-unread", guarded_event (λ _ _, handleGetUnread));
   ("get-pending", guarded_event (λ _ _, handleGetPending));
   ("reaction:add", guarded_event (λ _, handleReactionAdd));
   ("reaction:remove", guarded_event (λ _, handleReactionRemove));
   ("reaction:removed", guarded_event (λ _, handleReactionRemoveLegacy))].

Definition calls_gateway_events : list (string * handler) :=
  [("call:invite", open_event handleInvite);
   ("call:accept", open_event handleAccept);
   ("call:reject", open_event handleReject);
   ("call:offer", relay_event handleOffer);
   ("call:answer", relay_event handleAnswer);
   ("call:ice-candidate", relay_event handleIceCandidate);
   ("call:hangup", open_event handleHangup);
   ("call:initiate", open_event handleInitiate);
   ("call:livekit-fallback", open_event handleLiveKitFallback);
   ("call:livekit-active", open_event handleLiveKitActive);
   ("call:livekit-join-group", open_event handleLiveKitJoinGroup)].

Definition socket_events : list (string * handler) := socket_gateway_events ++ chat_gateway_events ++ calls_gateway_events.

(** A packet of a client: an event no handler subscribes to is ignored. *)
Definition on_event (client : Client) (event : string) (data : json) : M (option json) :=
  match List.find (λ e, e.1 === event) socket_events with
  | Some (_, h) => h client data
  | None => Ret None
  end.
End Events.
