(* ===== verification/Connections.v ===== *)
(** * Connections: what a socket can do before and while it connects

    [says I Pe p Q]: in the states of [I], [p] stays in [I], sends only effects of
    [Pe], and its result satisfies [Q]. *)
From Stdlib Require Import String.
From S2P Require Import Prelude JsString Json Effects Errors Redis Schema World Crypto Config RateLimit RedisSession.
From S2P Require Import RedisCache Socket ChannelMembers Messages Channels Reactions Users Chat LiveKit Validation SocketAuth.
From S2P Require Import SocketGateway ChatGateway Calls CallGateway Events Samples.
From stdpp Require Import base list strings gmap.

Local Open Scope string_scope.
Local Open Scope Z_scope.
Local Open Scope list_scope.

Section Says.
Context {R : Redis} {E : Env} (I : World → Prop) (Pe : effect → Prop).

Definition sent (w w' : World) : Prop := ∃ outs, w_out w' = w_out w ++ outs ∧ Forall Pe outs.
Definition says {A} (p : M A) (Q : A → Prop) : Prop :=
  ∀ w, I w → wp p (λ o w', I w' ∧ sent w w' ∧ ∀ a, o = Ok a → Q a) w.

Lemma sent_refl w w' : w_out w' = w_out w → sent w w'.
Proof. intros H. exists []. by rewrite H, app_nil_r. Qed.
Lemma sent_trans w1 w2 w3 : sent w1 w2 → sent w2 w3 → sent w1 w3.
Proof. intros (o1 & H1 & P1) (o2 & H2 & P2). exists (o1 ++ o2). rewrite H2, H1, app_assoc. split; [done|by apply Forall_app]. Qed.

Lemma says_ret {A} (a : A) (Q : A → Prop) : Q a → says (Ret a) Q.
Proof. intros HQ w Hw. apply wp_ret. split; [done|]. split; [by apply sent_refl|]. by intros ? [= <-]. Qed.
Lemma says_throw {A} e (Q : A → Prop) : says (Throw e) Q.
Proof. intros w Hw. apply wp_throw. split; [done|]. split; [by apply sent_refl|done]. Qed.
Lemma says_bind {A B} (p : M A) (k : A → M B) Q Q' : says p Q → (∀ a, Q a → says (k a) Q') → says (bind p k) Q'.
Proof.
  intros Hp Hk w Hw. apply wp_bind. eapply wp_mono; [by apply Hp|]. intros [a|e] w1 (Hw1 & Hs1 & Ha); [|done].
  eapply wp_mono; [apply (Hk a); auto|]. intros o w2 (Hw2 & Hs2 & Hb). split; [done|]. split; [by eapply sent_trans|done].
Qed.
Lemma says_catch {A} (p : M A) h Q : says p Q → (∀ e, says (h e) Q) → says (catch p h) Q.
Proof.
  intros Hp Hh w Hw. apply wp_catch. eapply wp_mono; [by apply Hp|]. intros [a|e] w1 (Hw1 & Hs1 & Ha).
  - split; [done|]. split; [done|]. intros b [= <-]. auto.
  - eapply wp_mono; [by apply Hh|]. intros o w2 (Hw2 & Hs2 & Hb). split; [done|]. split; [by eapply sent_trans|done].
Qed.
Lemma says_mono {A} (p : M A) (Q Q' : A → Prop) : says p Q → (∀ a, Q a → Q' a) → says p Q'.
Proof. intros Hp HQ w Hw. eapply wp_mono; [by apply Hp|]. naive_solver. Qed.

Lemma says_act {A} (f : nat → World → outcome thrown A * World) Q :
  (∀ w, I w → match f (w_tick w) w with (o, w') => I (tick w') ∧ sent w w' ∧ ∀ a, o = Ok a → Q a end) → says (act f) Q.
Proof.
  intros Hf w Hw. apply wp_act'. specialize (Hf w Hw). destruct (f _ w) as [o w']. destruct Hf as (? & Hs & ?).
  split; [done|]. split; [|done]. destruct Hs as (outs & Ho & HP). by exists outs.
Qed.

(** [I] does not depend on Redis. *)
Definition redis_free : Prop := ∀ w w', same_but_redis w w' → I w → I w'.
Lemma says_silent {A} (p : M A) : redis_free → silent p → says p (λ _, True).
Proof.
  intros HI Hp w Hw. eapply wp_mono; [apply Hp|]. intros o w' Hs. split; [exact (HI w w' Hs Hw)|]. split; [|done].
  apply sent_refl, Hs.
Qed.

(** [I] does not depend on the ticks and the effects. *)
Definition outputs_free : Prop := ∀ w outs, I w → I (tick (w <| w_out := outs |>)).
Lemma says_effect e Q : outputs_free → Pe e → Q tt → says (send_effect e) Q.
Proof.
  intros HI He HQ. apply says_act. intros w Hw. split; [by apply HI|]. split; [by exists [e]; split; [|constructor]|]. by intros [].
Qed.
End Says.

Section Silent.
Context {R : Redis} {E : Env}.
Lemma silent_checkRateLimit k c : silent (checkRateLimit k c).
Proof. silent_handler. Qed.
Lemma silent_addSocket u s : silent (addSocket u s).
Proof. silent_handler. Qed.
Lemma silent_removeSocket u s : silent (removeSocket u s).
Proof. silent_handler. Qed.
Lemma silent_setOnline u : silent (setOnline u).
Proof. silent_handler. Qed.
Lemma silent_getOnlineUsers us : silent (getOnlineUsers us).
Proof. silent_handler. Qed.
End Silent.

(** ** Connecting *)
Section Connecting.
Context {R : Redis} {E : Env} {C : Crypto} {J : Jwt} {P : Environment} {V : ClassValidator} {L : LiveKit}.

(** The token of the handshake is a valid one of an active user. *)
Definition authenticated (client : Client) (user : SocketUser) (exp : option Z) (d : Db) : Prop :=
  ∃ token sub n, extractSocketToken client = Some token ∧ verifyHS256 n token = Ok (sub, exp) ∧ active_user_by_id sub d = Some user.

(** The errors that a connection attempt can hear. *)
Definition connection_errors : list (string * string) :=
  [("RATE_LIMITED", "Too many connections"); ("TOKEN_EXPIRED", "Token expired");
   ("NOT_AUTHENTICATED", "Authentication required"); ("INTERNAL_ERROR", "Connection setup failed")].
(** What the socket itself hears: one of these errors; or, once it authenticated a user,
    who it is, and which of the direct contacts of that user are online. *)
Definition told (client : Client) (d : Db) (event : string) (data : json) : Prop :=
  (event = "error" ∧ ∃ code message, (code, message) ∈ connection_errors ∧
     data = JObj [("code", JStr code); ("message", JStr message)]) ∨
  ∃ user exp, authenticated client user exp d ∧
    (event = "connected" ∧
       data = JObj [("userId", JStr (su_id user)); ("username", JStr (su_username user)); ("socketId", JStr (ws_id client))] ∨
     event = "presence:bulk" ∧ ∃ online, online ⊆ dm_peers (su_id user) d ∧ data = JObj [("online", JArr (map JStr online))]).

(** What a connection attempt may send: these events and a close to the socket itself,
    the rooms of the user it authenticated, and news of that user to its contacts. *)
Definition connection_effect (client : Client) (d : Db) (e : effect) : Prop :=
  match e with
  | SocketEmit s event data => s = ws_id client ∧ told client d event data
  | SocketDisconnect s => s = ws_id client
  | SocketJoin s rooms =>
      s = ws_id client ∧ ∃ user exp, authenticated client user exp d ∧
        rooms = userRoom (su_id user) :: map channelRoom (user_channel_ids (su_id user) d)
  | Emit rooms except event data =>
      event = "user:joined" ∧ except = [] ∧ ∃ user exp online, authenticated client user exp d ∧
        online ⊆ dm_peers (su_id user) d ∧ rooms = map userRoom online ∧
        data = JObj [("userId", JStr (su_id user)); ("username", JStr (su_username user))]
  | _ => False
  end.

Context (client : Client) (d : Db).
Let same_db (w : World) : Prop := w_db w = d.
Notation says' := (says same_db (connection_effect client d)).

Lemma free_db : redis_free same_db.
Proof. intros w w' (Hd & _) Hw. unfold same_db in *. congruence. Qed.
Lemma free_out : outputs_free same_db.
Proof. intros w outs Hw. exact Hw. Qed.
Lemma says_tell event data : told client d event data → says' (send_effect (SocketEmit (ws_id client) event data)) (λ _, True).
Proof. intros Ht. apply says_effect; [apply free_out|done..]. Qed.
Lemma says_close : says' (send_effect (SocketDisconnect (ws_id client))) (λ _, True).
Proof. apply says_effect; [apply free_out|done..]. Qed.
Lemma says_gateway {A} (f : Gateway → A * Gateway) : says' (gateway f) (λ _, True).
Proof. apply says_act. intros w Hw. split; [done|]. split; [by apply sent_refl|done]. Qed.
Lemma says_connected s : says' (is_connected s) (λ _, True).
Proof. apply says_act. intros w Hw. split; [done|]. split; [by apply sent_refl|done]. Qed.
Lemma says_query {A} (q : Db → A) : says' (query q) (λ a, a = q d).
Proof.
  apply says_act. intros w Hw. destruct (db_fault _); (split; [exact Hw|]); (split; [by apply sent_refl|]); intros a Ha; [done|].
  injection Ha as <-. by rewrite Hw.
Qed.
Lemma says_quietly {A} (p : M A) : silent p → says' p (λ _, True).
Proof. apply says_silent, free_db. Qed.

(** The online users are among those asked about. *)
Lemma online_among (userIds : list string) values :
  unique (map fst (List.filter (λ p, is_online_value p.2) (combine userIds values))) ⊆ userIds.
Proof.
  intros x Hx. rewrite elem_of_unique in Hx. apply list_elem_of_fmap in Hx as ([y v] & -> & Hy).
  apply list_elem_of_In, List.filter_In in Hy as [Hy _]. apply in_combine_l in Hy. by apply list_elem_of_In.
Qed.
Lemma says_getOnlineUsers userIds : says' (getOnlineUsers userIds) (λ online, online ⊆ userIds).
Proof.
  unfold getOnlineUsers. eapply says_bind; [apply says_quietly, silent_getClient|]. intros c _.
  case_match; [apply says_ret, list_subseteq_nil|].
  apply says_catch; [|intros e; apply says_ret, list_subseteq_nil].
  eapply says_bind; [apply says_quietly, silent_on_redis|]. intros values _. apply says_ret, online_among.
Qed.

Lemma says_rejectConnection code message :
  (code, message) ∈ connection_errors → says' (rejectConnection client code message) (λ _, True).
Proof.
  intros Hin. eapply says_bind; [apply says_tell|intros _ _; apply says_close].
  left. split; [done|]. by exists code, message.
Qed.

Lemma says_authenticate :
  says' (authenticate client) (λ who, ∀ user exp, who = Some (Some user, exp) → authenticated client user exp d).
Proof.
  unfold authenticate. destruct (truthy (extractSocketToken client)) as [token|] eqn:Ht; [|by apply says_ret].
  assert (extractSocketToken client = Some token) as Htok.
  { destruct (extractSocketToken client); simpl in Ht; [|done]. by case_match; simplify_eq. }
  apply says_catch; [|intros e; case_match; by apply says_ret].
  apply (says_bind _ _ _ _ (λ r, ∃ n, verifyHS256 n token = Ok r)).
  - apply says_act. intros w Hw. split; [done|]. split; [by apply sent_refl|]. intros a Ha. by exists (w_tick w).
  - intros [sub exp] [n Hn]. eapply says_bind; [apply says_query|]. intros user ->. apply says_ret.
    intros u x [= Hu <-]. by exists token, sub, n.
Qed.

Lemma says_setup_socket user exp : authenticated client user exp d → says' (setup_socket client user) (λ _, True).
Proof.
  intros Ha. apply says_catch; [|intros e; by apply says_ret].
  eapply says_bind; [apply says_query|]. intros ids ->. eapply (says_bind _ _ _ _ (λ _, True)).
  - apply says_act. intros w Hw. destruct (join_fault _); (split; [exact Hw|]); (split; [|done]); [by apply sent_refl|].
    eexists; split; [reflexivity|]. apply Forall_singleton. split; [done|]. by exists user, exp.
  - intros _ _. eapply says_bind; [apply says_connected|]. intros b _. destruct (negb b); [by apply says_ret|].
    eapply says_bind; [apply says_quietly, silent_addSocket|]. intros n _.
    eapply says_bind; [apply says_quietly, silent_setOnline|]. intros _ _. by apply says_ret.
Qed.

Lemma says_pushPresence user exp b : authenticated client user exp d → says' (pushPresence client user b) (λ _, True).
Proof.
  intros Ha. unfold pushPresence, getUserDMPeers. eapply says_bind; [apply says_query|]. intros peers ->.
  case_match; [by apply says_ret|]. eapply says_bind; [apply says_getOnlineUsers|]. intros online Honline.
  eapply says_bind; [apply says_tell; right; exists user, exp; split; [done|]; right; split; [done|]; by exists online|]. intros _ _.
  destruct b; [|by apply says_ret]. unfold emitToUsers.
  eapply (says_bind _ _ _ _ (λ _, True)).
  { apply says_act. intros w Hw. split; [done|]. split; [by apply sent_refl|done]. }
  intros ready _. case_match; [by apply says_ret|]. apply says_effect; [apply free_out| |done].
  split; [done|]. split; [done|]. by exists user, exp, online.
Qed.

Lemma says_welcome user exp n : authenticated client user exp d → says' (welcome client user n) (λ _, True).
Proof.
  intros Ha. unfold welcome, startHeartbeat, stopHeartbeat. eapply says_bind; [apply says_connected|]. intros b _. destruct (negb b).
  - eapply says_bind; [apply says_quietly, silent_removeSocket|]. intros _ _. by apply says_ret.
  - eapply (says_bind _ _ _ _ (λ _, True)); [eapply says_bind; [apply says_gateway|intros _ _; apply says_gateway]|].
    intros _ _. eapply says_bind; [apply says_tell; right; exists user, exp; split; [done|by left]|]. intros _ _.
    apply says_catch; [by eapply says_pushPresence|]. intros e. by apply says_ret.
Qed.

Lemma says_handleConnection : says' (handleConnection client) (λ _, True).
Proof.
  unfold handleConnection, set_data. eapply says_bind; [apply says_quietly, silent_checkRateLimit|]. intros rl _.
  assert (Herr : ∀ code message, bool_decide ((code, message) ∈ connection_errors) →
            says' (rejectConnection client code message) (λ _, True)).
  { intros code message Hin. by apply says_rejectConnection, (bool_decide_unpack _). }
  destruct (negb (allowed rl)); [by apply Herr|].
  eapply says_bind; [apply says_authenticate|]. intros [[[user|] exp]|] Hwho; [|by apply Herr..].
  specialize (Hwho user exp eq_refl). eapply says_bind; [apply says_gateway|]. intros _ _.
  eapply says_bind; [by eapply says_setup_socket|]. intros [[n|]|] _; [|by apply says_ret|by apply Herr].
  by eapply says_welcome.
Qed.
End Connecting.

(** ** Events of a socket without a user *)
Section Unauthenticated.
Context {R : Redis} {E : Env} {C : Crypto} {J : Jwt} {P : Environment} {V : ClassValidator} {L : LiveKit}.
Context (client : Client) (w0 : World).

(** No user on the socket, and no token of an active user in its handshake. *)
Definition stranger : Prop :=
  sd_user (default (mkSocketData None None) (g_data (w_gateway w0) !! ws_id client)) = None ∧
  ∀ token n sub exp, extractSocketToken client = Some token → verifyHS256 n token = Ok (sub, exp) →
    active_user_by_id sub (w_db w0) = None.
Hypothesis Hstranger : stranger.

(** Everything but the clock and the effects stays. *)
Definition untouched (w : World) : Prop :=
  w_db w = w_db w0 ∧ w_redis w = w_redis w0 ∧ w_gateway w = w_gateway w0 ∧ w_server w = w_server w0.
Definition refusal (e : effect) : Prop :=
  match e with SocketEmit s event _ => s = ws_id client ∧ event = "error" | SocketDisconnect s => s = ws_id client | _ => False end.
Notation says' := (says untouched refusal).

Lemma says_socket_data : says' (socket_data (ws_id client)) (λ data, sd_user data = None).
Proof.
  apply says_act. intros w Hw. split; [exact Hw|]. split; [by apply sent_refl|]. intros a [= <-].
  destruct Hw as (_ & _ & -> & _). apply Hstranger.
Qed.

Lemma says_reject code message : says' (reject client code message) (λ ok, ok = false).
Proof.
  assert (outputs_free untouched) by (intros w outs Hw; exact Hw).
  eapply (says_bind _ _ _ _ (λ _, True)); [by apply says_effect; [|split|]|]. intros _ _.
  eapply (says_bind _ _ _ _ (λ _, True)); [by apply says_effect|]. intros _ _. by apply says_ret.
Qed.

Lemma says_ws_canActivate : says' (ws_canActivate client) (λ ok, ok = false).
Proof.
  unfold ws_canActivate. eapply says_bind; [apply says_socket_data|]. intros data ->.
  destruct (extractSocketToken client) as [token|] eqn:Ht; [|apply says_reject].
  apply says_catch; [|intros e; apply says_reject].
  apply (says_bind _ _ _ _ (λ r, ∃ n, verifyHS256 n token = Ok r)).
  - apply says_act. intros w Hw. split; [exact Hw|]. split; [by apply sent_refl|]. intros a Ha. by exists (w_tick w).
  - intros [sub exp] [n Hn]. apply (says_bind _ _ _ _ (λ user, user = None)); [|intros user ->; apply says_reject].
    apply says_act. intros w Hw. destruct (db_fault _); (split; [exact Hw|]); (split; [by apply sent_refl|]); intros a Ha; [done|].
    injection Ha as <-. destruct Hw as (-> & _). by apply (proj2 Hstranger token n sub exp).
Qed.

Lemma says_guarded h : says' (guarded client h) (λ ack, ack = None).
Proof. unfold guarded. eapply says_bind; [apply says_ws_canActivate|]. intros ok ->. by apply says_ret. Qed.

Lemma says_user : says' (CallGateway.user client) (λ u, u = None).
Proof. unfold CallGateway.user. eapply says_bind; [apply says_socket_data|]. intros data ->. by apply says_ret. Qed.

(** No ack, or one that says that the request failed. *)
Definition failed (ack : option json) : Prop := ∀ j, ack = Some j → get_field j "success" = Some (JBool false).

Lemma says_open (h : Client → json → M json) data :
  says' (h client data) (λ ack, failed (Some ack)) → says' (open_event h client data) failed.
Proof. intros Hh. eapply says_bind; [exact Hh|]. intros ack Hack. by apply says_ret. Qed.

Lemma says_with_user k : says' (with_user client k) (λ ack, failed (Some ack)).
Proof.
  apply says_catch; [|intros e; apply says_ret; by intros j [= <-]].
  eapply says_bind; [apply says_user|]. intros u ->. apply says_ret. by intros j [= <-].
Qed.

Lemma says_relay data ev payload : says' (relay client data ev payload) (λ _, True).
Proof.
  unfold relay, relayTarget. apply (says_bind _ _ _ _ (λ ctx, ctx = None)); [|intros ctx ->; by apply says_ret].
  apply says_catch; [|intros e; by apply says_ret]. eapply says_bind; [apply says_user|]. intros u ->. by apply says_ret.
Qed.

Lemma says_handleHeartbeat : says' (handleHeartbeat client) (λ ack, failed (Some ack)).
Proof. unfold handleHeartbeat. eapply says_bind; [apply says_socket_data|]. intros data ->. apply says_ret. by intros j [= <-]. Qed.

Lemma says_events data : Forall (λ e, says' (e.2 client data) failed) socket_events.
Proof.
  assert (Hguard : ∀ h, says' (guarded_event h client data) failed).
  { intros h. eapply says_mono; [apply says_guarded|]. by intros ack ->. }
  assert (Hrelay : ∀ h, says' (h client data) (λ _, True) → says' (relay_event h client data) failed).
  { intros h Hh. eapply says_bind; [exact Hh|]. intros _ _. by apply says_ret. }
  unfold socket_events, socket_gateway_events, chat_gateway_events, calls_gateway_events. cbn [app].
  repeat (apply Forall_cons; split); [..|apply Forall_nil_2]; cbn [snd];
    try apply Hguard; try (apply says_open, says_with_user); [apply says_open, says_handleHeartbeat|..];
    apply Hrelay; unfold handleOffer, handleAnswer, handleIceCandidate; (case_match; [apply says_relay|by apply says_ret]).
Qed.

Lemma says_on_event event data : says' (on_event client event data) failed.
Proof.
  unfold on_event. destruct (List.find _ _) as [[n h]|] eqn:Hf; [|by apply says_ret]. apply List.find_some in Hf as [Hin _].
  pose proof (says_events data) as Hall. rewrite Forall_forall in Hall. by apply (Hall (n, h)), list_elem_of_In.
Qed.
End Unauthenticated.

Section Properties.
Context {R : Redis} {E : Env} {C : Crypto} {J : Jwt} {P : Environment} {V : ClassValidator} {L : LiveKit}.

(** C20: only users come in: whatever the handshake, the clock, Redis and the
    database answer, a connection changes no table; the socket joins rooms only
    when its token is a valid one of an active user, and then exactly the room of
    that user and those of the channels the user belongs to; and everything else it
    causes is an event to itself, its own close, or the news to others that this
    user came online. *)
Theorem connection_only_for_users (client : Client) (w : World) :
  wp (handleConnection client) (λ o w', w_db w' = w_db w ∧
    ∃ outs, w_out w' = w_out w ++ outs ∧ Forall (connection_effect client (w_db w)) outs) w.
Proof. eapply wp_mono; [by apply (says_handleConnection client (w_db w))|]. intros o w' (? & ? & _). auto. Qed.

(** C19: a stranger can do nothing: while its socket has no user and its handshake
    no valid token of an active user, no event a client can send, whatever its name
    and its payload, changes a table, a Redis key or the memory of the gateways,
    or reaches anyone: the socket gets error events, its own close and acks that
    say the request failed. *)
Theorem stranger_can_do_nothing (client : Client) (event : string) (data : json) (w : World) (Hstranger : stranger client w) :
  wp (on_event client event data) (λ o w', untouched w w' ∧
    (∃ outs, w_out w' = w_out w ++ outs ∧ Forall (refusal client) outs) ∧ ∀ ack, o = Ok ack → failed ack) w.
Proof. by apply (says_on_event client w Hstranger event data). Qed.
End Properties.

(** ** On a concrete server: a socket with a forged token *)
#[local] Existing Instance sample_env.
#[local] Existing Instance toy_jwt.
#[local] Existing Instance sample_environment.
#[local] Existing Instance toy_crypto.
#[local] Existing Instance toy_validator.
#[local] Existing Instance toy_livekit.
Definition forger : Client := mkClient "s1" "203.0.113.9" (Some "forged") None HNone.

(** The honest client with a good token joins the rooms of Alice. *)
Example honest_connection :
  let client := mkClient "s2" "203.0.113.9" (Some "good") None HNone in
  List.filter (λ e, match e with SocketJoin _ _ => true | _ => false end) (w_out (run (handleConnection client) sample_world).2)
  = [SocketJoin "s2" ["user:alice"; "channel:g"; "channel:d"]].
Proof. vm_compute. reflexivity. Qed.

Lemma stranger_can_do_nothing_witness :
  stranger forger sample_world ∧
  wp (on_event forger "mark-read" (JObj [("channelId", JStr "g")])) (λ o w', untouched sample_world w' ∧
    (∃ outs, w_out w' = w_out sample_world ++ outs ∧ Forall (refusal forger) outs) ∧ ∀ ack, o = Ok ack → failed ack) sample_world.
Proof.
  assert (Hs : stranger forger sample_world).
  { split; [vm_compute; reflexivity|]. intros token n sub exp [= <-] H. vm_compute in H. discriminate. }
  split; [exact Hs|]. exact (stranger_can_do_nothing forger "mark-read" _ sample_world Hs).
Defined.
