(* ===== verification/Footprint.v ===== *)
(** * Footprint: operations that never move the tables

    [dsafe S] holds of the Redis, Socket.IO and query operations for every relation
    [S] on the tables.  The facts are hints: [safe_steps] uses them when it walks
    through a handler. *)
From Stdlib Require Import String.
From S2P Require Import Prelude JsString Json Effects Errors Redis Schema World Crypto RedisSession RedisCache Socket.
From S2P Require Import ChannelMembers Messages Users Srp Config RateLimit Chat LiveKit Validation SocketAuth SocketGateway.
From S2P Require Import ChatGateway.
From S2P Require Import Calls CallGateway Dto Http Uploads Controllers Routes.
From stdpp Require Import base list strings.

Section Footprint.
Context {R : Redis} {E : Env} {C : Crypto} {A : Authority} (S : Steps).

Lemma quiet_cacheMessage c m : dsafe S (cacheMessage c m).
Proof. safe_handler. Qed.
Lemma quiet_getRecentMessages c l : dsafe S (getRecentMessages c l).
Proof. safe_handler. Qed.
Lemma quiet_invalidateMessages c : dsafe S (invalidateMessages c).
Proof. safe_handler. Qed.
Lemma quiet_incrementUnreadMany us c : dsafe S (incrementUnreadMany us c).
Proof. safe_handler. Qed.
Lemma quiet_getUnreadCounts u cs : dsafe S (getUnreadCounts u cs).
Proof. safe_handler. Qed.
Lemma quiet_resetUnread u c : dsafe S (resetUnread u c).
Proof. safe_handler. Qed.
Lemma quiet_getTypingUsers c : dsafe S (getTypingUsers c).
Proof. safe_handler. Qed.
Lemma quiet_addPendingMessage us m : dsafe S (addPendingMessage us m).
Proof. safe_handler. Qed.
Lemma quiet_popPendingMessages u l : dsafe S (popPendingMessages u l).
Proof. safe_handler. unfold popEntries. safe_steps. Qed.
Lemma quiet_setOnline u : dsafe S (setOnline u).
Proof. safe_handler. Qed.
Lemma quiet_setOffline u : dsafe S (setOffline u).
Proof. safe_handler. Qed.
Lemma quiet_setMembers c us : dsafe S (setMembers c us).
Proof. safe_handler. Qed.
Lemma quiet_invalidate c : dsafe S (invalidate c).
Proof. safe_handler. Qed.
Lemma quiet_emitToChannel c ev d o : dsafe S (emitToChannel c ev d o).
Proof. safe_handler. Qed.
Lemma quiet_emitToUsers us ev d : dsafe S (emitToUsers us ev d).
Proof. safe_handler. Qed.
Lemma quiet_emitToChannelAndUsers c us ev d : dsafe S (emitToChannelAndUsers c us ev d).
Proof. safe_handler. Qed.
Lemma quiet_joinUsersToChannel us c : dsafe S (joinUsersToChannel us c).
Proof. safe_handler. Qed.
Lemma quiet_removeUserFromChannel u c : dsafe S (removeUserFromChannel u c).
Proof. safe_handler. Qed.
Lemma quiet_getConnectedUserIds c : dsafe S (getConnectedUserIds c).
Proof. safe_handler. Qed.
Lemma quiet_consume n : dsafe S (consume n).
Proof. safe_handler. unfold srp_client. safe_steps. Qed.
Lemma quiet_srp_set n s : dsafe S (srp_set n s).
Proof. safe_handler. unfold srp_client. safe_steps. Qed.
Lemma quiet_randomBytes n : dsafe S (randomBytes n).
Proof. by apply dsafe_frame. Qed.
End Footprint.

#[export] Hint Resolve quiet_cacheMessage quiet_getRecentMessages quiet_invalidateMessages quiet_incrementUnreadMany
  quiet_getUnreadCounts quiet_resetUnread quiet_getTypingUsers quiet_addPendingMessage quiet_popPendingMessages
  quiet_setOnline quiet_setOffline quiet_setMembers quiet_invalidate quiet_emitToChannel quiet_emitToUsers
  quiet_emitToChannelAndUsers quiet_joinUsersToChannel quiet_removeUserFromChannel quiet_getConnectedUserIds
  quiet_consume quiet_srp_set quiet_randomBytes : safe.

Section MessageFootprint.
Context {R : Redis} {E : Env} {C : Crypto} {A : Authority} (S : Steps).

Lemma quiet_getMembers c : dsafe S (getMembers c).
Proof. safe_handler. Qed.
#[local] Hint Resolve quiet_getMembers : safe.
Lemma quiet_runMessageDelivery j : dsafe S (runMessageDelivery j).
Proof. safe_handler. Qed.
#[local] Hint Resolve quiet_runMessageDelivery : safe.
Lemma quiet_dispatchNewMessage p x : dsafe S (dispatchNewMessage p x).
Proof. safe_handler. Qed.
Lemma quiet_attachReactions l : dsafe S (attachReactions l).
Proof. safe_handler. Qed.
#[local] Hint Resolve quiet_attachReactions : safe.
Lemma quiet_getCachedPage c l : dsafe S (getCachedPage c l).
Proof. safe_handler. Qed.
#[local] Hint Resolve quiet_getCachedPage : safe.
Lemma quiet_getMessages c u l cur m : dsafe S (getMessages c u l cur m).
Proof. safe_handler; unfold databasePage; safe_steps. Qed.
End MessageFootprint.

#[export] Hint Resolve quiet_getMembers quiet_runMessageDelivery quiet_dispatchNewMessage quiet_attachReactions
  quiet_getCachedPage quiet_getMessages : safe.

#[export] Hint Extern 1 (∀ g, map_Forall _ (g_data g) → map_Forall _ (g_data _)) =>
  intros g; unfold forget_timer, cancel_timer, start_timer; simpl; repeat case_match; done : safe.
#[export] Hint Extern 1 (user_acts (mkSocketData (Some _) _)) => intros ? [= <-]; simpl : safe.

Section GatewayFootprint.
Context {R : Redis} {E : Env} {C : Crypto} {J : Jwt} {P : Environment} {V : ClassValidator} {L : LiveKit} {A : Authority} (S : Steps).

Lemma quiet_checkRateLimit k c : dsafe S (checkRateLimit k c).
Proof. safe_handler. Qed.
Lemma quiet_emitToUser u ev d : dsafe S (emitToUser u ev d).
Proof. safe_handler. Qed.
Lemma quiet_isOnline u : dsafe S (isOnline u).
Proof. safe_handler. Qed.
Lemma quiet_getOnlineUsers us : dsafe S (getOnlineUsers us).
Proof. safe_handler. Qed.
Lemma quiet_addSocket u s : dsafe S (addSocket u s).
Proof. safe_handler. Qed.
Lemma quiet_refreshSocket u s : dsafe S (refreshSocket u s).
Proof. safe_handler. Qed.
Lemma quiet_removeSocket u s : dsafe S (removeSocket u s).
Proof. safe_handler. Qed.
Lemma quiet_setTyping c u : dsafe S (setTyping c u).
Proof. safe_handler. Qed.
Lemma quiet_clearTyping c u : dsafe S (clearTyping c u).
Proof. safe_handler. Qed.
Lemma quiet_set_data s d : user_acts d → dsafe S (set_data s d).
Proof. intros Hd. apply dsafe_gateway. intros g Hg. by apply map_Forall_insert_2. Qed.
Lemma quiet_reject c code m : dsafe S (reject c code m).
Proof. safe_handler. Qed.
Lemma quiet_rejectConnection c code m : dsafe S (rejectConnection c code m).
Proof. safe_handler. Qed.
Lemma quiet_verify t : dsafe S (verify_socket_token t).
Proof. by apply dsafe_frame. Qed.
Lemma dpost_verify t : dpost S (verify_socket_token t) (λ r, ∃ n, verifyHS256 n t = Ok r).
Proof. apply dpost_frame; [done|]. intros n w r _ H. by exists n. Qed.
Lemma active_user_id sub d u : active_user_by_id sub d = Some u → su_id u = sub.
Proof. intros (r & (_ & Hr)%first_Some & ->)%fmap_Some. boolp. done. Qed.
Lemma quiet_generateToken r u n : dsafe S (generateToken r u n).
Proof. safe_handler. by apply dsafe_frame. Qed.
Lemma quiet_room_request e : dsafe S (room_request e).
Proof. apply dsafe_frame. intros. by case_match. Qed.
Lemma quiet_authorizeRoomAccess r u : dsafe S (authorizeRoomAccess r u).
Proof. safe_handler. Qed.
Lemma quiet_validatePayload {T} cls (dto : json → option T) d : dsafe S (validatePayload cls dto d).
Proof. safe_handler. Qed.
Lemma SendMessageDto_user u v i : SendMessageDto u v = Some i → si_userId i = u.
Proof. unfold SendMessageDto. intros H. repeat (apply bind_Some in H as (? & _ & H)). by injection H as <-. Qed.
Lemma dpost_payload cls u data : dpost S (validatePayload cls (SendMessageDto u) data) (λ i, si_userId i = u).
Proof.
  unfold validatePayload. destruct data; try apply dpost_throw.
  destruct (SendMessageDto _ _) as [i|] eqn:Hi; [|apply dpost_throw]. by eapply dpost_ret, SendMessageDto_user.
Qed.
Lemma quiet_isMember c u : dsafe S (isMember c u).
Proof. safe_handler. Qed.
Lemma quiet_getActiveCall u : dsafe S (getActiveCall u).
Proof. safe_handler. Qed.
Lemma quiet_createCall u v l : dsafe S (createCall u v l).
Proof. safe_handler. Qed.
Lemma quiet_acceptCall c : dsafe S (acceptCall c).
Proof. safe_handler. Qed.
Lemma quiet_cleanupCall c : dsafe S (cleanupCall c).
Proof. safe_handler. Qed.
Lemma quiet_getUsernames us : dsafe S (getUsernames us).
Proof. safe_handler. Qed.
Lemma quiet_user c : dsafe S (user c).
Proof. safe_handler. Qed.
Lemma quiet_stopHeartbeat s : dsafe S (stopHeartbeat s).
Proof. safe_handler. Qed.
End GatewayFootprint.

#[export] Hint Resolve quiet_checkRateLimit quiet_emitToUser quiet_isOnline quiet_getOnlineUsers quiet_addSocket
  quiet_refreshSocket quiet_removeSocket quiet_setTyping quiet_clearTyping quiet_set_data quiet_reject quiet_rejectConnection
  quiet_verify quiet_generateToken quiet_room_request quiet_authorizeRoomAccess quiet_validatePayload quiet_isMember
  quiet_getActiveCall quiet_createCall quiet_acceptCall quiet_cleanupCall quiet_getUsernames quiet_user quiet_stopHeartbeat : safe.

(** The token of a handshake is not one of somebody else. *)
Definition token_acts `{J : Jwt} {A : Authority} (client : Client) : Prop :=
  ∀ token n sub exp, extractSocketToken client = Some token → verifyHS256 n token = Ok (sub, exp) → acts sub.

(** Operations built from those. *)
Section GatewayHandlers.
Context {R : Redis} {E : Env} {C : Crypto} {J : Jwt} {P : Environment} {V : ClassValidator} {L : LiveKit} {A : Authority} (S : Steps).

Lemma quiet_ws_canActivate c : token_acts c → dsafe S (ws_canActivate c).
Proof.
  intros Hc. unfold ws_canActivate. apply dsafe_bind; [apply dsafe_socket_data|]. intros data. destruct (sd_user data); [safe_steps|].
  destruct (extractSocketToken c) as [token|] eqn:Ht; [|safe_steps]. apply dsafe_catch; [|intros e; safe_steps].
  eapply dsafe_bind_post; [apply dpost_verify|]. intros [sub exp] [n Hn].
  apply (dsafe_bind_post _ _ (λ u, ∀ x, u = Some x → su_id x = sub)); [apply dpost_query; intros d u; apply active_user_id|].
  intros [u|] Hu; [|safe_steps]. apply dsafe_bind; [|intros _; safe_steps]. apply quiet_set_data. intros ? [= <-].
  rewrite (Hu u eq_refl). by eapply Hc.
Qed.
Lemma quiet_requireMember c u : dsafe S (requireMember c u).
Proof. safe_handler. Qed.
Lemma quiet_typing_limit u : dsafe S (typing_limit u).
Proof. safe_handler. Qed.
Lemma quiet_limit k c m : dsafe S (limit k c m).
Proof. safe_handler. Qed.
Lemma quiet_emitTyping ev u c : dsafe S (emitTyping ev u c).
Proof. safe_handler. Qed.
#[local] Hint Resolve quiet_emitTyping : safe.
Lemma quiet_stopTyping u c : dsafe S (stopTyping u c).
Proof. safe_handler. Qed.
Lemma quiet_beat c : dsafe S (beat c).
Proof. safe_handler. Qed.
Lemma quiet_pushPresence c u b : dsafe S (pushPresence c u b).
Proof. safe_handler; unfold getUserDMPeers; safe_steps. Qed.
Lemma quiet_createRoom r n : dsafe S (createRoom r n).
Proof. safe_handler. Qed.
Lemma quiet_getParticipants r : dsafe S (getParticipants r).
Proof. safe_handler. by apply dsafe_frame. Qed.
Lemma quiet_call_allowed u s l : dsafe S (call_allowed u s l).
Proof. safe_handler. Qed.
Lemma quiet_cleanupUserCall u : dsafe S (cleanupUserCall u).
Proof. safe_handler. Qed.
Lemma quiet_relayTarget c i : dsafe S (relayTarget c i).
Proof. safe_handler. unfold call_allowed. safe_steps. Qed.
Lemma quiet_with_ack p : dsafe S p → dsafe S (with_ack p).
Proof. intros. by apply dsafe_catch. Qed.
Lemma quiet_relay c d ev p : dsafe S (relay c d ev p).
Proof. pose proof quiet_relayTarget. safe_handler. Qed.
Lemma quiet_invite_member u r n t : dsafe S (invite_member u r n t).
Proof. safe_handler. Qed.
Lemma quiet_invite_callee u r t : dsafe S (invite_callee u r t).
Proof. safe_handler. Qed.
End GatewayHandlers.

#[export] Hint Resolve quiet_ws_canActivate quiet_requireMember quiet_typing_limit quiet_limit quiet_emitTyping quiet_stopTyping
  quiet_beat quiet_pushPresence quiet_createRoom quiet_getParticipants quiet_call_allowed quiet_cleanupUserCall quiet_relayTarget
  quiet_relay quiet_invite_member quiet_invite_callee : safe.

Section GatewayEvents.
Context {R : Redis} {E : Env} {C : Crypto} {J : Jwt} {P : Environment} {V : ClassValidator} {L : LiveKit} {A : Authority} (S : Steps).

Lemma dpost_authenticate c : token_acts c →
  dpost S (authenticate c) (λ who, ∀ u exp, who = Some (Some u, exp) → acts (su_id u)).
Proof.
  intros Hc. unfold authenticate. destruct (truthy (extractSocketToken c)) as [token|] eqn:Ht; [|by apply dpost_ret].
  assert (Htok : extractSocketToken c = Some token) by (destruct (extractSocketToken c); simpl in Ht; [by case_match; simplify_eq|done]).
  apply dpost_catch; [|intros e; case_match; by apply dpost_ret]. eapply dpost_bind; [apply dpost_verify|]. intros [sub exp] [n Hn].
  apply (dpost_bind _ _ _ (λ u, ∀ x, u = Some x → su_id x = sub)); [apply dpost_query; intros d u; apply active_user_id|].
  intros u Hu. apply dpost_ret. intros x ? [= -> <-]. rewrite (Hu x eq_refl). by eapply Hc.
Qed.
Lemma quiet_handleConnection c : token_acts c → dsafe S (handleConnection c).
Proof.
  intros Hc. unfold handleConnection. apply dsafe_bind; [safe_steps|]. intros rl. destruct (negb (allowed rl)); [safe_steps|].
  eapply dsafe_bind_post; [by apply dpost_authenticate|]. intros [[[user|] exp]|] Hwho; [|safe_steps..].
  apply dsafe_bind; [apply quiet_set_data; intros ? [= <-]; by eapply Hwho|intros _].
  unfold setup_socket, welcome, startHeartbeat. safe_steps.
Qed.
Lemma quiet_handleDisconnect c : dsafe S (handleDisconnect c).
Proof. safe_handler; unfold clearTypingFor, getUserDMPeers; safe_steps. Qed.
Lemma quiet_heartbeat_tick c : dsafe S (heartbeat_tick c).
Proof. safe_handler. Qed.
Lemma quiet_typing_timeout t : dsafe S (typing_timeout t).
Proof. safe_handler. Qed.
Lemma quiet_onModuleDestroy : dsafe S SocketGateway_onModuleDestroy.
Proof. safe_handler. Qed.
Lemma quiet_getToken u n r : dsafe S (getToken u n r).
Proof. safe_handler. Qed.
End GatewayEvents.

(** ** Requests: middleware, guards, pipes, uploads and the filter *)
Section HttpFootprint.
Context {R : Redis} {E : Env} {C : Crypto} {J : Jwt} {P : Environment} {V : ClassValidator} {L : LiveKit} {F : Framework} {K : Cloudinary}.
Context {A : Authority} (S : Steps).

Lemma quiet_RequestIdMiddleware req : dsafe S (RequestIdMiddleware req).
Proof. safe_handler. Qed.
Lemma quiet_AllExceptionsFilter req i e : dsafe S (AllExceptionsFilter req i e).
Proof. safe_handler. Qed.
Lemma quiet_validate {T} (cls : PayloadClass T) v : dsafe S (validate cls v).
Proof. safe_handler. Qed.
Lemma dpost_body u v : dpost S (validate (SendMessageBody u) v) (λ i, si_userId i = u).
Proof.
  unfold validate. destruct (accepts _ _) as [i|] eqn:Hi; [|apply dpost_throw]. apply dpost_ret.
  unfold accepts in Hi. case_match; [|done]. exact (SendMessageDto_user _ _ _ Hi).
Qed.
Lemma quiet_uuid_param k c : dsafe S (uuid_param k c).
Proof. safe_handler; unfold ParseUUIDPipe; safe_steps. Qed.
Lemma quiet_uuid_query k c : dsafe S (uuid_query k c).
Proof. safe_handler; unfold ParseUUIDPipe; safe_steps. Qed.
Lemma quiet_jwt_validate p : dsafe S (jwt_validate p).
Proof. safe_handler. Qed.
#[local] Hint Resolve quiet_jwt_validate : safe.
Lemma quiet_JwtAuthGuard req : dsafe S (JwtAuthGuard req).
Proof. safe_handler. by apply dsafe_frame. Qed.
(** The token of a request is not one of somebody else. *)
Definition request_acts (req : HttpRequest) : Prop :=
  ∀ n payload sub, jwt_payload n (hr_authorization req) = Some payload → subject payload = Some sub → acts sub.
Lemma dpost_JwtAuthGuard req : request_acts req → dpost S (JwtAuthGuard req) (λ u, acts (au_id u)).
Proof.
  intros Hreq. unfold JwtAuthGuard. apply (dpost_bind _ _ _ (λ payload, ∃ n, jwt_payload n (hr_authorization req) = payload)).
  { apply dpost_frame; [done|]. intros n w payload _ [= <-]. by exists n. }
  intros [payload|] [n Hn]; [|apply dpost_throw]. unfold jwt_validate.
  apply (dpost_bind _ _ _ (λ user, ∀ u, user = Some u → acts (au_id u))); [|intros [u|] Hu; [by apply dpost_ret, Hu|apply dpost_throw]].
  destruct (subject payload) as [sub|] eqn:Hsub; [|by apply dpost_ret].
  apply dpost_query. intros d u (r & Hr & ->)%fmap_Some. apply bind_Some in Hr as (x & Hx & Hr). case_match; simplify_eq.
  apply first_Some in Hx as [_ Hx]. boolp. simpl. subst. by eapply Hreq.
Qed.
Lemma quiet_increment k ms : dsafe S (increment k ms).
Proof. safe_handler. Qed.
#[local] Hint Resolve quiet_increment : safe.
Lemma quiet_hit s k l ms : dsafe S (hit s k l ms).
Proof. safe_handler. Qed.
#[local] Hint Resolve quiet_hit : safe.
Lemma quiet_route_limit o req u : dsafe S (route_limit o req u).
Proof. safe_handler; unfold canActivate; safe_steps. Qed.
Lemma quiet_throttler skip req : dsafe S (throttler_canActivate skip req).
Proof. safe_handler; unfold getTracker, throttler_increment; safe_steps; by apply dsafe_frame. Qed.
Lemma quiet_upload f d t : dsafe S (upload f d t).
Proof. safe_handler. by apply dsafe_frame. Qed.
#[local] Hint Resolve quiet_upload : safe.
Lemma quiet_uploadFile_handler f : dsafe S (uploadFile_handler f).
Proof. safe_handler; unfold uploadImage, uploadFile; safe_steps. Qed.
Lemma quiet_sql_date s : dsafe S (sql_date s).
Proof. safe_handler. Qed.
Lemma quiet_health_ready c : dsafe S (health_ready c).
Proof. safe_handler; unfold checkDb, ping; safe_steps. Qed.
Lemma quiet_reply status p : dsafe S p → dsafe S (reply status p).
Proof. intros Hp. by apply dsafe_bind; [|intros a; apply dsafe_ret]. Qed.
End HttpFootprint.

#[export] Hint Resolve quiet_RequestIdMiddleware quiet_AllExceptionsFilter quiet_validate quiet_uuid_param quiet_uuid_query
  quiet_JwtAuthGuard quiet_route_limit quiet_throttler quiet_uploadFile_handler quiet_sql_date quiet_health_ready : safe.

(** ** Operations that handle every failure of Redis, Socket.IO and the queue *)
Section Total.
Context {R : Redis} {E : Env} {C : Crypto}.

Lemma nothrow_cacheMessage c m : nothrow (cacheMessage c m).
Proof. nothrow_handler. Qed.
Lemma nothrow_invalidateMessages c : nothrow (invalidateMessages c).
Proof. nothrow_handler. Qed.
Lemma nothrow_incrementUnreadMany us c : nothrow (incrementUnreadMany us c).
Proof. nothrow_handler. Qed.
Lemma nothrow_resetUnread u c : nothrow (resetUnread u c).
Proof. nothrow_handler. Qed.
Lemma nothrow_addPendingMessage us m : nothrow (addPendingMessage us m).
Proof. nothrow_handler. Qed.
Lemma nothrow_setOnline u : nothrow (setOnline u).
Proof. nothrow_handler. Qed.
Lemma nothrow_setMembers c us : nothrow (setMembers c us).
Proof. nothrow_handler. Qed.
Lemma nothrow_invalidate c : nothrow (invalidate c).
Proof. nothrow_handler. Qed.
Lemma nothrow_emitToChannel c ev d o : nothrow (emitToChannel c ev d o).
Proof. nothrow_handler. Qed.
Lemma nothrow_emitToUsers us ev d : nothrow (emitToUsers us ev d).
Proof. nothrow_handler. Qed.
Lemma nothrow_emitToChannelAndUsers c us ev d : nothrow (emitToChannelAndUsers c us ev d).
Proof. nothrow_handler. Qed.
Lemma nothrow_joinUsersToChannel us c : nothrow (joinUsersToChannel us c).
Proof. nothrow_handler. Qed.
Lemma nothrow_removeUserFromChannel u c : nothrow (removeUserFromChannel u c).
Proof. nothrow_handler. Qed.
Lemma nothrow_getConnectedUserIds c : nothrow (getConnectedUserIds c).
Proof. nothrow_handler. Qed.
End Total.

#[export] Hint Resolve nothrow_cacheMessage nothrow_invalidateMessages nothrow_incrementUnreadMany nothrow_resetUnread
  nothrow_addPendingMessage nothrow_setOnline nothrow_setMembers nothrow_invalidate nothrow_emitToChannel nothrow_emitToUsers
  nothrow_emitToChannelAndUsers nothrow_joinUsersToChannel nothrow_removeUserFromChannel nothrow_getConnectedUserIds : nothrow.

Section Dispatch.
Context {R : Redis} {E : Env} {C : Crypto}.
Hypothesis no_faults : ∀ n, db_fault n = None.

Lemma nothrow_getMembers c : nothrow (getMembers c).
Proof. nothrow_handler. Qed.
Lemma nothrow_runMessageDelivery j : nothrow (runMessageDelivery j).
Proof. nothrow_handler. Qed.
#[local] Hint Resolve nothrow_getMembers nothrow_runMessageDelivery : nothrow.
Lemma nothrow_dispatchNewMessage p x : nothrow (dispatchNewMessage p x).
Proof. nothrow_handler. Qed.
End Dispatch.

Section Silent.
Context {R : Redis} {E : Env}.
Lemma silent_cacheMessage c m : silent (cacheMessage c m).
Proof. silent_handler. Qed.
Lemma silent_invalidateMessages c : silent (invalidateMessages c).
Proof. silent_handler. Qed.
Lemma silent_setMembers c us : silent (setMembers c us).
Proof. silent_handler. Qed.
Lemma silent_invalidate c : silent (invalidate c).
Proof. silent_handler. Qed.
Lemma silent_resetUnread u c : silent (resetUnread u c).
Proof. silent_handler. Qed.
End Silent.
