(* ===== verification/CallFlow.v ===== *)
(** * CallFlow: a call from its invitation to its end, and who can reach whom

    The state of a call in Redis as a state machine (ringing, connected, over), the
    relays of WebRTC signalling, and the authorization of LiveKit rooms. *)
From Stdlib Require Import Ascii String.
From S2P Require Import Prelude JsString Json Effects Errors Redis Schema World Crypto Config RateLimit RedisSession.
From S2P Require Import RedisCache Socket ChannelMembers Messages Users LiveKit Validation SocketAuth Calls CallGateway.
From S2P Require Import Footprint Samples.
From stdpp Require Import base list strings gmap.

Local Open Scope string_scope.
Local Open Scope Z_scope.
Local Open Scope list_scope.

(** ** The hash of a call *)
Definition call_hash (call : ActiveCall) (startedAt : Z) : list (string * string) :=
  [("initiatorId", ac_initiatorId call); ("targetId", ac_targetId call); ("status", ac_status call);
   ("startedAt", z_to_string startedAt); ("callLogId", default "" (ac_callLogId call))].

(** Two different users, and ids that are not empty. *)
Definition proper_call (call : ActiveCall) : Prop :=
  ac_callId call ≠ "" ∧ ac_initiatorId call ≠ "" ∧ ac_targetId call ≠ "" ∧ ac_initiatorId call ≠ ac_targetId call ∧
  ac_callLogId call ≠ Some "".

Lemma truthy_some s : s ≠ "" → truthy (Some s) = Some s.
Proof. intros Hs. simpl. by rewrite bool_decide_eq_false_2. Qed.

Lemma toActiveCall_hash call t : proper_call call → ac_startedAt call = Some t →
  toActiveCall (ac_callId call) (call_hash call t) = Some call.
Proof.
  destruct call as [id i u st sa l]. intros (_ & Hi & _ & _ & Hl) Ht. simpl in *. subst sa.
  change (match truthy (Some i) with
          | Some x => Some (mkActiveCall id x u st (string_to_z (z_to_string t)) (truthy (Some (default "" l)))) | None => None end
          = Some (mkActiveCall id i u st (Some t) l)).
  rewrite (truthy_some i), string_to_z_to_string by done. destruct l as [l|]; [|done]. change (default "" (Some l)) with l.
  rewrite truthy_some; [done|]. intros ->. by apply Hl.
Qed.

Lemma room_not_user a b : roomKey a ≠ userCallKey b.
Proof. unfold roomKey, userCallKey. simpl. discriminate. Qed.
Lemma userCallKey_inj a b : userCallKey a = userCallKey b → a = b.
Proof. apply (inj (String.append _)). Qed.

(** The keys of a call. *)
Definition call_keys (call : ActiveCall) : list string :=
  [roomKey (ac_callId call); userCallKey (ac_initiatorId call); userCallKey (ac_targetId call)].
Lemma call_keys_NoDup call : proper_call call → NoDup (call_keys call).
Proof.
  intros (_ & _ & _ & Hne & _). unfold call_keys. repeat apply NoDup_cons_2; [..|apply NoDup_nil_2];
    rewrite ?elem_of_cons, elem_of_nil; intros H; repeat destruct H as [H|H]; try done; try by apply room_not_user in H.
  by apply userCallKey_inj in H.
Qed.

Section CallFlow.
Context {R : Redis} {RL : RedisLaws R} {E : Env} {P : Environment}.

Notation entry_at w k := (rentry (w_redis w) k).

(** Redis holds [call], until [expiry]. *)
Definition holds_call (call : ActiveCall) (startedAt expiry : Z) (w : World) : Prop :=
  ac_startedAt call = Some startedAt ∧
  entry_at w (roomKey (ac_callId call)) = Some (RHash (call_hash call startedAt), Some expiry) ∧
  entry_at w (userCallKey (ac_initiatorId call)) = Some (RStr (ac_callId call), Some expiry) ∧
  entry_at w (userCallKey (ac_targetId call)) = Some (RStr (ac_callId call), Some expiry).
Definition no_call_keys (call : ActiveCall) (w : World) : Prop := ∀ k, k ∈ call_keys call → entry_at w k = None.
Definition only_keys (ks : list string) (w w' : World) : Prop := ∀ k, k ∉ ks → entry_at w' k = entry_at w k.
Definition after (ticks : nat) (w w' : World) : Prop :=
  w_tick w' = (w_tick w + ticks)%nat ∧ w_db w' = w_db w ∧ w_out w' = w_out w.

(** A transaction with one group of commands per key: key, commands, new entry. *)
Lemma wp_multi_each (l : list (string * list rcmd * option entry)) cs Q w :
  conn_at (w_tick w) = CReady → cs = flat_map (λ x, x.1.2) l → NoDup (map (λ x, x.1.1) l) →
  Forall (λ x, Forall (λ c, cmd_key c = x.1.1) x.1.2 ∧
    ∃ rps, chain (now_at (w_tick w)) x.1.2 (entry_at w x.1.1) = Some (rps, x.2)) l →
  (∀ r rps, Forall (λ x, rentry r x.1.1 = x.2) l → (∀ k, k ∉ map (λ x, x.1.1) l → rentry r k = entry_at w k) →
    Q (Ok rps) (tick (w <| w_redis := r |>))) →
  wp (redis_multi cs) Q w.
Proof.
  intros Hc -> Hnd Hl HQ. rewrite Forall_forall in Hl.
  apply (wp_multi_groups (λ x, x.1.1) (λ x, x.1.2) (λ x, x.2)); [done..|]. intros r rps Hnew Hsame.
  apply HQ; [|done]. apply Forall_forall. auto.
Qed.

Lemma createCall_spec i t log w call now :
  redis_ready → call = mkActiveCall (uuid_at (w_tick w) 0) i t "ringing" (Some now) log → now = now_at (S (w_tick w)) →
  proper_call call → entry_at w (roomKey (ac_callId call)) = None →
  wp (createCall i t log) (λ o w', o = Ok call ∧
    holds_call call now (now_at (3 + w_tick w) + RINGING_TTL_SECONDS * 1000) w' ∧
    only_keys (call_keys call) w w' ∧ after 4 w w') w.
Proof.
  intros Hready -> -> Hp Hroom. unfold createCall. wp_steps. apply wp_getClient_ready; [done|]. wp_steps.
  set (call := mkActiveCall _ _ _ _ _ _) in *. set (ms := now_at (3 + w_tick w) + RINGING_TTL_SECONDS * 1000).
  apply (wp_multi_each
    [(roomKey (ac_callId call), take 2 (createCall_cmds call (now_at (S (w_tick w)))),
      Some (RHash (call_hash call (now_at (S (w_tick w)))), Some ms));
     (userCallKey i, [SetEx (userCallKey i) RINGING_TTL_SECONDS (ac_callId call)], Some (RStr (ac_callId call), Some ms));
     (userCallKey t, [SetEx (userCallKey t) RINGING_TTL_SECONDS (ac_callId call)], Some (RStr (ac_callId call), Some ms))]);
    [done|done|by apply (call_keys_NoDup call)|..].
  - repeat apply Forall_cons_2; [..|apply Forall_nil_2]; (split; [by repeat constructor|]); cbn [fst snd].
    + world. rewrite Hroom. eexists. reflexivity.
    + eexists. reflexivity.
    + eexists. reflexivity.
  - intros r rps (H1 & (H2 & (H3 & _)%Forall_cons)%Forall_cons)%Forall_cons Hsame. wp_steps.
    split; [done|]. split; [done|]. split; [done|]. split; [simpl; lia|done].
Qed.

(** A command that only reads a live key. *)
Lemma wp_reads_ready c rp e Q w :
  conn_at (w_tick w) = CReady → entry_at w (cmd_key c) = e → live (now_at (w_tick w)) e = e →
  cmd_spec (now_at (w_tick w)) c e = Some (rp, e) →
  (∀ r, (∀ k, rentry r k = entry_at w k) → Q (Ok rp) (tick (w <| w_redis := r |>))) → wp (redis_cmd c) Q w.
Proof.
  intros Hc <- Hl Hs HQ. eapply wp_cmd_ready; [done|by rewrite Hl|]. intros r Hr. apply HQ. intros k. rewrite Hr. by case_decide; subst.
Qed.

(** The state of [w] in Redis, some ticks later. *)
Definition read_only (ticks : nat) (w w' : World) : Prop := (∀ k, entry_at w' k = entry_at w k) ∧ after ticks w w'.

Lemma getActiveCall_holding call u t expiry w :
  redis_ready → proper_call call → holds_call call t expiry w → u ∈ [ac_initiatorId call; ac_targetId call] →
  now_at (1 + w_tick w) ≤ expiry → now_at (2 + w_tick w) ≤ expiry →
  wp (getActiveCall u) (λ o w', o = Ok (Some call) ∧ read_only 3 w w') w.
Proof.
  intros Hready Hp (Ht & Hroom & Hi & Hta) Hu H1 H2. unfold getActiveCall. apply wp_with_redis_ready; [done|]. wp_steps.
  assert (Huser : entry_at w (userCallKey u) = Some (RStr (ac_callId call), Some expiry)).
  { rewrite !elem_of_cons, elem_of_nil in Hu. by destruct Hu as [->|[->|[]]]. }
  apply (wp_reads_ready (Get _) (RpStr (Some (ac_callId call)))
    (Some (RStr (ac_callId call), Some expiry))); [done|exact Huser|by apply live_some|done|].
  intros r Hr. wp_steps. rewrite truthy_some by apply Hp. wp_steps. world.
  apply (wp_reads_ready (HGetAll _) (RpMap (call_hash call t)) (Some (RHash (call_hash call t), Some expiry)));
    [done|by world; rewrite Hr|by apply live_some|done|].
  intros r' Hr'. wp_steps. cbn [map_of]. rewrite toActiveCall_hash by done. world. split; [done|].
  split; [intros k; by rewrite Hr', Hr|]. split; [simpl; lia|done].
Qed.

Lemma getActiveCall_free u w :
  redis_ready → entry_at w (userCallKey u) = None → wp (getActiveCall u) (λ o w', o = Ok None ∧ read_only 2 w w') w.
Proof.
  intros Hready Hu. unfold getActiveCall. apply wp_with_redis_ready; [done|]. wp_steps.
  apply (wp_reads_ready (Get _) (RpStr None) None); [done..|].
  intros r Hr. wp_steps. world. split; [done|]. split; [done|]. split; [simpl; lia|done].
Qed.

Definition connected_at_time (call : ActiveCall) (now : Z) : ActiveCall :=
  mkActiveCall (ac_callId call) (ac_initiatorId call) (ac_targetId call) "connected" (Some now) (ac_callLogId call).

Lemma acceptCall_spec call t expiry w :
  redis_ready → proper_call call → holds_call call t expiry w → now_at (2 + w_tick w) ≤ expiry →
  let now := now_at (1 + w_tick w) in
  wp (acceptCall call) (λ o w', o = Ok tt ∧
    holds_call (connected_at_time call now) now (now_at (2 + w_tick w) + CONNECTED_TTL_SECONDS * 1000) w' ∧
    only_keys (call_keys call) w w' ∧ after 3 w w') w.
Proof.
  intros Hready Hp (Ht & Hroom & Hi & Hta) H2 now. unfold acceptCall. apply wp_with_redis_ready; [done|]. wp_steps.
  set (ms := now_at (2 + w_tick w) + CONNECTED_TTL_SECONDS * 1000). set (call' := connected_at_time call now).
  apply (wp_multi_each
    [(roomKey (ac_callId call), take 2 (acceptCall_cmds call now), Some (RHash (call_hash call' now), Some ms));
     (userCallKey (ac_initiatorId call), [Expire (userCallKey (ac_initiatorId call)) CONNECTED_TTL_SECONDS], Some (RStr (ac_callId call), Some ms));
     (userCallKey (ac_targetId call), [Expire (userCallKey (ac_targetId call)) CONNECTED_TTL_SECONDS], Some (RStr (ac_callId call), Some ms))]);
    [done|done|by apply (call_keys_NoDup call)|..].
  - repeat apply Forall_cons_2; [..|apply Forall_nil_2]; (split; [by repeat constructor|]); cbn [fst snd]; world.
    + rewrite Hroom. eexists. cbn [chain acceptCall_cmds take cmd_spec]. rewrite live_some by done.
      change (as_hash (Some (RHash (call_hash call t), Some expiry))) with (Some (call_hash call t)).
      change (now_at (S (S (w_tick w)))) with (now_at (2 + w_tick w)).
      assert (Hput : foldl hash_put (call_hash call t) [("status", "connected"); ("startedAt", z_to_string now)] = call_hash call' now)
        by reflexivity.
      cbn [mbind option_bind]. rewrite Hput. change (keep (RHash (call_hash call' now)) (ttl_of (Some (RHash (call_hash call t), Some expiry))))
        with (Some (RHash (call_hash call' now), Some expiry)). rewrite live_some by done. reflexivity.
    + rewrite Hi. eexists. cbn [chain cmd_spec]. change (now_at (S (S (w_tick w)))) with (now_at (2 + w_tick w)). rewrite live_some by done. reflexivity.
    + rewrite Hta. eexists. cbn [chain cmd_spec]. change (now_at (S (S (w_tick w)))) with (now_at (2 + w_tick w)). rewrite live_some by done. reflexivity.
  - intros r rps (H3 & (H4 & (H5 & _)%Forall_cons)%Forall_cons)%Forall_cons Hsame. wp_steps.
    split; [done|]. split; [done|]. split; [done|]. split; [simpl; lia|done].
Qed.

Lemma cleanupCall_cmds_hash call t : proper_call call →
  cleanupCall_cmds (ac_callId call) (call_hash call t) =
  [Del (roomKey (ac_callId call)); Del (userCallKey (ac_initiatorId call)); Del (userCallKey (ac_targetId call))].
Proof.
  intros (_ & Hi & Ht & _). unfold cleanupCall_cmds.
  change (hash_field "initiatorId" (call_hash call t)) with (Some (ac_initiatorId call)).
  change (hash_field "targetId" (call_hash call t)) with (Some (ac_targetId call)). by rewrite !truthy_some.
Qed.

Lemma cleanupUserCall_spec call u t expiry w :
  redis_ready → proper_call call → holds_call call t expiry w → u ∈ [ac_initiatorId call; ac_targetId call] →
  now_at (1 + w_tick w) ≤ expiry → now_at (3 + w_tick w) ≤ expiry →
  wp (cleanupUserCall u) (λ o w', o = Ok (Some call) ∧ no_call_keys call w' ∧ only_keys (call_keys call) w w' ∧ after 5 w w') w.
Proof.
  intros Hready Hp (Ht & Hroom & Hi & Hta) Hu H1 H3. unfold cleanupUserCall. wp_steps. apply wp_getClient_ready; [done|]. wp_steps.
  assert (Huser : entry_at w (userCallKey u) = Some (RStr (ac_callId call), Some expiry)).
  { rewrite !elem_of_cons, elem_of_nil in Hu. by destruct Hu as [->|[->|[]]]. }
  apply (wp_reads_ready (Get _) (RpStr (Some (ac_callId call))) (Some (RStr (ac_callId call), Some expiry)));
    [done|exact Huser|by apply live_some|done|].
  intros r Hr. wp_steps. rewrite truthy_some by apply Hp. unfold cleanupCall. apply wp_with_redis_ready; [done|]. wp_steps. world.
  apply (wp_reads_ready (HGetAll _) (RpMap (call_hash call t)) (Some (RHash (call_hash call t), Some expiry)));
    [done|by world; rewrite Hr|by apply live_some|done|].
  intros r' Hr'. wp_steps. cbn [map_of]. rewrite cleanupCall_cmds_hash by done. world.
  apply (wp_multi_each (map (λ k, (k, [Del k], None)) (call_keys call))); [done|done|by apply (call_keys_NoDup call)|..].
  - repeat apply Forall_cons_2; [..|apply Forall_nil_2]; (split; [by repeat constructor|]); eexists; reflexivity.
  - intros r2 rps (H4 & (H5 & (H6 & _)%Forall_cons)%Forall_cons)%Forall_cons Hsame. wp_steps. world.
    rewrite toActiveCall_hash by done. split; [done|]. split; [|split; [|split; [simpl; lia|done]]].
    + intros k Hk. unfold call_keys in Hk. rewrite !elem_of_cons, elem_of_nil in Hk. by destruct Hk as [->|[->|[->|[]]]].
    + intros k Hk. world. rewrite Hsame by done. by rewrite Hr', Hr.
Qed.

(** A call from its invitation to its end, as the two users see it. *)
Definition call_scenario (initiatorId targetId : string) (callLogId : option string) :=
  let! call := createCall initiatorId targetId callLogId in
  let! ringing := getActiveCall targetId in
  do! (match ringing with Some c => acceptCall c | None => Ret tt end);
  let! connected := getActiveCall initiatorId in
  let! over := cleanupUserCall targetId in
  let! mine := getActiveCall initiatorId in
  let! theirs := getActiveCall targetId in
  Ret (call, ringing, connected, over, mine, theirs).

(** The clock advances by less than the life of a ringing call. *)
Definition short_time (w : World) : Prop :=
  ∀ m n, (w_tick w ≤ m)%nat → (n ≤ w_tick w + 18)%nat → now_at n ≤ now_at m + RINGING_TTL_SECONDS * 1000.

Lemma short_connected w m n : short_time w → (w_tick w ≤ m)%nat → (n ≤ w_tick w + 18)%nat →
  now_at n ≤ now_at m + CONNECTED_TTL_SECONDS * 1000.
Proof. intros Hs Hm Hn. specialize (Hs m n Hm Hn). unfold RINGING_TTL_SECONDS, CONNECTED_TTL_SECONDS in *. lia. Qed.

(** C21: the life of a call in Redis: once created it is the active call of both
    users, ringing; accepting it makes it the connected call of both, with a new
    start; ending it from either side frees both users, gives back the call that
    ended, and leaves no key of it behind and no other key changed. *)
Theorem call_life_cycle (initiatorId targetId : string) (callLogId : option string) (w : World)
  (Hready : redis_ready) (Htime : short_time w)
  (Hproper : proper_call (mkActiveCall (uuid_at (w_tick w) 0) initiatorId targetId "ringing" (Some (now_at (1 + w_tick w))) callLogId))
  (Hfresh : entry_at w (roomKey (uuid_at (w_tick w) 0)) = None) :
  let call := mkActiveCall (uuid_at (w_tick w) 0) initiatorId targetId "ringing" (Some (now_at (1 + w_tick w))) callLogId in
  let connected := connected_at_time call (now_at (8 + w_tick w)) in
  wp (call_scenario initiatorId targetId callLogId)
    (λ o w', o = Ok (call, Some call, Some connected, Some connected, None, None) ∧
       no_call_keys call w' ∧ only_keys (call_keys call) w w' ∧ w_db w' = w_db w) w.
Proof.
  intros call connected. unfold call_scenario. apply wp_bind.
  eapply wp_mono; [by apply (createCall_spec _ _ _ _ call (now_at (1 + w_tick w)))|].
  intros o w1 (-> & Hh1 & Ho1 & Ht1 & Hd1 & _). apply wp_bind.
  eapply wp_mono; [eapply (getActiveCall_holding call targetId); [done..|set_solver| |]; apply Htime; lia|].
  intros o w2 (-> & Hr2 & Ht2 & Hd2 & _). apply wp_bind.
  assert (Hh2 : holds_call call (now_at (1 + w_tick w)) (now_at (3 + w_tick w) + RINGING_TTL_SECONDS * 1000) w2).
  { unfold holds_call. by rewrite !Hr2. }
  eapply wp_mono; [eapply (acceptCall_spec call); [done..|apply Htime; lia]|].
  replace (now_at (1 + w_tick w2)) with (now_at (8 + w_tick w)) by (f_equal; lia).
  intros o w3 (-> & Hh3 & Ho3 & Ht3 & Hd3 & _). apply wp_bind.
  eapply wp_mono; [eapply (getActiveCall_holding connected initiatorId); [done|exact Hproper|exact Hh3|set_solver| |];
    apply (short_connected w); done || lia|].
  intros o w4 (-> & Hr4 & Ht4 & Hd4 & _). apply wp_bind.
  assert (Hh4 : holds_call connected (now_at (8 + w_tick w)) (now_at (2 + w_tick w2) + CONNECTED_TTL_SECONDS * 1000) w4).
  { unfold holds_call. rewrite !Hr4. apply Hh3. }
  eapply wp_mono; [eapply (cleanupUserCall_spec connected targetId); [done|exact Hproper|exact Hh4|set_solver| |];
    apply (short_connected w); done || lia|].
  intros o w5 (-> & Hn5 & Ho5 & Ht5 & Hd5 & _). apply wp_bind.
  eapply wp_mono; [eapply (getActiveCall_free initiatorId); [done|apply Hn5; set_solver]|].
  intros o w6 (-> & Hr6 & Ht6 & Hd6 & _). apply wp_bind.
  eapply wp_mono; [eapply (getActiveCall_free targetId); [done|rewrite Hr6; apply Hn5; set_solver]|].
  intros o w7 (-> & Hr7 & _ & Hd7 & _). apply wp_ret. split; [done|]. split; [|split; [|congruence]].
  - intros k Hk. rewrite Hr7, Hr6. by apply Hn5.
  - intros k Hk. rewrite Hr7, Hr6, Ho5, Hr4, Ho3, Hr2 by done. by apply Ho1.
Qed.
End CallFlow.

(** ** Signalling *)
Section Signalling.
Context {R : Redis} {RL : RedisLaws R} {E : Env} {P : Environment} {L : LiveKit}.

Notation entry_at w k := (rentry (w_redis w) k).

(** Nothing but Redis changes, and in Redis nothing but [key]. *)
Definition only_key (key : string) (w w' : World) : Prop :=
  same_but_redis w w' ∧ ∀ k, k ≠ key → entry_at w' k = entry_at w k.

Lemma exec_other now c r k : k ≠ cmd_key c → rentry (exec now c r).2 k = rentry r k.
Proof. intros Hk. rewrite exec_entry. case_match; [|done]. case_match. by rewrite decide_False. Qed.

Lemma lua_other key argv now r k : k ≠ key → rentry (fixed_window_lua key argv now r).2 k = rentry r k.
Proof.
  intros Hk. unfold fixed_window_lua.
  pose proof (exec_other now (Incr key) r k Hk) as H1. destruct (exec now (Incr key) r) as [[[count| | |]|] r1]; simpl in *; try done.
  pose proof (exec_other now (PTtl key) r1 k Hk) as H2. destruct (exec now (PTtl key) r1) as [[[ttl| | |]|] r2]; simpl in *; try congruence.
  destruct ((count =? 1) || (ttl <? 0)); simpl; [|congruence].
  pose proof (exec_other now (PExpire key argv) r2 k Hk) as H3. destruct (exec now (PExpire key argv) r2) as [[]]; simpl in *; congruence.
Qed.

Lemma wp_on_redis_frame {A} (f : Z → rstore → option A * rstore) key Q (w : World) :
  (∀ now r k, k ≠ key → rentry (f now r).2 k = rentry r k) → (∀ o w', only_key key w w' → Q o w') → wp (on_redis f) Q w.
Proof.
  intros Hf HQ. apply wp_act'. specialize (Hf (now_at (w_tick w)) (w_redis w)).
  assert (Hq : ∀ o r, (∀ k, k ≠ key → rentry r k = entry_at w k) → Q o (tick (w <| w_redis := r |>))) by (intros; by apply HQ).
  destruct (conn_at _) as [| |[]]; [by apply HQ| |by apply Hq|by apply HQ].
  destruct (f _ _) as [[a|] r]; by apply Hq.
Qed.

Lemma checkRateLimit_frame key config (w : World) :
  wp (checkRateLimit key config) (λ o w', (∃ r, o = Ok r) ∧ only_key (rl_key key) w w') w.
Proof.
  unfold checkRateLimit. wp_steps. apply wp_getClient. intros []; cbn [negb]; wp_steps; [|by split; [eauto|]].
  apply (wp_on_redis_frame _ (rl_key key)); [by intros; apply lua_other|].
  intros [[count ttl]|e] w' H; wp_steps; (split; [by eauto|exact H]).
Qed.

(** Redis has [call] as the active call of the user. *)
Definition active_call_of (userId : string) (call : ActiveCall) (w : World) : Prop :=
  ∃ t1 t2 data, entry_at w (userCallKey userId) = Some (RStr (ac_callId call), t1) ∧
    entry_at w (roomKey (ac_callId call)) = Some (RHash data, t2) ∧ toActiveCall (ac_callId call) data = Some call.

(** The reply of a command, whatever the state of the client. *)
Lemma wp_cmd_reply c Q (w : World) :
  (∀ w', same_but_redis w w' → Q (Err redis_error) w') →
  (∀ rp e w', cmd_spec (now_at (w_tick w)) c (live (now_at (w_tick w)) (entry_at w (cmd_key c))) = Some (rp, e) →
    only_key (cmd_key c) w w' → Q (Ok rp) w') →
  wp (redis_cmd c) Q w.
Proof.
  intros He Ho. apply wp_act'. destruct (conn_at _) as [| |[]]; try by apply He.
  pose proof (exec_reply (now_at (w_tick w)) c (w_redis w)) as Hr.
  pose proof (λ k, exec_other (now_at (w_tick w)) c (w_redis w) k) as Hk.
  destruct (exec _ c (w_redis w)) as [[rp|] r]; [|by apply He]. simpl in Hr. symmetry in Hr.
  apply fmap_Some in Hr as ([rp' e] & Hs & ->). by apply (Ho _ e).
Qed.

Lemma live_eq now e x : live now e = Some x → e = Some x.
Proof. destruct (live_cases now e) as [-> | ->]; [done|discriminate]. Qed.

Lemma getActiveCall_sound userId (w : World) :
  wp (getActiveCall userId) (λ o w', same_but_redis w w' ∧
    (o = Ok None ∨ ∃ call, o = Ok (Some call) ∧ active_call_of userId call w)) w.
Proof.
  unfold getActiveCall, with_redis. wp_steps. apply wp_getClient. intros []; cbn [negb]; wp_steps; [|by split; [|left]].
  apply wp_cmd_reply; [intros w' Hw'; wp_steps; by auto|]. intros rp e w1 Hs [Hw1 Hk1]. world. wp_steps.
  simpl in Hs. destruct (live _ _) as [[[s| | | |] t1]|] eqn:Hl; simplify_eq; cbn [truthy]; [|wp_steps; by split; [|left]].
  apply live_eq in Hl. destruct (s === "") eqn:Hn; wp_steps; [by split; [|left]|].
  apply wp_cmd_reply; [intros w' Hw'; wp_steps; split; [by transitivity w1|by left]|]. intros rp e w2 Hs [Hw2 _]. wp_steps.
  split; [by transitivity w1|]. simpl in Hs.
  destruct (live _ _) as [[v t2]|] eqn:Hl2; [|simplify_eq/=; by left].
  destruct v as [| | | |h]; simplify_eq/=. apply live_eq in Hl2.
  rewrite Hk1 in Hl2 by apply room_not_user. destruct (toActiveCall s h) as [call|] eqn:Hc; [|by left]. right. exists call.
  split; [done|]. assert (ac_callId call = s) as Hid.
  { unfold toActiveCall in Hc. case_match; simplify_eq. done. }
  subst s. by exists t1, t2, h.
Qed.

Definition socket_user_of (client : Client) (w : World) : option SocketUser :=
  sd_user (default (mkSocketData None None) (g_data (w_gateway w) !! ws_id client)).

Definition relays : list (Client → json → M ()) := [handleOffer; handleAnswer; handleIceCandidate].

(** The two ends of a call, seen from [userId]: the caller's peer is the callee, and
    everyone else's is the caller. *)
Definition peer_of (call : ActiveCall) (userId peer : string) : Prop :=
  (userId = ac_initiatorId call → peer = ac_targetId call) ∧ (userId ≠ ac_initiatorId call → peer = ac_initiatorId call).

Lemma getOtherUserId_peer call userId : peer_of call userId (getOtherUserId call userId).
Proof. unfold getOtherUserId, peer_of. case_bool_decide; naive_solver. Qed.

(** What a relay may do: nothing, or tell the other user of the caller's own call. *)
Definition relayed (client : Client) (data : json) (w w' : World) : Prop :=
  w_out w' = w_out w ∨
  ∃ user call peer event payload, socket_user_of client w = Some user ∧ get_field data "callId" = Some (JStr (ac_callId call)) ∧
    active_call_of (su_id user) call w ∧ peer_of call (su_id user) peer ∧
    w_out w' = w_out w ++ [Emit [userRoom peer] [] event payload].

Lemma rl_not_call k u a : rl_key k ≠ userCallKey u ∧ rl_key k ≠ roomKey a.
Proof. unfold rl_key, userCallKey, roomKey. simpl. split; discriminate. Qed.

Lemma isUuid_field v id : isUuid v = Some id → v = Some (JStr id).
Proof. unfold isUuid. repeat case_match; congruence. Qed.

Lemma active_call_other key u call (w w' : World) :
  only_key (rl_key key) w w' → active_call_of u call w' → active_call_of u call w.
Proof.
  intros [_ Hk] (t1 & t2 & h & H1 & H2 & H3). destruct (rl_not_call key u (ac_callId call)).
  rewrite Hk in H1, H2 by done. by exists t1, t2, h.
Qed.

Lemma wp_relay client data event payload (w : World) :
  wp (relay client data event payload) (λ o w', o = Ok tt ∧ w_db w' = w_db w ∧ relayed client data w w') w.
Proof.
  unfold relay, relayTarget, CallGateway.user, socket_data, gateway. wp_steps. apply wp_act'. wp_steps. cbn [fst snd].
  change (tick (w <| w_gateway := w_gateway w |>)) with (tick (w <| w_gateway := w_gateway w |>)).
  destruct (sd_user _) as [u|] eqn:Hu; [|wp_steps; by split; [|split; [|left]]].
  destruct (isUuid _) as [id|] eqn:Hid; [|wp_steps; by split; [|split; [|left]]].
  unfold call_allowed. wp_steps. eapply wp_mono; [apply checkRateLimit_frame|].
  intros o w1 [[rl ->] [(Hd1 & Ho1 & _) Hk1]]. wp_steps. world.
  destruct (negb (allowed rl)); wp_steps; [by split; [|split; [|left]]|].
  eapply wp_mono; [apply getActiveCall_sound|]. intros o w2 [(Hd2 & Ho2 & _) [->|(call & -> & Hac)]]; wp_steps;
    [split; [done|]; split; [congruence|left; congruence]|].
  destruct (ac_callId call !== id) eqn:Hne; wp_steps; [split; [done|]; split; [congruence|left; congruence]|]. boolp.
  unfold emitToUser, server_ready, send_effect. wp_steps. apply wp_act'. wp_steps. case_match; wp_steps;
    [split; [done|]; split; [world; congruence|left; world; congruence]|].
  apply wp_act'. wp_steps. split; [done|]. world. split; [congruence|]. right. exists u, call, (getOtherUserId call (su_id u)), event, (payload u call).
  split; [exact Hu|]. split; [apply isUuid_field in Hid; congruence|]. split; [|split; [apply getOtherUserId_peer|by rewrite <-Ho1, <-Ho2]].
  destruct Hac as (t1 & t2 & h & H1 & H2 & H3). destruct (rl_not_call ("call-signal" +:+ ":" +:+ su_id u) (su_id u) (ac_callId call)).
  rewrite Hk1 in H1, H2 by done. by exists t1, t2, h.
Qed.

(** C22: signalling stays inside a call: whatever a client sends and whatever Redis
    answers, a relay changes no table and emits at most one event; it goes to the
    room of one user only, of a call that Redis has as the active call of the
    authenticated user of the socket and whose id the client named: the callee when that
    user started the call, the one who started it otherwise. *)
Theorem relay_only_to_peer (handler : Client → json → M ()) client data (w : World) (Hrelay : handler ∈ relays) :
  wp (handler client data) (λ o w', o = Ok tt ∧ w_db w' = w_db w ∧ relayed client data w w') w.
Proof.
  unfold relays in Hrelay. rewrite !elem_of_cons, elem_of_nil in Hrelay.
  destruct Hrelay as [->|[->|[->|[]]]]; unfold handleOffer, handleAnswer, handleIceCandidate;
    (case_match; [apply wp_relay|apply wp_ret; by split; [|split; [|left]]]).
Qed.
End Signalling.

(** ** LiveKit rooms *)
Lemma substring_skip n m s t : String.substring (String.length s + n) m (s +:+ t) = String.substring n m t.
Proof. induction s as [|c s IH]; [done|exact IH]. Qed.
Lemma substring_prefix s t : String.substring 0 (String.length s) (s +:+ t) = s.
Proof. induction s as [|c s IH]; simpl; [by destruct t|]. f_equal. exact IH. Qed.
Lemma string_length_app s t : String.length (s +:+ t) = (String.length s + String.length t)%nat.
Proof. induction s as [|c s IH]; simpl; [done|by f_equal]. Qed.
Lemma substring_whole s : String.substring 0 (String.length s) s = s.
Proof. induction s as [|c s IH]; simpl; [done|by f_equal]. Qed.

(** An id as the tables give it: a UUID in lower case. *)
Definition canonical_id (id : string) : Prop := is_uuid id = true ∧ toLowerCase id = id.

Lemma dm_room_parts a b : is_uuid a = true → is_uuid b = true → dm_room ("dm-" +:+ a +:+ "-" +:+ b) = Some (a, b).
Proof.
  intros Ha Hb. pose proof (is_uuid_length _ Ha) as La. pose proof (is_uuid_length _ Hb) as Lb.
  assert (String.substring 3 36 ("dm-" +:+ a +:+ "-" +:+ b) = a) as H1.
  { change (String.substring 0 36 (a +:+ "-" +:+ b) = a). rewrite <-La. apply substring_prefix. }
  assert (String.substring 39 1 ("dm-" +:+ a +:+ "-" +:+ b) = "-") as H2.
  { change (String.substring 36 1 (a +:+ "-" +:+ b) = "-"). rewrite <-La, <-(Nat.add_0_r (String.length a)), substring_skip. by destruct b. }
  assert (suffix_from 40 ("dm-" +:+ a +:+ "-" +:+ b) = b) as H3.
  { unfold suffix_from. replace (String.length ("dm-" +:+ a +:+ "-" +:+ b) - 40)%nat with (String.length b).
    - change (String.substring 37 (String.length b) (a +:+ "-" +:+ b) = b).
      replace 37%nat with (String.length a + 1)%nat by lia. rewrite substring_skip. apply substring_whole.
    - rewrite !string_length_app. simpl. lia. }
  unfold dm_room. cbv zeta. rewrite (substring_prefix "dm-" (a +:+ "-" +:+ b) : String.substring 0 3 _ = _).
  by rewrite H1, H2, H3, Ha, Hb.
Qed.

Lemma group_room_name c : is_uuid c = true → dm_room (getGroupRoomName c) = None ∧ group_room (getGroupRoomName c) = Some c.
Proof.
  intros Hc. unfold getGroupRoomName. split; [done|]. unfold group_room, suffix_from. cbv zeta.
  replace (String.length ("group-" +:+ c) - 6)%nat with (String.length c) by (rewrite string_length_app; simpl; lia).
  change (String.substring 6 (String.length c) ("group-" +:+ c)) with (String.substring 0 (String.length c) c).
  by rewrite substring_whole, Hc, (substring_prefix "group-" c : String.substring 0 6 _ = _).
Qed.

Lemma getDmRoomName_comm a b : getDmRoomName a b = getDmRoomName b a.
Proof.
  unfold getDmRoomName. destruct (String.leb a b) eqn:H1, (String.leb b a) eqn:H2; try done.
  - by rewrite (String.leb_antisym a b).
  - destruct (String.leb_total a b); congruence.
Qed.

Lemma getDmRoomName_cases a b : getDmRoomName a b = "dm-" +:+ a +:+ "-" +:+ b ∨ getDmRoomName a b = "dm-" +:+ b +:+ "-" +:+ a.
Proof. unfold getDmRoomName. destruct (String.leb a b); auto. Qed.

Definition present_member (userId channelId : string) (d : Db) : Prop :=
  ∃ m, m ∈ memberships d ∧ mb_userId m = userId ∧ mb_channelId m = channelId ∧ mb_leftAt m = None.

Lemma active_membership_spec u c d : canonical_id c →
  (if active_membership u c d then present_member u c d else ¬ present_member u c d).
Proof.
  intros [_ Hc]. unfold active_membership. rewrite Hc. destruct (head _) as [m|] eqn:Hm.
  - apply first_Some in Hm as [Hin Hp]. unfold is_membership in Hp. boolp. by exists m.
  - rewrite first_None in Hm. intros (m & Hin & Hu & Hch & Hl). specialize (Hm m Hin).
    unfold is_membership in Hm. by rewrite Hu, Hch, Hl, !bool_decide_eq_true_2 in Hm.
Qed.

Section Rooms.
Context {R : Redis} {E : Env} {P : Environment} {L : LiveKit}.

(** C23: who may join a LiveKit room: the room of a direct call is the same whoever
    names it, and admits exactly its two users, without asking anyone; the room of
    a channel admits exactly its members who have not left, and nobody when the
    database does not answer; any other room admits nobody. *)
Theorem room_access (a b channelId userId other : string) (w : World)
  (Ha : canonical_id a) (Hb : canonical_id b) (Hc : canonical_id channelId) (Hu : canonical_id userId)
  (Hdm : dm_room other = None) (Hgroup : group_room other = None) :
  getDmRoomName a b = getDmRoomName b a ∧
  wp (authorizeRoomAccess (getDmRoomName a b) userId)
    (λ o w', o = Ok (bool_decide (userId = a ∨ userId = b)) ∧ w' = w) w ∧
  wp (authorizeRoomAccess (getGroupRoomName channelId) userId)
    (λ o w', w_db w' = w_db w ∧ ∃ ok, o = Ok ok ∧
       (ok = true ↔ db_fault (w_tick w) = None ∧ present_member userId channelId (w_db w))) w ∧
  wp (authorizeRoomAccess other userId) (λ o w', o = Ok false ∧ w' = w) w.
Proof.
  split; [apply getDmRoomName_comm|]. split; [|split].
  - assert (∃ x y, dm_room (getDmRoomName a b) = Some (x, y) ∧ toLowerCase x = x ∧ toLowerCase y = y ∧
              (userId = a ∨ userId = b ↔ x = userId ∨ y = userId)) as (x & y & Hr & Hx & Hy & Hxy).
    { destruct Ha, Hb. destruct (getDmRoomName_cases a b) as [-> | ->]; rewrite dm_room_parts by done; eexists _, _;
        (split; [reflexivity|]); naive_solver. }
    unfold authorizeRoomAccess. rewrite Hr, Hx, Hy, (proj2 Hu). apply wp_ret. split; [|done]. f_equal.
    rewrite (bool_decide_ext _ _ Hxy). symmetry. apply bool_decide_or.
  - destruct (group_room_name channelId (proj1 Hc)) as [H1 H2]. unfold authorizeRoomAccess. rewrite H1, H2. wp_steps.
    apply wp_act'. pose proof (active_membership_spec userId channelId (w_db w) Hc) as Hm.
    destruct (db_fault _) eqn:Hf; wp_steps; (split; [done|]); [eexists; split; [done|]; naive_solver|].
    destruct (active_membership _ _ _); wp_steps; eexists; (split; [done|]); naive_solver.
  - unfold authorizeRoomAccess. rewrite Hdm, Hgroup. by apply wp_ret.
Qed.
End Rooms.

(** ** The properties on concrete calls *)
Definition ALICE : string := "aaaaaaaa-aaaa-4aaa-8aaa-aaaaaaaaaaaa".
Definition BOB : string := "bbbbbbbb-bbbb-4bbb-8bbb-bbbbbbbbbbbb".
Definition GROUP_ID : string := "cccccccc-cccc-4ccc-8ccc-cccccccccccc".

(** The sample environment with ids of the form of UUIDs. *)
Definition call_env : Env := {|
  now_at := @now_at sample_env;
  uuid_at n i := "00000000-0000-4000-8000-000000" +:+ z_to_string (10000 + Z.of_nat n) +:+ z_to_string (Z.of_nat i);
  conn_at := @conn_at sample_env; db_fault := @db_fault sample_env; sql_error := @sql_error sample_env;
  sockets_at := @sockets_at sample_env; queue_fault := @queue_fault sample_env; socket_ids_at := @socket_ids_at sample_env;
  connected_at := @connected_at sample_env; join_fault := @join_fault sample_env; ilike := @ilike sample_env; hashtext := @hashtext sample_env;
  lock_patience := @lock_patience sample_env;
|}.
#[local] Existing Instance call_env.
#[local] Existing Instance toy_livekit.

(** Alice and Bob, both online, each with one socket. *)
Definition call_world : World (R := mem_redis) :=
  mkWorld (empty_db <| users := [sample_user ALICE "alice"; sample_user BOB "bob"] |>
                    <| channels := [sample_channel GROUP_ID "GROUP"] |>
                    <| memberships := [sample_member "m1" "ADMIN" ALICE GROUP_ID 1] |>)
    {[RedisKeys.presence ALICE := (RStr "online", None : option Z); RedisKeys.presence BOB := (RStr "online", None : option Z)]} 0 [] true
    (no_sockets <| g_data := {["sA" := mkSocketData (Some (mkSocketUser ALICE "alice" "ONLINE")) None;
                               "sB" := mkSocketData (Some (mkSocketUser BOB "bob" "ONLINE")) None]} |>) ∅.
Definition alice_socket : Client := mkClient "sA" "10.0.0.1" None None HNone.
Definition bob_socket : Client := mkClient "sB" "10.0.0.2" None None HNone.

Lemma call_life_cycle_witness :
  let call := mkActiveCall (uuid_at (w_tick call_world) 0) ALICE BOB "ringing" (Some (now_at (1 + w_tick call_world))) None in
  let connected := connected_at_time call (now_at (8 + w_tick call_world)) in
  wp (call_scenario ALICE BOB None)
    (λ o w', o = Ok (call, Some call, Some connected, Some connected, None, None) ∧
       no_call_keys call w' ∧ only_keys (call_keys call) call_world w' ∧ w_db w' = w_db call_world) call_world.
Proof.
  assert (Ht : short_time call_world).
  { intros m n Hm Hn. simpl in Hm, Hn. unfold now_at, RINGING_TTL_SECONDS; simpl. lia. }
  assert (Hp : proper_call (mkActiveCall (uuid_at (w_tick call_world) 0) ALICE BOB "ringing" (Some (now_at (1 + w_tick call_world))) None))
    by (repeat split; vm_compute; discriminate).
  assert (Hf : rentry (w_redis call_world) (roomKey (uuid_at (w_tick call_world) 0)) = None) by (vm_compute; reflexivity).
  exact (call_life_cycle ALICE BOB None call_world (λ _, eq_refl) Ht Hp Hf).
Defined.

(** Redis in a call of Alice and Bob. *)
Definition in_call : World := (run (createCall ALICE BOB None) call_world).2.
Lemma relay_only_to_peer_witness :
  let data := JObj [("callId", JStr (uuid_at 0 0)); ("sdp", JStr "v=0")] in
  relayed bob_socket data in_call (run (handleOffer bob_socket data) in_call).2 ∧
  length (w_out (run (handleOffer bob_socket data) in_call).2) = 1%nat.
Proof.
  intros data. split; [|vm_compute; reflexivity].
  assert (Hr : @handleOffer mem_redis call_env ∈ relays) by (unfold relays; apply elem_of_cons; by left).
  pose proof (relay_only_to_peer handleOffer bob_socket data in_call Hr) as H. unfold wp in H.
  destruct (run (handleOffer bob_socket data) in_call) as [o w']. exact (proj2 (proj2 H)).
Defined.

Lemma room_access_witness :
  wp (authorizeRoomAccess (getDmRoomName ALICE BOB) BOB) (λ o w', o = Ok true ∧ w' = call_world) call_world ∧
  wp (authorizeRoomAccess "lobby" BOB) (λ o w', o = Ok false ∧ w' = call_world) call_world.
Proof.
  assert (Hid : canonical_id ALICE ∧ canonical_id BOB ∧ canonical_id GROUP_ID) by (repeat split; vm_compute; reflexivity).
  destruct Hid as (Ha & Hb & Hc).
  destruct (room_access ALICE BOB GROUP_ID BOB "lobby" call_world Ha Hb Hc Hb eq_refl eq_refl) as (_ & H1 & _ & H2).
  split; [|exact H2]. eapply wp_mono; [exact H1|]. intros o w' [-> ->]. by split.
Defined.
