(* ===== verification/DbStep.v ===== *)
(** * DbStep: the abstract database machine

    [db_step] is the specification the services promise together: the ways a
    committed statement or transaction may change the tables.  Every handler of the
    server, interleaved with any others at its external calls, only moves the tables
    along [db_step] (proved in System.v), so an invariant of [db_step] is an
    invariant of the server. *)
From Stdlib Require Import String.
From S2P Require Import Prelude JsString Json Effects Errors Redis Schema World Crypto RedisSession RedisCache Socket.
From S2P Require Import ChannelMembers Messages Channels Reactions Users Keys Srp Auth LiveKit Calls.
From stdpp Require Import base list strings gmap relations.

Local Open Scope string_scope.
Local Open Scope Z_scope.
Local Open Scope list_scope.

(** The transaction of [deleteMessage]. *)
Definition deletion (channelId messageId : string) (now now' : Z) (d : Db) : Db :=
  let d1 := delete_reactions messageId (wipe_message messageId now d) in
  if match find_channel channelId d1 with Some c => c_lastMessageId c === Some messageId | None => false end
  then point_preview channelId (newest_remaining channelId messageId d1) now' d1
  else d1.

(** The promotion of [removeMember]. *)
Definition promotion (channelId : string) (d : Db) : Db :=
  match find_admin channelId d with
  | Some _ => d
  | None => match longest_standing channelId d with Some o => make_admin (mb_id o) d | None => d end
  end.

Definition promoted_user (channelId : string) (d : Db) : option string :=
  match find_admin channelId d with Some _ => None | None => mb_userId <$> longest_standing channelId d end.

(** The transaction of [removeMember], for a member with the given role. *)
Definition removal (channelId userId role : string) (now : Z) (d : Db) : Db :=
  let d1 := (delete_member channelId userId d).2 in
  set_updated channelId now (if role === "ADMIN" then promotion channelId d1 else d1).

(** A call that ends: the fields [endCallLog] and the webhooks set. *)
Definition ended (endedAt : Z) (duration : CallLogRow → Z) (c : CallLogRow) : CallLogRow :=
  c <| cl_endedAt := Some endedAt |> <| cl_duration := Some (duration c) |> <| cl_status := "completed" |>.

(** The end and the duration of a call are set together. *)
Definition end_coherent (c : CallLogRow) : Prop :=
  match cl_endedAt c, cl_duration c with
  | None, None => True
  | Some _, Some duration => 0 ≤ duration
  | _, _ => False
  end.

(** What the API promises of a stored message: some content unless it was deleted, of at
    most 10 KB, one of the four types, an IV and a tag of 1 to 32 characters, and as
    metadata nothing or an object of at most 64 KB. The columns are TEXT and JSON: nothing
    but the code keeps this. *)
Definition message_ok (m : MessageRow) : Prop :=
  (m_isDeleted m = true ∨ m_encryptedContent m ≠ "") ∧ byteLength (m_encryptedContent m) ≤ 10240 ∧
  m_messageType m ∈ ["TEXT"; "IMAGE"; "FILE"; "SYSTEM"] ∧
  (m_contentIv m ≠ "" ∧ js_length (m_contentIv m) ≤ 32) ∧ (m_contentTag m ≠ "" ∧ js_length (m_contentTag m) ≤ 32) ∧
  ∀ j, m_metadata m = Some j → (∃ fields, j = JObj fields) ∧ byteLength (stringify j) ≤ 65536.

(** What two requests may not do at the same time: open the conversation of a pair of
    users, and replace the reaction of a user on a message. *)
Inductive exclusive := PDirect (userId targetId : string) | PReaction (messageId userId : string).
Definition lock_of `{Env} (x : exclusive) : lock_key :=
  match x with PDirect a b => direct_lock a b | PReaction m u => reaction_lock m u end.

(** The reactions without those of the user on the message, the given emoji apart. *)
Definition without_others (messageId userId emoji : string) (d : Db) : Db :=
  d <| reactions := delete_where (λ r, user_reactions messageId userId r && (re_emoji r !== emoji)) (reactions d) |>.

(** The transitions, by the users who [acts]: only they write messages, reactions, read
    receipts, sender keys, their key pairs and their names. A transition labelled with [l]
    comes from a transaction that holds the lock of [l]. *)
Inductive step_at {A : Authority} (l : option exclusive) : Db → Db → Prop :=
| step_send d msg t now now' :
    insert_message d msg = Ok t →
    m_sequenceNumber msg = max_sequence (channel_messages (m_channelId msg) d) + 1 →
    m_isDeleted msg = false → acts (m_senderId msg) → message_ok msg →
    step_at l d (mark_own_read (m_senderId msg) (m_channelId msg) msg now'
                 (touch_channel (m_channelId msg) msg now (d <| messages := t |>)))
| step_delete d id msg now now' :
    find_message id d = Some msg → acts (m_senderId msg) → step_at l d (deletion (m_channelId msg) id now now' d)
| step_create d ch t rows t' :
    insert_channel d ch = Ok t →
    insert_rows (insert_membership (d <| channels := t |>)) (memberships d) rows = Ok t' →
    Forall (λ r, mb_channelId r = c_id ch) rows →
    (c_type ch = "DIRECT" → ∃ a b, l = Some (PDirect a b) ∧ map mb_userId rows = [a; b] ∧ direct_channels a b d = []) →
    c_type ch ∈ ["DIRECT"; "GROUP"] →
    step_at l d (d <| channels := t |> <| memberships := t' |>)
| step_member d row t :
    insert_membership d (memberships d) row = Ok t → is_direct d (mb_channelId row) = false →
    step_at l d (d <| memberships := t |>)
| step_remove d channelId userId role now :
    (delete_member channelId userId d).1 = Some role →
    step_at l d (removal channelId userId role now d)
| step_touch d channelId now : step_at l d (set_updated channelId now d)
| step_archive d channelId b now :
    step_at l d (d <| channels := update_where (λ c, c_id c === channelId)
                 (λ c, c <| c_isArchived := b |> <| c_updatedAt := now |>) (channels d) |>)
| step_watermark d snapshot membershipId msg now :
    msg ∈ messages d →
    step_at l d (advance_watermark snapshot membershipId (m_id msg) (m_sequenceNumber msg) now d).2
| step_read d row t : insert_messageRead d (messageReads d) row = Ok t → acts (mr_userId row) → step_at l d (d <| messageReads := t |>)
| step_react d messageId userId emoji row t :
    l = Some (PReaction messageId userId) → re_messageId row = messageId → re_userId row = userId → re_emoji row = emoji →
    insert_reaction (without_others messageId userId emoji d) (reactions (without_others messageId userId emoji d)) row = Ok t →
    acts userId → step_at l d (without_others messageId userId emoji d <| reactions := t |>)
| step_react_again d messageId userId emoji : acts userId → step_at l d (without_others messageId userId emoji d)
| step_unreact d messageId userId emoji : acts userId → step_at l d (delete_reaction messageId userId emoji d).2
| step_user d u t : insert_user d u = Ok t → step_at l d (d <| users := t |>)
| step_rotate d userId params now t :
    checked_update user_columns (λ u, (u_id u === userId) && (u_keyVersion u <? newKeyVersion params))
      (apply_rotation params now) (users d) = Ok t → acts userId →
    step_at l d (d <| users := t |>)
| step_rename d userId username now t :
    existsb (λ u, (u_username u === username) && (u_id u !== userId)) (users d)
      && existsb (λ u, u_id u === userId) (users d) = false →
    checked_update user_columns (λ u, u_id u === userId) (λ u, u <| u_username := username |> <| u_updatedAt := now |>)
      (users d) = Ok t → acts userId →
    step_at l d (d <| users := t |>)
| step_status d userId status : step_at l d (set_status userId status d)
| step_logged_in d userId now : step_at l d (set_logged_in userId now d)
| step_sender_keys d ownerId groupId epoch rows t :
    Forall (λ k, owned_keys ownerId groupId epoch k = true) rows →
    insert_rows (insert_senderKey (d <| senderKeys := delete_where (owned_keys ownerId groupId epoch) (senderKeys d) |>))
      (delete_where (owned_keys ownerId groupId epoch) (senderKeys d)) rows = Ok t → acts ownerId →
    step_at l d (d <| senderKeys := t |>)
| step_token d t r : insert_refreshToken d r = Ok t → step_at l d (d <| refreshTokens := t |>)
| step_token_expired d userId now : step_at l d (drop_expired userId now d)
| step_token_take d hash : step_at l d (take_token hash d).2
| step_token_drop d userId : step_at l d (drop_tokens userId d)
| step_audit d row t : insert_auditLog d row = Ok t → step_at l d (d <| auditLog := t |>)
| step_call d c t :
    insert_callLog d c = Ok t → end_coherent c → step_at l d (d <| callLogs := t |>)
| step_call_status d callLogId status :
    status = "completed" ∨ status = "rejected" → step_at l d (set_call_status callLogId status d)
| step_call_end d p endedAt duration t :
    (∀ c, 0 ≤ duration c) → checked_update callLog_columns p (ended endedAt duration) (callLogs d) = Ok t →
    step_at l d (d <| callLogs := t |>)
| step_participants d rows t :
    insert_ignoring (insert_callParticipant d) callParticipant_conflict (callParticipants d) rows = Ok t →
    step_at l d (d <| callParticipants := t |>)
| step_participant_back d callLogId userId now : step_at l d (reset_participant callLogId userId now d).2
| step_participant_left d id now duration t :
    0 ≤ duration →
    checked_update callParticipant_columns (λ p, cp_id p === id)
      (λ p, p <| cp_leftAt := Some now |> <| cp_duration := Some duration |>) (callParticipants d) = Ok t →
    step_at l d (d <| callParticipants := t |>).

Definition step_by {A : Authority} (d d' : Db) : Prop := ∃ l, step_at l d d'.

(** The transitions of everyone. *)
Abbreviation db_step := (step_by (A := everyone)).
Abbreviation db_steps := (rtc db_step).

Lemma step_everyone {A : Authority} d d' : step_by d d' → db_step d d'.
Proof.
  intros [l Hs]. exists l.
  destruct Hs; [eapply step_send|eapply step_delete|eapply step_create|eapply step_member|eapply step_remove|eapply
    step_touch|eapply step_archive|eapply step_watermark|eapply step_read|eapply step_react|eapply step_react_again|eapply
    step_unreact|eapply step_user|eapply step_rotate|eapply step_rename|eapply step_status|eapply step_logged_in|eapply
    step_sender_keys|eapply step_token|eapply step_token_expired|eapply step_token_take|eapply step_token_drop|eapply
    step_audit|eapply step_call|eapply step_call_status|eapply step_call_end|eapply step_participants|eapply
    step_participant_back|eapply step_participant_left]; first [eassumption|exact I].
Qed.
Lemma steps_everyone {A : Authority} d d' : rtc step_by d d' → db_steps d d'.
Proof. apply rtc_subrel, step_everyone. Qed.

(** ** How each table moves *)
Lemma insert_rows_app {A} column conflict fk (t rs t' : list A) :
  insert_rows (insert_row column conflict fk) t rs = Ok t' → t' = t ++ rs.
Proof.
  revert t. induction rs as [|r rs IH]; intros t; simpl; [intros [= <-]; by rewrite app_nil_r|].
  destruct (insert_row column conflict fk t r) as [t1|] eqn:H; [|done]. apply insert_row_ok in H as (-> & _).
  intros H. apply IH in H as ->. by rewrite <-app_assoc.
Qed.

Lemma promotion_frame c d : ∃ ms, promotion c d = d <| memberships := ms |>.
Proof.
  exists (memberships (promotion c d)). unfold promotion, make_admin. destruct d. by repeat case_match.
Qed.

Ltac use_promotion :=
  match goal with |- context [promotion ?c ?d] => destruct (promotion_frame c d) as [? ->] end.

Lemma deletion_frame c id now now' d :
  messages (deletion c id now now' d) = messages (wipe_message id now d) ∧
  memberships (deletion c id now now' d) = memberships d ∧ users (deletion c id now now' d) = users d ∧
  reactions (deletion c id now now' d) = delete_where (λ r, re_messageId r === id) (reactions d).
Proof. unfold deletion. cbv zeta. by case_match. Qed.

Lemma messages_step d d' : db_step d d' →
  messages d' = messages d ∨
  (∃ msg t, insert_message d msg = Ok t ∧ messages d' = messages d ++ [msg] ∧ m_isDeleted msg = false ∧
     m_sequenceNumber msg = max_sequence (channel_messages (m_channelId msg) d) + 1) ∨
  (∃ id now, messages d' = messages (wipe_message id now d)).
Proof.
  intros [l Hs]; destruct Hs; simpl; auto.
  - right; left. exists msg, t. apply insert_row_ok in H as H'. destruct H' as (-> & _). done.
  - right; right. exists id, now. apply deletion_frame.
  - left. case_match; [|done]. by use_promotion.
Qed.

(** Channels are inserted or updated in place, keeping their id and type. *)
Lemma channels_step d d' : db_step d d' →
  (∃ p f, channels d' = update_where p f (channels d) ∧ ∀ c, c_id (f c) = c_id c ∧ c_type (f c) = c_type c) ∨
  (∃ ch, channels d' = channels d ++ [ch] ∧ (∀ c, c ∈ channels d → c_id c ≠ c_id ch) ∧ c_type ch ∈ ["DIRECT"; "GROUP"]).
Proof.
  assert (Hsame : ∀ l : list ChannelRow, l = update_where (λ _, false) id l).
  { intros l. unfold update_where. induction l; simpl; congruence. }
  intros [l Hs]; destruct Hs; simpl; try (left; exists (λ _, false), Datatypes.id; split; [by rewrite <-Hsame|done]).
  - left. eexists _, _. split; [reflexivity|done].
  - left. unfold deletion. cbv zeta. case_match; simpl.
    + eexists _, _. split; [reflexivity|done].
    + exists (λ _, false), Datatypes.id. split; [by rewrite <-Hsame|done].
  - right. exists ch. apply insert_row_ok in H as (-> & _ & Hc & _). split; [done|]. split; [|done].
    intros c Hin. specialize (Hc c Hin). simpl in Hc. by apply bool_decide_eq_false in Hc; auto.
  - left. case_match; simpl; [use_promotion|];
      eexists _, _; (split; [reflexivity|done]).
  - left. eexists _, _. split; [reflexivity|done].
  - left. eexists _, _. split; [reflexivity|done].
Qed.

(** ** Facts that stay true: messages and channels are never removed *)
Definition core (m : MessageRow) := (m_id m, m_channelId m, m_senderId m, m_sequenceNumber m).

Lemma find_message_step id d d' m : db_step d d' → find_message id d = Some m →
  ∃ m', find_message id d' = Some m' ∧ core m' = core m.
Proof.
  intros Hs Hm. unfold find_message in *.
  destruct (messages_step _ _ Hs) as [->|[(msg & t & _ & -> & _)|(id' & now & ->)]]; [by eauto| |].
  - exists m. split; [by apply first_app|done].
  - cbn [messages wipe_message modify_field]. rewrite first_update by done. rewrite Hm. eexists. split; [reflexivity|].
    by case_match.
Qed.

Lemma find_message_steps id d d' m : db_steps d d' → find_message id d = Some m →
  ∃ m', find_message id d' = Some m' ∧ core m' = core m.
Proof.
  intros Hs. revert m. induction Hs as [d|d d1 d2 Hs _ IH]; intros m Hm; [by eauto|].
  destruct (find_message_step _ _ _ _ Hs Hm) as (m1 & Hm1 & Hc1). destruct (IH m1 Hm1) as (m2 & ? & Hc2).
  exists m2. split; [done|congruence].
Qed.

Lemma elem_message_step d d' m : db_step d d' → m ∈ messages d → ∃ m', m' ∈ messages d' ∧ core m' = core m.
Proof.
  intros Hs Hm. destruct (messages_step _ _ Hs) as [->|[(msg & t & _ & -> & _)|(id' & now & ->)]]; [by eauto| |].
  - exists m. split; [|done]. apply elem_of_app. by left.
  - eexists. split; [apply elem_of_update_where; exists m; split; [done|reflexivity]|]. by case_match.
Qed.

Lemma elem_message_steps d d' m : db_steps d d' → m ∈ messages d → ∃ m', m' ∈ messages d' ∧ core m' = core m.
Proof.
  intros Hs. revert m. induction Hs as [d|d d1 d2 Hs _ IH]; intros m Hm; [by eauto|].
  destruct (elem_message_step _ _ _ Hs Hm) as (m1 & Hm1 & Hc1). destruct (IH m1 Hm1) as (m2 & ? & Hc2).
  exists m2. split; [done|congruence].
Qed.

Lemma find_channel_step id d d' c : db_step d d' → find_channel id d = Some c →
  ∃ c', find_channel id d' = Some c' ∧ c_type c' = c_type c.
Proof.
  intros Hs Hc. unfold find_channel in *. destruct (channels_step _ _ Hs) as [(p & f & -> & Hf)|(ch & -> & _)].
  - rewrite first_update by (intros r _; by rewrite (proj1 (Hf r))). rewrite Hc. eexists. split; [reflexivity|].
    simpl. case_match; [apply Hf|done].
  - exists c. split; [by apply first_app|done].
Qed.

Lemma find_channel_steps id d d' c : db_steps d d' → find_channel id d = Some c →
  ∃ c', find_channel id d' = Some c' ∧ c_type c' = c_type c.
Proof.
  intros Hs. revert c. induction Hs as [d|d d1 d2 Hs _ IH]; intros c Hc; [by eauto|].
  destruct (find_channel_step _ _ _ _ Hs Hc) as (c1 & Hc1 & Ht1). destruct (IH c1 Hc1) as (c2 & ? & Ht2).
  exists c2. split; [done|congruence].
Qed.
