(* ===== verification/Exclusive.v ===== *)
(** * Exclusive: what the advisory locks protect

    The transitions labelled with a pair of users, or with a user and a message, come from
    transactions that hold the lock of the label.  Whoever holds that lock finds at its
    commit what it read before: no other transition opens a conversation of the pair, and
    none adds a reaction of the user.  [server_steps] puts the machine of DbStep.v and its
    locks together. *)
From Stdlib Require Import String.
From S2P Require Import Prelude JsString Json Effects Errors Redis Schema World Crypto RedisSession RedisCache Socket.
From S2P Require Import ChannelMembers Messages Channels Reactions Users Keys Srp Auth LiveKit Calls DbStep.
From stdpp Require Import base list strings gmap relations.

Local Open Scope string_scope.
Local Open Scope Z_scope.
Local Open Scope list_scope.

(** ** Direct channels *)
Definition both (d : Db) (c a b : string) : Prop := is_direct d c = true ∧ a ∈ member_ids c d ∧ b ∈ member_ids c d.
Definition memberships_fk (d : Db) : Prop := ∀ m, m ∈ memberships d → has_channel d (mb_channelId m) = true.

(** Two users share at most one DIRECT channel. *)
Definition direct_unique (d : Db) : Prop := ∀ a b c c', a ≠ b → both d c a b → both d c' a b → c = c'.

Lemma elem_of_member_ids c u d : u ∈ member_ids c d ↔ ∃ m, m ∈ memberships d ∧ mb_userId m = u ∧ mb_channelId m = c.
Proof.
  unfold member_ids. rewrite list_elem_of_In, in_map_iff. setoid_rewrite <-list_elem_of_In. setoid_rewrite elem_of_select.
  unfold in_channel. setoid_rewrite bool_decide_eq_true. naive_solver.
Qed.

Lemma find_channel_has c d : has_channel d c = true ↔ find_channel c d ≠ None.
Proof.
  unfold has_channel, find_channel. rewrite first_None, existsb_exists. setoid_rewrite <-list_elem_of_In. split.
  - intros (x & Hx & Hc) H. by rewrite H in Hc.
  - intros H. destruct (existsb (λ c0, c_id c0 === c) (channels d)) eqn:Hex.
    + apply existsb_exists in Hex as (x & Hx & Hc). exists x. by rewrite list_elem_of_In.
    + exfalso. apply H. intros r Hr. destruct (c_id r === c) eqn:Hrc; [|done].
      assert (existsb (λ c0, c_id c0 === c) (channels d) = true); [|congruence].
      apply existsb_exists. exists r. by rewrite <-list_elem_of_In.
Qed.

Lemma fresh_select c d : has_channel d c = false → select (λ x, c_id x === c) (channels d) = [].
Proof.
  intros Hn. apply filter_none. intros x Hx. destruct (c_id x === c) eqn:Heq; [|done].
  unfold has_channel in Hn. assert (existsb (λ c0, c_id c0 === c) (channels d) = true); [|congruence].
  apply existsb_exists. exists x. by rewrite <-list_elem_of_In.
Qed.

Lemma channel_update c p f d d' : channels d' = update_where p f (channels d) →
  (∀ x, c_id (f x) = c_id x ∧ c_type (f x) = c_type x) → is_direct d' c = is_direct d c ∧ has_channel d' c = has_channel d c.
Proof.
  intros Hc Hf.
  assert (find_channel c d' = (λ r, if p r then f r else r) <$> find_channel c d) as Hfc.
  { unfold find_channel. rewrite Hc. apply first_update. intros r _. by rewrite (proj1 (Hf r)). }
  split.
  - unfold is_direct. rewrite Hfc. destruct (find_channel c d) as [x|]; simpl; [|done]. case_match; [|done]. by rewrite (proj2 (Hf x)).
  - apply eq_true_iff_eq. rewrite !find_channel_has, Hfc. by destruct (find_channel c d).
Qed.

Lemma direct_channels_spec a b d c : c ∈ direct_channels a b d ↔ both d c a b.
Proof.
  unfold direct_channels, both, db_member.
  rewrite list_elem_of_In, filter_In, <-list_elem_of_In, elem_of_unique, !andb_true_iff, !bool_decide_eq_true.
  split; [naive_solver|]. intros (Hd & Ha & Hb). split; [|done]. apply elem_of_member_ids in Ha as (m & Hm & Hu & Hc).
  apply list_elem_of_In, in_map_iff. exists m. split; [done|]. apply list_elem_of_In, elem_of_select. split; [done|].
  by rewrite bool_decide_eq_true_2.
Qed.

(** What a transition does to channels and memberships together. *)
Definition members_from (d d' : Db) : Prop :=
  ∀ m', m' ∈ memberships d' →
    (∃ m, m ∈ memberships d ∧ mb_userId m = mb_userId m' ∧ mb_channelId m = mb_channelId m') ∨
    (is_direct d (mb_channelId m') = false ∧ has_channel d (mb_channelId m') = true).

Definition created_channel (l : option exclusive) (d d' : Db) : Prop :=
  ∃ ch rows, channels d' = channels d ++ [ch] ∧ memberships d' = memberships d ++ rows ∧
    Forall (λ r, mb_channelId r = c_id ch) rows ∧ has_channel d (c_id ch) = false ∧
    (c_type ch = "DIRECT" → ∃ a b, l = Some (PDirect a b) ∧ map mb_userId rows = [a; b] ∧ direct_channels a b d = []).

Lemma members_from_update p f d d' :
  memberships d' = update_where p f (memberships d) →
  (∀ m, mb_userId (f m) = mb_userId m ∧ mb_channelId (f m) = mb_channelId m) → members_from d d'.
Proof.
  intros Hm Hf m' Hin. rewrite Hm in Hin. apply elem_of_update_where in Hin as (m & Hin & ->). left. exists m.
  split; [done|]. by case_match; [destruct (Hf m)|].
Qed.

Lemma members_from_sub d d' : (∀ m, m ∈ memberships d' → m ∈ memberships d) → members_from d d'.
Proof. intros H m' Hm'. left. exists m'. auto. Qed.

Lemma members_step {A : Authority} l d d' : step_at l d d' → members_from d d' ∨ created_channel l d d'.
Proof.
  destruct 1; try (left; apply members_from_sub; by intros m Hm).
  - left. by eapply members_from_update.
  - left. apply members_from_sub. intros m Hm. by rewrite (proj1 (proj2 (deletion_frame _ _ _ _ _))) in Hm.
  - right. exists ch, rows. apply insert_row_ok in H as (-> & _ & Hc & _). unfold insert_membership in H0. apply insert_rows_app in H0 as ->.
    split; [done|]. split; [done|]. split; [done|]. split; [|done].
    unfold has_channel. apply not_true_iff_false. rewrite existsb_exists. intros (x & Hx%list_elem_of_In & Heq).
    specialize (Hc x Hx). simpl in Hc. boolp. congruence.
  - left. intros m' Hm'. cbn in Hm'. unfold insert_membership in H. apply insert_row_ok in H as (-> & _ & _ & Hfk).
    apply elem_of_app in Hm' as [Hm'|Hm']; [left; by exists m'|]. apply list_elem_of_singleton in Hm' as ->. right.
    unfold membership_fk in Hfk. by boolp.
  - left. intros m' Hm'. assert (∃ m, m ∈ memberships (delete_member channelId userId d).2 ∧
      mb_userId m = mb_userId m' ∧ mb_channelId m = mb_channelId m') as (m & Hm & ? & ?).
    { unfold removal in Hm'. cbv zeta in Hm'. cbn [set_updated memberships modify_field] in Hm'. unfold promotion, make_admin in Hm'. repeat case_match; try by exists m'.
      all: apply elem_of_update_where in Hm' as (m1 & Hm1 & ->); exists m1; split; [done|]; by case_match. }
    left. exists m. split; [|done]. by apply elem_of_delete_where in Hm as [? _].
  - left. by eapply members_from_update.
Qed.

(** Every membership names an existing channel, and the pairs are unique. *)
Definition direct_inv (d : Db) : Prop := memberships_fk d ∧ direct_unique d.

Lemma is_direct_has d c : is_direct d c = true → has_channel d c = true.
Proof. intros H. apply find_channel_has. unfold is_direct in H. by destruct (find_channel c d). Qed.

Lemma member_has d c u : memberships_fk d → u ∈ member_ids c d → has_channel d c = true.
Proof. intros Hfk (m & Hm & _ & <-)%elem_of_member_ids. by apply Hfk. Qed.

Lemma both_from d d' c a b : members_from d d' → is_direct d' c = is_direct d c → both d' c a b → both d c a b.
Proof.
  intros Hf Hd (Hc & Ha & Hb). rewrite Hd in Hc. split; [done|].
  apply elem_of_member_ids in Ha as (ma & Hma & Hua & Hca), Hb as (mb & Hmb & Hub & Hcb).
  split; [destruct (Hf _ Hma) as [(m & ? & ? & ?)|[Hn _]]|destruct (Hf _ Hmb) as [(m & ? & ? & ?)|[Hn _]]];
    try (apply elem_of_member_ids; exists m; split; [done|split; congruence]); congruence.
Qed.

Lemma channel_append c ch d d' : channels d' = channels d ++ [ch] → has_channel d c = true →
  is_direct d' c = is_direct d c ∧ has_channel d' c = true.
Proof.
  intros Hc Hh. apply find_channel_has in Hh. destruct (find_channel c d) as [x|] eqn:Hx; [|done].
  assert (find_channel c d' = Some x) as Hx' by (unfold find_channel; rewrite Hc; by apply first_app).
  split; [unfold is_direct; by rewrite Hx, Hx'|]. apply find_channel_has. by rewrite Hx'.
Qed.

(** Members of channels that existed before. *)
Lemma old_channel d d' c u : memberships_fk d → members_from d d' → u ∈ member_ids c d' → has_channel d c = true.
Proof.
  intros Hfk Hf (m & Hm & _ & <-)%elem_of_member_ids. destruct (Hf _ Hm) as [(m0 & Hm0 & _ & <-)|[_ ?]]; [by apply Hfk|done].
Qed.

Lemma created_members d ch rows c u :
  Forall (λ r, mb_channelId r = c_id ch) rows → u ∈ member_ids c (d <| memberships := memberships d ++ rows |>) →
  c ≠ c_id ch → u ∈ member_ids c d.
Proof.
  intros Hr (m & Hm & Hu & Hc)%elem_of_member_ids Hne. apply elem_of_app in Hm as [Hm|Hm].
  - apply elem_of_member_ids. eauto.
  - rewrite Forall_forall in Hr. specialize (Hr _ Hm). congruence.
Qed.

Lemma created_direct d ch rows u :
  memberships_fk d → has_channel d (c_id ch) = false →
  u ∈ member_ids (c_id ch) (d <| memberships := memberships d ++ rows |>) → u ∈ map mb_userId rows.
Proof.
  intros Hfk Hn (m & Hm & Hu & Hc)%elem_of_member_ids. apply elem_of_app in Hm as [Hm|Hm].
  - specialize (Hfk _ Hm). congruence.
  - subst u. apply list_elem_of_In, in_map. by apply list_elem_of_In.
Qed.

Lemma created_is_direct d d' ch : channels d' = channels d ++ [ch] → has_channel d (c_id ch) = false →
  is_direct d' (c_id ch) = true → c_type ch = "DIRECT".
Proof.
  intros Hch Hnew Hd. unfold is_direct, find_channel in Hd. rewrite Hch, select_app, fresh_select in Hd by done.
  cbn [app head select List.filter] in Hd. rewrite bool_decide_eq_true_2 in Hd by done. cbn [head] in Hd. by boolp.
Qed.
Lemma direct_inv_created l d d' : direct_inv d → created_channel l d d' → direct_inv d'.
Proof.
  intros [Hfk Hun] (ch & rows & Hch & Hms & Hrows & Hnew & Hdir).
  assert (Hmem : ∀ c, member_ids c d' = member_ids c (d <| memberships := memberships d ++ rows |>))
    by (intros c; unfold member_ids; by rewrite Hms).
  assert (Hself : has_channel d' (c_id ch) = true).
  { apply existsb_exists. exists ch. split; [|by apply bool_decide_eq_true_2]. rewrite Hch, in_app_iff. right. by left. }
  assert (Hold : ∀ c a b, c ≠ c_id ch → both d' c a b → both d c a b).
  { intros c a b Hne (Hd & Ha & Hb). rewrite Hmem in Ha, Hb.
    assert (Ha' := created_members _ _ _ _ _ Hrows Ha Hne). assert (Hb' := created_members _ _ _ _ _ Hrows Hb Hne).
    split; [|done]. by rewrite <-(proj1 (channel_append c ch d d' Hch (member_has _ _ _ Hfk Ha'))). }
  assert (Hfirst : ∀ a b c, a ≠ b → both d' (c_id ch) a b → both d' c a b → c = c_id ch).
  { intros a b c Hab (Hd & Ha & Hb) Hc. destruct (decide (c = c_id ch)) as [|Hne]; [done|]. exfalso.
    assert (c_type ch = "DIRECT") as Ht.
    { unfold is_direct, find_channel in Hd. rewrite Hch, select_app in Hd.
      rewrite fresh_select in Hd by done. simpl in Hd. rewrite bool_decide_eq_true_2 in Hd by done. simpl in Hd. by boolp. }
    destruct (Hdir Ht) as (x & y & _ & Hxy & Hempty). rewrite Hmem in Ha, Hb.
    assert (Ha' := created_direct _ _ _ _ Hfk Hnew Ha). assert (Hb' := created_direct _ _ _ _ Hfk Hnew Hb).
    rewrite Hxy in Ha', Hb'. specialize (Hold c a b Hne Hc). destruct Hold as (Hdc & Hac & Hbc).
    assert (c ∈ direct_channels x y d); [|by rewrite Hempty in *; set_solver].
    apply direct_channels_spec. rewrite !elem_of_cons, elem_of_nil in Ha', Hb'.
    destruct Ha' as [->|[->|[]]], Hb' as [->|[->|[]]]; done. }
  split.
  - intros m Hm. rewrite Hms in Hm. apply elem_of_app in Hm as [Hm|Hm].
    + by apply (channel_append (mb_channelId m) ch d d' Hch), Hfk.
    + rewrite Forall_forall in Hrows. by rewrite (Hrows _ Hm).
  - intros a b c c' Hab H1 H2. destruct (decide (c = c_id ch)) as [->|Hc]; [symmetry; by apply (Hfirst a b c')|].
    destruct (decide (c' = c_id ch)) as [->|Hc']; [by apply (Hfirst a b c)|]. by apply (Hun a b); auto.
Qed.

Lemma channels_kept d d' c : db_step d d' → has_channel d c = true → is_direct d' c = is_direct d c ∧ has_channel d' c = true.
Proof.
  intros Hs Hh. destruct (channels_step _ _ Hs) as [(p & f & Hp & Hpf)|(ch & Hch & _)]; [|by eapply channel_append].
  rewrite <-Hh. by eapply channel_update.
Qed.

Lemma memberships_fk_step {A : Authority} l d d' : step_at l d d' → memberships_fk d → memberships_fk d'.
Proof.
  intros Hs Hfk. assert (Hd : db_step d d') by (apply step_everyone; by exists l).
  destruct (members_step _ _ _ Hs) as [Hf|(ch & rows & Hch & Hms & Hrows & Hnew & _)]; intros m' Hm'.
  - destruct (Hf _ Hm') as [(m & Hm & _ & <-)|[_ ?]]; apply (channels_kept d d' _ Hd); [by apply Hfk|done].
  - rewrite Hms in Hm'. apply elem_of_app in Hm' as [Hm'|Hm']; [by apply (channels_kept d d' _ Hd), Hfk|].
    rewrite Forall_forall in Hrows. rewrite (Hrows _ Hm'). apply existsb_exists. exists ch.
    split; [|by apply bool_decide_eq_true_2]. rewrite Hch, in_app_iff. right. by left.
Qed.

Lemma direct_inv_step d d' : direct_inv d → db_step d d' → direct_inv d'.
Proof.
  intros Hinv [l Hs]. destruct (members_step _ _ _ Hs) as [Hf|Hcr]; [|by eapply direct_inv_created].
  assert (Hd : db_step d d') by by exists l. destruct Hinv as [Hfk Hun]. split; [by eapply memberships_fk_step|].
  intros a b c c' Hab H1 H2. apply (Hun a b c c' Hab); (eapply both_from; [exact Hf| |done]); apply (channels_kept d d' _ Hd).
  - eapply old_channel; [done..|apply H1].
  - eapply old_channel; [done..|apply H2].
Qed.

(** The lock does not depend on who asks. *)
Lemma direct_lock_sym `{Env} a b : direct_lock a b = direct_lock b a.
Proof.
  unfold direct_lock. destruct (String.leb a b) eqn:Hab, (String.leb b a) eqn:Hba; try done.
  - by rewrite (String.leb_antisym a b Hab Hba).
  - destruct (String.leb_total a b); congruence.
Qed.

(** Whoever does not hold the lock of two users opens no conversation of theirs. *)
Lemma no_direct_step `{Env} {A : Authority} l d d' a b : a ≠ b → step_at l d d' →
  (∀ x, l = Some x → lock_of x ≠ direct_lock a b) → memberships_fk d → direct_channels a b d = [] → direct_channels a b d' = [].
Proof.
  intros Hab Hs Hl Hfk Hno. assert (Hd : db_step d d') by (apply step_everyone; by exists l).
  assert (Hnone : ∀ c, ¬ both d c a b) by (intros c Hc%direct_channels_spec; rewrite Hno in Hc; by apply not_elem_of_nil in Hc).
  apply elem_of_nil_inv. intros c (Hc & Ha & Hb)%direct_channels_spec.
  destruct (members_step _ _ _ Hs) as [Hf|(ch & rows & Hch & Hms & Hrows & Hnew & Hdir)].
  - apply (Hnone c). eapply both_from; [exact Hf| |done]. apply (channels_kept d d' c Hd). by eapply old_channel.
  - assert (Hmem : ∀ u, u ∈ member_ids c d' → u ∈ member_ids c (d <| memberships := memberships d ++ rows |>))
      by (intros u; unfold member_ids; by rewrite Hms).
    destruct (decide (c = c_id ch)) as [->|Hne].
    + destruct Hdir as (x & y & -> & Hxy & _).
      { unfold is_direct, find_channel in Hc. rewrite Hch, select_app, fresh_select in Hc by done.
        cbn [app head select List.filter] in Hc. rewrite bool_decide_eq_true_2 in Hc by done. cbn [head] in Hc. by boolp. }
      pose proof (created_direct _ _ _ _ Hfk Hnew (Hmem _ Ha)) as Ha'. pose proof (created_direct _ _ _ _ Hfk Hnew (Hmem _ Hb)) as Hb'.
      rewrite Hxy, !elem_of_cons, elem_of_nil in Ha', Hb'. apply (Hl _ eq_refl). cbn [lock_of].
      destruct Ha' as [->|[->|[]]], Hb' as [->|[->|[]]]; [done|done|apply direct_lock_sym|done].
    + apply (Hnone c). pose proof (created_members _ _ _ _ _ Hrows (Hmem _ Ha) Hne) as Ha'.
      pose proof (created_members _ _ _ _ _ Hrows (Hmem _ Hb) Hne). split; [|done].
      by rewrite <-(proj1 (channels_kept d d' c Hd (member_has _ _ _ Hfk Ha'))).
Qed.

(** ** Reactions *)
Lemma reactions_step {A : Authority} l d d' : step_at l d d' →
  reactions d' = reactions d ∨ (∃ p, reactions d' = delete_where p (reactions d)) ∨
  (∃ row t, l = Some (PReaction (re_messageId row) (re_userId row)) ∧ reactions d' = t ++ [row] ∧
     t = delete_where (λ r, user_reactions (re_messageId row) (re_userId row) r && (re_emoji r !== re_emoji row)) (reactions d) ∧
     (∀ r, r ∈ t → reaction_index row r = false)).
Proof.
  destruct 1; simpl; auto.
  - right; left. eexists. apply deletion_frame.
  - left. case_match; [|done]. by use_promotion.
  - right; right. exists row. eexists. subst. split; [done|]. unfold insert_reaction in *.
    match goal with H : insert_row _ _ _ _ _ = Ok _ |- _ => apply insert_row_ok in H as (-> & _ & Hc & _) end.
    split; [reflexivity|]. split; [done|]. intros r Hr. specialize (Hc r Hr). by apply orb_false_iff in Hc as [_ ?].
  - right; left. by eexists.
  - right; left. by eexists.
Qed.

(** Whoever does not hold the lock of a user and a message adds no reaction of theirs. *)
Lemma no_reaction_step `{Env} {A : Authority} l d d' m u r : step_at l d d' →
  (∀ x, l = Some x → lock_of x ≠ reaction_lock m u) → r ∈ reactions d' → user_reactions m u r = true → r ∈ reactions d.
Proof.
  intros Hs Hl Hr Hu. destruct (reactions_step _ _ _ Hs) as [<-|[(p & Hp)|(row & t & -> & Hd & -> & _)]]; [done|..].
  - rewrite Hp in Hr. by apply elem_of_delete_where in Hr as [? _].
  - rewrite Hd in Hr. apply elem_of_app in Hr as [Hr|Hr]; [by apply elem_of_delete_where in Hr as [? _]|].
    apply list_elem_of_singleton in Hr as ->. unfold user_reactions in Hu. boolp. subst. exfalso. by apply (Hl _ eq_refl).
Qed.

(** ** The machine of the server with its locks *)
Definition server_steps `{Env} {A : Authority} : Steps :=
  mkSteps exclusive step_at lock_of memberships_fk memberships_fk_step.

Section Held.
Context `{Env} {A : Authority}.

Lemma no_direct_steps d d' a b : a ≠ b → rtc (away server_steps (direct_lock a b)) d d' →
  memberships_fk d → direct_channels a b d = [] → direct_channels a b d' = [].
Proof.
  intros Hab. induction 1 as [|d d1 d2 (l & Hs & Hl) _ IH]; intros Hfk Hno; [done|].
  apply IH; [by eapply memberships_fk_step|by eapply no_direct_step].
Qed.
Lemma no_reaction_steps d d' m u r : rtc (away server_steps (reaction_lock m u)) d d' →
  r ∈ reactions d' → user_reactions m u r = true → r ∈ reactions d.
Proof.
  induction 1 as [|d d1 d2 (l & Hs & Hl) _ IH]; intros Hr Hu; [done|]. eapply no_reaction_step; [exact Hs|exact Hl|by apply IH|done].
Qed.

(** The rows listed under the lock are those to replace when the transaction commits. *)
Lemma replaced_still d d' m u e : rtc (away server_steps (reaction_lock m u)) d d' →
  delete_listed (replaced_rows m u e d) d' = without_others m u e d'.
Proof.
  intros Hs. unfold delete_listed, without_others.
  assert (∀ l l', l = l' → d' <| reactions := l |> = d' <| reactions := l' |>) as Hsame by by intros l l' ->.
  apply Hsame. unfold delete_where, replaced_rows. apply List.filter_ext_in. intros r Hr%list_elem_of_In. f_equal. apply eq_true_iff_eq.
  rewrite bool_decide_eq_true, elem_of_select. split; [by intros [_ ?]|]. intros Hp. split; [|done].
  apply andb_true_iff in Hp as [Hp _]. by eapply no_reaction_steps.
Qed.
End Held.
