(* ===== verification/System.v ===== *)
(** * System: every handler moves the tables along [db_step]

    [request] lists the entry points of the services, [handle] runs the handler of
    a request to its end, and a pool of handlers interleaves at their external
    calls.  [handlers_refine] is the refinement: whatever Redis, Socket.IO, the queue
    and the database driver answer, each step of such a pool is a [db_step] or leaves
    the tables alone. *)
From Stdlib Require Import String.
From S2P Require Import Prelude JsString Json Effects Errors Redis Schema World Crypto Config RateLimit RedisSession.
From S2P Require Import RedisCache Socket ChannelMembers Messages Channels Reactions Users Keys Srp Auth Chat.
From S2P Require Import Dto Http Uploads Controllers Routes.
From S2P Require Import LiveKit Validation SocketAuth SocketGateway ChatGateway Calls CallGateway Events Footprint DbStep Exclusive.
From stdpp Require Import base list strings gmap relations.

Local Open Scope string_scope.
Local Open Scope Z_scope.
Local Open Scope list_scope.

(** ** Handlers *)
Inductive request :=
| RSend (input : SendMessageInput) (exceptSocket : option string)
| RGetMessages (channelId userId : string) (limit : Z) (cursor : option Z) (mode : MessagePageMode)
| RDeleteMessage (userId messageId : string)
| RDeliver (message : option PendingMessage) (recipientIds offlineUserIds : option (list string))
| RCreateChannel (userId : string) (participantIds : list string) (type : string) (name : option string)
| RGetInbox (userId : string)
| RMarkRead (userId channelId messageId : string)
| RGetChannel (channelId userId : string)
| RAddMember (channelId requesterId newUserId : string) (role : option string)
| RRemoveMember (channelId requesterId targetUserId : string)
| RArchive (channelId userId : string)
| RGetTyping (channelId userId : string)
| RGetReadReceipts (channelId userId : string)
| RAddReaction (actor : ReactionActor) (channelId messageId emoji : string)
| RRemoveReaction (actor : ReactionActor) (channelId messageId emoji : string)
| RGetReactions (messageId userId channelId : string)
| RGetPublicKeys (userIds : list string)
| RGetMyKeys (userId : string)
| RRotateKeys (userId : string) (params : RotateKeysParams)
| RUploadSenderKeys (ownerId groupId : string) (epoch : Z) (items : list SenderKeyItem)
| RGetSenderKeys (groupId receiverId : string) (epoch : option Z)
| RFindUser (id : string)
| RUpdateProfile (userId username : string)
| RSearch (term currentUserId : string) (limit : nat)
| RRegister (username email password : string)
| RLoginStart (username : string)
| RLoginFinish (params : LoginParams)
| RRefresh (token : string)
| RProfile (userId : string)
| RLogout (userId : string)
| RUnread (userId : string)
| RPending (userId : string)
| RDMPeers (userId : string)
| RLogs (q : LogQuery)
| RSecurityEvents (userId : string)
| RConnect (client : Client)
| REvent (client : Client) (event : string) (data : json)
| RDisconnect (client : Client)
| RCallDisconnect (client : Client)
| RHeartbeat (client : Client)
| RTypingTimeout (timer : nat)
| RModuleDestroy
| RLivekitToken (userId username roomName : string)
| RLivekitWebhook (rawBody authHeader : option string)
| RCallHistory (userId : string) (page limit : Z)
| RCallHistoryWith (userId otherUserId : string) (limit : Z)
| RHttp (req : HttpRequest).

Section System.
Context {R : Redis} {E : Env} {C : Crypto} {J : Jwt} {P : Environment} {V : ClassValidator} {L : LiveKit} {F : Framework} {K : Cloudinary}.

Definition handle (r : request) : M () :=
  match r with
  | RSend input s => serve (send input s)
  | RGetMessages c u l cur m => serve (getMessages c u l cur m)
  | RDeleteMessage u m => serve (deleteMessage u m)
  | RDeliver m r o => serve (process m r o)
  | RCreateChannel u ps t n => serve (create u ps t n)
  | RGetInbox u => serve (getInbox u)
  | RMarkRead u c m => serve (markRead u c m)
  | RGetChannel c u => serve (getChannel c u)
  | RAddMember c u v role => serve (addMember c u v role)
  | RRemoveMember c u v => serve (removeMember c u v)
  | RArchive c u => serve (archive c u)
  | RGetTyping c u => serve (getTypingUsersOf c u)
  | RGetReadReceipts c u => serve (getReadReceipts c u)
  | RAddReaction a c m e => serve (addReaction a c m e)
  | RRemoveReaction a c m e => serve (removeReaction a c m e)
  | RGetReactions m u c => serve (getReactions m u c)
  | RGetPublicKeys us => serve (getPublicKeys us)
  | RGetMyKeys u => serve (getMyKeys u)
  | RRotateKeys u ps => serve (rotateKeys u ps)
  | RUploadSenderKeys u g e items => serve (uploadSenderKeys u g e items)
  | RGetSenderKeys g u e => serve (getSenderKeys g u e)
  | RFindUser u => serve (findPublicById u)
  | RUpdateProfile u n => serve (updateProfile u n)
  | RSearch q u l => serve (search q u l)
  | RRegister n e p => serve (register n e p)
  | RLoginStart n => serve (loginStart n)
  | RLoginFinish ps => serve (loginFinish ps)
  | RRefresh t => serve (refreshTokens_handler t)
  | RProfile u => serve (getProfile u)
  | RLogout u => serve (logout u)
  | RUnread u => serve (getUserUnreadCounts u)
  | RPending u => serve (deliverPendingMessages u)
  | RDMPeers u => serve (getUserDMPeers u)
  | RLogs q => serve (getLogs q)
  | RSecurityEvents u => serve (getSecurityEvents u)
  | RConnect c => serve (handleConnection c)
  | REvent c ev data => serve (on_event c ev data)
  | RDisconnect c => serve (handleDisconnect c)
  | RCallDisconnect c => serve (call_handleDisconnect c)
  | RHeartbeat c => serve (heartbeat_tick c)
  | RTypingTimeout t => serve (typing_timeout t)
  | RModuleDestroy => serve SocketGateway_onModuleDestroy
  | RLivekitToken u n r => serve (getToken u n r)
  | RLivekitWebhook b h => serve (webhook b h)
  | RCallHistory u p l => serve (getHistory u p l)
  | RCallHistoryWith u v l => serve (getHistoryWithUser u v l)
  | RHttp req => serve (serve_http req)
  end.

Section Steps.
Context {A : Authority}.
#[local] Abbreviation ssafe := (dsafe server_steps).

Hint Extern 1 (acts _) => match goal with H : acts _ |- _ => exact H end : safe.

(** ** Statements that write *)
Lemma s_audit a u d ip : ssafe (audit a u d ip).
Proof.
  safe_handler. apply dsafe_statement. intros n db x db' H. case_match; simplify_eq. by eapply rc_once, step_audit.
Qed.
Lemma s_record_read m u t : acts u → ssafe (record_read m u t).
Proof.
  intros Hu. safe_handler. apply dsafe_statement. intros n db x db' H. unfold insert_or_ignore in H.
  repeat case_match; simplify_eq; [by eapply rc_once, step_read|apply rc_refl].
Qed.
Lemma s_insert_token h u t : ssafe (insert_token h u t).
Proof.
  safe_handler. apply dsafe_statement. intros n db x db' H. case_match eqn:Hi; simplify_eq.
  by eapply rc_once, step_token.
Qed.
Lemma s_drop_expired u now : ssafe (execute (λ _ d, (tt, drop_expired u now d))).
Proof. apply dsafe_execute. intros n d. apply rc_once, step_token_expired. Qed.
Lemma s_drop_tokens u : ssafe (execute (λ _ d, (tt, drop_tokens u d))).
Proof. apply dsafe_execute. intros n d. apply rc_once, step_token_drop. Qed.
Lemma s_take_token h : ssafe (execute (λ _ d, take_token h d)).
Proof. apply dsafe_execute. intros n d. apply rc_once, step_token_take. Qed.
Lemma s_set_status u st : ssafe (execute (λ _ d, (tt, set_status u st d))).
Proof. apply dsafe_execute. intros n d. apply rc_once, step_status. Qed.
Lemma s_set_logged_in u now : ssafe (execute (λ _ d, (tt, set_logged_in u now d))).
Proof. apply dsafe_execute. intros n d. apply rc_once, step_logged_in. Qed.
Lemma s_set_updated c now : ssafe (execute (λ _ d, (tt, set_updated c now d))).
Proof. apply dsafe_execute. intros n d. apply rc_once, step_touch. Qed.
Lemma s_insert_user_row row : ssafe (insert_user_row row).
Proof.
  safe_handler. apply dsafe_statement. intros n db x db' H. case_match eqn:Hi; simplify_eq. by eapply rc_once, step_user.
Qed.
Lemma s_rotate_row u ps now : acts u → ssafe (rotate_row u ps now).
Proof.
  intros Hu. safe_handler. apply dsafe_statement. intros n db x db' H. case_match eqn:Hi; simplify_eq. by eapply rc_once, step_rotate.
Qed.
Lemma s_rename_row u n now : acts u → ssafe (rename_row u n now).
Proof.
  intros Hu. safe_handler. apply dsafe_statement. intros k db x db' H. case_match eqn:Hc; [done|].
  case_match eqn:Hi; simplify_eq. by eapply rc_once, step_rename.
Qed.
Lemma s_delete_reaction m u e : acts u → ssafe (execute (λ _ d, delete_reaction m u e d)).
Proof. intros Hu. apply dsafe_execute. intros n d. by apply rc_once, step_unreact. Qed.
Hint Resolve s_audit s_record_read s_insert_token s_drop_expired s_drop_tokens s_take_token s_set_status s_set_logged_in
  s_set_updated s_insert_user_row s_rotate_row s_rename_row s_delete_reaction : safe.

(** ** Statements of the call log *)
Lemma s_insert_call_log row : (∀ n, end_coherent (row n)) → ssafe (insert_call_log row).
Proof.
  intros Hrow. apply dsafe_statement. intros n db x db' H. case_match eqn:Hi; simplify_eq. by eapply rc_once, step_call.
Qed.
Lemma s_createCallLog t u v r c : ssafe (createCallLog t u v r c).
Proof. by apply s_insert_call_log. Qed.
Lemma s_updateCallLogAccepted i : ssafe (updateCallLogAccepted i).
Proof. apply dsafe_execute. intros n d. apply rc_once, step_call_status. auto. Qed.
Lemma s_updateCallLogRejected i : ssafe (updateCallLogRejected i).
Proof. apply dsafe_execute. intros n d. apply rc_once, step_call_status. auto. Qed.
Lemma s_close_call_log i now duration : 0 ≤ duration → ssafe (close_call_log i now duration).
Proof.
  intros Hd. apply dsafe_statement. intros n db x db' H. case_match eqn:Hi; simplify_eq.
  by eapply rc_once, (step_call_end _ _ _ now (λ _, duration)).
Qed.
Lemma s_close_open_calls r now : ssafe (close_open_calls r now).
Proof.
  apply dsafe_statement. intros n db x db' H. cbv zeta in H. case_match eqn:Hi; simplify_eq.
  eapply rc_once, (step_call_end _ _ _ now (λ c, elapsed_seconds (cl_startedAt c) (now_at n))); [|exact Hi].
  intros c. unfold elapsed_seconds. lia.
Qed.
Lemma s_insert_participants rows : ssafe (insert_participants rows).
Proof.
  apply dsafe_statement. intros n db x db' H. case_match eqn:Hi; simplify_eq. by eapply rc_once, step_participants.
Qed.
Lemma s_reset_participant l u now : ssafe (execute (λ _ d, reset_participant l u now d)).
Proof. apply dsafe_execute. intros n d. apply rc_once, step_participant_back. Qed.
Lemma s_participant_left i now duration : 0 ≤ duration → ssafe (participant_left i now duration).
Proof.
  intros Hd. apply dsafe_statement. intros n db x db' H. case_match eqn:Hi; simplify_eq. by eapply rc_once, step_participant_left.
Qed.
Lemma whole_seconds_nonneg a b : 0 ≤ whole_seconds a b.
Proof. unfold whole_seconds. lia. Qed.
Hint Resolve s_createCallLog s_updateCallLogAccepted s_updateCallLogRejected s_close_call_log s_close_open_calls
  s_insert_participants s_reset_participant s_participant_left whole_seconds_nonneg : safe.

(** ** Transactions: run alone, committed at once *)
Ltac wp_read := apply wp_query; [done|].
Ltac wp_write := apply wp_statement; [done|intros ? ? ?].

Lemma within_limits input seq n : assertSendLimits input = None → message_ok (new_message input seq n).
Proof.
  unfold assertSendLimits, message_ok, new_message. intros H. cbn [m_isDeleted m_encryptedContent m_messageType m_contentIv m_contentTag m_metadata].
  destruct (si_encryptedContent input === "") eqn:Hempty; [done|].
  destruct (MAX_ENCRYPTED_CONTENT_BYTES <? _) eqn:Hsize; [done|]. destruct (_ || _) eqn:Hiv; [done|].
  destruct (match si_messageType input with Some _ => _ | None => _ end) eqn:Htype; [done|].
  repeat (apply orb_false_iff in Hiv as [Hiv ?]). boolp. apply Z.ltb_ge in Hsize. unfold MAX_ENCRYPTED_CONTENT_BYTES in *.
  split_and!; try done; [by right|by apply Z.ltb_ge| |..].
  - destruct (si_messageType input) as [t|]; [|by left]. cbn [default]. apply negb_false_iff, bool_decide_eq_true in Htype. exact Htype.
  - destruct (si_metadata input) as [[]|]; intros j Hj; simplify_eq/=; try done. split; [by eexists|].
    case_match eqn:Hmeta; [done|]. apply Z.ltb_ge in Hmeta. exact Hmeta.
Qed.

Lemma s_insert_in_transaction input : acts (si_userId input) → assertSendLimits input = None → ssafe (transaction (insert_in_transaction input)).
Proof.
  intros Hu Hlim. apply dsafe_transaction; [unfold insert_in_transaction, nextSequence, insert_new_message; repeat offstage_step|]. intros w. unfold insert_in_transaction, nextSequence, insert_new_message. wp_steps. wp_read.
  wp_steps. wp_read. wp_steps. apply wp_statement; [done|]. intros msg d1 H1. case_match eqn:Hi; simplify_eq. wp_steps.
  apply wp_statement; [done|]. intros x d2 [= <- <-]. wp_steps.
  apply wp_statement; [done|]. intros y d3 [= <- <-]. wp_steps.
  apply rc_once. apply (step_send _ (w_db w) _ _ _ _ Hi); [done..|by apply within_limits].
Qed.

Lemma s_insertWithSequence input : acts (si_userId input) → assertSendLimits input = None → ssafe (insertWithSequence input).
Proof.
  intros Hu Hlim. unfold insertWithSequence. generalize MAX_SEQUENCE_RETRIES as k. induction k as [|k IH]; cbn [insert_attempts]; [done|].
  apply dsafe_catch; [by apply s_insert_in_transaction|]. intros e. by case_match.
Qed.

Ltac wp_exec := apply wp_statement; [done|]; intros ? ? [= <- <-]; wp_steps.

Lemma wp_delete_in_transaction channelId messageId w :
  wp (delete_in_transaction channelId messageId)
    (λ r w', if r is Ok _ then ∃ now now', w_db w' = deletion channelId messageId now now' (w_db w) else True) w.
Proof.
  unfold delete_in_transaction. wp_steps. wp_exec. wp_exec. wp_read. wp_steps. world.
  match goal with |- wp (if ?b then _ else _) _ _ => destruct b eqn:Hb end; wp_steps.
  - wp_read. wp_steps. wp_exec. world. exists (now_at (w_tick w)). eexists. unfold deletion. cbv zeta. by rewrite Hb.
  - world. exists (now_at (w_tick w)), 0. unfold deletion. cbv zeta. by rewrite Hb.
Qed.

Lemma s_deleteMessage u m : acts u → ssafe (deleteMessage u m).
Proof.
  intros Hu w. unfold deleteMessage. apply drg_bind, drg_query. intros w1 _. split; [done|].
  destruct (find_message m (w_db w1)) as [msg|] eqn:Hm; [|done]. case_match eqn:Hsender; [done|]. boolp. subst u.
  apply drg_bind. assert (drg server_steps (when negb (m_isDeleted msg) do transaction (delete_in_transaction (m_channelId msg) m))
    (λ _ _, True) (tick w1)) as Hd.
  { destruct (negb (m_isDeleted msg)); [|exact I]. apply drg_transaction; [offstage_handler|]. intros w2 Hw2%steps_everyone. split; [done|].
    destruct (find_message_steps _ _ _ _ Hw2 Hm) as (msg' & Hm' & Hc). injection Hc as _ <- Hs _. rewrite <-Hs in Hu.
    eapply wp_mono; [by apply wp_delete_in_transaction|]. intros [a|e] w'; [|done]. intros (n & n' & ->).
    split; [|done]. by apply rc_once, step_delete. }
  eapply rg_mono; [exact Hd|]. intros [a|e] w' _; [|done].
  match goal with |- drg _ ?p _ _ => assert (ssafe p) as Hp end; [safe_steps|apply Hp].
Qed.

(** [wp] of the body of [insertChannel]. *)
Lemma wp_insertChannel l userId others type name w :
  (type = "DIRECT" → ∃ v, l = Some (PDirect userId v) ∧ others = [v] ∧ direct_channels userId v (w_db w) = []) →
  type ∈ ["DIRECT"; "GROUP"] →
  wp (insertChannel userId others type name) (λ r w', if r is Ok _ then step_at l (w_db w) (w_db w') else True) w.
Proof.
  intros Hdirect Htype. unfold insertChannel, insert_channel_row, insert_member_rows. wp_steps.
  apply wp_statement; [done|]. intros c d1 H1. case_match eqn:Hi; simplify_eq. wp_steps.
  apply wp_statement; [done|]. intros x d2 H2. case_match eqn:Hr; simplify_eq. wp_steps. world.
  apply (step_create _ _ _ _ _ _ Hi Hr).
  - cbn [summary cs_id]. apply Forall_forall. intros r Hin. apply elem_of_lookup_imap in Hin as (i & y & -> & _). done.
  - intros Ht. cbn in Ht. destruct (Hdirect Ht) as (v & -> & -> & Hd). by exists userId, v.
  - done.
Qed.

Ltac offstage_insertChannel := unfold insertChannel, insert_channel_row, insert_member_rows; repeat offstage_step.
Lemma s_group userId others name : ssafe (transaction (insertChannel userId others "GROUP" name)).
Proof. apply dsafe_transaction; [offstage_insertChannel|]. intros w. eapply wp_mono; [apply (wp_insertChannel None); [done|by right; left]|].
  intros [a|e] w' H; [by apply rc_once|done].
Qed.

Lemma s_createDirect u v : u ≠ v → ssafe (createDirect u v).
Proof.
  intros Huv. apply dsafe_locked_transaction; [intros b; unfold open_direct; repeat offstage_step; offstage_insertChannel|].
  intros d w Hfk Haway. unfold open_direct. destruct (head (direct_channels u v d)) as [c|] eqn:Hh.
  - wp_steps. wp_read. wp_steps. case_match; wp_steps; [apply rc_refl|done].
  - eapply wp_mono; [apply (wp_insertChannel (Some (PDirect u v)))|].
    + intros _. exists v. split; [done|]. split; [done|]. eapply no_direct_steps; [done|exact Haway|exact Hfk|].
      by destruct (direct_channels u v d).
    + by left.
    + intros [a|e] w' Hs; [|done]. right. right. by exists (PDirect u v).
Qed.
Hint Resolve s_insertWithSequence s_deleteMessage s_group s_createDirect : safe.

Lemma wp_promote c w :
  wp (promote c) (λ r w', if r is Ok p then w_db w' = promotion c (w_db w) ∧ p = promoted_user c (w_db w) else True) w.
Proof.
  unfold promote, promotion, promoted_user. wp_steps. wp_read. destruct (find_admin c (w_db w)) as [a|]; wp_steps; [done|]. wp_read.
  world. destruct (longest_standing c (w_db w)) as [o|]; wp_steps; [|done]. by wp_exec.
Qed.

Lemma wp_remove_in_transaction c u w :
  wp (remove_in_transaction c u) (λ r w',
    if r is Ok p then ∃ role now, (delete_member c u (w_db w)).1 = Some role ∧ w_db w' = removal c u role now (w_db w) ∧
      p = (if role === "ADMIN" then promoted_user c (delete_member c u (w_db w)).2 else None)
    else True) w.
Proof.
  unfold remove_in_transaction. wp_steps. wp_read. wp_steps.
  apply wp_statement; [done|]. intros removed d1 [= Hr <-]. world. destruct removed as [role|]; wp_steps; [|done].
  unfold removal. cbv zeta. destruct (role === "ADMIN") eqn:Hadmin.
  - eapply wp_mono; [apply wp_promote|]. intros [p|e] w1 Hp; [|done]. destruct Hp as [Hp ->]. wp_steps. wp_exec. world. rewrite Hp.
    exists role, (now_at (w_tick w1)). by rewrite Hadmin.
  - wp_steps. wp_exec. world. exists role. eexists. by rewrite Hadmin.
Qed.

Lemma s_remove_in_transaction c u : ssafe (transaction (remove_in_transaction c u)).
Proof.
  apply dsafe_transaction; [unfold remove_in_transaction, promote, execute; repeat offstage_step|]. intros w.
  eapply wp_mono; [apply wp_remove_in_transaction|].
  intros [p|e] w'; [|done]. intros (role & now & Hr & -> & _). by apply rc_once, step_remove.
Qed.

Lemma s_replace_reaction m u e : acts u →
  ssafe (locked_transaction (reaction_lock m u) (replaced_rows m u e) (replace_reaction m u e)).
Proof.
  intros Hu. apply dsafe_locked_transaction; [intros b; unfold replace_reaction, insert_reaction_row, execute; repeat offstage_step|].
  intros d w _ Haway. unfold replace_reaction, insert_reaction_row. wp_steps.
  apply wp_statement; [done|]. intros l d1 [= _ <-]. wp_steps. rewrite (replaced_still _ _ _ _ _ Haway).
  apply wp_statement; [done|]. intros b d2 H2. world. unfold insert_or_ignore in H2. case_match eqn:Hc; [|done].
  destruct a as [t|]; simplify_eq.
  - wp_steps. right. right. exists (PReaction m u). split; [done|]. case_match; [done|]. case_match eqn:Hi; simplify_eq.
    world. unshelve eapply (step_react _ _ m u e _ _ _ _ _ _ Hi); done.
  - wp_steps. right. left. by apply (step_react_again _ _ m u e).
Qed.

Lemma s_replace_sender_keys o g e items : acts o → ssafe (transaction (replace_sender_keys o g e items)).
Proof.
  intros Ho. apply dsafe_transaction; [unfold replace_sender_keys, execute; repeat offstage_step|]. intros w. unfold replace_sender_keys. wp_steps. wp_exec. case_bool_decide; [by wp_steps|].
  apply wp_statement; [done|]. intros x d1 H1. case_match eqn:Hi; simplify_eq. world. apply rc_once.
  eapply (step_sender_keys _ (w_db w) o g e); [|exact Hi|exact Ho].
  apply Forall_forall. intros r Hin. apply elem_of_lookup_imap in Hin as (i & y & -> & _). unfold owned_keys; simpl.
  by rewrite !bool_decide_eq_true_2, Z.eqb_refl by done.
Qed.
Hint Resolve s_remove_in_transaction s_replace_reaction s_replace_sender_keys : safe.

(** ** The handlers *)
Lemma s_send i x : acts (si_userId i) → ssafe (send i x).
Proof. intros Hu. unfold send. destruct (assertSendLimits i) eqn:Hlim; unfold check_signature; safe_steps. Qed.
Lemma s_create u ps t n : ssafe (create u ps t n).
Proof.
  unfold create. cbv zeta. case_match; [safe_steps|]. destruct (List.filter _ _) as [|target rest] eqn:Hothers; [safe_steps|].
  assert (u ≠ target).
  { assert (target ∈ List.filter (λ id, id !== u) (unique ps)) as Hin by (rewrite Hothers; left).
    apply list_elem_of_In, List.filter_In in Hin as [_ Hin]. by boolp. }
  unfold announce_created. safe_steps.
Qed.
Lemma s_assertMember c u : ssafe (assertMember c u).
Proof. safe_handler. Qed.
Hint Resolve s_assertMember : safe.
Lemma s_getRole c u : ssafe (getRole c u).
Proof. safe_handler. Qed.
Hint Resolve s_getRole : safe.

Lemma s_markRead u c m : acts u → ssafe (markRead u c m).
Proof.
  intros Hu w. unfold markRead. apply drg_bind, drg_query. intros w1 _. split; [done|].
  destruct (read_row u c m (w_db w1)) as [[[mb [seq|]] cur]|] eqn:Hrow; try done.
  assert (∃ msg, msg ∈ messages (w_db w1) ∧ m_id msg = m ∧ m_sequenceNumber msg = seq) as (msg & Hmsg & Hid & Hseq).
  { unfold read_row in Hrow. destruct (membership u c (w_db w1)); [|done]. injection Hrow as _ Hh _.
    change (m_sequenceNumber <$> head (select (λ x, (m_id x === m) && of_channel c x) (messages (w_db w1))) = Some seq) in Hh.
    apply fmap_Some in Hh as (msg & Hh & ->).
    apply first_Some in Hh as [Hin Hp]. boolp. eauto. }
  apply drg_bind. assert (Ha : drg server_steps
    (if match cur with Some c0 => c0 <? seq | None => true end
     then let! snapshot := query (λ d, d) in
          let! rowCount := execute (λ n d, advance_watermark snapshot mb m seq (now_at n) d) in Ret (0 <? rowCount)%nat
     else Ret false) (λ _ _, True) (tick w1)).
  { match goal with |- drg _ (if ?b then _ else _) _ _ => destruct b end; [|exact I]. apply drg_bind, drg_query. intros w2 Hw2%steps_everyone.
    split; [done|]. apply drg_bind, drg_statement. intros w3 Hw3%steps_everyone. split; [done|]. intros a d [= _ <-].
    split; [|done]. assert (Hw : db_steps (w_db w1) (w_db w3)) by (world; by etransitivity).
    destruct (elem_message_steps _ _ _ Hw Hmsg) as (msg' & Hin & Hc). injection Hc as Hc1 _ _ Hc2.
    subst m seq. rewrite <-Hc1, <-Hc2. by apply rc_once, step_watermark. }
  eapply rg_mono; [exact Ha|]. intros [a|e] w' _; [|done].
  match goal with |- drg _ ?p _ _ => assert (ssafe p) as Hp end; [safe_steps|apply Hp].
Qed.

Lemma find_channel_direct c d ch : find_channel c d = Some ch → c_type ch = "GROUP" → is_direct d c = false.
Proof. intros Hc Ht. unfold is_direct. rewrite Hc, Ht. done. Qed.

Lemma s_addMember c u v role : ssafe (addMember c u v role).
Proof.
  intros w. unfold addMember. apply drg_bind, drg_safe; [apply s_getRole|]. intros [r|e] w0; [|done].
  case_match; [done|]. apply drg_bind, drg_query. intros w1 _. split; [done|].
  destruct (find_channel c (w_db w1)) as [ch|] eqn:Hch; [|done]. case_match eqn:Ht; [done|]. boolp.
  apply drg_bind, drg_query. intros w2 Hw2%steps_everyone. split; [done|]. case_match; [|done].
  apply drg_bind, drg_query. intros w3 Hw3%steps_everyone. split; [done|]. case_match; [done|].
  apply drg_bind, drg_statement. intros w4 Hw4%steps_everyone. split; [done|]. intros a d Hi. split.
  - unfold insert_or_ignore in Hi. case_match eqn:Hx; [|done]. destruct a0 as [t|]; simplify_eq; [|apply rc_refl].
    case_match; [done|]. case_match eqn:Hins; simplify_eq. apply rc_once. apply (step_member _ _ _ _ Hins). cbn [mb_channelId new_membership].
    assert (db_steps (w_db w1) (w_db w4)) as Hw by (world; by do 2 (etransitivity; [done|])).
    destruct (find_channel_steps _ _ _ _ Hw Hch) as (ch' & Hch' & Ht'). eapply find_channel_direct; [done|congruence].
  - destruct a; [|done]. match goal with |- drg _ ?p _ _ => assert (ssafe p) as Hp end; [safe_steps|apply Hp].
Qed.

Lemma s_removeMember c u v : ssafe (removeMember c u v).
Proof. safe_handler. Qed.
Lemma s_archive c u : ssafe (archive c u).
Proof. safe_handler. apply dsafe_execute. intros n d. apply rc_once, step_archive. Qed.
Lemma s_getInbox u : ssafe (getInbox u).
Proof. safe_handler. Qed.
Lemma s_getChannel c u : ssafe (getChannel c u).
Proof. safe_handler. Qed.
Lemma s_getTypingUsersOf c u : ssafe (getTypingUsersOf c u).
Proof. safe_handler. Qed.
Lemma s_getReadReceipts c u : ssafe (getReadReceipts c u).
Proof. safe_handler. Qed.
Lemma s_loadTarget u c m : ssafe (loadTarget u c m).
Proof. safe_handler. Qed.
Lemma s_broadcast ev a c m e : ssafe (broadcast ev a c m e).
Proof. safe_handler. Qed.
Hint Resolve s_loadTarget s_broadcast : safe.
Lemma s_addReaction a c m e : acts (a_id a) → ssafe (addReaction a c m e).
Proof. safe_handler. Qed.
Lemma s_removeReaction a c m e : acts (a_id a) → ssafe (removeReaction a c m e).
Proof. safe_handler. Qed.
Lemma s_getReactions m u c : ssafe (getReactions m u c).
Proof. safe_handler. Qed.
Lemma s_getPublicKeys us : ssafe (getPublicKeys us).
Proof. safe_handler. Qed.
Lemma s_rotateKeys u p : acts u → ssafe (rotateKeys u p).
Proof. safe_handler. Qed.
Lemma s_uploadSenderKeys o g e l : acts o → ssafe (uploadSenderKeys o g e l).
Proof. safe_handler. Qed.
Lemma s_updateProfile u n : acts u → ssafe (updateProfile u n).
Proof. safe_handler. Qed.
Lemma s_register n e p : ssafe (register n e p).
Proof.
  safe_handler; try (by apply dsafe_frame); unfold randomHex, seal_key; safe_steps.
Qed.
Lemma s_issueTokens u : ssafe (issueTokens u).
Proof. safe_handler; try (by apply dsafe_frame). unfold randomHex. safe_steps. Qed.
Hint Resolve s_issueTokens : safe.
Lemma s_loginStart n : ssafe (loginStart n).
Proof. safe_handler; unfold login_credentials, generateServerEphemeral; safe_steps. Qed.
Lemma s_loginFinish p : ssafe (loginFinish p).
Proof. safe_handler. Qed.
Lemma s_refresh t : ssafe (refreshTokens_handler t).
Proof. safe_handler. Qed.
Lemma s_logout u : ssafe (logout u).
Proof. safe_handler. Qed.

(** ** Calls and socket events *)
Lemma s_endCallLog i u v t : ssafe (endCallLog i u v t).
Proof. safe_handler. Qed.
Lemma s_log_of_call c : ssafe (log_of_call c).
Proof. safe_handler. Qed.
Hint Resolve s_endCallLog s_log_of_call : safe.
Lemma s_finishConnectedCall c : ssafe (finishConnectedCall c).
Proof. safe_handler. Qed.
Hint Resolve s_finishConnectedCall : safe.
Lemma s_call_handleDisconnect c : ssafe (call_handleDisconnect c).
Proof. safe_handler. Qed.

Lemma s_with_user client h : (∀ u, ssafe (h u)) → ssafe (with_user client h).
Proof. intros Hh. safe_handler. apply quiet_with_ack. safe_steps. Qed.
Lemma s_with_own_call u data h : (∀ c, ssafe (h c)) → ssafe (with_own_call u data h).
Proof. intros Hh. safe_handler. Qed.
Lemma s_initiate_dm u c ts : ssafe (initiate_dm u c ts).
Proof. safe_handler. Qed.
Lemma s_initiate_group u c ts : ssafe (initiate_group u c ts).
Proof. safe_handler. unfold initiateLiveKitGroupCall. safe_steps. Qed.
Hint Resolve s_initiate_dm s_initiate_group : safe.

Lemma s_getUserUnreadCounts u : ssafe (getUserUnreadCounts u).
Proof. unfold getUserUnreadCounts, getUserChannelIds. safe_steps. Qed.
Hint Resolve s_send s_markRead s_addReaction s_removeReaction s_create s_getUserUnreadCounts : safe.
Ltac each_event := repeat (apply Forall_cons; split); [..|apply Forall_nil_2]; cbn [snd].
Lemma s_calls_events client data : Forall (λ e, ssafe (e.2 client data)) calls_gateway_events.
Proof.
  each_event; unfold open_event, relay_event; safe_steps;
    try (unfold handleOffer, handleAnswer, handleIceCandidate; safe_steps);
    apply s_with_user; intros u; safe_steps; apply s_with_own_call; intros c; safe_steps.
Qed.

Lemma s_guarded client h : token_acts client → (∀ u, acts (su_id u) → ssafe (h u)) → ssafe (guarded client h).
Proof.
  intros Hc Hh. unfold guarded. apply dsafe_bind; [by apply quiet_ws_canActivate|]. intros ok. destruct (negb ok); [safe_steps|].
  eapply dsafe_bind_post; [apply dpost_socket_data|]. intros data Hdata. destruct (sd_user data) as [u|] eqn:Hu; [|safe_steps].
  apply dsafe_bind; [by apply Hh, Hdata|intros ack; safe_steps].
Qed.
Lemma s_handleSendMessage client data u : acts (su_id u) → ssafe (handleSendMessage client data u).
Proof.
  intros Hu. apply quiet_with_ack. apply dsafe_bind; [safe_steps|intros _]. apply dsafe_bind; [safe_steps|intros _].
  eapply dsafe_bind_post; [apply dpost_payload|]. intros i Hi. rewrite <-Hi in Hu. safe_steps.
Qed.
Lemma s_chat_events client data : token_acts client → Forall (λ e, ssafe (e.2 client data)) chat_gateway_events.
Proof.
  intros Hc. each_event; (apply s_guarded; [done|]); intros u Hu; [by apply s_handleSendMessage|..];
    apply quiet_with_ack; safe_steps.
Qed.
Lemma s_socket_events client data : token_acts client → Forall (λ e, ssafe (e.2 client data)) socket_gateway_events.
Proof.
  intros Hc. each_event; [..|unfold open_event, handleHeartbeat; safe_steps]; (apply s_guarded; [done|]); intros u Hu; apply quiet_with_ack;
    unfold getUserDMPeers; safe_steps.
Qed.

Lemma s_on_event client event data : token_acts client → ssafe (on_event client event data).
Proof.
  intros Hc. unfold on_event. destruct (List.find _ _) as [[n h]|] eqn:Hf; [|done]. apply List.find_some in Hf as [Hin _].
  assert (Forall (λ e, ssafe (e.2 client data)) socket_events) as Hall.
  { repeat apply Forall_app_2; [by apply s_socket_events|by apply s_chat_events|apply s_calls_events]. }
  rewrite Forall_forall in Hall. by apply (Hall (n, h)), list_elem_of_In.
Qed.

Lemma s_webhook b h : ssafe (webhook b h).
Proof.
  safe_handler; [unfold livekit_handleWebhook; safe_steps; by apply dsafe_frame|].
  unfold webhook_event, handleRoomStarted, handleRoomFinished, handleParticipantJoined, handleParticipantLeft, latestLogId.
  safe_steps; by apply s_insert_call_log.
Qed.

Lemma s_findPublicById u : ssafe (findPublicById u).
Proof. safe_handler. Qed.
Lemma s_getMyKeys u : ssafe (getMyKeys u).
Proof. safe_handler. Qed.
Lemma s_getProfile u : ssafe (getProfile u).
Proof. safe_handler. Qed.
Lemma s_getHistory u p l : ssafe (getHistory u p l).
Proof. unfold getHistory, getCallHistory. safe_steps. Qed.

(** ** REST routes *)
Hint Resolve s_register s_loginStart s_loginFinish s_getProfile s_logout s_refresh s_updateProfile s_findPublicById s_getInbox
  s_getChannel s_addMember s_removeMember s_archive s_getTypingUsersOf s_getReadReceipts s_getMyKeys s_rotateKeys s_getPublicKeys
  s_uploadSenderKeys s_getReactions s_getHistory quiet_getToken s_webhook s_deleteMessage : safe.
Lemma s_messages_send c u : acts (au_id u) → ssafe (messages_send c u).
Proof. intros Hu. eapply dsafe_bind_post; [apply dpost_body|]. intros i Hi. rewrite <-Hi in Hu. safe_steps. Qed.
Lemma s_routes : Forall (λ r, match rt_access r with
                              | Open h => ∀ c, ssafe (h c)
                              | Protected h => ∀ c u, acts (au_id u) → ssafe (h c u)
                              end) routes.
Proof.
  repeat (apply Forall_cons; split); [..|apply Forall_nil_2]; cbn [rt_access open limited protected unthrottled]; intros;
    try apply quiet_reply; first [apply quiet_health_ready|by apply s_messages_send|safe_handler].
Qed.
Lemma s_serve_http req : request_acts req → ssafe (serve_http req).
Proof.
  intros Hreq. safe_handler. unfold dispatch. destruct (find_route req routes) as [[r ps]|] eqn:Hr; [|done].
  apply find_route_elem in Hr. pose proof (proj1 (Forall_forall _ _) s_routes r Hr) as Hs. unfold run_route.
  destruct (rt_access r) eqn:Ha; cbn beta in Hs; rewrite Ha in Hs; (apply dsafe_bind; [safe_steps|intros _]);
    [safe_steps; apply Hs|].
  eapply dsafe_bind_post; [by apply dpost_JwtAuthGuard|]. intros u Hu. apply dsafe_bind; [safe_steps|intros _]. by apply Hs.
Qed.

(** A request that comes with the token of a user who acts; the entry points of the
    services are called for such a user. *)
Definition permitted (r : request) : Prop :=
  match r with
  | RSend input _ => acts (si_userId input)
  | RDeleteMessage u _ | RMarkRead u _ _ | RRotateKeys u _ | RUploadSenderKeys u _ _ _ | RUpdateProfile u _ => acts u
  | RAddReaction actor _ _ _ | RRemoveReaction actor _ _ _ => acts (a_id actor)
  | RConnect client | REvent client _ _ => token_acts client
  | RHttp req => request_acts req
  | _ => True
  end.

#[local] Hint Resolve s_send quiet_getMessages s_deleteMessage s_create s_getInbox s_markRead s_getChannel s_addMember
  s_removeMember s_archive s_getTypingUsersOf s_getReadReceipts s_addReaction s_removeReaction s_getReactions
  s_getPublicKeys s_getMyKeys s_rotateKeys s_uploadSenderKeys s_findPublicById s_updateProfile s_register s_loginStart
  s_loginFinish s_refresh s_getProfile s_logout s_getUserUnreadCounts quiet_popPendingMessages quiet_handleConnection
  s_on_event quiet_handleDisconnect s_call_handleDisconnect quiet_heartbeat_tick quiet_typing_timeout
  quiet_onModuleDestroy quiet_getToken s_webhook s_getHistory s_serve_http : safe.
Lemma handle_safe r w : permitted r → rg (state_ok server_steps) (db_guar server_steps) (handle r) (λ _ _, True) w.
Proof.
  destruct r; cbn [handle permitted]; intros Hr; apply rg_serve;
    match goal with |- rg _ _ ?p _ ?w => assert (ssafe p) as Hp; [|apply Hp] end.
  all: try solve [eauto with safe]. unfold process. safe_steps.
Qed.

(** A run of the server: from tables in which every membership names a channel, as its
    foreign key says, the requests [rs] start at [w] and interleave, up to the
    configuration [c]. *)
Definition server_run (w : World) (rs : list request) (c : World * list (M ())) : Prop :=
  memberships_fk (w_db w) ∧ rtc pstep (w, map handle rs) c.

Lemma server_run_step w rs c c' : server_run w rs c → pstep c c' → server_run w rs c'.
Proof. intros [Hfk H] Hs. split; [done|]. by eapply rtc_r. Qed.
(** A schedule gives a run. *)
Definition starts_well (d : Db) : bool := forallb (λ m, has_channel d (mb_channelId m)) (memberships d).
Lemma schedule_run picks w rs : starts_well (w_db w) = true → server_run w rs (drive picks (w, map handle rs)).
Proof.
  unfold starts_well. rewrite forallb_forall. intros H. split; [|apply drive_run]. intros m Hm. by apply H, list_elem_of_In.
Qed.

Lemma start_ok w rs : sockets_ok w → memberships_fk (w_db w) → Forall permitted rs →
  pool_ok (state_ok server_steps) (db_guar server_steps) (w, map handle rs).
Proof.
  intros Hw Hfk Hrs. split; [done|]. simpl. apply Forall_forall. intros p Hp. apply list_elem_of_In, in_map_iff in Hp as (r & <- & Hr).
  apply handle_safe. rewrite Forall_forall in Hrs. by apply Hrs, list_elem_of_In.
Qed.

Lemma run_steps_by w rs c : sockets_ok w → Forall permitted rs → server_run w rs c → rtc step_by (w_db w) (w_db c.1).
Proof. intros Hw Hrs [Hfk H]. destruct (pool_steps _ _ _ _ H (start_ok w rs Hw Hfk Hrs)) as [_ Hs]. by apply db_rely in Hs. Qed.

Lemma run_next_by w rs c c' :
  sockets_ok w → Forall permitted rs → server_run w rs c → pstep c c' → rc step_by (w_db c.1) (w_db c'.1).
Proof.
  intros Hw Hrs [Hfk H] Hs. destruct (pool_steps _ _ _ _ H (start_ok w rs Hw Hfk Hrs)) as [Hok _].
  by apply (guar_any server_steps), (pool_step _ _ _ _ Hs Hok).
Qed.
End Steps.

Lemma everyone_sockets (w : World) : sockets_ok (A := everyone) w.
Proof. by intros s data _ u. Qed.
Lemma everyone_permitted (rs : list request) : Forall (permitted (A := everyone)) rs.
Proof. apply Forall_forall. intros r _. by destruct r. Qed.

Lemma run_steps w rs c : server_run w rs c → db_steps (w_db w) (w_db c.1).
Proof. apply run_steps_by; [apply everyone_sockets|apply everyone_permitted]. Qed.
Lemma run_next w rs c c' : server_run w rs c → pstep c c' → rc db_step (w_db c.1) (w_db c'.1).
Proof. apply run_next_by; [apply everyone_sockets|apply everyone_permitted]. Qed.

(** An invariant of the abstract machine holds in every state of every run. *)
Lemma run_invariant (Inv : Db → Prop) w rs c :
  (∀ d d', Inv d → db_step d d' → Inv d') → Inv (w_db w) → server_run w rs c → Inv (w_db c.1).
Proof. intros Hstep Hi H. apply run_steps in H. induction H; eauto. Qed.

(** C1: refinement: in every run of the server, whatever the interleaving of the
    requests and the answers of Redis, Socket.IO, the queue and the driver, each
    step commits one transition of the abstract database machine or none. *)
Theorem handlers_refine (w : World) (rs : list request) c c'
  (Hrun : server_run w rs c) (Hstep : pstep c c') :
  db_steps (w_db w) (w_db c.1) ∧ (w_db c'.1 = w_db c.1 ∨ db_step (w_db c.1) (w_db c'.1)).
Proof. split; [by eapply run_steps|]. destruct (run_next _ _ _ _ Hrun Hstep); auto. Qed.
End System.
