(* ===== verification/Lookups.v ===== *)
(** * Lookups: what a search and a list of reactions answer

    What ILIKE documents, as a relation between patterns and texts; the users a search
    finds; the groups of [ReactionsService.getReactions]. *)
From Stdlib Require Import Ascii String Sorted.
From S2P Require Import Prelude JsString Json Effects Errors Redis Schema World Socket ChannelMembers Users Messages Reactions Samples.
From stdpp Require Import base list strings gmap.

Local Open Scope string_scope.
Local Open Scope Z_scope.
Local Open Scope list_scope.

(** ** Patterns *)

(** The characters that do not stand for themselves in a pattern. *)
Definition special (c : ascii) : bool := bool_decide (c ∈ ["%"%char; "_"%char; "\"%char]).

(** The texts a LIKE pattern fits, letters in either case. *)
Inductive fits : list ascii → list ascii → Prop :=
| fits_end : fits [] []
| fits_any p t s : fits p s → fits ("%"%char :: p) (t ++ s)
| fits_one p x s : fits p s → fits ("_"%char :: p) (x :: s)
| fits_quoted p c x s : lower_char c = lower_char x → fits p s → fits ("\"%char :: c :: p) (x :: s)
| fits_char p c x s : special c = false → lower_char c = lower_char x → fits p s → fits (c :: p) (x :: s).
#[local] Hint Constructors fits : core.

Lemma fits_any_inv p s : fits ("%"%char :: p) s ↔ fits p s ∨ ∃ x s', s = x :: s' ∧ fits ("%"%char :: p) s'.
Proof.
  split.
  - intros H. inversion H as [|? [|x t] s' Hp| | |]; subst; [by left| |done]. right. exists x, (t ++ s'). auto.
  - intros [H|(x & s' & -> & H)]; [exact (fits_any p [] s H)|].
    inversion H as [|? t s'' Hp| | |]; subst; [|done]. exact (fits_any p (x :: t) s'' Hp).
Qed.

Lemma like_fits fuel p s : (length p + length s < fuel)%nat → like fuel p s = true ↔ fits p s.
Proof.
  revert p s. induction fuel as [|fuel IH]; intros p s Hf; [lia|].
  destruct p as [|c p]; cbn [like].
  { destruct s; split; intros H; auto; [done|inversion H]. }
  cbn [length] in Hf. destruct (Ascii.eqb c "%") eqn:Hany.
  { apply Ascii.eqb_eq in Hany as ->. rewrite fits_any_inv, orb_true_iff, IH by lia.
    destruct s as [|x s]; [naive_solver|]. cbn [length] in Hf.
    change ("%"%char :: p) with (["%"%char] ++ p). rewrite (IH _ s) by (simpl; lia). naive_solver. }
  destruct (Ascii.eqb c "_") eqn:Hone.
  { apply Ascii.eqb_eq in Hone as ->. destruct s as [|x s]; cbn [length] in Hf; [split; [done|intros H; inversion H]|].
    rewrite IH by lia. split; [auto|]. intros H. by inversion H. }
  destruct (Ascii.eqb c "\") eqn:Hquote.
  { apply Ascii.eqb_eq in Hquote as ->. destruct p as [|q p]; [split; [done|]; intros H; by inversion H|].
    destruct s as [|x s]; cbn [length] in Hf; [split; [done|intros H; inversion H]|].
    rewrite andb_true_iff, Ascii.eqb_eq, IH by lia. split; [intros []; auto|]. intros H. by inversion H. }
  destruct s as [|x s]; cbn [length] in Hf; [split; [done|]; intros H; inversion H; subst; done|].
  assert (Hmeta : special c = false).
  { apply bool_decide_eq_false. rewrite !elem_of_cons, elem_of_nil. apply Ascii.eqb_neq in Hany, Hone, Hquote. tauto. }
  rewrite andb_true_iff, Ascii.eqb_eq, IH by lia. split; [intros []; auto|]. intros H. by inversion H; subst.
Qed.

(** A pattern may not end within an escape. *)
Fixpoint closed_pattern (p : list ascii) : bool :=
  match p with
  | [] => true
  | c :: p' => if Ascii.eqb c "\" then match p' with [] => false | _ :: p'' => closed_pattern p'' end else closed_pattern p'
  end.
(** What Postgres documents of ILIKE. *)
Definition ilike_documented {E : Env} : Prop := ∀ text pattern,
  closed_pattern (String.list_ascii_of_string pattern) = true →
  ilike text pattern = true ↔ fits (String.list_ascii_of_string pattern) (String.list_ascii_of_string text).

Lemma sample_ilike_documented : ilike_documented (E := sample_env).
Proof. intros text pattern _. apply like_fits. lia. Qed.

(** The escaped text of a user stands for itself. *)
Definition same_letters (t t' : list ascii) : Prop := map lower_char t = map lower_char t'.
Definition escaped (t : list ascii) : list ascii := flat_map (λ c, if is_like_meta c then ["\"%char; c] else [c]) t.
Lemma special_meta c : special c = is_like_meta c.
Proof. destruct c as [[] [] [] [] [] [] [] []]; vm_compute; reflexivity. Qed.
Lemma closed_escaped t p : closed_pattern p = true → closed_pattern (escaped t ++ p) = true.
Proof.
  intros Hp. induction t as [|c t IH]; [done|]. cbn [escaped flat_map app]. fold (escaped t).
  destruct (is_like_meta c) eqn:Hm; [exact IH|]. cbn [app closed_pattern]. destruct (Ascii.eqb_spec c "\"); [by subst|exact IH].
Qed.
Lemma fits_escaped t p s : fits (escaped t ++ p) s ↔ ∃ t' s', s = t' ++ s' ∧ same_letters t t' ∧ fits p s'.
Proof.
  unfold same_letters. revert s. induction t as [|c t IH]; intros s; cbn [escaped flat_map app map].
  { split; [by exists [], s|]. intros (t' & s' & -> & Ht & Hp). by destruct t'. }
  fold (escaped t). split.
  - intros H. assert (∃ x s0, s = x :: s0 ∧ lower_char c = lower_char x ∧ fits (escaped t ++ p) s0) as (x & s0 & -> & Hc & Hp).
    { destruct (is_like_meta c) eqn:Hm; cbn [app] in H.
      - inversion H; subst; eauto 6. done.
      - inversion H; subst; try discriminate Hm. eauto 6. }
    apply IH in Hp as (t' & s' & -> & Ht & Hp). exists (x :: t'), s'. simpl. by rewrite Hc, Ht.
  - intros (t' & s' & -> & Ht & Hp). destruct t' as [|x t']; simpl in Ht; [done|]. injection Ht as Hc Ht.
    assert (fits (escaped t ++ p) (t' ++ s')) by (apply IH; eauto).
    destruct (is_like_meta c) eqn:Hm; cbn [app]; [auto|]. apply fits_char; [by rewrite special_meta|done..].
Qed.

(** [term] occurs in [text], letters in either case. *)
Definition occurs (term text : string) : Prop :=
  ∃ before found after, String.list_ascii_of_string text = before ++ found ++ after ∧ same_letters (String.list_ascii_of_string term) found.
Lemma fits_percent s : fits ["%"%char] s.
Proof. rewrite <-(app_nil_r s). auto. Qed.
Lemma ilike_occurs {E : Env} text term : ilike_documented → ilike text ("%" +:+ escapeLike term +:+ "%") = true ↔ occurs term text.
Proof.
  intros Hdoc. assert (Hchars : String.list_ascii_of_string ("%" +:+ escapeLike term +:+ "%")
          = "%"%char :: escaped (String.list_ascii_of_string term) ++ ["%"%char]).
  { unfold escapeLike. by rewrite !chars_append, String.list_ascii_of_string_of_list_ascii. }
  rewrite (Hdoc text _) by (rewrite Hchars; by apply closed_escaped). rewrite Hchars.
  split.
  - intros H. inversion H as [|? before rest Hp Heq Hs| | |]; subst; [|done].
    apply fits_escaped in Hp as (found & after & -> & Hl & _). by exists before, found, after.
  - intros (before & found & after & -> & Hl). apply fits_any, fits_escaped.
    exists found, after. auto using fits_percent.
Qed.

(** ** Search *)
Lemma string_leb_trans a b c : String.leb a b = true → String.leb b c = true → String.leb a c = true.
Proof.
  revert b c. induction a as [|x a IH]; intros [|y b] [|z c]; try done.
  unfold String.leb in *. cbn [String.compare]. unfold Ascii.compare.
  destruct (N.compare_spec (N_of_ascii x) (N_of_ascii y)), (N.compare_spec (N_of_ascii y) (N_of_ascii z)),
    (N.compare_spec (N_of_ascii x) (N_of_ascii z)); try lia; try done. apply IH.
Qed.

Section Lookups.
Context {R : Redis} {E : Env}.

Definition by_name (a b : UserRow) : Prop := String.leb (u_username a) (u_username b) = true.
Definition found_by (term currentUserId : string) (u : UserRow) : Prop :=
  occurs term (u_username u) ∧ u_id u ≠ currentUserId ∧ u_isActive u = true.


(** ** Reactions *)

(** The reactions with [emoji] among [rows]. *)
Definition group_of (rows : list ReactionRow) (emoji : string) : ReactionGroup :=
  let users := map re_userId (select (λ r, re_emoji r === emoji) rows) in
  mkReactionGroup emoji users (Z.of_nat (length users)).
Definition emojis (rows : list ReactionRow) : list string := unique (map re_emoji rows).

Lemma unique_snoc `{EqDecision A} (l : list A) x : unique (l ++ [x]) = unique l ++ (if bool_decide (x ∈ l) then [] else [x]).
Proof.
  induction l as [|y l IH]; simpl; [done|]. rewrite IH, List.filter_app. f_equal. f_equal.
  destruct (decide (x = y)) as [->|Hxy].
  - rewrite (bool_decide_eq_true_2 (y ∈ y :: l)) by apply list_elem_of_here. destruct (bool_decide (y ∈ l)); simpl; [done|].
    by rewrite bool_decide_eq_true_2.
  - assert (bool_decide (x ∈ y :: l) = bool_decide (x ∈ l)) as -> by (apply bool_decide_ext; rewrite elem_of_cons; tauto).
    destruct (bool_decide (x ∈ l)); simpl; [done|]. by rewrite bool_decide_eq_false_2.
Qed.

Lemma group_of_snoc rows row emoji :
  group_of (rows ++ [row]) emoji =
    if emoji === re_emoji row
    then mkReactionGroup emoji (g_userIds (group_of rows emoji) ++ [re_userId row]) (g_count (group_of rows emoji) + 1)
    else group_of rows emoji.
Proof.
  unfold group_of. rewrite select_app, map_app, length_app. cbn [select List.filter].
  destruct (decide (emoji = re_emoji row)) as [->|Hne].
  - rewrite !bool_decide_eq_true_2 by done. simpl. f_equal. lia.
  - rewrite !bool_decide_eq_false_2 by congruence. simpl. by rewrite app_nil_r, Nat.add_0_r.
Qed.

(** One more row, when the groups stand for the rows before it. *)
Lemma group_reaction_step rows row : inherited (re_emoji row) = false →
  group_reaction (map (group_of rows) (emojis rows)) row = Ok (map (group_of (rows ++ [row])) (emojis (rows ++ [row]))).
Proof.
  intros Hin. unfold group_reaction. rewrite Hin. unfold emojis. rewrite (map_app re_emoji rows [row]). cbn [map].
  rewrite unique_snoc, map_app.
  assert (existsb (λ g, g_emoji g === re_emoji row) (map (group_of rows) (unique (map re_emoji rows)))
          = bool_decide (re_emoji row ∈ map re_emoji rows)) as ->.
  { apply eq_iff_eq_true. rewrite existsb_exists, bool_decide_eq_true, <-elem_of_unique. split.
    - intros (g & Hg & He). apply in_map_iff in Hg as (e & <- & He'). boolp. cbn [g_emoji group_of] in He. subst e.
      by apply list_elem_of_In.
    - intros He. exists (group_of rows (re_emoji row)). split; [apply in_map, list_elem_of_In, He|by apply bool_decide_eq_true_2]. }
  destruct (decide (re_emoji row ∈ map re_emoji rows)) as [He|He]; [rewrite bool_decide_eq_true_2 by done|rewrite bool_decide_eq_false_2 by done].
  - cbn [map]. rewrite app_nil_r. f_equal. rewrite map_map. apply map_ext. intros e. rewrite group_of_snoc.
    change (g_emoji (group_of rows e)) with e. by destruct (e === re_emoji row).
  - cbn [map]. f_equal. f_equal.
    + apply map_ext_in. intros e He'. rewrite group_of_snoc, bool_decide_eq_false_2; [done|]. intros ->.
      apply He, (elem_of_unique (map re_emoji rows)), list_elem_of_In, He'.
    + f_equal. rewrite group_of_snoc, bool_decide_eq_true_2 by done.
      assert (select (λ r, re_emoji r === re_emoji row) rows = []) as Hnone.
      { apply filter_none. intros r Hr. apply bool_decide_eq_false_2. intros Heq. apply He. rewrite <-Heq.
        by apply list_elem_of_In, in_map, list_elem_of_In. }
      unfold group_of. by rewrite Hnone.
Qed.

Lemma grouped_rows rows rows' :
  grouped (map (group_of rows) (emojis rows)) rows' =
    if existsb (λ r, inherited (re_emoji r)) rows' then Err type_error
    else Ok (map (group_of (rows ++ rows')) (emojis (rows ++ rows'))).
Proof.
  revert rows. induction rows' as [|row rows' IH]; intros rows; cbn [grouped existsb]; [by rewrite app_nil_r|].
  destruct (inherited (re_emoji row)) eqn:Hin; cbn [orb].
  - unfold group_reaction. by rewrite Hin.
  - rewrite group_reaction_step by done. by rewrite IH, <-app_assoc.
Qed.

Lemma object_values_perm groups : object_values groups ≡ₚ groups.
Proof.
  unfold object_values. rewrite sort_by_perm. induction groups as [|g groups IH]; simpl; [done|].
  destruct (has_index (g_emoji g)); simpl; [by rewrite IH|]. rewrite <-Permutation_middle. by rewrite IH.
Qed.

(** The groups of [rows], one per emoji: who reacted with it, and how many. *)
Definition grouping (rows : list ReactionRow) (groups : list ReactionGroup) : Prop :=
  NoDup (map g_emoji groups) ∧
  ∀ emoji users n, mkReactionGroup emoji users n ∈ groups ↔
    users = map re_userId (select (λ r, re_emoji r === emoji) rows) ∧ users ≠ [] ∧ n = Z.of_nat (length users).
Lemma emoji_reacted rows emoji : emoji ∈ emojis rows ↔ map re_userId (select (λ r, re_emoji r === emoji) rows) ≠ [].
Proof.
  unfold emojis. rewrite elem_of_unique, list_elem_of_In, in_map_iff. split.
  - intros (r & <- & Hr) Hnone. apply map_eq_nil in Hnone. assert (r ∈ select (λ r', re_emoji r' === re_emoji r) rows) as Hin.
    { apply elem_of_select. split; [by apply list_elem_of_In|by apply bool_decide_eq_true_2]. }
    rewrite Hnone in Hin. by apply not_elem_of_nil in Hin.
  - intros Hsome. destruct (select _ rows) as [|r l] eqn:Hs; [done|].
    assert (r ∈ select (λ r', re_emoji r' === emoji) rows) as Hin by (rewrite Hs; apply list_elem_of_here).
    apply elem_of_select in Hin as [Hr He]. boolp. exists r. by rewrite <-list_elem_of_In.
Qed.
Lemma grouping_grouped rows : grouping rows (object_values (map (group_of rows) (emojis rows))).
Proof.
  split.
  - rewrite object_values_perm, map_map. cbn [g_emoji group_of]. rewrite map_id. apply NoDup_unique.
  - intros emoji users n. rewrite object_values_perm, list_elem_of_In, in_map_iff. split.
    + intros (e & Heq & He). injection Heq as <- <- <-. split_and!; try done. by apply emoji_reacted, list_elem_of_In.
    + intros (-> & Hne & ->). exists emoji. split; [done|]. by apply list_elem_of_In, emoji_reacted.
Qed.

(** C29: the reactions of a message: to a member of the message's channel,
    [getReactions] answers one group per emoji with the users who reacted with it and
    their number, as JavaScript lists the keys of an object; when an emoji is the name of
    a property of [Object.prototype] it fails with a TypeError; it fails otherwise only
    when the database does, the message is not in the channel or the caller is not a
    member; it changes nothing and sends nothing. *)
Theorem getReactions_groups (messageId userId channelId : string) (w : World) :
  let rows := select (λ r, re_messageId r === messageId) (reactions (w_db w)) in
  let in_channel := ∃ m, find_message messageId (w_db w) = Some m ∧ m_channelId m = channelId in
  wp (getReactions messageId userId channelId) (λ o w', w_db w' = w_db w ∧ w_out w' = w_out w ∧ w_redis w' = w_redis w ∧
    match o with
    | Ok groups => in_channel ∧ is_Some (membership userId channelId (w_db w)) ∧ grouping rows groups ∧
        Forall (λ r, inherited (re_emoji r) = false) rows ∧ groups = object_values (map (group_of rows) (emojis rows))
    | Err e => (∃ n, db_fault n = Some e) ∨ (e = NotFoundException "Message not found" ∧ ¬ in_channel) ∨
        e = ForbiddenException "Not a member of this channel" ∨
        (e = type_error ∧ Exists (λ r, inherited (re_emoji r) = true) rows)
    end) w.
Proof.
  intros rows in_channel. unfold getReactions, loadTarget. apply wp_bind, wp_bind, wp_act'. cbn beta.
  destruct (db_fault (w_tick w)) eqn:Hfault; [by eauto 6|]. unfold target_row.
  destruct (find_message messageId (w_db w)) as [m|] eqn:Hm; cbn [mbind option_bind].
  2:{ apply wp_throw. split_and!; try done. right; left. split; [done|]. intros (m' & Hm' & _). congruence. }
  cbn [t_channelId t_membershipId]. destruct (decide (m_channelId m = channelId)) as [<-|Hne].
  2:{ rewrite bool_decide_eq_false_2 by done. apply wp_throw. split_and!; try done. right; left. split; [done|].
      intros (m' & Hm' & ?). congruence. }
  rewrite bool_decide_eq_true_2 by done. cbn [negb].
  destruct (truthy _) as [mid|] eqn:Hmember; [|apply wp_throw; split_and!; try done; by do 2 right; left].
  apply wp_ret, wp_bind, wp_act'. cbn beta. cbn [w_tick tick modify_field w_db].
  destruct (db_fault (S (w_tick w))) eqn:Hfault'; [by eauto 6|].
  pose proof (grouped_rows [] rows) as Hg. cbn [app emojis map unique] in Hg.
  change (select (λ r, re_messageId r === messageId) (reactions (w_db w))) with rows. rewrite Hg.
  destruct (existsb _ rows) eqn:Hin.
  - apply wp_throw. split_and!; try done. do 3 right. split; [done|]. apply existsb_exists in Hin as (r & Hr & Hin).
    apply Exists_exists. exists r. by rewrite list_elem_of_In.
  - apply wp_ret. split_and!; try done.
    + by exists m.
    + destruct (membership userId (m_channelId m) (w_db w)); [by eexists|done].
    + apply grouping_grouped.
    + apply Forall_forall. intros r Hr. destruct (inherited (re_emoji r)) eqn:Hi; [|done].
      rewrite <-Hin. symmetry. apply existsb_exists. exists r. by rewrite <-list_elem_of_In.
Qed.
End Lookups.

(** ** On a concrete server *)
#[local] Existing Instance sample_env.

Example search_sample :
  (run (search "O" "alice" 10) sample_world).1 = Ok [sample_user "bob" "bob"; sample_user "carol" "carol"].
Proof. vm_compute. reflexivity. Qed.

Definition reacting (l : list (string * string)) : World (R := mem_redis) :=
  foldl (λ w r, (run (addReaction (mkReactionActor r.1 r.1) "g" "msg1" r.2) w).2) sample_world l.
Definition reactions_of (w : World (R := mem_redis)) : outcome Z (list (string * list string)) :=
  match (run (getReactions "msg1" "carol" "g") w).1 with
  | Ok groups => Ok (map (λ g, (g_emoji g, g_userIds g)) groups)
  | Err e => Err (ne_status (normalizeException e))
  end.
Example keys_in_order :
  reactions_of (reacting [("alice", "heart"); ("bob", "7"); ("carol", "heart")]) = Ok [("7", ["bob"]); ("heart", ["alice"; "carol"])].
Proof. vm_compute. reflexivity. Qed.

(** One reaction "constructor" and nobody can list the reactions of the message. *)
Example constructor_breaks_reactions : reactions_of (reacting [("alice", "heart"); ("bob", "constructor")]) = Err 500.
Proof. vm_compute. reflexivity. Qed.
