(* ===== verification/Requests.v ===== *)
(** * Requests: what a REST request can do and what it is answered

    Every request gets one response, with a coherent error body when it failed; a
    request without the token of an active user reaches no protected handler; a file is
    stored only as what its bytes say it is. *)
From Stdlib Require Import Ascii String.
From S2P Require Import Prelude JsString Json IsoDate Effects Errors Redis Schema World Crypto Config FileType RateLimit RedisSession.
From S2P Require Import RedisCache Socket ChannelMembers Messages Channels Reactions Users Keys Srp Auth Chat LiveKit Validation.
From S2P Require Import SocketAuth SocketGateway ChatGateway Calls CallGateway Events Connections Dto Http Uploads Controllers Routes.
From S2P Require Import Samples.
From stdpp Require Import base list strings gmap relations.

Local Open Scope string_scope.
Local Open Scope Z_scope.
Local Open Scope list_scope.

Section Requests.
Context {R : Redis} {E : Env} {C : Crypto} {J : Jwt} {P : Environment} {V : ClassValidator} {L : LiveKit} {F : Framework} {K : Cloudinary}.

(** ** Responses *)

(** The code of an error agrees with its status and internal errors say nothing. *)
Definition coherent_error (n : NormalizedError) : Prop :=
  ne_error n = httpStatusToErrorCode (ne_status n) ∧
  (ne_error n = INTERNAL_ERROR → ne_message n = "Internal server error" ∧ ne_details n = None).
(** An error response, whose request id is the one of the header sent last. *)
Definition refused (req : HttpRequest) (r : HttpResponse) (w' : World) : Prop :=
  ∃ n id now, coherent_error n ∧ r = mkHttpResponse (ne_status n) (Some (HttpErrorBody n (hr_originalUrl req) id now)) ∧
    last (w_out w') = Some (SetHeader "X-Request-Id" id).
(** The status of success of a route, as NestJS has it: 201 for a POST and 200 for the
    rest, but for the methods that declare another with [@HttpCode]. *)
Definition declared_200 : list (list string) :=
  [["api"; "auth"; "login"; "start"]; ["api"; "auth"; "login"; "finish"]; ["api"; "auth"; "logout"]; ["api"; "auth"; "refresh"];
   ["keys"; "rotate"]; ["livekit"; "token"]; ["livekit"; "webhook"]].
Definition success_status (method : string) (path : list string) : Z :=
  if path === ["favicon.ico"] then 204
  else if (method === "POST") && negb (bool_decide (path ∈ declared_200)) then 201 else 200.
(** The readiness probe says 503 when a dependency is down. *)
Definition serves_status (route : Route) (r : HttpResponse) : Prop :=
  rs_status r = success_status (rt_method route) (rt_path route) ∨ rt_path route = ["health"; "ready"] ∧ rs_status r = 503.
(** A response of the handler of a route. *)
Definition served (req : HttpRequest) (r : HttpResponse) : Prop :=
  ∃ route params, find_route req routes = Some (route, params) ∧ serves_status route r.

Lemma wp_AllExceptionsFilter req id e w :
  wp (AllExceptionsFilter req id e) (λ o w', ∃ r, o = Ok r ∧ refused req r w') w.
Proof.
  assert (Hlog : ∀ id w1, wp (let! now := Date_now in
      do! send_effect (SetHeader "X-Request-Id" id);
      Ret (mkHttpResponse (ne_status (normalizeException e))
             (Some (HttpErrorBody (normalizeException e) (hr_originalUrl req) id now)))) (λ o w', ∃ r, o = Ok r ∧ refused req r w') w1).
  { intros i w1. wp_steps. apply wp_act'. wp_steps. eexists. split; [done|]. eexists _, i, _.
    split; [apply normalizeException_coherent|]. split; [done|]. cbn. by rewrite last_snoc. }
  unfold AllExceptionsFilter. wp_steps. destruct id as [id|]; [wp_steps; apply Hlog|].
  destruct (hr_xRequestId req); [|wp_steps; apply Hlog|]; apply wp_act'; apply Hlog.
Qed.

Definition answers (route : Route) (p : M HttpResponse) : Prop := ∀ w, wp p (λ o _, ∀ r, o = Ok r → serves_status route r) w.

Lemma answers_reply route status p : status = success_status (rt_method route) (rt_path route) → answers route (reply status p).
Proof.
  intros Hs w. apply wp_bind. eapply wp_mono; [apply wp_true|]. intros [b|e] w' _; [|done]. apply wp_ret. intros r [= <-]. by left.
Qed.
Lemma answers_bind {A} route (p : M A) k : (∀ a, answers route (k a)) → answers route (bind p k).
Proof. intros Hk w. apply wp_bind. eapply wp_mono; [apply wp_true|]. intros [a|e] w' _; [apply Hk|done]. Qed.
Lemma answers_throw route e : answers route (Throw e).
Proof. intros w. by apply wp_throw. Qed.
Lemma answers_ret route r : serves_status route r → answers route (Ret r).
Proof. intros Hr w. apply wp_ret. by intros ? [= <-]. Qed.

Lemma routes_answer : Forall (λ r, match rt_access r with
                                   | Open h => ∀ c, answers r (h c)
                                   | Protected h => ∀ c u, answers r (h c u)
                                   end) routes.
Proof.
  repeat (apply Forall_cons; split); [..|apply Forall_nil_2]; cbn [rt_access open limited protected unthrottled]; intros;
    try (apply answers_reply; vm_compute; reflexivity).
  - apply answers_bind. intros db. apply answers_bind. intros redis. apply answers_ret.
    unfold serves_status. cbn. destruct (db && redis); [by left|by right].
  - apply answers_ret. by left.
Qed.

Lemma dispatch_answers req body w : wp (dispatch req body) (λ o _, ∀ r, o = Ok r → served req r) w.
Proof.
  unfold dispatch. destruct (find_route req routes) as [[route ps]|] eqn:Hr; [|by apply wp_throw].
  assert (Ha : answers route (run_route req body route ps)).
  { pose proof (proj1 (Forall_forall _ _) routes_answer route (find_route_elem _ _ _ _ Hr)) as Hroute. cbn beta in Hroute.
    unfold run_route. apply answers_bind. intros _.
    destruct (rt_access route); [apply answers_bind; intros _; apply Hroute|].
    apply answers_bind. intros u. apply answers_bind. intros _. apply Hroute. }
  eapply wp_mono; [apply Ha|]. intros o w' Ho r ->. exists route, ps. split; [done|]. by apply Ho.
Qed.

Lemma nothrow_RequestIdMiddleware req : nothrow (RequestIdMiddleware req).
Proof. nothrow_handler; apply (nothrow_act (λ n w, (uuid_at n 0, w))). Qed.

(** C8: every request is answered: whatever the request, the clock, Redis, the database
    and the services answer, [serve_http] returns a response; it is that of the route
    that serves the request, with the one status of success of that route (200, 201 or
    204; or the 503 of the readiness probe), or an error body whose code agrees with its status,
    which says nothing but "Internal server error" for an internal error, and which
    carries the request id of the last header sent. *)
Theorem every_request_answered (req : HttpRequest) (w : World) :
  wp (serve_http req) (λ o w', ∃ r, o = Ok r ∧ (served req r ∨ refused req r w')) w.
Proof.
  unfold serve_http. destruct (hr_body req) as [body|e].
  - assert (Hid : ∀ id w1, wp (catch (dispatch req body) (AllExceptionsFilter req (Some id)))
        (λ o w', ∃ r, o = Ok r ∧ (served req r ∨ refused req r w')) w1).
    { intros id w1. apply wp_catch. eapply wp_mono; [apply dispatch_answers|]. intros [r|e] w' Ho.
      - exists r. split; [done|]. left. by apply Ho.
      - eapply wp_mono; [apply wp_AllExceptionsFilter|]. intros o w'' (r & -> & Hr). eauto. }
    apply wp_bind. eapply wp_mono; [apply nothrow_RequestIdMiddleware|]. intros o w' [id ->]. apply Hid.
  - eapply wp_mono; [apply wp_AllExceptionsFilter|]. intros o w' (r & -> & Hr). eauto.
Qed.

(** ** Requests without a user *)

(** The token of the request, when passport accepts it, is not of an active user. *)
Definition without_user (req : HttpRequest) (d : Db) : Prop :=
  ∀ n payload sub, jwt_payload n (hr_authorization req) = Some payload → subject payload = Some sub → active_row sub d = None.

(** The counters of the rate limits: Redis moves by the script of the window only, on
    keys of its own. *)
Definition counted (r r' : rstore) : Prop :=
  ∃ key windowMs now, r' = (fixed_window_lua (RATE_LIMIT_PREFIX +:+ ":" +:+ key) windowMs now r).2.
Definition only_counters (w0 w : World) : Prop :=
  w_db w = w_db w0 ∧ w_gateway w = w_gateway w0 ∧ w_server w = w_server w0 ∧ rtc counted (w_redis w0) (w_redis w).
Definition is_header (e : effect) : Prop := match e with SetHeader _ _ => True | _ => False end.

Section WithoutUser.
Context (req : HttpRequest) (w0 : World).
Hypothesis Hwithout : without_user req (w_db w0).
#[local] Abbreviation says' := (says (only_counters w0) is_header).

Lemma says_reads {A} (f : nat → World → outcome thrown A) Q :
  (∀ w a, only_counters w0 w → f (w_tick w) w = Ok a → Q a) → says' (act (λ n w, (f n w, w))) Q.
Proof. intros HQ. apply says_act. intros w Hw. split; [exact Hw|]. split; [by apply sent_refl|]. eauto. Qed.
Lemma says_header name value : says' (send_effect (SetHeader name value)) (λ _, True).
Proof. apply says_effect; [|done..]. intros w outs Hw. exact Hw. Qed.

Lemma says_eval_fixed_window key ms : says' (eval_fixed_window (RATE_LIMIT_PREFIX +:+ ":" +:+ key) ms) (λ _, True).
Proof.
  apply says_act. intros w (Hd & Hg & Hs & Hr).
  assert (Hc : counted (w_redis w) (fixed_window_lua (RATE_LIMIT_PREFIX +:+ ":" +:+ key) ms (now_at (w_tick w)) (w_redis w)).2) by by eexists _, _, _.
  assert (Hkeep : only_counters w0 (tick w)) by by split_and!.
  assert (Hmove : ∀ r, r = (fixed_window_lua (RATE_LIMIT_PREFIX +:+ ":" +:+ key) ms (now_at (w_tick w)) (w_redis w)).2 →
            only_counters w0 (tick (w <| w_redis := r |>))).
  { intros r ->. split_and!; try done. cbn [w_redis tick modify_field]. by eapply rtc_r. }
  destruct (conn_at (w_tick w)) as [| |[]].
  - split; [exact Hkeep|]. split; [by apply sent_refl|done].
  - destruct (fixed_window_lua _ _ _ _) as [[a|] r] eqn:Hf; (split; [by apply Hmove|]); (split; [by apply sent_refl|done]).
  - split; [by apply Hmove|]. split; [by apply sent_refl|done].
  - split; [exact Hkeep|]. split; [by apply sent_refl|done].
Qed.

Lemma says_throttler skip : says' (throttler_canActivate skip req) (λ _, True).
Proof.
  unfold throttler_canActivate. case_match; [by apply says_ret|].
  apply (says_bind _ _ _ _ (λ _, True)).
  - unfold getTracker. cbn [req_authorization guard_request]. case_match; [|by apply says_ret]. case_match; [|by apply says_ret].
    apply says_catch; [|intros e; by apply says_ret]. eapply (says_bind _ _ _ _ (λ _, True)); [by apply says_reads|].
    intros sub _. case_match; by apply says_ret.
  - intros tracker _. apply (says_bind _ _ _ _ (λ _, True)).
    + unfold throttler_increment, increment. eapply (says_bind _ _ _ _ (λ _, True)); [|intros [count ttl] _; by apply says_ret].
      eapply (says_bind _ _ _ _ (λ _, True)); [by apply says_reads|]. intros client _. destruct (negb client); [by apply says_ret|].
      apply says_catch; [|intros e; by apply says_ret].
      eapply (says_bind _ _ _ _ (λ _, True)); [apply (says_eval_fixed_window ("http-default:" +:+ generateKey tracker "default"))|].
      intros [count ttl] _. by apply says_ret.
    + intros record _. destruct (throttle record API_RATE_LIMIT) as [headers refusal].
      apply (says_bind _ _ _ _ (λ _, True)); [|intros _ _; case_match; [apply says_throw|by apply says_ret]].
      induction headers as [|h headers IH]; [by apply says_ret|].
      eapply (says_bind _ _ _ _ (λ _, True)); [apply says_header|]. intros _ _. apply IH.
Qed.

Lemma says_JwtAuthGuard : says' (JwtAuthGuard req) (λ _, False).
Proof.
  unfold JwtAuthGuard. apply (says_bind _ _ _ _ (λ payload, ∃ n, jwt_payload n (hr_authorization req) = payload)).
  - apply says_reads. intros w a _ [= <-]. by eexists.
  - intros payload [n Hn]. destruct payload as [payload|]; [|apply says_throw].
    apply (says_bind _ _ _ _ (λ user, user = None)); [|intros user ->; apply says_throw].
    unfold jwt_validate. destruct (subject payload) as [sub|] eqn:Hsub; [|by apply says_ret].
    apply says_act. intros w Hw. destruct (db_fault _); (split; [exact Hw|]); (split; [by apply sent_refl|]); intros a Ha; [done|].
    injection Ha as <-. destruct Hw as (-> & _). by rewrite (Hwithout n payload sub).
Qed.

Lemma says_AllExceptionsFilter id e : says' (AllExceptionsFilter req id e) (λ _, True).
Proof.
  unfold AllExceptionsFilter. apply (says_bind _ _ _ _ (λ _, True)).
  - destruct id; [by apply says_ret|]. case_match; try by apply says_ret. all: by apply says_reads.
  - intros i _. eapply (says_bind _ _ _ _ (λ _, True)); [by apply says_reads|]. intros now _.
    eapply (says_bind _ _ _ _ (λ _, True)); [apply says_header|]. intros _ _. by apply says_ret.
Qed.
Lemma says_RequestIdMiddleware : says' (RequestIdMiddleware req) (λ _, True).
Proof.
  apply (says_bind _ _ _ _ (λ _, True)).
  - destruct (hr_xRequestId req); [|case_match; [by apply says_ret|]|]; by apply says_reads.
  - intros i _. eapply (says_bind _ _ _ _ (λ _, True)); [apply says_header|]. intros _ _. by apply says_ret.
Qed.


Context (route : Route) (ps : list (string * string)) (handler : Ctx → AuthenticatedUser → M HttpResponse).
Hypothesis Hroute : find_route req routes = Some (route, ps).
Hypothesis Hprotected : rt_access route = Protected handler.

Lemma says_dispatch body : says' (dispatch req body) (λ _, False).
Proof.
  unfold dispatch. rewrite Hroute. unfold run_route. rewrite Hprotected.
  eapply says_bind; [apply says_throttler|]. intros _ _. eapply says_bind; [apply says_JwtAuthGuard|]. by intros u [].
Qed.
Lemma says_serve_http : says' (serve_http req) (λ _, True).
Proof.
  unfold serve_http. destruct (hr_body req) as [body|e]; [|apply says_AllExceptionsFilter].
  eapply says_bind; [apply says_RequestIdMiddleware|]. intros id _.
  apply says_catch; [|intros e; apply says_AllExceptionsFilter]. eapply says_mono; [apply says_dispatch|done].
Qed.
Lemma refused_serve_http w : only_counters w0 w → wp (serve_http req) (λ o w', ∃ r, o = Ok r ∧ refused req r w') w.
Proof.
  intros Hw. unfold serve_http. destruct (hr_body req) as [body|e]; [|apply wp_AllExceptionsFilter].
  apply wp_bind. eapply wp_mono; [apply wp_and; [by apply says_RequestIdMiddleware|apply nothrow_RequestIdMiddleware]|].
  intros o w1 [(Hw1 & _) [id ->]]. apply wp_catch. eapply wp_mono; [by apply says_dispatch|].
  intros [r|e] w2 (_ & _ & Hno); [by destruct (Hno r)|apply wp_AllExceptionsFilter].
Qed.
End WithoutUser.

(** C4: a request to a protected route without the token of an active user (no token,
    one passport refuses, or one of a user who is gone or deactivated) is refused, and
    does nothing else: no table and no memory of the gateways changes, Redis moves by
    the counters of the rate limits only, and nothing is sent but response headers. *)
Theorem protected_routes_need_user (req : HttpRequest) route ps handler (w : World)
  (Hroute : find_route req routes = Some (route, ps)) (Hprotected : rt_access route = Protected handler)
  (Hwithout : without_user req (w_db w)) :
  wp (serve_http req) (λ o w', (∃ r, o = Ok r ∧ refused req r w') ∧ only_counters w w' ∧
    ∃ outs, w_out w' = w_out w ++ outs ∧ Forall is_header outs) w.
Proof.
  assert (Hw : only_counters w w) by done.
  eapply wp_mono; [apply wp_and; [by apply (refused_serve_http req w Hwithout route ps handler)|
    by apply (says_serve_http req w Hwithout route ps handler)]|].
  intros o w' [Hr (Hc & Hs & _)]. done.
Qed.

(** ** Uploads *)

(** The file is stored as its type says, and nothing else is sent. *)
Definition stored (f : IncomingFile) (w w' : World) : Prop :=
  ∃ m, detectAllowedMime (f_buffer f) (f_mimetype f) = Some m ∧ has_type m (f_buffer f) ∧ f_size f ≠ 0 ∧
    w_out w' = w_out w ++ [StoreFile DEFAULT_FOLDER (if bool_decide (m ∈ IMAGE_MIMES) then "image" else "raw") (f_buffer f)].

Lemma wp_upload f folder type w :
  wp (upload f folder type) (λ o w', w_db w' = w_db w ∧
    (w_out w' = w_out w ∧ (∃ e, o = Err e) ∨ w_out w' = w_out w ++ [StoreFile folder type (f_buffer f)])) w.
Proof.
  unfold upload. case_match; [by apply wp_throw; eauto|]. wp_steps. apply wp_act'. wp_steps. apply wp_act'.
  case_match; wp_steps; auto.
Qed.

(** C18: a file reaches the storage only as what its bytes say it is: an upload stores
    the bytes of the file unchanged, once, in the folder of the uploads, and only when
    they carry the signature of an allowed type (or are declared as plain text and their
    first 64 KB are UTF-8 text without NUL bytes), images and documents apart; it changes no table; in every
    other case nothing is stored and the upload fails. *)
Theorem only_typed_files_stored (file : option IncomingFile) (w : World) :
  wp (uploadFile_handler file) (λ o w', w_db w' = w_db w ∧
    (w_out w' = w_out w ∧ (∃ e, o = Err e) ∨ ∃ f, file = Some f ∧ stored f w w')) w.
Proof.
  unfold uploadFile_handler. destruct file as [f|]; [|apply wp_throw; eauto].
  case_match eqn:Hsize; [apply wp_throw; eauto|]. boolp.
  destruct (detectAllowedMime (f_buffer f) (f_mimetype f)) as [m|] eqn:Hm; [|apply wp_throw; eauto].
  pose proof (detectAllowedMime_sound _ _ _ Hm) as Htype.
  assert (Hstored : ∀ type w', type = (if bool_decide (m ∈ IMAGE_MIMES) then "image" else "raw") →
            w_out w' = w_out w ++ [StoreFile DEFAULT_FOLDER type (f_buffer f)] → stored f w w').
  { intros type w' -> Hout. by exists m. }
  unfold uploadImage, uploadFile. case_match eqn:Himage; apply wp_bind;
    (eapply wp_mono; [apply wp_upload|]); intros [r|e] w' [Hd [[Ho [e' He]]|Ho]]; try discriminate He; wp_steps;
    (split; [exact Hd|]); eauto 6.
Qed.
End Requests.

(** ** On a concrete server *)
#[local] Existing Instance sample_env.
#[local] Existing Instance toy_jwt.
#[local] Existing Instance sample_environment.
#[local] Existing Instance toy_crypto.
#[local] Existing Instance toy_validator.
#[local] Existing Instance toy_livekit.
#[local] Existing Instance toy_framework.
#[local] Existing Instance toy_cloudinary.

Definition sample_request (method : string) (path : list string) (query body : json) (token : option string) : HttpRequest :=
  mkHttpRequest method path ("/" +:+ String.concat "/" path) query (Ok body) None (Some "203.0.113.9") token HNone (Ok None).
Definition response_to (req : HttpRequest) : option (Z * option json) :=
  match (run (serve_http req) sample_world).1 with Ok r => Some (rs_status r, rs_body r) | Err _ => None end.
Definition told (req : HttpRequest) : option (Z * option json * option json) :=
  (λ r, (r.1, r.2 ≫= λ b, get_field b "error", r.2 ≫= λ b, get_field b "message")) <$> response_to req.

Example refusals :
  map told
    [sample_request "GET" ["channels"] (JObj []) JNull None;
     sample_request "GET" ["nowhere"] (JObj []) JNull (Some "Bearer alice");
     sample_request "GET" ["channels"; "1"] (JObj []) JNull (Some "Bearer alice");
     sample_request "POST" ["api"; "auth"; "login"; "start"] (JObj []) (JObj [("username", JStr "alice"); ("x", JNull)]) None]
  = [Some (401, Some (JStr "UNAUTHORIZED"), Some (JStr "Unauthorized"));
     Some (404, Some (JStr "NOT_FOUND"), Some (JStr "Cannot GET /nowhere"));
     Some (400, Some (JStr "VALIDATION_ERROR"), Some (JStr "Validation failed (uuid is expected)"));
     Some (400, Some (JStr "VALIDATION_ERROR"), Some (JStr "LoginStartDto is not valid"))].
Proof. vm_compute. reflexivity. Qed.

Example search_and_probe :
  map response_to
    [sample_request "GET" ["api"; "users"; "search"] (JObj [("q", JStr " BO "); ("limit", JStr "1e1")]) JNull (Some "Bearer alice");
     sample_request "HEAD" ["health"; "ready"] (JObj []) JNull None]
  = [Some (200, Some (JArr [JObj [("id", JStr "bob"); ("username", JStr "bob"); ("status", JStr "OFFLINE"); ("keyVersion", JNum 1);
                                   ("createdAt", JStr "1970-01-01T00:00:00.000Z")]]));
     Some (200, Some (JObj [("status", JStr "ok"); ("db", JStr "up"); ("redis", JStr "up")]))].
Proof. vm_compute. reflexivity. Qed.

Definition anonymous_delete : HttpRequest := sample_request "DELETE" ["messages"; "msg1"] (JObj []) JNull (Some "Basic alice").

Lemma protected_routes_need_user_witness :
  wp (serve_http anonymous_delete) (λ o w', (∃ r, o = Ok r ∧ refused anonymous_delete r w') ∧ only_counters sample_world w' ∧
    ∃ outs, w_out w' = w_out sample_world ++ outs ∧ Forall is_header outs) sample_world.
Proof.
  eapply (protected_routes_need_user anonymous_delete); [reflexivity..|]. intros n payload sub H. discriminate H.
Defined.

(** A PNG declared as plain text is stored as the image it is; a script is refused. *)
Example stored_types :
  map (λ f, w_out (run (uploadFile_handler (P := λ name, Some name) (Some f)) sample_world).2)
    [mkIncomingFile [137; 80; 78; 71; 13; 10; 26; 10; 0] "text/plain" "a.txt" 9; mkIncomingFile [60; 63; 112; 104; 112; 0] "text/plain" "a.php" 6]
  = [[StoreFile "zevra/uploads" "image" [137; 80; 78; 71; 13; 10; 26; 10; 0]]; []].
Proof. vm_compute. reflexivity. Qed.

(** A rotation with salts of 100 base64 characters is a valid request, which the
    [varchar(64)] columns of the salts refuse. *)
Definition long_salts : json :=
  let digits n := String.string_of_list_ascii (repeat "A"%char n) in
  let sealed := JStr "AAAA:AAAA:AAAA" in
  let key := JStr (digits 43%nat +:+ "=") in
  JObj [("newPublicKey", key); ("newEncryptedPrivateKey", sealed); ("newKeySalt", JStr (digits 100%nat)); ("newPublicKeySign", key);
        ("newEncryptedPrivateKeySign", sealed); ("newKeySaltSign", JStr (digits 100%nat)); ("newKeyVersion", JNum 2)].
Example long_salts_refused :
  told (sample_request "POST" ["keys"; "rotate"] (JObj []) long_salts (Some "Bearer alice"))
  = Some (400, Some (JStr "VALIDATION_ERROR"), Some (JStr "Invalid input")) ∧
  is_Some (accepts RotateKeysDto long_salts).
Proof. split; [vm_compute; reflexivity|]. vm_compute. by eexists. Qed.
