(* ===== verification/Bootstrap.v ===== *)
(** * Bootstrap: starting the process and stopping it

    Models main.ts, the connection pool of database/database.module.ts, the client and
    the jobs of shared/queues, and the shutdown of the socket gateway.  The frameworks
    are events: an application that is created, a setting that throws, a port that is
    bound, [app.close()] that settles.  Signals are left to the hooks of Nest. *)
From Stdlib Require Import Ascii String.
From S2P Require Import Prelude JsString Json Effects Errors Config Redis RedisConnection World Crypto RateLimit LiveKit Validation.
From S2P Require Import SocketAuth SocketGateway Http Uploads Messages System CallFlow Samples Footprint.
From stdpp Require Import base list strings relations.

Local Open Scope string_scope.
Local Open Scope Z_scope.
Local Open Scope list_scope.

(** ** Settings *)
Inductive TrustProxy := Hops (n : Z) | Trusted | TrustedProxies (value : string).
Record CorsOptions := mkCorsOptions {
  co_origin : list string; co_methods : string; co_allowedHeaders : string; co_exposedHeaders : string; co_credentials : bool;
}.
(** What [bootstrap] does to the application, one constructor per call. *)
Inductive setup :=
| UseBodyParser (parser type limit : string)
| SetTrustProxy (value : TrustProxy)
| UseHelmet
| EnableCors (options : CorsOptions)
| UseValidationPipe
| UseExceptionsFilter
| EnableShutdownHooks (signals : list string)
| Listen (port : Z).

Definition trust_proxy (env : ProcessEnv) : list setup :=
  match env "TRUST_PROXY" with
  | None => []
  | Some value =>
      if value === "" then []
      else [SetTrustProxy (if is_number value then Hops (default 0 (Number_integer value))
                           else if value === "true" then Trusted else TrustedProxies value)]
  end.

Definition cors_options (env : ProcessEnv) : CorsOptions :=
  mkCorsOptions (getCorsOrigins env) "GET,HEAD,PUT,PATCH,POST,DELETE" "Content-Type, Authorization, X-Request-Id"
    "X-Request-Id, Retry-After" true.

Definition listen_port (env : ProcessEnv) : Z := number_env env "PORT" 3000.

(** The calls between the creation of the application and the bound port. *)
Definition configure (env : ProcessEnv) : list setup :=
  [UseBodyParser "json" "application/webhook+json" "1mb"] ++ trust_proxy env
  ++ [UseHelmet; EnableCors (cors_options env); UseValidationPipe; UseExceptionsFilter;
      EnableShutdownHooks ["SIGTERM"; "SIGINT"]; Listen (listen_port env)].

(** ** The process *)
Definition SHUTDOWN_TIMEOUT_MS : Z := 10000.
Inductive phase := Creating | Starting | Listening.
Module Process.
(** How far [bootstrap] is ([app] is defined from [Starting] on), the calls made on the
    application, [shuttingDown] with its timer armed, how often [app.close()] was called,
    and the exit code. *)
Record t := mk { phase_of : phase; calls : list setup; shuttingDown : bool; closes : nat; exited : option Z }.
#[export] Instance t_settable : Settable t := λ p, mk (phase_of p) (calls p) (shuttingDown p) (closes p) (exited p).
End Process.
Import Process.

Definition exit_with (code : Z) (p : Process.t) : Process.t := p <| exited := Some code |>.

(** [validateEnv()] at the start of [bootstrap], whose error ends the process. *)
Definition start (env : ProcessEnv) : Process.t :=
  let p := mk Creating [] false 0 None in
  if validateEnv env === [] then p else exit_with 1 p.

(** [shutdownAfterFatal]: without an application there is nothing to wait for. *)
Definition shutdownAfterFatal (p : Process.t) : Process.t :=
  if shuttingDown p then p
  else match phase_of p with
       | Creating => exit_with 1 (p <| shuttingDown := true |>)
       | _ => p <| shuttingDown := true |> <| closes := S (closes p) |>
       end.

Section Run.
Context (env : ProcessEnv).

(** The events of a process that runs.  [step_throws]: one of the calls of [configure]
    throws; [step_drained]: nothing is left to do while it shuts down, since the timer
    alone does not keep the process alive. *)
Inductive proc_step (p : Process.t) : Process.t → Prop :=
| step_created : exited p = None → phase_of p = Creating → proc_step p (p <| phase_of := Starting |> <| calls := configure env |>)
| step_not_created : exited p = None → phase_of p = Creating → proc_step p (exit_with 1 p)
| step_throws n : exited p = None → phase_of p = Creating → (n < length (configure env))%nat →
    proc_step p (exit_with 1 (p <| calls := take n (configure env) |>))
| step_listening : exited p = None → phase_of p = Starting → proc_step p (p <| phase_of := Listening |>)
| step_not_listening : exited p = None → phase_of p = Starting → proc_step p (exit_with 1 p)
| step_rejection : exited p = None → proc_step p p
| step_exception : exited p = None → proc_step p (shutdownAfterFatal p)
| step_closed : exited p = None → (0 < closes p)%nat → proc_step p (exit_with 1 p)
| step_timer : exited p = None → shuttingDown p = true → proc_step p (exit_with 1 p)
| step_drained : exited p = None → shuttingDown p = true → proc_step p (exit_with 0 p).

Definition reachable (p : Process.t) : Prop := rtc proc_step (start env) p.

(** *** What has been configured *)
Definition set_up (p : Process.t) : Prop :=
  (exited p = None ∨ calls p ≠ [] → validateEnv env = []) ∧
  (∃ n, calls p = take n (configure env)) ∧ (phase_of p ≠ Creating → calls p = configure env).

Lemma set_up_start : set_up (start env).
Proof.
  unfold start, set_up. destruct (decide (validateEnv env = [])) as [Hv|Hv];
    [rewrite bool_decide_true by done|rewrite bool_decide_false by done]; cbn; (split; [|split; [by exists 0%nat|done]]); [done|].
  intros [Hx|Hx]; [discriminate Hx|by destruct Hx].
Qed.
Lemma set_up_step p p' : proc_step p p' → set_up p → set_up p'.
Proof.
  intros Hs (Hv & Hpre & Hall). assert (Hfull : ∃ n, configure env = take n (configure env)).
  { exists (length (configure env)). by rewrite firstn_all. }
  destruct Hs; unfold set_up, shutdownAfterFatal; try (destruct (shuttingDown p), (phase_of p) eqn:?); cbn;
    (split; [intros _; apply Hv; by left|]); (split; [eauto|]); try done; try (intros _; apply Hall; congruence).
Qed.

(** *** How it ends *)
Definition ending (p : Process.t) : Prop :=
  (shuttingDown p = false → closes p = 0%nat) ∧ (closes p ≤ 1)%nat ∧
  (shuttingDown p = true → closes p = 1%nat ∨ exited p = Some 1) ∧
  (∀ code, exited p = Some code → code = 1 ∨ code = 0 ∧ shuttingDown p = true).

Lemma ending_start : ending (start env).
Proof. unfold start, ending. destruct (bool_decide _); cbn; (split; [done|]); (split; [lia|]); (split; [done|]); intros ? [=]; auto. Qed.
Lemma ending_step p p' : proc_step p p' → ending p → ending p'.
Proof.
  intros Hs (Hoff & Hle & Hon & Hcode).
  destruct Hs; unfold ending, shutdownAfterFatal; try (destruct (shuttingDown p) eqn:Hsd, (phase_of p) eqn:?); cbn;
    try rewrite (Hoff eq_refl); rewrite ?Hsd; repeat split; intros; simplify_eq; auto; try congruence.
  all: destruct Hon; auto; congruence.
Qed.

Lemma reachable_ok p : reachable p → set_up p ∧ ending p.
Proof.
  unfold reachable. intros Hr. assert (H0 := conj set_up_start ending_start). revert H0.
  induction Hr as [|p p1 p2 Hs _ IH]; [done|]. intros [Hc He]. apply IH. eauto using set_up_step, ending_step.
Qed.

(** *** A validated environment *)
Lemma check_var_nil bad problem : check_var bad problem = [] → bad = false.
Proof. by destruct bad. Qed.

Lemma port_positive : validateEnv env = [] → 0 < listen_port env.
Proof.
  unfold validateEnv. intros Hv. repeat (apply app_eq_nil in Hv as [?Hc Hv]). clear Hv.
  assert (Hport := check_var_nil _ _ Hc2). unfold listen_port, number_env. destruct (env "PORT") as [s|]; [|done].
  destruct (decide (s = "")) as [->|Hne]; [done|]. rewrite bool_decide_false in Hport by done. apply negb_false_iff in Hport.
  unfold is_number, all_chars in Hport. rewrite bool_decide_false in Hport by done.
  rewrite <-(String.string_of_list_ascii_of_string s), Number_digits.
  - pose proof (radix_value_nonneg 10 (String.list_ascii_of_string s) ltac:(done)). destruct (_ <? _); [|done].
    by destruct (radix_value 10 (String.list_ascii_of_string s)).
  - intros Hl. apply Hne. rewrite <-(String.string_of_list_ascii_of_string s), Hl. done.
  - apply Forall_forall. intros c Hin. by apply (proj1 (forallb_forall _ _) Hport), list_elem_of_In.
Qed.

Lemma secret_long : validateEnv env = [] → ∃ secret, env "JWT_SECRET" = Some secret ∧ 32 ≤ js_length secret.
Proof.
  unfold validateEnv. intros Hv. repeat (apply app_eq_nil in Hv as [?Hc Hv]). clear Hv.
  assert (Hs := check_var_nil _ _ Hc0). destruct (env "JWT_SECRET") as [s|]; [|done]. exists s. split; [done|lia].
Qed.

Lemma origins_explicit : "*" ∉ getCorsOrigins env.
Proof.
  unfold getCorsOrigins. case_match; [case_match|]; [by apply not_elem_of_nil|rewrite list_elem_of_In; cbn; intuition discriminate|].
  rewrite list_elem_of_In, List.filter_In. by intros [_ H'].
Qed.

Lemma listen_last n port : Listen port ∈ take n (configure env) → take n (configure env) = configure env ∧ port = listen_port env.
Proof.
  assert (Hc : ∃ l, configure env = l ++ [Listen (listen_port env)] ∧ ∀ q, Listen q ∉ l).
  { exists (UseBodyParser "json" "application/webhook+json" "1mb" :: trust_proxy env ++ [UseHelmet; EnableCors (cors_options env);
      UseValidationPipe; UseExceptionsFilter; EnableShutdownHooks ["SIGTERM"; "SIGINT"]]).
    split; [unfold configure; cbn; by rewrite <-app_assoc|]. intros q. unfold trust_proxy.
    repeat case_match; rewrite list_elem_of_In; cbn; intuition congruence. }
  destruct Hc as (l & -> & Hl). destruct (decide (n ≤ length l)%nat) as [Hn|Hn].
  - rewrite take_app_le by done. intros Ht. destruct (Hl port). by apply (subseteq_take n).
  - rewrite take_ge by (rewrite length_app; cbn; lia). rewrite elem_of_app, list_elem_of_singleton. intros [Ht|[= <-]]; [by destruct (Hl port)|done].
Qed.

(** A server that listens has a validated environment: the signing secret is long, every
    origin is explicit, the port is the one asked for; and it installed the whole
    configuration first, the pipe and the filter included. *)
Theorem listening_configured p port (Hp : reachable p) (Hl : Listen port ∈ calls p) :
  calls p = configure env ∧ port = listen_port env ∧ 0 < port ∧ "*" ∉ co_origin (cors_options env) ∧
  (∃ secret, env "JWT_SECRET" = Some secret ∧ 32 ≤ js_length secret).
Proof.
  destruct (reachable_ok p Hp) as [(Hv & [n Hn] & _) _]. rewrite Hn in Hl |- *. apply listen_last in Hl as [Hfull ->].
  assert (Hvalid : validateEnv env = []). { apply Hv. right. by rewrite Hn, Hfull. }
  split; [done|]. split; [done|]. split; [by apply port_positive|]. split; [apply origins_explicit|by apply secret_long].
Qed.

(** A fatal error stops the process: [app.close()] is called once at most, the second
    error changes nothing, and a process that shuts down and still runs ends with 1 when
    its timer fires or the application is closed.  It never ends with another code,
    unless it runs out of work while it shuts down. *)
Theorem fatal_error_stops p (Hp : reachable p) (Hsd : shuttingDown p = true) :
  (closes p ≤ 1)%nat ∧ shutdownAfterFatal p = p ∧
  (exited p = None → proc_step p (exit_with 1 p) ∧ closes p = 1%nat) ∧
  (∀ code, exited p = Some code → code = 1 ∨ code = 0).
Proof.
  destruct (reachable_ok p Hp) as [_ (_ & Hle & Hone & Hcode)]. split; [done|]. split; [unfold shutdownAfterFatal; by rewrite Hsd|].
  split; [intros Hn; split; [by apply step_timer|destruct (Hone Hsd); congruence]|]. intros code Hc. destruct (Hcode code Hc); naive_solver.
Qed.
End Run.

(** ** Connections *)

(** The pool of database.module.ts; [url_without] is the URL parser of Config. *)
Record PoolOptions := mkPoolOptions {
  po_connectionString : option string; po_ssl : option bool; po_max : Z; po_idleTimeoutMillis : Z; po_connectionTimeoutMillis : Z;
}.
Definition pool_options (url_without : string → list string → option string) (env : ProcessEnv) : PoolOptions :=
  let options := getDbConnectionOptions url_without env in
  mkPoolOptions options.1 options.2 (number_env env "DB_POOL_MAX" 10) 30000 10000.

(** The client of BullMQ: whether it is open, whether its outage was logged, and the
    number of errors logged. *)
Module BullRedis.
Record t := mk { isOpen : bool; errorLogged : bool; errors : nat }.

Definition CONNECT_WAIT_MS : Z := 10000.
(** [connects]: when the connection settles, if it does.  The result: how long the start
    waits for it. *)
Definition createBullRedisClient (connects : option Z) : t * Z :=
  (mk true false 0, match connects with Some ms => Z.min ms CONNECT_WAIT_MS | None => CONNECT_WAIT_MS end).
Definition on_error (c : t) : t := if errorLogged c then c else mk (isOpen c) true (S (errors c)).
Definition on_ready (c : t) : t := mk (isOpen c) false (errors c).
(** [quit], and [destroy] when it fails: closed either way. *)
Definition onApplicationShutdown (c : t) : t := if isOpen c then mk false (errorLogged c) (errors c) else c.

(** The outages in a sequence of events, [true] for an error and [false] for a client
    that is ready. *)
Fixpoint outages (down : bool) (events : list bool) : nat :=
  match events with
  | [] => 0
  | true :: events' => if down then outages true events' else S (outages true events')
  | false :: events' => outages false events'
  end.
Definition on_event (c : t) (failure : bool) : t := if failure then on_error c else on_ready c.

(** One line per outage, however many errors it has; the start waits 10 seconds at most. *)
Lemma one_error_per_outage events c : errors (foldl on_event c events) = (errors c + outages (errorLogged c) events)%nat.
Proof.
  revert c. induction events as [|[] events IH]; intros c; cbn [foldl outages on_event]; [lia| |by rewrite IH].
  rewrite IH. unfold on_error. destruct (errorLogged c) eqn:He; cbn; rewrite ?He; lia.
Qed.
Lemma start_bounded connects : (createBullRedisClient connects).2 ≤ CONNECT_WAIT_MS.
Proof. destruct connects; cbn; [lia|done]. Qed.
End BullRedis.

(** ** Jobs of the delivery queue

    queues.module.ts gives a job three attempts; BullMQ runs one again while [process]
    throws and attempts are left. *)
Record JobOptions := mkJobOptions { jo_attempts : nat; jo_backoffDelay : Z; jo_removeOnComplete : Z; jo_removeOnFail : Z }.
Definition defaultJobOptions : JobOptions := mkJobOptions 3 1000 3600 86400.

Section Jobs.
Context {R : Redis} {E : Env}.

Fixpoint attempt {A} (n : nat) (job : M A) : M A :=
  match n with
  | S (S _ as n') => catch job (λ _, attempt n' job)
  | _ => job
  end.

(** The processor handles every failure of Redis, so it never throws: no job is ever
    retried, and one whose recipients were not written completes like the others. *)
Lemma delivery_never_retried message recipientIds offlineUserIds w :
  nothrow (process message recipientIds offlineUserIds) ∧
  run (attempt (jo_attempts defaultJobOptions) (process message recipientIds offlineUserIds)) w
  = run (process message recipientIds offlineUserIds) w.
Proof.
  assert (Hp : nothrow (process message recipientIds offlineUserIds)).
  { destruct message, recipientIds, offlineUserIds; try apply nothrow_ret. apply nothrow_bind; [auto with nothrow|intros _].
    apply nothrow_bind; [auto with nothrow|intros _]. apply nothrow_ret. }
  split; [done|]. cbn [attempt defaultJobOptions jo_attempts]. rewrite run_catch. specialize (Hp w). unfold wp in Hp.
  destruct (run _ w) as [[a|e] w']; [done|by destruct Hp].
Qed.
End Jobs.

(** ** The timers of the gateway at the shutdown *)
Section Shutdown.
Context {R : Redis} {E : Env} {C : Crypto} {J : Jwt} {P : Environment} {V : ClassValidator} {L : LiveKit}.

Lemma lookup_deletes {A} (m : gmap nat A) ks t : foldr delete m ks !! t = if decide (t ∈ ks) then None else m !! t.
Proof.
  induction ks as [|k ks IH]; cbn [foldr]; [done|]. destruct (decide (t = k)) as [->|Hne].
  - by rewrite lookup_delete_eq, decide_True by (by apply elem_of_cons; left).
  - rewrite lookup_delete_ne, IH by congruence. apply decide_ext. rewrite elem_of_cons. tauto.
Qed.

(** [onModuleDestroy] clears every interval and the timers its map holds, and only those. *)
Lemma onModuleDestroy_clears w :
  wp SocketGateway_onModuleDestroy (λ r w', r = Ok tt ∧ g_heartbeats (w_gateway w') = ∅ ∧ g_typing (w_gateway w') = ∅ ∧
    (∀ key t, g_typing (w_gateway w) !! key = Some t → g_timers (w_gateway w') !! t = None) ∧
    (∀ t, (∀ key, g_typing (w_gateway w) !! key ≠ Some t) → g_timers (w_gateway w') !! t = g_timers (w_gateway w) !! t)) w.
Proof.
  assert (Hin : ∀ t, t ∈ map snd (map_to_list (g_typing (w_gateway w))) ↔ ∃ key, g_typing (w_gateway w) !! key = Some t).
  { intros t. rewrite list_elem_of_In, in_map_iff. setoid_rewrite <-list_elem_of_In. split.
    - intros ([key x] & <- & Hx). exists key. by apply elem_of_map_to_list.
    - intros [key Hk]. exists (key, t). split; [done|]. by apply elem_of_map_to_list. }
  unfold SocketGateway_onModuleDestroy, wp. cbn. split; [done|]. split; [done|]. split; [done|]. split.
  - intros key t Hk. rewrite lookup_deletes, decide_True; [done|]. apply Hin. eauto.
  - intros t Ht. rewrite lookup_deletes, decide_False; [done|]. rewrite Hin. intros [key Hk]. by apply (Ht key).
Qed.
End Shutdown.

#[local] Existing Instance call_env.
#[local] Existing Instance toy_jwt.
#[local] Existing Instance toy_crypto.
#[local] Existing Instance toy_validator.
#[local] Existing Instance toy_livekit.
#[local] Existing Instance toy_framework.
#[local] Existing Instance toy_cloudinary.
#[local] Existing Instance sample_environment.

(** Two [typing:start] events of a socket for a channel that interleave start two
    timers, of which the map knows the second. *)
Definition typing_twice : World :=
  (drive (mjoin (repeat [0; 1]%nat 40))
     (call_world, map handle (repeat (REvent alice_socket "typing:start" (JObj [("channelId", JStr GROUP_ID)])) 2))).1.
(** The first one survives the shutdown of the gateway, and ends the indicator when it fires. *)
Example orphan_timer_survives :
  let before := w_gateway typing_twice in
  let after := (run SocketGateway_onModuleDestroy typing_twice).2 in
  let fired := (run (typing_timeout 0) after).2 in
  (map fst (map_to_list (g_timers before)), map snd (map_to_list (g_typing before)),
   map fst (map_to_list (g_timers (w_gateway after))),
   map (λ e, match e with Emit _ _ event _ => event | _ => "" end) (w_out fired))
  = ([1; 0]%nat, [1]%nat, [0]%nat, ["typing:start"; "typing:start"; "typing:stop"]).
Proof. vm_compute. reflexivity. Qed.

(** A job that runs while there is no client for Redis: nothing is queued for the
    offline member, no unread counter moves, and the answer says both were done. *)
Definition disconnected_env : Env := {|
  now_at := @now_at sample_env; uuid_at := @uuid_at sample_env; conn_at _ := CNull; db_fault := @db_fault sample_env;
  sql_error := @sql_error sample_env; sockets_at := @sockets_at sample_env; queue_fault := @queue_fault sample_env;
  socket_ids_at := @socket_ids_at sample_env; connected_at := @connected_at sample_env; join_fault := @join_fault sample_env; ilike := @ilike sample_env; hashtext := @hashtext sample_env;
  lock_patience := @lock_patience sample_env;
|}.
Example lost_delivery m :
  let after := run (attempt 3 (process (E := disconnected_env) (Some m) (Some ["bob"]) (Some ["bob"]))) call_world in
  after.1 = Ok (1%nat, 1%nat) ∧ w_redis after.2 = w_redis call_world.
Proof. split; reflexivity. Qed.
