(* ===== verification/Privacy.v ===== *)
(** * Privacy: reading never shows the secrets of others

    Two databases are alike for a user [self] when they differ at most in the secret
    columns of the other users: e-mail address, SRP salt and verifier, Argon2
    parameters, sealed private keys and their salts.  [agree g p p']: from alike states
    the programs [p] and [p'] end in alike states, and their results are equal as seen
    through [g].  Every GET request agrees with itself. *)
From Stdlib Require Import Ascii String.
From S2P Require Import Prelude JsString Json IsoDate Effects Errors Redis Schema World Crypto Config RateLimit RedisSession.
From S2P Require Import RedisCache Socket ChannelMembers Messages Channels Reactions Users Keys Srp Auth Chat LiveKit Validation.
From S2P Require Import SocketAuth Calls Dto Http Uploads Controllers Routes Samples Requests.
From stdpp Require Import base list strings gmap.

Local Open Scope string_scope.
Local Open Scope Z_scope.
Local Open Scope list_scope.

Section Privacy.
Context {R : Redis} {E : Env}.
Context (self : string).

(** A row without its secrets, unless it is the user's own. *)
Definition redact (u : UserRow) : UserRow :=
  if u_id u === self then u
  else u <| u_email := "" |> <| u_srpSalt := "" |> <| u_srpVerifier := "" |> <| u_argon2Params := JNull |>
         <| u_encryptedPrivateKey := "" |> <| u_keySalt := "" |> <| u_encryptedPrivateKeySign := "" |> <| u_keySaltSign := "" |>
         <| u_updatedAt := 0 |>.
Definition redact_db (d : Db) : Db := d <| users := map redact (users d) |>.
Definition hide (w : World) : World := w <| w_db := redact_db (w_db w) |>.
Definition alike (w w' : World) : Prop := hide w = hide w'.

#[export] Instance alike_equivalence : Equivalence alike.
Proof. split; unfold alike; [by intros ?|by intros ??|]. by intros ??? -> ->. Qed.

(** ** Agreement *)
Definition seen {A B} (g : A → B) (o : outcome thrown A) : outcome thrown B := match o with Ok a => Ok (g a) | Err e => Err e end.
Definition agree {A B} (g : A → B) (p p' : M A) : Prop :=
  ∀ w w', alike w w' → seen g (run p w).1 = seen g (run p' w').1 ∧ alike (run p w).2 (run p' w').2.
Abbreviation agrees p := (agree id p p).

Lemma agree_ret {A B} (g : A → B) a a' : g a = g a' → agree g (Ret a) (Ret a').
Proof. intros Hg w w' Hw. simpl. by rewrite Hg. Qed.
Lemma agree_throw {A B} (g : A → B) e : agree g (Throw e) (Throw e).
Proof. intros w w' Hw. done. Qed.
Lemma agree_bind {A B A' B'} (g : A → B) (h : A' → B') (p p' : M A) (k k' : A → M A') :
  agree g p p' → (∀ a a', g a = g a' → agree h (k a) (k' a')) → agree h (bind p k) (bind p' k').
Proof.
  intros Hp Hk w w' Hw. rewrite !run_bind. destruct (Hp w w' Hw) as [Ho Hs].
  destruct (run p w) as [[a|e] w1], (run p' w') as [[a'|e'] w1']; simpl in *; try discriminate Ho.
  - injection Ho as Ho. by apply Hk.
  - by injection Ho as ->.
Qed.
Lemma agree_catch {A B} (g : A → B) (p p' : M A) h h' :
  agree g p p' → (∀ e, agree g (h e) (h' e)) → agree g (catch p h) (catch p' h').
Proof.
  intros Hp Hh w w' Hw. rewrite !run_catch. destruct (Hp w w' Hw) as [Ho Hs].
  destruct (run p w) as [[a|e] w1], (run p' w') as [[a'|e'] w1']; simpl in *; try discriminate Ho; [done|].
  injection Ho as <-. by apply Hh.
Qed.
Lemma agree_step {A A'} (h : A → A') {B} (p : M B) (k : B → M A) : agrees p → (∀ a, agree h (k a) (k a)) → agree h (bind p k) (bind p k).
Proof. intros Hp Hk. apply (agree_bind id); [exact Hp|]. intros a a' [= ->]. apply Hk. Qed.
Lemma agree_weaken {A B} (g : A → B) (p : M A) : agrees p → agree g p p.
Proof.
  intros Hp w w' Hw. destruct (Hp w w' Hw) as [Ho Hs]. split; [|done].
  destruct (run p w) as [[a|e] w1], (run p w') as [[a'|e'] w1']; simpl in *; congruence.
Qed.

(** An external call that does not look at the tables. *)
Definition blind {A} (f : nat → World → outcome thrown A * World) : Prop :=
  ∀ n w d, f n (w <| w_db := d |>) = ((f n w).1, (f n w).2 <| w_db := d |>).
Lemma blind_db {A} (f : nat → World → outcome thrown A * World) n w : blind f → w_db (f n w).2 = w_db w.
Proof.
  intros Hf. pose proof (Hf n w (w_db w)) as H. assert (w <| w_db := w_db w |> = w) as Hid by by destruct w.
  rewrite Hid in H. by rewrite H.
Qed.
Lemma blind_hide {A} (f : nat → World → outcome thrown A * World) n w : blind f → f n (hide w) = ((f n w).1, hide (f n w).2).
Proof. intros Hf. unfold hide. by rewrite Hf, blind_db. Qed.
Lemma agrees_act {A} (f : nat → World → outcome thrown A * World) : blind f → agrees (act f).
Proof.
  intros Hf w w' Hw. assert (Ht : w_tick w = w_tick w') by exact (f_equal w_tick Hw).
  pose proof (blind_hide f (w_tick w) w Hf) as H1. pose proof (blind_hide f (w_tick w) w' Hf) as H2.
  unfold alike in Hw. rewrite Hw in H1. rewrite H1 in H2. pose proof (f_equal fst H2) as Ho. pose proof (f_equal snd H2) as Hs. clear H2.
  unfold act; simpl. rewrite <-Ht.
  destruct (f (w_tick w) w) as [o1 w1], (f (w_tick w) w') as [o2 w2]; simpl in *. subst o2.
  assert (alike (tick w1) (tick w2)) by exact (f_equal tick Hs).
  destruct o1; simpl; auto.
Qed.

(** A query whose result does not show the secrets, as seen through [g]. *)
Lemma agree_query {A B} (g : A → B) (q : Db → A) : (∀ d, g (q (redact_db d)) = g (q d)) → agree g (query q) (query q).
Proof.
  intros Hq w w' Hw. assert (Ht : w_tick w = w_tick w') by exact (f_equal w_tick Hw).
  assert (Hd : redact_db (w_db w) = redact_db (w_db w')) by exact (f_equal w_db Hw).
  assert (Htick : alike (tick w) (tick w')) by exact (f_equal tick Hw).
  unfold query, act; simpl. rewrite <-Ht. destruct (db_fault (w_tick w)); simpl; [done|].
  split; [|done]. by rewrite <-Hq, Hd, Hq.
Qed.

(** ** Rows *)
Lemma redact_self u : u_id u = self → redact u = u.
Proof. intros Hu. unfold redact. by rewrite bool_decide_eq_true_2. Qed.
Lemma redact_id u : u_id (redact u) = u_id u.
Proof. unfold redact. by case_bool_decide. Qed.
Lemma select_redact p l : (∀ u, p (redact u) = p u) → select p (map redact l) = map redact (select p l).
Proof. intros Hp. induction l as [|u l IH]; simpl; [done|]. rewrite Hp, IH. by destruct (p u). Qed.
Lemma find_user_redact i d : find_user i (redact_db d) = redact <$> find_user i d.
Proof.
  unfold find_user. cbn [users redact_db modify_field]. rewrite select_redact; [|intros u; by rewrite redact_id].
  by destruct (select _ (users d)).
Qed.
Lemma find_self_redact d : find_user self (redact_db d) = find_user self d.
Proof.
  rewrite find_user_redact. destruct (find_user self d) as [u|] eqn:Hu; simpl; [|done]. f_equal. apply redact_self.
  unfold find_user in Hu. apply first_Some in Hu as [_ Hid]. by boolp.
Qed.
Lemma username_redact i d : u_username <$> find_user i (redact_db d) = u_username <$> find_user i d.
Proof. rewrite find_user_redact. destruct (find_user i d); simpl; [|done]. f_equal. unfold redact. by case_bool_decide. Qed.
Lemma view_redact {A} (f : UserRow → A) l : (∀ u, f (redact u) = f u) → map f (map redact l) = map f l.
Proof. intros Hf. rewrite map_map. by apply map_ext. Qed.
End Privacy.

Create HintDb agree discriminated.
Ltac agree_step_tac :=
  match goal with
  | |- agree _ _ (Ret _) (Ret _) => apply agree_ret; reflexivity
  | |- agree _ _ (Throw _) (Throw _) => apply agree_throw
  | |- agree _ _ (bind _ _) (bind _ _) => apply agree_step; [|intros ?]
  | |- agree _ _ (catch _ _) (catch _ _) => apply agree_catch; [|intros ?]
  | |- agree _ _ (let _ := _ in _) (let _ := _ in _) => cbv zeta
  | |- agree _ _ (with_redis _ _) _ => unfold with_redis
  | |- agree _ _ (if ?b then _ else _) _ => destruct b
  | |- agree _ _ (match ?x with _ => _ end) _ => destruct x
  | |- agree _ id _ _ => solve [eauto with agree typeclass_instances]
  | |- agree _ _ _ _ => solve [apply agree_weaken; eauto with agree typeclass_instances]
  end.
Ltac agree_steps := repeat agree_step_tac.
Ltac agree_handler := intros; match goal with |- agree _ _ ?p _ => unfold_head p end; agree_steps.

(** ** What reading calls *)
Section Reading.
Context {R : Redis} {E : Env} {C : Crypto} {J : Jwt} {P : Environment} {V : ClassValidator} {L : LiveKit} {F : Framework} {K : Cloudinary}.
Context (self : string).
#[local] Abbreviation agrees p := (agree self id p p).
(** A function of the public columns of [u]. *)
Ltac by_column u := unfold redact; let H := fresh in destruct (u_id u === self) eqn:H; simpl; rewrite ?H; reflexivity.

Lemma agrees_reads {A} (f : nat → outcome thrown A) : agrees (act (λ n w, (f n, w))).
Proof. by apply agrees_act. Qed.
Lemma agrees_Date_now : agrees Date_now.
Proof. apply agrees_reads. Qed.
Lemma agrees_randomUUID : agrees randomUUID.
Proof. apply agrees_reads. Qed.
Lemma agrees_getClient : agrees getClient.
Proof. apply agrees_reads. Qed.
Lemma agrees_send_effect e : agrees (send_effect e).
Proof. by apply agrees_act. Qed.
Lemma agrees_on_redis {A} (f : Z → rstore → option A * rstore) : agrees (on_redis f).
Proof. apply agrees_act. intros n w d. cbn. destruct (conn_at n) as [| |[]]; try done. by destruct (f _ _) as [[a|] r]. Qed.
Lemma agrees_redis_cmd c : agrees (redis_cmd c).
Proof. apply agrees_on_redis. Qed.
Lemma agrees_redis_multi cs : agrees (redis_multi cs).
Proof. apply agrees_on_redis. Qed.
Lemma agrees_redis_mget ks : agrees (redis_mget ks).
Proof. apply agrees_on_redis. Qed.
Lemma agrees_same {A} (q : Db → A) : (∀ d, q (redact_db self d) = q d) → agrees (query q).
Proof. intros Hq. by apply agree_query. Qed.
Lemma agrees_query_with {A} parameter (q : Db → A) : (∀ d, q (redact_db self d) = q d) → agrees (query_with parameter q).
Proof.
  intros Hq. unfold query_with. case_match; [|by apply agrees_same]. apply agree_step; [by apply agrees_same|].
  intros _. apply agree_throw.
Qed.
Lemma agrees_for_each {A} (l : list A) (f : A → M ()) : (∀ x, agrees (f x)) → agrees (for_each l f).
Proof. intros Hf. induction l as [|x l IH]; [by apply agree_ret|]. apply agree_step; [apply Hf|]. by intros _. Qed.
#[local] Hint Resolve agrees_reads agrees_Date_now agrees_randomUUID agrees_getClient agrees_send_effect agrees_on_redis
  agrees_redis_cmd agrees_redis_multi agrees_redis_mget : agree.
Ltac same_rows := apply agrees_same; intros d; reflexivity.

Lemma agrees_with_redis {A} (dflt : A) (p : M A) : agrees p → agrees (with_redis dflt p).
Proof. intros Hp. unfold with_redis. agree_steps. Qed.
Lemma agrees_getRecentMessages c l : agrees (getRecentMessages c l).
Proof. agree_handler. Qed.
Lemma agrees_invalidateMessages c : agrees (invalidateMessages c).
Proof. agree_handler. Qed.
Lemma agrees_getUnreadCounts u cs : agrees (getUnreadCounts u cs).
Proof. agree_handler. Qed.
Lemma agrees_getTypingUsers c : agrees (getTypingUsers c).
Proof. agree_handler. Qed.
Lemma agrees_getOnlineUsers us : agrees (getOnlineUsers us).
Proof. agree_handler. Qed.
#[local] Hint Resolve agrees_getRecentMessages agrees_invalidateMessages agrees_getUnreadCounts agrees_getTypingUsers
  agrees_getOnlineUsers : agree.

(** *** Messages, reactions *)
Lemma agrees_attachReactions l : agrees (attachReactions l).
Proof.
  agree_handler. apply agrees_same. intros d. unfold reaction_rows. apply map_ext. intros r. by rewrite username_redact.
Qed.
#[local] Hint Resolve agrees_attachReactions : agree.
Lemma agrees_getCachedPage c l : agrees (getCachedPage c l).
Proof. agree_handler. Qed.
#[local] Hint Resolve agrees_getCachedPage : agree.
Lemma agrees_databasePage c l cur m : agrees (databasePage c l cur m).
Proof. agree_handler. apply agrees_query_with. intros d. unfold page_rows. apply map_ext. intros r. by rewrite username_redact. Qed.
#[local] Hint Resolve agrees_databasePage : agree.
Lemma agrees_getMessages c u l cur m : agrees (getMessages c u l cur m).
Proof. agree_handler; same_rows. Qed.
Lemma agrees_loadTarget u c m : agrees (loadTarget u c m).
Proof. agree_handler; same_rows. Qed.
#[local] Hint Resolve agrees_loadTarget : agree.
Lemma agrees_getReactions m u c : agrees (getReactions m u c).
Proof. agree_handler; same_rows. Qed.

(** *** Channels *)
Lemma agrees_assertMember c u : agrees (assertMember c u).
Proof. agree_handler. same_rows. Qed.
#[local] Hint Resolve agrees_assertMember : agree.
Lemma agrees_getInbox u : agrees (getInbox u).
Proof.
  agree_handler; try same_rows. apply agrees_same. intros d. unfold inbox_channels. apply map_ext. intros c. f_equal.
  unfold last_message. destruct (c_lastMessageId c) as [i|]; simpl; [|done].
  change (find_message i (redact_db self d)) with (find_message i d). destruct (find_message i d); simpl; [|done].
  by rewrite username_redact.
Qed.
Lemma agrees_getTypingUsersOf c u : agrees (getTypingUsersOf c u).
Proof. agree_handler. Qed.
Lemma agrees_getReadReceipts c u : agrees (getReadReceipts c u).
Proof. agree_handler. same_rows. Qed.
Lemma agree_getChannel c u : agree self channel_json (getChannel c u) (getChannel c u).
Proof.
  unfold getChannel. apply agree_step; [apply agrees_assertMember|]. intros role. apply agree_step; [same_rows|].
  intros [ch|]; [|apply agree_throw]. apply (agree_bind _ (map channel_member_json)).
  - apply agree_query. intros d. unfold channel_members. change (memberships (redact_db self d)) with (memberships d).
    apply map_omap_ext. intros m. rewrite find_user_redact. destruct (find_user (mb_userId m) d) as [v|]; simpl; [|done].
    f_equal. unfold channel_member_json. by_column v.
  - intros l l' Hl. apply agree_ret. unfold channel_json. by rewrite Hl.
Qed.

(** *** Users, keys, the log, calls *)
Lemma agrees_search q l : agree self (map (λ u, JObj (publicUserColumns u))) (search q self l) (search q self l).
Proof.
  apply agree_query. intros d. cbn [users redact_db modify_field].
  rewrite select_redact; [|intros u; by_column u].
  rewrite (sort_by_map (λ a b, String.leb (u_username a) (u_username b)));
    [|intros a b; unfold redact; cbn beta; by destruct (u_id a === self), (u_id b === self)].
  change (take l (map (redact self) ?x)) with (take l (redact self <$> x)). rewrite <-fmap_take.
  apply view_redact. intros u. by_column u.
Qed.
Lemma agree_findPublicById i : agree self public_profile_json (findPublicById i) (findPublicById i).
Proof.
  unfold findPublicById. apply (agree_bind _ (fmap public_profile_json)).
  - apply agree_query. intros d. cbn [users redact_db modify_field].
    rewrite select_redact; [|intros u; by_column u].
    destruct (select _ (users d)) as [|u l]; simpl; [done|]. f_equal. by_column u.
  - intros [u|] [u'|] Hu; try discriminate Hu; [|apply agree_throw]. apply agree_ret. exact (f_equal (default JNull) Hu).
Qed.
Lemma agrees_getPublicKeys us : agrees (getPublicKeys us).
Proof.
  unfold getPublicKeys. destruct (us === []); [by apply agree_ret|].
  set (view u := (u_id u, mkPublicKeys (u_publicKey u) (u_publicKeySign u) (u_keyVersion u))).
  apply (agree_bind _ (map view)).
  - apply agree_query. intros d. cbn [users redact_db modify_field]. rewrite select_redact; [|intros u; by rewrite redact_id].
    apply view_redact. intros u. unfold view. by_column u.
  - intros l l' Hl. apply agree_ret.
    assert (Hfold : ∀ l (m : gmap string PublicKeys),
      foldl (λ m u, <[u_id u := mkPublicKeys (u_publicKey u) (u_publicKeySign u) (u_keyVersion u)]> m) m l
      = foldl (λ m kv, <[kv.1 := kv.2]> m) m (map view l)).
    { clear. induction l as [|u l IH]; intros m; simpl; [done|]. by rewrite IH. }
    by rewrite !Hfold, Hl.
Qed.
Lemma agrees_find_self : agrees (query (find_user self)).
Proof. apply agrees_same, find_self_redact. Qed.
#[local] Hint Resolve agrees_find_self : agree.
Lemma agrees_getMyKeys : agrees (getMyKeys self).
Proof. agree_handler. Qed.
Lemma agrees_getProfile : agrees (getProfile self).
Proof. agree_handler. Qed.
Lemma agrees_getSenderKeys g u e : agrees (getSenderKeys g u e).
Proof. apply agrees_query_with. intros d. reflexivity. Qed.
Lemma agrees_getLogs q : agrees (getLogs q).
Proof. same_rows. Qed.
Lemma agrees_getSecurityEvents u : agrees (getSecurityEvents u).
Proof. same_rows. Qed.
Lemma history_row_redact d c : history_row (redact_db self d) c = history_row d c.
Proof.
  assert (Hj : ∀ i, joined_user i (redact_db self d) = joined_user i d).
  { intros [i|]; simpl; [|done]. rewrite find_user_redact. destruct (find_user i d) as [u|]; simpl; [|done]. by_column u. }
  unfold history_row. by rewrite !Hj.
Qed.
Lemma agrees_getCallHistory u l o : agrees (getCallHistory u l o).
Proof. apply agrees_same. intros d. apply map_ext, history_row_redact. Qed.
Lemma agrees_getCallHistoryWithUser u v l : agrees (getCallHistoryWithUser u v l).
Proof. apply agrees_same. intros d. apply map_ext, history_row_redact. Qed.
Lemma agrees_getHistory u p l : agrees (getHistory u p l).
Proof. unfold getHistory. apply agree_step; [auto using agrees_getCallHistory|]. intros calls. by apply agree_ret. Qed.
#[local] Hint Resolve agrees_getHistory agrees_getMyKeys agrees_getProfile agrees_getSenderKeys agrees_getLogs agrees_getSecurityEvents
  agrees_getCallHistory agrees_getCallHistoryWithUser agrees_getPublicKeys agrees_getTypingUsersOf agrees_getReadReceipts
  agrees_getInbox agrees_getMessages agrees_getReactions agrees_getOnlineUsers : agree.

(** *** Guards, pipes, the filter *)
Lemma agrees_validate {T} (cls : PayloadClass T) v : agrees (validate cls v).
Proof. agree_handler. Qed.
Lemma agrees_uuid_param k c : agrees (uuid_param k c).
Proof. agree_handler; unfold ParseUUIDPipe; agree_steps. Qed.
Lemma agrees_uuid_query k c : agrees (uuid_query k c).
Proof. agree_handler; unfold ParseUUIDPipe; agree_steps. Qed.
Lemma agrees_sql_date t : agrees (sql_date t).
Proof. agree_handler. Qed.
Lemma agrees_increment k ms : agrees (increment k ms).
Proof. agree_handler. Qed.
#[local] Hint Resolve agrees_increment : agree.
Lemma agrees_throttler skip req : agrees (throttler_canActivate skip req).
Proof. agree_handler; unfold getTracker, throttler_increment; agree_steps. apply agrees_for_each. intros h. agree_steps. Qed.
Lemma agrees_AllExceptionsFilter req i e : agrees (AllExceptionsFilter req i e).
Proof. agree_handler. Qed.
Lemma agrees_RequestIdMiddleware req : agrees (RequestIdMiddleware req).
Proof. agree_handler. Qed.
Lemma agrees_health_ready c : agrees (health_ready c).
Proof. agree_handler; unfold checkDb, ping; agree_steps. same_rows. Qed.
#[local] Hint Resolve agrees_validate agrees_uuid_param agrees_uuid_query agrees_sql_date : agree.

(** ** Requests *)
Lemma agrees_reply status p : agrees p → agrees (reply status p).
Proof. intros Hp. apply agree_step; [exact Hp|]. intros b. by apply agree_ret. Qed.

(** The routes that serve GET requests, for the user of the token. *)
Lemma agrees_search_reply c u : au_id u = self → agrees (users_search c u).
Proof.
  intros Hu. unfold users_search. rewrite Hu. unfold valid_query. apply agree_step; [auto with agree|]. intros [q l].
  apply (agree_bind _ (map (λ u, JObj (publicUserColumns u)))); [apply agrees_search|]. intros a a' Ha. apply agree_ret. by rewrite Ha.
Qed.
Lemma agrees_findOne_reply c u : agrees (users_findOne c u).
Proof.
  unfold users_findOne. apply agree_step; [auto with agree|]. intros i.
  apply (agree_bind _ public_profile_json); [apply agree_findPublicById|]. intros a a' Ha. apply agree_ret. by rewrite Ha.
Qed.
Lemma agrees_getChannel_reply c u : agrees (channels_getChannel c u).
Proof.
  unfold channels_getChannel. apply agree_step; [auto with agree|]. intros i.
  apply (agree_bind _ channel_json); [apply agree_getChannel|]. intros a a' Ha. apply agree_ret. by rewrite Ha.
Qed.
#[local] Hint Resolve agrees_search_reply agrees_findOne_reply agrees_getChannel_reply agrees_health_ready : agree.
Ltac agree_route :=
  intros; try apply agrees_reply;
  solve [auto with agree | by apply agree_ret
        | match goal with Hu : au_id _ = _ |- agree _ _ ?h _ => unfold_head h; rewrite ?Hu; unfold valid_query; agree_steps end].

Definition route_agrees (r : Route) : Prop :=
  match rt_access r with
  | Open h => ∀ c, agrees (h c)
  | Protected h => ∀ c u, au_id u = self → agrees (h c u)
  end.
Lemma routes_agree r : r ∈ routes → rt_method r = "GET" → rt_limit r = None ∧ route_agrees r.
Proof.
  intros Hr. revert r Hr. apply (Forall_forall (λ r, rt_method r = "GET" → rt_limit r = None ∧ route_agrees r)).
  repeat (apply Forall_cons; split); [..|apply Forall_nil_2]; intros Hget; try discriminate Hget;
    (split; [reflexivity|]); unfold route_agrees; cbn [rt_access open limited protected unthrottled]; agree_route.
Qed.
(** *** The way through guards and filter *)
Lemma agree_known {A} {B} (p : M B) (k : B → M A) (Q : B → Prop) :
  agrees p → (∀ w, wp p (λ o _, ∀ b, o = Ok b → Q b) w) → (∀ b, Q b → agrees (k b)) → agrees (bind p k).
Proof.
  intros Hp HQ Hk w w' Hw. rewrite !run_bind. destruct (Hp w w' Hw) as [Ho Hs]. specialize (HQ w). unfold wp in HQ.
  destruct (run p w) as [[b|e] w1], (run p w') as [[b'|e'] w1']; simpl in *; try discriminate Ho.
  - injection Ho as <-. by apply (Hk b); [apply HQ|].
  - by injection Ho as ->.
Qed.

Context (req : HttpRequest).
(** The token of the request, if any, is one of [self]. *)
Definition token_of_self : Prop :=
  ∀ n payload sub, jwt_payload n (hr_authorization req) = Some payload → subject payload = Some sub → sub = self.
Hypothesis Htoken : token_of_self.

Lemma agrees_JwtAuthGuard : agrees (JwtAuthGuard req).
Proof.
  unfold JwtAuthGuard. apply (agree_known _ _ (λ payload, ∃ n, jwt_payload n (hr_authorization req) = payload)).
  - apply agrees_reads.
  - intros w. apply wp_act'. intros b [= <-]. by eexists.
  - intros [payload|] [n Hn]; [|apply agree_throw]. apply agree_step; [|intros a; agree_steps].
    unfold jwt_validate. destruct (subject payload) as [sub|] eqn:Hsub; [|by apply agree_ret].
    rewrite (Htoken n payload sub Hn Hsub). apply agrees_same. intros d. unfold active_row. by rewrite find_self_redact.
Qed.
Lemma wp_JwtAuthGuard w : wp (JwtAuthGuard req) (λ o _, ∀ u, o = Ok u → au_id u = self) w.
Proof.
  unfold JwtAuthGuard. apply wp_bind, wp_act'. cbn beta iota. destruct (jwt_payload _ _) as [payload|] eqn:Hp; [|apply wp_throw; by intros u].
  unfold jwt_validate. destruct (subject payload) as [sub|] eqn:Hsub; [|cbn [bind]; apply wp_throw; by intros u].
  pose proof (Htoken _ _ _ Hp Hsub) as ->. apply wp_bind, wp_query; [intros e; by intros u|].
  destruct (authenticated_user <$> active_row self _) as [u|] eqn:Hu; [|apply wp_throw; by intros u]. apply wp_ret. intros u' [= <-].
  unfold active_row, find_user in Hu. destruct (head _) as [row|] eqn:Hf; simpl in Hu; [|done].
  apply first_Some in Hf as [_ Hid]. destruct (u_isActive row); [|done]. injection Hu as <-. simpl. by boolp.
Qed.

Definition reading : Prop := hr_method req = "GET" ∨ hr_method req = "HEAD".
Hypothesis Hreading : reading.
Lemma reading_route route ps : find_route req routes = Some (route, ps) → route ∈ routes ∧ rt_method route = "GET".
Proof.
  intros Hf. pose proof (find_route_elem _ _ _ _ Hf) as Hr. split; [done|].
  assert (Hs : serves (hr_method req) route = true).
  { revert Hf. generalize routes as table. intros table. induction table as [|r table IH]; [done|]. cbn [find_route].
    unfold match_route at 1. destruct (serves (hr_method req) r) eqn:Hs; [|apply IH].
    destruct (match_path _ _); [|apply IH]. by intros [= -> _]. }
  assert (Hhead : rt_method route ≠ "HEAD").
  { clear -Hr. revert route Hr. apply (Forall_forall (λ r, rt_method r ≠ "HEAD")). by repeat constructor. }
  unfold serves in Hs. destruct Hreading as [Hm|Hm]; rewrite Hm in Hs; apply orb_true_iff in Hs as [Hs|Hs];
    try apply andb_true_iff in Hs as [Hs' Hs]; apply bool_decide_eq_true_1 in Hs; congruence || discriminate Hs'.
Qed.
Lemma agrees_dispatch body : agrees (dispatch req body).
Proof.
  unfold dispatch. destruct (find_route req routes) as [[route ps]|] eqn:Hf; [|apply agree_throw].
  destruct (reading_route _ _ Hf) as [Hr Hm]. destruct (routes_agree route Hr Hm) as [Hlimit Hh]. unfold route_agrees in Hh.
  unfold run_route. rewrite Hlimit. apply agree_step; [apply agrees_throttler|]. intros _. cbv zeta.
  destruct (rt_access route) as [h|h].
  - apply agree_step; [by apply agree_ret|]. intros _. apply Hh.
  - eapply agree_known; [apply agrees_JwtAuthGuard|apply wp_JwtAuthGuard|]. intros u Hu.
    apply agree_step; [by apply agree_ret|]. intros _. by apply Hh.
Qed.
Lemma agrees_serve_http : agrees (serve_http req).
Proof.
  unfold serve_http. destruct (hr_body req) as [body|e]; [|apply agrees_AllExceptionsFilter].
  apply agree_step; [apply agrees_RequestIdMiddleware|]. intros i.
  apply agree_catch; [apply agrees_dispatch|]. intros e. apply agrees_AllExceptionsFilter.
Qed.
End Reading.

(** C11: reading never shows the secrets of others: when a GET or HEAD request carries
    no token but those of the user [self] (or none), two servers whose states differ at
    most in the secret columns of the other users (e-mail address, SRP salt and verifier,
    Argon2 parameters, sealed private keys and their salts) give the same response, send
    the same headers and effects, and end in states that differ in no more: whatever the
    route, the parameters and the failures of Redis and of the database. *)
Theorem reading_hides_secrets {R : Redis} {E : Env} {C : Crypto} {J : Jwt} {P : Environment} {V : ClassValidator} {L : LiveKit}
  {F : Framework} {K : Cloudinary} (self : string) (req : HttpRequest) (w w' : World)
  (Hreading : reading req) (Htoken : token_of_self self req) (Hw : alike self w w') :
  (run (serve_http req) w).1 = (run (serve_http req) w').1 ∧
  w_out (run (serve_http req) w).2 = w_out (run (serve_http req) w').2 ∧
  w_redis (run (serve_http req) w).2 = w_redis (run (serve_http req) w').2 ∧
  alike self (run (serve_http req) w).2 (run (serve_http req) w').2.
Proof.
  destruct (agrees_serve_http self req Htoken Hreading w w' Hw) as [Ho Hs]. split; [|split_and!].
  - by destruct (run _ w) as [[r|e] w1], (run _ w') as [[r'|e'] w1'].
  - exact (f_equal w_out Hs).
  - exact (f_equal w_redis Hs).
  - exact Hs.
Qed.

(** ** On a concrete server: Alice looks at Bob *)
#[local] Existing Instance sample_env.
#[local] Existing Instance toy_jwt.
#[local] Existing Instance sample_environment.
#[local] Existing Instance toy_crypto.
#[local] Existing Instance toy_validator.
#[local] Existing Instance toy_livekit.
#[local] Existing Instance toy_framework.
#[local] Existing Instance toy_cloudinary.

Definition moved_world : World (R := mem_redis) :=
  sample_world <| w_db := sample_db <| users := map (λ u, if u_id u === "bob" then u <| u_email := "b@new.org" |> <| u_srpVerifier := "7f" |> else u)
                                                  (users sample_db) |> |>.
Definition find_bob : HttpRequest := sample_request "GET" ["api"; "users"; "search"] (JObj [("q", JStr "bo")]) JNull (Some "Bearer alice").
Lemma reading_hides_secrets_witness :
  sample_world ≠ moved_world ∧
  rs_status <$> (match (run (serve_http find_bob) moved_world).1 with Ok r => Some r | Err _ => None end) = Some 200 ∧
  (run (serve_http find_bob) sample_world).1 = (run (serve_http find_bob) moved_world).1 ∧
  w_out (run (serve_http find_bob) sample_world).2 = w_out (run (serve_http find_bob) moved_world).2 ∧
  w_redis (run (serve_http find_bob) sample_world).2 = w_redis (run (serve_http find_bob) moved_world).2 ∧
  alike "alice" (run (serve_http find_bob) sample_world).2 (run (serve_http find_bob) moved_world).2.
Proof.
  split; [intros H; discriminate (f_equal (λ w, map u_email (users (w_db w))) H)|]. split; [vm_compute; reflexivity|].
  apply (reading_hides_secrets "alice" find_bob sample_world moved_world); [by left| |reflexivity].
  intros n payload sub [= <-] [= <-]. reflexivity.
Defined.
