(* ===== verification/Invariants.v ===== *)
(** * Invariants: what holds in every state of every run of the server

    Invariants of the abstract database machine ([db_step]), proved by cases on the
    transition, and the properties of the server they give through the refinement. *)
From Stdlib Require Import String.
From S2P Require Import Prelude JsString Json Effects Errors Redis Schema World Crypto Config RateLimit RedisSession.
From S2P Require Import RedisCache Socket ChannelMembers Messages Channels Reactions Users Keys Srp Auth Chat DbStep Exclusive.
From S2P Require Import LiveKit Validation SocketAuth Http Uploads System Samples.
From stdpp Require Import base list strings gmap relations.

Local Open Scope string_scope.
Local Open Scope Z_scope.
Local Open Scope list_scope.

(** ** Message ids *)
Definition ids_unique (d : Db) : Prop := NoDup (map m_id (messages d)).

Lemma map_core_wipe {B} (g : MessageRow → B) id now d :
  (∀ m, g (m <| m_isDeleted := true |> <| m_encryptedContent := "" |> <| m_metadata := None |> <| m_updatedAt := now |>) = g m) →
  map g (messages (wipe_message id now d)) = map g (messages d).
Proof. intros H. by apply map_update. Qed.

Lemma ids_unique_step d d' : ids_unique d → db_step d d' → ids_unique d'.
Proof.
  unfold ids_unique. intros Hd Hs.
  destruct (messages_step _ _ Hs) as [->|[(msg & t & Hi & -> & _)|(id & now & ->)]]; [done| |by rewrite map_core_wipe].
  apply insert_row_ok in Hi as (_ & _ & Hc & _). rewrite map_app. apply NoDup_app. split; [done|]. split; [|apply NoDup_singleton].
  intros x Hx Hx'. apply list_elem_of_singleton in Hx'. simpl in Hx'. subst x.
  apply list_elem_of_In, in_map_iff in Hx as (m & Hm & Hin%list_elem_of_In). specialize (Hc m Hin).
  unfold message_conflict in Hc. boolp. congruence.
Qed.

(** ** Sequence numbers *)
Definition sequences (c : string) (d : Db) : list Z := map m_sequenceNumber (channel_messages c d).

(** In every channel the messages are numbered 1, 2, 3, ... in the order they were stored. *)
Definition contiguous (d : Db) : Prop := ∀ c, sequences c d = seqZ 1 (Z.of_nat (length (channel_messages c d))).

Lemma foldl_max_seqZ a n : foldl Z.max a (seqZ (a + 1) (Z.of_nat n)) = a + Z.of_nat n.
Proof.
  revert a. induction n as [|n IH]; intros a; [simpl; lia|].
  rewrite Nat2Z.inj_succ, seqZ_cons, Z.pred_succ by lia. cbn [foldl].
  replace (Z.max a (a + 1)) with (a + 1) by lia. rewrite <-Z.add_1_r, IH. lia.
Qed.

Lemma max_sequence_contiguous d c : contiguous d → max_sequence (channel_messages c d) = Z.of_nat (length (channel_messages c d)).
Proof.
  intros H. specialize (H c). unfold sequences in H. unfold max_sequence. rewrite H.
  destruct (length (channel_messages c d)) as [|n]; [done|].
  rewrite Nat2Z.inj_succ, seqZ_cons, Z.pred_succ by lia. change (Z.succ 1) with (1 + 1). rewrite foldl_max_seqZ. lia.
Qed.

Lemma channel_messages_wipe c id now d :
  channel_messages c (wipe_message id now d) =
  update_where (λ m, m_id m === id)
    (λ m, m <| m_isDeleted := true |> <| m_encryptedContent := "" |> <| m_metadata := None |> <| m_updatedAt := now |>)
    (channel_messages c d).
Proof. apply select_update. done. Qed.

Lemma channel_messages_eq c d d' : messages d' = messages d → channel_messages c d' = channel_messages c d.
Proof. unfold channel_messages. by intros ->. Qed.

Lemma contiguous_step d d' : contiguous d → db_step d d' → contiguous d'.
Proof.
  intros Hd Hs c. specialize (Hd c) as Hdc. unfold sequences in *.
  destruct (messages_step _ _ Hs) as [Hm|[(msg & t & Hi & Hm & _ & Hseq)|(id & now & Hm)]].
  - by rewrite (channel_messages_eq c d d').
  - assert (channel_messages c d' = channel_messages c d ++ select (of_channel c) [msg]) as ->.
    { unfold channel_messages. by rewrite Hm, select_app. }
    simpl. destruct (of_channel c msg) eqn:Hc; simpl; [|by rewrite app_nil_r].
    unfold of_channel in Hc. boolp. rewrite map_app, Hdc, length_app. cbn [map length]. rewrite Hseq, Hc.
    rewrite max_sequence_contiguous, Nat2Z.inj_add, seqZ_app by (done || lia). f_equal.
    change (Z.of_nat 1) with 1. rewrite seqZ_cons by lia. rewrite Z.add_comm. reflexivity.
  - rewrite (channel_messages_eq c (wipe_message id now d) d') by done.
    by rewrite channel_messages_wipe, map_update, length_update_where.
Qed.

(** ** Reactions *)
Definition reaction_key (r : ReactionRow) : string * string := (re_messageId r, re_userId r).
Definition one_reaction (d : Db) : Prop := NoDup (map reaction_key (reactions d)).

Lemma map_filter_sublist {A B} (g : A → B) p (l : list A) : map g (List.filter p l) `sublist_of` map g l.
Proof. induction l as [|x l IH]; simpl; [done|]. case_match; simpl; by constructor. Qed.

Lemma NoDup_map_filter {A B} (g : A → B) p (l : list A) : NoDup (map g l) → NoDup (map g (List.filter p l)).
Proof. intros. by eapply sublist_NoDup, map_filter_sublist. Qed.

Lemma one_reaction_step d d' : one_reaction d → db_step d d' → one_reaction d'.
Proof.
  unfold one_reaction. intros Hd [lbl Hs].
  destruct (reactions_step _ _ _ Hs) as [->|[(p & ->)|(row & l & _ & -> & -> & Hidx)]]; [done|by apply NoDup_map_filter|].
  rewrite map_app. apply NoDup_app. split; [by apply NoDup_map_filter|]. split; [|apply NoDup_singleton].
  intros x Hx Hx'. apply list_elem_of_singleton in Hx'. simpl in Hx'. subst x.
  apply list_elem_of_In, in_map_iff in Hx as (r & [= Hr1 Hr2] & Hr). apply list_elem_of_In in Hr.
  specialize (Hidx r Hr). apply elem_of_delete_where in Hr as [_ Hr].
  unfold reaction_index, user_reactions in *. rewrite Hr1, Hr2 in *.
  rewrite !bool_decide_eq_true_2 in Hr, Hidx by done. simpl in *. boolp. congruence.
Qed.

(** ** Key versions *)
Definition versions_grow (d d' : Db) : Prop :=
  ∀ u, u ∈ users d → ∃ u', u' ∈ users d' ∧ u_id u' = u_id u ∧ u_keyVersion u ≤ u_keyVersion u'.

Lemma versions_update p f d d' : users d' = update_where p f (users d) →
  (∀ u, p u = true → u_id (f u) = u_id u ∧ u_keyVersion u ≤ u_keyVersion (f u)) → versions_grow d d'.
Proof.
  intros Hu Hf u Hin. exists (if p u then f u else u). split.
  - rewrite Hu. apply elem_of_update_where. eauto.
  - destruct (p u) eqn:Hp; [by apply Hf|split; [done|lia]].
Qed.

Lemma checked_update_ok {A} column p f (t t' : list A) : checked_update column p f t = Ok t' → t' = update_where p f t.
Proof. unfold checked_update. case_match; [|done]. by intros [= <-]. Qed.

Lemma versions_step d d' : db_step d d' → versions_grow d d'.
Proof.
  assert (Hsame : ∀ d', users d' = users d → versions_grow d d').
  { intros d0 Hu u Hin. exists u. rewrite Hu. split; [done|]. split; [done|lia]. }
  intros [l Hs]; destruct Hs; try (apply Hsame; reflexivity).
  - apply Hsame. apply deletion_frame.
  - apply Hsame. cbn. case_match; [|done]. by use_promotion.
  - apply insert_row_ok in H as (-> & _). intros v Hin. exists v. split; [apply elem_of_app; by left|split; [done|lia]].
  - apply checked_update_ok in H as ->. eapply versions_update; [reflexivity|]. intros u Hu. cbv beta in Hu. boolp.
    split; [done|]. change (u_keyVersion u ≤ newKeyVersion params). by apply Z.lt_le_incl.
  - apply checked_update_ok in H0 as ->. eapply versions_update; [reflexivity|]. intros u _. split; [done|exact (Z.le_refl (u_keyVersion u))].
  - eapply versions_update; [reflexivity|]. intros u _. split; [done|exact (Z.le_refl (u_keyVersion u))].
  - eapply versions_update; [reflexivity|]. intros u _. split; [done|exact (Z.le_refl (u_keyVersion u))].
Qed.

Lemma versions_steps d d' : db_steps d d' → versions_grow d d'.
Proof.
  induction 1 as [d|d d1 d2 Hs _ IH]; intros u Hu; [exists u; split; [done|split; [done|lia]]|].
  destruct (versions_step _ _ Hs u Hu) as (u1 & Hu1 & Hid1 & Hv1). destruct (IH u1 Hu1) as (u2 & Hu2 & Hid2 & Hv2).
  exists u2. split; [done|]. split; [congruence|lia].
Qed.

Lemma NoDup_map_inj {A B} (g : A → B) (l : list A) x y : NoDup (map g l) → x ∈ l → y ∈ l → g x = g y → x = y.
Proof.
  induction l as [|z l IH]; simpl; intros Hnd Hx Hy Heq; [by apply not_elem_of_nil in Hx|].
  apply NoDup_cons in Hnd as [Hz Hnd].
  assert (∀ u, u ∈ l → g u ≠ g z) as Hne.
  { intros u Hu Hg. apply Hz. rewrite <-Hg. by apply (list_elem_of_fmap_2 g). }
  apply elem_of_cons in Hx as [->|Hx], Hy as [->|Hy]; [done| | |by apply IH].
  - exfalso. by apply (Hne y).
  - exfalso. by apply (Hne x).
Qed.

(** ** Messages evolve only by being deleted *)
Definition header (m : MessageRow) :=
  (core m, m_messageType m, m_contentIv m, m_contentTag m, m_signature m, m_senderKeyEpoch m, m_createdAt m).
Definition wiped (m : MessageRow) : Prop := m_isDeleted m = true ∧ m_encryptedContent m = "" ∧ m_metadata m = None.

(** What a stored message [m] may have become. *)
Definition evolved (m m' : MessageRow) : Prop :=
  header m' = header m ∧
  (wiped m' ∨ (m_isDeleted m' = m_isDeleted m ∧ m_encryptedContent m' = m_encryptedContent m ∧ m_metadata m' = m_metadata m)).

#[export] Instance evolved_preorder : PreOrder evolved.
Proof.
  split; [by split; auto|].
  unfold evolved, wiped. intros m1 m2 m3 [H1 H2] [H3 H4]. split; [congruence|].
  destruct H4 as [?|(H4 & H5 & H6)]; [by left|]. by rewrite H4, H5, H6.
Qed.

(** The rows of [t], evolved, are the first rows of [t']. *)
Definition extends (t t' : list MessageRow) : Prop := ∃ old new, t' = old ++ new ∧ Forall2 evolved t old.

#[export] Instance extends_preorder : PreOrder extends.
Proof.
  split; [intros t; exists t, []; by rewrite app_nil_r|].
  intros t1 t2 t3 (o1 & n1 & -> & H1) (o2 & n2 & -> & H2). apply Forall2_app_inv_l in H2 as (p & q & Hp & _ & ->).
  exists p, (q ++ n2). rewrite <-app_assoc. split; [done|]. by transitivity o1.
Qed.

Lemma extends_step d d' : db_step d d' → extends (messages d) (messages d').
Proof.
  intros Hs. destruct (messages_step _ _ Hs) as [->|[(msg & t & _ & -> & _)|(id & now & ->)]]; [done|by exists (messages d), [msg]|].
  eexists _, []. rewrite app_nil_r. split; [reflexivity|]. unfold wipe_message, update_where. cbn [messages modify_field].
  apply Forall2_fmap_r, Forall_Forall2_diag, Forall_forall. intros m _. simpl.
  destruct (m_id m === id); [|done]. split; [done|]. by left.
Qed.

Lemma extends_steps d d' : db_steps d d' → extends (messages d) (messages d').
Proof. induction 1 as [|d1 d2 d3 H _ IH]; [done|]. by etransitivity; [apply extends_step|]. Qed.

(** * The properties of the server *)
Section Server.
Context {R : Redis} {E : Env} {C : Crypto} {J : Jwt} {P : Environment} {V : ClassValidator} {L : LiveKit} {F : Framework} {K : Cloudinary}.

Lemma run_steps_between w rs c c' : server_run w rs c → rtc pstep c c' → db_steps (w_db c.1) (w_db c'.1).
Proof.
  intros H Hs. revert H. induction Hs as [c|c c1 c2 Hstep Hs IH]; intros H; [done|].
  transitivity (w_db c1.1); [|apply IH; by eapply server_run_step].
  destruct (run_next _ _ _ _ H Hstep) as [->|?]; [done|by apply rtc_once].
Qed.

(** C2: in every state of every run, the messages of a channel are numbered 1, 2,
    3, ... in the order they were stored: no number is skipped or given twice,
    however sends interleave and fail. *)
Theorem sequence_numbers_contiguous (w : World) (rs : list request) c
  (Hinit : contiguous (w_db w)) (Hrun : server_run w rs c) : contiguous (w_db c.1).
Proof. eapply run_invariant; [|exact Hinit|exact Hrun]. apply contiguous_step. Qed.

(** C25: history is append-only: between two states of a run, stored messages keep
    their place, id, sender, number, signature and time; their content is either
    unchanged or wiped by a deletion, and a wiped one never comes back. *)
Theorem history_append_only (w : World) (rs : list request) c c'
  (Hrun : server_run w rs c) (Hlater : rtc pstep c c') : extends (messages (w_db c.1)) (messages (w_db c'.1)).
Proof. eapply extends_steps, run_steps_between; eauto. Qed.

(** C27: two different users never share two DIRECT channels, even when both open
    the conversation at the same time: the advisory lock serialises what they read and
    write, and a transaction that lost its lock commits nothing. The ids are texts and the
    requests spell them as the tables do; one that spells an id in upper case takes another
    lock ([spelling_defeats_the_locks]). *)
Theorem one_direct_channel (w : World) (rs : list request) c (a b x y : string)
  (Hinit : direct_inv (w_db w)) (Hrun : server_run w rs c) (Hab : a ≠ b)
  (Hx : both (w_db c.1) x a b) (Hy : both (w_db c.1) y a b) : x = y.
Proof.
  assert (Hinv : direct_inv (w_db c.1)) by (eapply run_invariant; [|exact Hinit|exact Hrun]; apply direct_inv_step).
  by apply (proj2 Hinv a b).
Qed.

(** C28: in every state of every run a user has at most one reaction on a message: two
    requests of the user for the message replace each other's emoji under one advisory
    lock. The requests spell the id of the message as the tables do; one that spells it in
    upper case takes another lock ([spelling_defeats_the_locks]). *)
Theorem one_reaction_per_user (w : World) (rs : list request) c
  (Hinit : one_reaction (w_db w)) (Hrun : server_run w rs c) : one_reaction (w_db c.1).
Proof. eapply run_invariant; [|exact Hinit|exact Hrun]. apply one_reaction_step. Qed.

End Server.

(** ** The properties on a concrete run

    Alice and Bob send to the group while Bob deletes a message, Carol opens a
    direct conversation, reads, reacts twice, and Alice rotates her keys; the steps
    alternate. *)
#[local] Existing Instance sample_env.
#[local] Existing Instance toy_jwt.
#[local] Existing Instance sample_environment.
#[local] Existing Instance toy_validator.
#[local] Existing Instance toy_livekit.
#[local] Existing Instance toy_framework.
#[local] Existing Instance toy_cloudinary.

Definition sample_input (user content : string) : SendMessageInput :=
  mkSendMessageInput user "g" content "iv" "tag" "sig" 1 None None.
Definition sample_requests : list request :=
  [RSend (sample_input "alice" "one") None; RSend (sample_input "bob" "two") None; RDeleteMessage "bob" "msg2";
   RCreateChannel "carol" ["alice"] "DIRECT" None; RCreateChannel "alice" ["carol"] "DIRECT" None;
   RMarkRead "carol" "g" "msg1"; RAddReaction (mkReactionActor "carol" "carol") "g" "msg1" "up";
   RAddReaction (mkReactionActor "carol" "carol") "g" "msg1" "down";
   RRotateKeys "alice" (mkRotateKeysParams "p" "e" "s" "ps" "es" "ss" 5)].
Definition turns (rounds : nat) : list nat := mjoin (repeat (seq 0 9) rounds).
Definition sample_config (rounds : nat) := drive (turns rounds) (sample_world, map handle sample_requests).

Lemma sample_run rounds : server_run sample_world sample_requests (sample_config rounds).
Proof. by apply schedule_run. Qed.

Example sample_final :
  let d := w_db (sample_config 40).1 in
  (map m_sequenceNumber (messages d), map m_isDeleted (messages d), length (channels d), map re_emoji (reactions d),
   map u_keyVersion (users d), map (λ m, mb_lastReadMessageId m) (select (in_channel "g") (memberships d)))
  = ([1; 2; 3; 4], [false; true; false; false], 3%nat, ["down"], [5; 1; 1], [Some "id-11-0"; Some "id-18-0"; Some "msg1"]).
Proof. vm_compute. reflexivity. Qed.

Lemma sample_contiguous : contiguous sample_db.
Proof.
  intros c. unfold sequences, channel_messages. cbn. unfold of_channel; cbn.
  by destruct (decide ("g" = c)) as [Hc|Hc]; [rewrite bool_decide_eq_true_2|rewrite bool_decide_eq_false_2].
Qed.

Lemma sample_ids_unique : ids_unique sample_db.
Proof. unfold ids_unique. cbn. by apply (bool_decide_unpack _), I. Qed.

Lemma sample_direct_inv : direct_inv sample_db.
Proof.
  split.
  - intros m Hm. cbn in Hm. rewrite !elem_of_cons, elem_of_nil in Hm. by repeat destruct Hm as [->|Hm].
  - assert (Honly : ∀ c, is_direct sample_db c = true → c = "d").
    { intros c Hc. unfold is_direct, find_channel in Hc. cbn in Hc.
      destruct (decide ("g" = c)) as [<-|H1]; [done|]. rewrite bool_decide_eq_false_2 in Hc by done. cbn in Hc.
      destruct (decide ("d" = c)) as [<-|H2]; [done|]. by rewrite bool_decide_eq_false_2 in Hc. }
    intros a b c c' _ (H1 & _) (H2 & _). by rewrite (Honly c), (Honly c').
Qed.

Lemma sequence_numbers_contiguous_witness : contiguous (w_db (sample_config 40).1).
Proof.
  apply (sequence_numbers_contiguous sample_world sample_requests); [exact sample_contiguous|apply sample_run].
Defined.

Lemma history_append_only_witness :
  extends (messages (w_db (sample_config 3).1)) (messages (w_db (drive (turns 37) (sample_config 3)).1)).
Proof. apply (history_append_only sample_world sample_requests); [apply sample_run|apply drive_run]. Defined.

(** Postgres reads an id in upper case as the same uuid, and [hashtext] hashes the text
    that was sent: two requests that spell the id of Bob in two ways read and write the same
    rows under two locks. Under one lock the second finds what the first wrote. *)
Definition open_as (u v : string) : M () :=
  serve (locked_transaction (direct_lock u v) (λ d, head (direct_channels "bob" "carol" d)) (open_direct "bob" "carol")).
Definition react_as (messageId emoji : string) : M () :=
  serve (locked_transaction (reaction_lock messageId "carol") (replaced_rows "msg1" "carol" emoji)
           (replace_reaction "msg1" "carol" emoji)).
Definition together (ps : list (M ())) : World := (drive (mjoin (repeat [0; 1]%nat 30)) (sample_world, ps)).1.
Example spelling_defeats_the_locks :
  (map (λ ps, length (direct_channels "bob" "carol" (w_db (together ps))))
       [[open_as "bob" "carol"; open_as "carol" "bob"]; [open_as "bob" "carol"; open_as "carol" "BOB"]],
   map (λ ps, map re_emoji (reactions (w_db (together ps))))
       [[react_as "msg1" "up"; react_as "msg1" "down"]; [react_as "msg1" "up"; react_as "MSG1" "down"]])
  = ([1; 2]%nat, [["down"]; ["up"; "down"]]).
Proof. vm_compute. reflexivity. Qed.

(** The step at which Carol's read of [msg1] is recorded. *)
Definition before_read := drive [5; 5]%nat (sample_world, map handle sample_requests).
Definition after_read := drive [5]%nat before_read.

(** Carol and Alice both opened the conversation: the last channel of the table is
    the one a third request would find. *)
Lemma one_direct_channel_witness :
  let d := w_db (sample_config 40).1 in
  let opened := default "" (c_id <$> last (channels d)) in
  let found := default "" (head (direct_channels "alice" "carol" d)) in
  both d opened "alice" "carol" ∧ opened = found.
Proof.
  intros d opened found.
  assert (Hx : both d opened "alice" "carol").
  { split; [vm_compute; reflexivity|]. split; apply (bool_decide_unpack _); vm_compute; exact I. }
  split; [exact Hx|].
  apply (one_direct_channel sample_world sample_requests (sample_config 40) "alice" "carol");
    [exact sample_direct_inv|apply sample_run|done|exact Hx|].
  split; [vm_compute; reflexivity|]. split; apply (bool_decide_unpack _); vm_compute; exact I.
Defined.

Lemma one_reaction_per_user_witness : one_reaction (w_db (sample_config 40).1).
Proof. apply (one_reaction_per_user sample_world sample_requests); [constructor|apply sample_run]. Defined.


Lemma handlers_refine_witness :
  db_steps (w_db sample_world) (w_db before_read.1) ∧
  (w_db after_read.1 = w_db before_read.1 ∨ db_step (w_db before_read.1) (w_db after_read.1)).
Proof. apply (handlers_refine sample_world sample_requests); [by apply schedule_run|by apply drive_step]. Defined.
