(* ===== verification/Membership.v ===== *)
(** * Membership: who is in a channel and who governs it

    Properties of Channels.v and ChannelMembers.v: removal and promotion, creation,
    the capacity of a channel, and the member snapshot in Redis. *)
From Stdlib Require Import String.
From S2P Require Import Prelude JsString Json Effects Errors Redis Schema World Samples Crypto Config RateLimit.
From S2P Require Import RedisSession RedisCache Socket ChannelMembers Messages Channels Reactions Users Keys Srp Auth.
From S2P Require Import Chat Footprint DbStep Exclusive System Invariants.
From S2P Require Import LiveKit Validation SocketAuth Http Uploads.
From stdpp Require Import base list strings gmap relations.

Local Open Scope string_scope.
Local Open Scope Z_scope.
Local Open Scope list_scope.

Section Membership.
Context {R : Redis} {E : Env}.

(** ** Removal *)
Definition has_admin (channelId : string) (d : Db) : Prop :=
  ∃ m, m ∈ memberships d ∧ mb_channelId m = channelId ∧ mb_role m = "ADMIN".

(** A channel with members has an administrator. *)
Definition governed (channelId : string) (d : Db) : Prop := member_ids channelId d = [] ∨ has_admin channelId d.

(** The unique index on (user, channel). *)
Definition one_membership (d : Db) : Prop := NoDup (map (λ m, (mb_userId m, mb_channelId m)) (memberships d)).

(** [userId] has been made administrator as the longest-standing member. *)
Definition succeeds (channelId userId : string) (d : Db) : Prop :=
  ∃ m, m ∈ memberships d ∧ mb_channelId m = channelId ∧ mb_userId m = userId ∧ mb_role m = "ADMIN" ∧
    ∀ m', m' ∈ memberships d → mb_channelId m' = channelId → mb_joinedAt m ≤ mb_joinedAt m'.

Lemma membership_head c u d m : head (select (is_membership u c) (memberships d)) = Some m →
  m ∈ memberships d ∧ mb_userId m = u ∧ mb_channelId m = c.
Proof. intros [Hm Hp]%first_Some. unfold is_membership in Hp. by boolp. Qed.

Lemma longest_standing_spec c d o : longest_standing c d = Some o →
  o ∈ memberships d ∧ mb_channelId o = c ∧ ∀ m, m ∈ memberships d → mb_channelId m = c → mb_joinedAt o ≤ mb_joinedAt m.
Proof.
  unfold longest_standing. set (rows := select (in_channel c) (memberships d)). set (leb := λ a b, mb_joinedAt a <=? mb_joinedAt b).
  assert (Hrows : ∀ m, m ∈ rows ↔ m ∈ memberships d ∧ mb_channelId m = c).
  { intros m. unfold rows. rewrite elem_of_select. unfold in_channel. by rewrite bool_decide_eq_true. }
  assert (Hsort : StronglySorted (λ a b, leb a b = true) (sort_by leb rows)).
  { apply sort_by_sorted; unfold leb; intros; rewrite ?Z.leb_le in *; lia. }
  pose proof (λ x, sort_by_elem leb x rows) as Hel. destruct (sort_by leb rows) as [|x rest]; [done|]. intros [= ->].
  apply StronglySorted_inv in Hsort as [_ Hall]. rewrite Forall_forall in Hall.
  destruct (proj1 (Hrows o) (proj1 (Hel o) (list_elem_of_here _ _))) as [Ho Hoc]. split; [done|]. split; [done|]. intros m Hm Hc.
  assert (m ∈ o :: rest) as Hin by by apply Hel, Hrows. apply elem_of_cons in Hin as [->|Hin]; [done|].
  specialize (Hall m Hin). unfold leb in Hall. by boolp.
Qed.

Lemma longest_standing_none c d : longest_standing c d = None → member_ids c d = [].
Proof.
  unfold longest_standing, member_ids. set (rows := select (in_channel c) (memberships d)). intros H.
  assert (length (sort_by (λ a b, mb_joinedAt a <=? mb_joinedAt b) rows) = length rows) as Hl by apply sort_by_length.
  destruct (sort_by _ rows); [|done]. by destruct rows.
Qed.

Lemma find_admin_spec c d m : find_admin c d = Some m → has_admin c d.
Proof. intros [Hm Hp]%first_Some. unfold in_channel in Hp. boolp. by exists m. Qed.

(** Promotion only changes roles. *)
Lemma promotion_rows c d m' : m' ∈ memberships (promotion c d) →
  ∃ m, m ∈ memberships d ∧ mb_userId m = mb_userId m' ∧ mb_channelId m = mb_channelId m' ∧ mb_joinedAt m = mb_joinedAt m'.
Proof.
  unfold promotion, make_admin. intros H. repeat case_match; try by exists m'.
  cbn [memberships modify_field] in H. apply elem_of_update_where in H as (m1 & Hm1 & ->). exists m1. split; [done|]. by case_match.
Qed.

Lemma promotion_members c ch d : member_ids ch (promotion c d) = member_ids ch d.
Proof.
  unfold promotion, make_admin, member_ids. repeat case_match; try done. cbn [memberships modify_field].
  rewrite select_update by done. by apply map_update.
Qed.

Lemma promotion_governed c d : governed c (promotion c d).
Proof.
  unfold governed. rewrite promotion_members. unfold promotion. destruct (find_admin c d) as [a|] eqn:Ha; [right; by eapply find_admin_spec|].
  destruct (longest_standing c d) as [o|] eqn:Ho; [|left; by apply longest_standing_none]. right.
  destruct (longest_standing_spec _ _ _ Ho) as (Hin & Hc & _). exists (o <| mb_role := "ADMIN" |>). split; [|done].
  apply elem_of_update_where. exists o. split; [done|]. by rewrite bool_decide_eq_true_2.
Qed.

Lemma promoted_succeeds c d u : promoted_user c d = Some u → succeeds c u (promotion c d).
Proof.
  unfold promoted_user. destruct (find_admin c d) eqn:Ha; [done|]. destruct (longest_standing c d) as [o|] eqn:Ho; [|done].
  intros [= <-]. destruct (longest_standing_spec _ _ _ Ho) as (Hin & Hc & Hmin).
  exists (o <| mb_role := "ADMIN" |>). split_and!; try done.
  - unfold promotion. rewrite Ha, Ho. apply elem_of_update_where. exists o. split; [done|]. by rewrite bool_decide_eq_true_2.
  - intros m' Hm' Hc'. apply promotion_rows in Hm' as (m & Hm & _ & Hmc & <-). apply Hmin; [done|congruence].
Qed.

Lemma removal_members c u role now d ch v :
  v ∈ member_ids ch (removal c u role now d) ↔ v ∈ member_ids ch d ∧ (ch, v) ≠ (c, u).
Proof.
  assert (member_ids ch (removal c u role now d) = member_ids ch (delete_member c u d).2) as ->.
  { unfold removal. cbv zeta. unfold set_updated, member_ids. cbn [memberships modify_field].
    destruct (role === "ADMIN"); [|done]. apply (promotion_members c ch). }
  rewrite !elem_of_member_ids. unfold delete_member. cbn [snd memberships modify_field]. setoid_rewrite elem_of_delete_where.
  unfold is_membership. setoid_rewrite andb_false_iff. setoid_rewrite bool_decide_eq_false. split.
  - intros (m & [Hm Hne] & <- & <-). split; [by exists m|]. intros [= ? ?]. tauto.
  - intros [(m & Hm & <- & <-) Hne]. exists m. split_and!; try done.
    destruct (decide (mb_userId m = u)); [right|by left]. intros ?. apply Hne. congruence.
Qed.

Lemma removal_governed c u role now d :
  one_membership d → (delete_member c u d).1 = Some role → governed c d → governed c (removal c u role now d).
Proof.
  intros Huniq Hrole Hg. unfold removal. cbv zeta. destruct (role === "ADMIN") eqn:Hadmin; [apply promotion_governed|].
  destruct Hg as [Hnone|(a & Ha & Hc & Har)].
  - left. destruct (delete_member c u d).1 eqn:Hr; [|done]. unfold delete_member in Hr. simpl in Hr.
    apply fmap_Some in Hr as (m & [Hm Hp]%first_Some & _). unfold is_membership in Hp. boolp.
    assert (u ∈ member_ids c d) as Hin by (apply elem_of_member_ids; eauto). rewrite Hnone in Hin. by apply not_elem_of_nil in Hin.
  - right. exists a. split; [|done]. apply elem_of_delete_where. split; [done|]. unfold is_membership.
    destruct (mb_userId a === u) eqn:Hu; [|done]. boolp. rewrite Hc, bool_decide_eq_true_2 by done. exfalso.
    unfold delete_member in Hrole. simpl in Hrole. apply fmap_Some in Hrole as (m & Hm & ->).
    destruct (membership_head _ _ _ _ Hm) as (Hin & Hmu & Hmc).
    assert (m = a) as -> by (apply (NoDup_map_inj _ _ _ _ Huniq); [done..|congruence]). by rewrite Har in Hadmin.
Qed.

Lemma nothrow_wp {A} (p : M A) (Q : outcome thrown A → World → Prop) (w : World) :
  nothrow p → quiet p → (∀ a w', w_db w' = w_db w → Q (Ok a) w') → wp p Q w.
Proof.
  intros Hn Hq HQ. eapply wp_mono; [apply wp_and; [apply Hn|apply quiet_wp, Hq]|]. intros o w' [[a ->] Hd]. by apply HQ.
Qed.

(** Runs an operation that neither throws nor moves the tables. *)
Ltac wp_quiet := apply nothrow_wp; [solve [eauto with nothrow]|solve [eauto with safe]|]; intros ? ? ?; wp_steps.

Definition removed_member (channelId requesterId targetUserId : string) (promoted : option string) (d d' : Db) : Prop :=
  (requesterId = targetUserId ∨ role_of channelId requesterId d = Some "ADMIN") ∧
  targetUserId ∈ member_ids channelId d ∧
  (∀ ch u, u ∈ member_ids ch d' ↔ u ∈ member_ids ch d ∧ (ch, u) ≠ (channelId, targetUserId)) ∧
  (governed channelId d → governed channelId d') ∧
  (∀ u, promoted = Some u → succeeds channelId u d').

Lemma wp_remove channelId target (w : World) : one_membership (w_db w) →
  wp (transaction (remove_in_transaction channelId target)) (λ o w',
    match o with
    | Ok promoted => ∀ requester, requester = target ∨ role_of channelId requester (w_db w) = Some "ADMIN" →
        removed_member channelId requester target promoted (w_db w) (w_db w')
    | Err _ => w_db w' = w_db w
    end) w.
Proof.
  intros Huniq. apply wp_transaction. eapply wp_mono; [apply wp_remove_in_transaction|].
  intros [p|e] w'; [|done]. intros (role & now & Hrole & -> & ->) requester Hr. split; [done|]. split; [|split; [|split]].
  - unfold delete_member in Hrole. simpl in Hrole. apply fmap_Some in Hrole as (m & Hm & _).
    apply membership_head in Hm as (Hm & Hu & Hc). apply elem_of_member_ids. eauto.
  - intros ch u. apply removal_members.
  - by apply removal_governed.
  - intros u Hp. unfold removal. cbv zeta. destruct (role === "ADMIN"); [|done]. by apply promoted_succeeds in Hp.
Qed.

(** C13: removing a member: only the member or an administrator can do it; exactly
    that membership goes; a channel that had an administrator and still has members
    still has one, the longest-standing member being promoted when the last one
    left; an error leaves the tables as they were. *)
Theorem removeMember_keeps_governed channelId requesterId targetUserId (w : World)
  (Huniq : one_membership (w_db w)) :
  wp (removeMember channelId requesterId targetUserId) (λ o w',
    match o with
    | Ok promoted => removed_member channelId requesterId targetUserId promoted (w_db w) (w_db w')
    | Err _ => w_db w' = w_db w
    end) w.
Proof.
  unfold removeMember. wp_steps. eapply (wp_mono _ (λ o w1, w_db w1 = w_db w ∧
    (o = Ok tt → requesterId = targetUserId ∨ role_of channelId requesterId (w_db w) = Some "ADMIN"))).
  { case_bool_decide as Hr; cbn [negb]; wp_steps; [auto|]. unfold getRole. wp_steps. apply wp_query; [done|].
    case_bool_decide as Ha; wp_steps; (split; [done|]); [done|]. intros _. right. by destruct (decide (role_of channelId requesterId (w_db w) = Some "ADMIN")). }
  intros [[]|e] w1 [Hd Hauth]; [|done]. wp_steps. eapply wp_mono; [apply wp_remove; by rewrite Hd|].
  intros [p|e] w2 H2; [|by rewrite <-Hd]. specialize (H2 requesterId). rewrite Hd in H2. wp_steps.
  wp_quiet. wp_quiet. wp_quiet. wp_quiet.
  match goal with |- removed_member _ _ _ _ _ ?d => assert (d = w_db w2) as -> by congruence end. by apply H2, Hauth.
Qed.

(** ** Adding members *)
Definition capacity : Z := MAX_CHANNEL_PARTICIPANTS + 1.
Definition size_of (channelId : string) (d : Db) : Z := Z.of_nat (length (member_ids channelId d)).

(** The requester may add [newUserId]: an administrator, a group, room for one more. *)
Definition may_add (channelId requesterId newUserId : string) (d : Db) : Prop :=
  role_of channelId requesterId d = Some "ADMIN" ∧
  (∃ c, find_channel channelId d = Some c ∧ c_type c = "GROUP") ∧
  (∃ u, u ∈ users d ∧ u_id u = newUserId ∧ u_isActive u = true) ∧
  newUserId ∉ member_ids channelId d ∧ size_of channelId d < capacity.

Definition member_ids_after (channelId newUserId : string) (d d' : Db) : Prop :=
  ∀ ch, member_ids ch d' = member_ids ch d ++ (if decide (ch = channelId) then [newUserId] else []).

Lemma active_user d id u : head (active_users [id] d) = Some u → u ∈ users d ∧ u_id u = id ∧ u_isActive u = true.
Proof. intros [Hu Hp]%first_Some. boolp. by match goal with H : _ ∈ [_] |- _ => apply list_elem_of_singleton in H end. Qed.

Lemma insert_member_spec userId channelId role (w : World) :
  wp (insert_member userId channelId role) (λ o w',
    match o with
    | Ok (Some _) => userId ∉ member_ids channelId (w_db w) ∧ member_ids_after channelId userId (w_db w) (w_db w')
    | _ => w_db w' = w_db w
    end) w.
Proof.
  unfold insert_member. apply wp_statement; [done|]. intros a d' Hi. unfold insert_or_ignore in Hi. cbv zeta in Hi.
  destruct (existsb _ (memberships (w_db w))) eqn:Hex; [by simplify_eq|].
  destruct (insert_membership _ _ _) as [t|] eqn:Hins; simplify_eq. unfold insert_membership in Hins. apply insert_row_ok in Hins as (-> & _). world. split.
  - intros (m & Hm & Hu & Hc)%elem_of_member_ids.
    assert (existsb (membership_index (new_membership (w_tick w) 0 userId channelId role E)) (memberships (w_db w)) = true); [|congruence].
    apply existsb_exists. exists m. split; [by apply list_elem_of_In|]. unfold membership_index, new_membership; simpl.
    by rewrite !bool_decide_eq_true_2.
  - intros ch. unfold member_ids. cbn [memberships modify_field]. rewrite select_app, map_app. f_equal. simpl. unfold in_channel. simpl.
    case_bool_decide; case_decide; congruence || done.
Qed.

(** C35: adding a member: the only way the members of any channel change is that the
    new user joins this one, which happens only for an administrator's request on
    a group with room left, so a group never grows past 51 members by one request
    at a time; success means the user has joined. *)
Theorem addMember_respects_capacity channelId requesterId newUserId role (w : World) :
  wp (addMember channelId requesterId newUserId role) (λ o w',
    let joined := may_add channelId requesterId newUserId (w_db w) ∧ member_ids_after channelId newUserId (w_db w) (w_db w') in
    match o with
    | Ok _ => joined ∧ size_of channelId (w_db w') ≤ capacity
    | Err _ => (∀ ch, member_ids ch (w_db w') = member_ids ch (w_db w)) ∨ joined
    end) w.
Proof.
  unfold addMember, getRole. wp_steps. apply wp_query; [by left|]. case_bool_decide as Hrole; [wp_steps; by left|]. wp_steps.
  apply wp_query; [by left|]. destruct (find_channel channelId (w_db (tick w))) as [c|] eqn:Hc; [|wp_steps; by left].
  case_bool_decide as Ht; cbn [negb]; [|wp_steps; by left]. wp_steps. apply wp_query; [by left|].
  destruct (head (active_users _ _)) as [u|] eqn:Hu; [|wp_steps; by left]. apply active_user in Hu. wp_steps.
  apply wp_query; [by left|]. match goal with |- wp (if ?b then _ else _) _ _ => destruct b eqn:Hfull end; [wp_steps; by left|].
  wp_steps. eapply wp_mono; [apply insert_member_spec|]. boolp. world.
  intros [[mid|]|e] w1 H1; [|wp_steps; left; intros ch; by rewrite H1|left; intros ch; by rewrite H1].
  destruct H1 as [Hnew Hafter]. wp_steps.
  assert (Hmay : may_add channelId requesterId newUserId (w_db w)).
  { split; [done|]. split; [by exists c|]. split; [by exists u|]. split; [done|]. unfold size_of, capacity. lia. }
  apply wp_statement; [by right|]. intros ? d' [= <- <-]. wp_steps.
  assert (Hsize : size_of channelId (w_db w1) ≤ capacity).
  { unfold size_of. rewrite (Hafter channelId), decide_True, length_app by done. destruct Hmay as (_ & _ & _ & _ & Hlt).
    unfold size_of in Hlt. simpl. lia. }
  wp_quiet. wp_quiet. wp_quiet. world.
  match goal with H : w_db ?w' = _ |- _ ∧ size_of _ (w_db ?w') ≤ _ => assert (Hd : w_db w' = set_updated channelId (now_at (w_tick w1)) (w_db w1)) by congruence end.
  rewrite Hd. split; [split; [done|exact Hafter]|exact Hsize].
Qed.

(** ** Creating channels *)

(** A new channel, its creator as administrator and the others as members. *)
Definition opened (userId : string) (others : list string) (type : string) (s : ChannelSummary) (d d' : Db) : Prop :=
  ∃ ch rows, channels d' = channels d ++ [ch] ∧ memberships d' = memberships d ++ rows ∧ summary ch = s ∧ c_type ch = type ∧
    Forall (λ m, mb_channelId m = c_id ch) rows ∧
    map (λ m, (mb_userId m, mb_role m)) rows = (userId, "ADMIN") :: map (λ u, (u, "MEMBER")) others.

Definition exist_active (ids : list string) (d : Db) : Prop :=
  ∀ id, id ∈ ids → ∃ u, u ∈ users d ∧ u_id u = id ∧ u_isActive u = true.

Lemma map_imap {A B D} (f : nat → A → B) (g : B → D) (h : A → D) l : (∀ i x, g (f i x) = h x) → map g (imap f l) = map h l.
Proof.
  intros H. revert f H. induction l as [|x l IH]; intros f H; [done|]. rewrite imap_cons. cbn [map]. rewrite H. f_equal. apply IH. intros i y. apply H.
Qed.

Lemma wp_insertChannel_opens userId others type name (w : World) :
  wp (insertChannel userId others type name) (λ o w',
    if o is Ok r then cr_created r = true ∧ opened userId others type (cr_channel r) (w_db w) (w_db w') else True) w.
Proof.
  unfold insertChannel, insert_channel_row, insert_member_rows. wp_steps.
  apply wp_statement; [done|]. intros c d1 H1. case_match eqn:Hi; simplify_eq. wp_steps.
  apply wp_statement; [done|]. intros x d2 H2. case_match eqn:Hr; simplify_eq. wp_steps. split; [done|]. world.
  unfold insert_membership in Hr. apply insert_rows_app in Hr as ->. apply insert_row_ok in Hi as (-> & _).
  do 2 eexists. split_and!; try reflexivity.
  - apply Forall_forall. intros r Hin. apply elem_of_lookup_imap in Hin as (i & y & -> & _). done.
  - rewrite (map_imap _ _ id); [|by intros i [u r]]. by rewrite List.map_id.
Qed.

Lemma all_found (d : Db) ids : NoDup ids → NoDup (map u_id (users d)) → length (active_users ids d) = length ids → exist_active ids d.
Proof.
  intros Hids Hu Hlen. set (found := active_users ids d) in *.
  assert (Hfound : ∀ u, u ∈ found → u ∈ users d ∧ u_id u ∈ ids ∧ u_isActive u = true).
  { intros u Hin. apply elem_of_select in Hin as [Hin Hp]. by boolp. }
  assert (NoDup (map u_id found)) as Hnd by by apply NoDup_map_filter.
  assert (map u_id found ⊆+ ids) as Hsub.
  { apply NoDup_submseteq; [done|]. intros x Hx. apply list_elem_of_In, in_map_iff in Hx as (u & <- & Hin%list_elem_of_In). by apply Hfound. }
  assert (map u_id found ≡ₚ ids) as Hperm.
  { apply submseteq_length_Permutation; [done|]. rewrite length_map. lia. }
  intros id Hid. rewrite <-Hperm in Hid. apply list_elem_of_In, in_map_iff in Hid as (u & <- & Hin%list_elem_of_In).
  exists u. by destruct (Hfound u Hin) as (? & ? & ?).
Qed.

Definition direct_result (userId v : string) (o : outcome thrown CreateChannelResult) (d d' : Db) : Prop :=
  match o with
  | Ok r => if cr_created r then opened userId [v] "DIRECT" (cr_channel r) d d' ∧ direct_channels userId v d = []
            else d' = d ∧ both d (cs_id (cr_channel r)) userId v
  | Err _ => d' = d
  end.

Lemma wp_createDirect userId v (w : World) : wp (createDirect userId v) (λ o w', direct_result userId v o (w_db w) (w_db w')) w.
Proof.
  apply wp_locked_transaction; [by intros e w' [-> _]|]. intros w1 (Hw1 & _). rewrite <-Hw1. unfold open_direct.
  destruct (direct_channels userId v (w_db w1)) as [|c rest] eqn:Hd; cbn [head].
  - eapply wp_mono; [apply wp_insertChannel_opens|]. intros [r|e] w2 H w3 -> _ _ _ _; [|done].
    destruct H as [Hc H]. unfold direct_result. by rewrite Hc.
  - wp_steps. apply wp_query; [by intros e w3 -> _ _ _ _|]. world.
    destruct (find_channel c (w_db w1)) as [ch|] eqn:Hch; wp_steps; intros w3 -> _ _ _ _; [|done].
    cbn [direct_result cr_created cr_channel]. split; [done|]. apply first_Some in Hch as [_ Hid]. boolp.
    change (both (w_db w1) (c_id ch) userId v). rewrite Hid.
    apply direct_channels_spec. rewrite Hd. apply list_elem_of_here.
Qed.

(** C36: creating a channel: duplicate ids and the creator's own are dropped, every
    other participant must exist and be active, a direct message has exactly one,
    a group at most 50; success opens a channel with the creator as its only
    administrator, or returns the direct channel the two already share; an error
    leaves the tables as they were. *)
Theorem create_opens_channel userId participantIds type name (w : World) (Hids : NoDup (map u_id (users (w_db w)))) :
  wp (create userId participantIds type name) (λ o w',
    let others := List.filter (λ id, id !== userId) (unique participantIds) in
    match o with
    | Ok r =>
        exist_active others (w_db w) ∧ 1 ≤ Z.of_nat (length others) ≤ MAX_CHANNEL_PARTICIPANTS ∧
        if decide (type = "DIRECT") then ∃ v, others = [v] ∧ direct_result userId v o (w_db w) (w_db w')
        else type = "GROUP" ∧ opened userId others "GROUP" (cr_channel r) (w_db w) (w_db w')
    | Err _ => w_db w' = w_db w
    end) w.
Proof.
  unfold create. cbv zeta. set (participants := unique participantIds). set (others := List.filter _ participants).
  destruct (create_guard userId participants type) as [err|] eqn:Hguard; [by wp_steps|].
  destruct others as [|target rest] eqn:Hothers; [by wp_steps|]. wp_steps. apply wp_query; [done|].
  destruct (length (active_users (target :: rest) (w_db w)) =? length (target :: rest))%nat eqn:Hlen; cbn [negb]; [|by wp_steps].
  apply Nat.eqb_eq in Hlen.
  assert (Hexist : exist_active (target :: rest) (w_db w)).
  { apply all_found; [|done|done]. rewrite <-Hothers. apply NoDup_List_filter, NoDup_unique. }
  assert (Hle : (length (target :: rest) ≤ length participants)%nat).
  { rewrite <-Hothers. apply List.filter_length_le. }
  wp_steps. unfold create_guard in Hguard. case_decide as Htype.
  - rewrite bool_decide_eq_true_2 in * by done. destruct (length participants =? 1)%nat eqn:H1; [|done]. apply Nat.eqb_eq in H1.
    assert (rest = []) as -> by (destruct rest; [done|simpl in Hle; lia]).
    eapply wp_mono; [apply wp_createDirect|]. intros [r|e] w1 H; [|done]. change (w_db (tick w)) with (w_db w) in H. wp_steps.
    assert (Hsize : 1 ≤ Z.of_nat (length [target]) ≤ MAX_CHANNEL_PARTICIPANTS) by done.
    destruct (cr_created r) eqn:Hcr; unfold announce_created; wp_steps; wp_quiet; [wp_quiet; wp_quiet|]; wp_steps;
      (split; [done|split; [done|]]); exists target; (split; [done|]);
      match goal with |- direct_result _ _ _ _ ?d => assert (d = w_db w1) as -> by congruence end; done.
  - rewrite bool_decide_eq_false_2 in * by done. case_bool_decide as Hg; [|done].
    destruct (MAX_CHANNEL_PARTICIPANTS <? Z.of_nat (length participants)) eqn:Hmax; [done|]. boolp.
    apply wp_transaction. eapply wp_mono; [apply wp_insertChannel_opens|]. intros [r|e] w1 H; [|done]. destruct H as [Hcr H].
    change (w_db (tick w)) with (w_db w) in H. rewrite Hcr. unfold announce_created. wp_steps. wp_quiet. wp_quiet. wp_quiet.
    split; [done|]. split; [simpl in *; lia|]. split; [done|].
    match goal with |- opened _ _ _ _ _ ?d => assert (d = w_db w1) as -> by congruence end. done.
Qed.

(** ** The member snapshot *)
Context {RL : RedisLaws R}.

(** The snapshot of a channel is absent, or lists exactly its members. *)
Definition coherent (channelId : string) (e : option entry) (d : Db) : Prop :=
  ∀ n, live (now_at n) e = None ∨
       ∃ l, as_set (live (now_at n) e) = Some l ∧ ∀ u, u ∈ l ↔ u ∈ member_ids channelId d.
Definition snapshot (channelId : string) (w : World) : option entry := rentry (w_redis w) (RedisKeys.channelMembers channelId).

Lemma chain_setMembers now key ids e : ids ≠ [] →
  ∃ rps, chain now [Del key; SAdd key ids; Expire key RedisTtl.channelMembersSeconds] e =
    Some (rps, Some (RSet (unique ids), Some (now + RedisTtl.channelMembersSeconds * 1000))).
Proof.
  intros Hids. assert (set_add ids [] = unique ids) as Hset by (unfold set_add; apply filter_all; intros; done).
  eexists. cbn [chain cmd_spec live as_set mbind option_bind ttl_of]. rewrite Hset.
  destruct ids as [|i ids]; [done|]. reflexivity.
Qed.

Lemma coherent_set channelId ids expiry d : (∀ u, u ∈ ids ↔ u ∈ member_ids channelId d) →
  coherent channelId (Some (RSet (unique ids), Some expiry)) d.
Proof.
  intros Hids n. cbn [live]. destruct (now_at n <=? expiry); [right|by left]. exists (unique ids). split; [done|].
  intros u. by rewrite elem_of_unique.
Qed.

(** [setMembers] with the members of the channel, at any state of the client. *)
Lemma wp_setMembers channelId (w : World) : coherent channelId (snapshot channelId w) (w_db w) →
  wp (setMembers channelId (member_ids channelId (w_db w))) (λ o w',
    o = Ok tt ∧ w_db w' = w_db w ∧ coherent channelId (snapshot channelId w') (w_db w')) w.
Proof.
  intros Hcoh. unfold setMembers. wp_steps. apply wp_getClient. intros b. destruct (negb b); [by wp_steps|].
  case_bool_decide as Hids; [by wp_steps|]. cbn [orb]. wp_steps.
  destruct (chain_setMembers (now_at (w_tick (tick w))) (RedisKeys.channelMembers channelId) (member_ids channelId (w_db w))
              (snapshot channelId w) Hids) as (rps & Hch).
  eapply (wp_multi_any _ (RedisKeys.channelMembers channelId)); [by repeat constructor|exact Hch|by wp_steps|].
  intros r Hr. assert (coherent channelId (rentry r (RedisKeys.channelMembers channelId)) (w_db w)) as Hc
    by (rewrite Hr, decide_True by done; by apply coherent_set).
  by split; wp_steps.
Qed.

Lemma coherent_live channelId e d n : coherent channelId e d → ∃ l, as_set (live (now_at n) e) = Some l ∧
  ((live (now_at n) e = None ∧ l = []) ∨ ∀ u, u ∈ l ↔ u ∈ member_ids channelId d).
Proof. intros H. destruct (H n) as [->|(l & Hl & Hin)]; [by exists []; auto|eauto]. Qed.

Lemma coherent_reread channelId e d n : coherent channelId e d → coherent channelId (live (now_at n) e) d.
Proof. intros H. destruct (live_cases (now_at n) e) as [->| ->]; [done|]. by left. Qed.

Definition reads_members (channelId : string) (w : World) (o : outcome thrown (list string)) (w' : World) : Prop :=
  (∃ l, o = Ok l ∧ ∀ u, u ∈ l ↔ u ∈ member_ids channelId (w_db w)) ∧ w_db w' = w_db w ∧
  coherent channelId (snapshot channelId w') (w_db w').

Lemma wp_getMembers channelId (w : World) : (∀ n, db_fault n = None) → coherent channelId (snapshot channelId w) (w_db w) →
  wp (getMembers channelId) (reads_members channelId w) w.
Proof.
  intros Hdb Hcoh. unfold getMembers. wp_steps.
  apply (wp_mono _ (λ o w1, w_db w1 = w_db w ∧ coherent channelId (snapshot channelId w1) (w_db w1) ∧
    ∃ l, o = Ok l ∧ (l = [] ∨ ∀ u, u ∈ l ↔ u ∈ member_ids channelId (w_db w)))).
  { unfold with_redis. wp_steps. apply wp_getClient. intros b. destruct (negb b); wp_steps; [by split; [|split; [|exists []; auto]]|].
    destruct (coherent_live _ _ _ (w_tick (tick w)) Hcoh) as (l & Hl & Hin0).
    assert (Hin : l = [] ∨ ∀ u, u ∈ l ↔ u ∈ member_ids channelId (w_db w)) by tauto.
    eapply wp_cmd_any; [cbn [cmd_spec cmd_key]; unfold snapshot in Hl; world; rewrite Hl; reflexivity|wp_steps; by split; [|split; [|exists []; auto]]|].
    intros r Hr. assert (coherent channelId (rentry r (RedisKeys.channelMembers channelId)) (w_db w)) as Hc
      by (rewrite Hr; cbn [cmd_key]; rewrite decide_True by done; by apply coherent_reread).
    split; wp_steps; (split; [done|]; split; [exact Hc|]); [by exists []; auto|by exists l]. }
  intros o w1 (Hd & Hc & l & -> & Hin). cbv beta match. case_bool_decide as Hl; cbn [negb]; wp_steps.
  - apply wp_act'. rewrite Hdb. wp_steps. rewrite Hd in *.
    pose proof (wp_setMembers channelId (tick w1)) as Hset. change (w_db (tick w1)) with (w_db w1) in *. rewrite Hd in *.
    eapply wp_mono; [by apply Hset|].
    intros o w2 (-> & Hd2 & Hc2). wp_steps. split; [by eauto|]. done.
  - destruct Hin as [->|Hin]; [done|]. split; [by eauto|]. done.
Qed.

(** [isMember] is right whatever the state of Redis: as long as the snapshot is
    absent or complete, its answer is that of the table, whether the client is
    down, a command fails half-way, the snapshot has expired or is rebuilt; and
    the snapshot it leaves is again absent or complete. *)
Theorem isMember_agrees_with_table channelId userId (w : World)
  (Hdb : ∀ n, db_fault n = None) (Hcoh : coherent channelId (snapshot channelId w) (w_db w)) :
  wp (isMember channelId userId) (λ o w',
    o = Ok (db_member channelId userId (w_db w)) ∧ w_db w' = w_db w ∧ coherent channelId (snapshot channelId w') (w_db w')) w.
Proof.
  unfold isMember. wp_steps. apply wp_getClient. intros [|].
  - apply wp_bind, (wp_mono _ (λ o w1, w_db w1 = w_db w ∧ coherent channelId (snapshot channelId w1) (w_db w1) ∧
      (o = Ok None ∨ o = Ok (Some (db_member channelId userId (w_db w)))))).
    { wp_steps. destruct (coherent_live _ _ _ (w_tick (tick w)) Hcoh) as (l & Hl & Hin). set (now := now_at (w_tick (tick w))) in *.
      set (key := RedisKeys.channelMembers channelId). set (e := live now (snapshot channelId w)) in *.
      assert (chain now [Exists_ key; SIsMember key userId] (snapshot channelId w) =
        Some ([RpInt (if e then 1 else 0); RpInt (if bool_decide (userId ∈ l) then 1 else 0)], e)) as Hch.
      { cbn [chain cmd_spec]. fold e. unfold e. rewrite live_live. fold e. by rewrite Hl. }
      eapply (wp_multi_any _ key); [by repeat constructor|exact Hch|by wp_steps; auto|].
      intros r Hr. assert (coherent channelId (rentry r (RedisKeys.channelMembers channelId)) (w_db w)) as Hc
        by (rewrite Hr; fold key; rewrite decide_True by done; by apply coherent_reread).
      split; wp_steps; (split; [done|]; split; [exact Hc|]); [by left|].
      destruct e as [[v t]|]; [|by left]. right. do 2 f_equal. cbn [int_at lookup list_lookup].
      destruct Hin as [[? _]|Hin]; [done|].
      unfold db_member. destruct (decide (userId ∈ l)) as [Hu|Hu].
      - rewrite !bool_decide_eq_true_2 by (done || by apply Hin). done.
      - rewrite !bool_decide_eq_false_2 by (done || by rewrite <-Hin). done. }
    intros o w1 (Hd & Hc & [-> | ->]); [|by wp_steps]. wp_steps.
    eapply wp_mono; [by apply wp_getMembers|]. intros o w2 ((l & -> & Hin) & Hd2 & Hc2). wp_steps. split; [|split; [congruence|done]].
    f_equal. unfold db_member. apply bool_decide_ext. by rewrite Hin, Hd.
  - wp_steps. apply wp_act'. rewrite Hdb. wp_steps. split; [|done]. f_equal. world. unfold db_member, membership.
    destruct (head (select (is_membership userId channelId) (memberships (w_db w)))) as [m|] eqn:Hm.
    + symmetry. apply bool_decide_eq_true. apply membership_head in Hm as (? & ? & ?). apply elem_of_member_ids. eauto.
    + symmetry. apply bool_decide_eq_false. intros (m & Hin & Hu & Hc)%elem_of_member_ids. rewrite first_None in Hm.
      specialize (Hm m Hin). unfold is_membership in Hm. rewrite !bool_decide_eq_true_2 in Hm by done. done.
Qed.
End Membership.

(** ** Two requests that interleave

    [addMember] checks the requester and the size of the channel before it inserts,
    outside a transaction.  When the only member, an administrator, leaves between
    the check and the insertion, nobody is left to promote and the new member joins
    a channel without administrator.  Two requests that pass the size check together
    overfill the channel. *)
Section Races.
#[local] Existing Instance sample_env.
#[local] Existing Instance toy_jwt.
#[local] Existing Instance sample_environment.
#[local] Existing Instance toy_validator.
#[local] Existing Instance toy_livekit.
#[local] Existing Instance toy_framework.
#[local] Existing Instance toy_cloudinary.

Definition solo_world : World :=
  mkWorld (empty_db <| users := [sample_user "alice" "alice"; sample_user "bob" "bob"] |>
                    <| channels := [sample_channel "s" "GROUP"] |>
                    <| memberships := [sample_member "m1" "ADMIN" "alice" "s" 1] |>) ∅ 0 [] true no_sockets ∅.
Definition race : list request := [RAddMember "s" "alice" "bob" None; RRemoveMember "s" "alice" "alice"].

Lemma orphan_channel_reachable : ∃ c,
  server_run solo_world race c ∧ governed "s" (w_db solo_world) ∧ ¬ governed "s" (w_db c.1).
Proof.
  exists (drive [0; 0; 0; 0; 1; 0]%nat (solo_world, map handle race)). split; [by apply schedule_run|]. split.
  - right. eexists. split; [apply list_elem_of_here|done].
  - intros [H|(m & Hm & _ & Hr)]; [vm_compute in H; discriminate|].
    assert (memberships (w_db (drive [0; 0; 0; 0; 1; 0]%nat (solo_world, map handle race)).1) =
      [mkMembership "id-10-0" "MEMBER" 1700000000010 None false None None "bob" "s"]) as Heq by (vm_compute; reflexivity).
    rewrite Heq in Hm. apply list_elem_of_singleton in Hm as ->. discriminate.
Qed.

Definition full_world : World :=
  let member (i : nat) := let u := "u" +:+ z_to_string (Z.of_nat i) in sample_member ("m-" +:+ u) "MEMBER" u "s" 2 in
  mkWorld (empty_db <| users := map (λ u, sample_user u u) ["alice"; "bob"; "carol"] |>
                    <| channels := [sample_channel "s" "GROUP"] |>
                    <| memberships := sample_member "m1" "ADMIN" "alice" "s" 1 :: map member (seq 0 49) |>) ∅ 0 [] true no_sockets ∅.

Lemma capacity_race_reachable : ∃ c,
  server_run full_world [RAddMember "s" "alice" "bob" None; RAddMember "s" "alice" "carol" None] c ∧
  size_of "s" (w_db full_world) = 50 ∧ size_of "s" (w_db c.1) = capacity + 1.
Proof.
  eexists. split; [by apply (schedule_run [0; 0; 0; 0; 1; 1; 1; 1; 0; 1]%nat)|]. by vm_compute.
Qed.
End Races.

(** ** The properties on a concrete state *)
Section Witnesses.
#[local] Existing Instance sample_env.

Lemma removeMember_keeps_governed_witness :
  wp (removeMember "g" "alice" "alice") (λ o w',
    match o with
    | Ok promoted => removed_member "g" "alice" "alice" promoted sample_db (w_db w')
    | Err _ => w_db w' = sample_db
    end) sample_world.
Proof. apply (removeMember_keeps_governed "g" "alice" "alice" sample_world). by apply (bool_decide_unpack _), I. Defined.

(** Bob joined before Carol. *)
Example bob_is_promoted : (run (removeMember "g" "alice" "alice") sample_world).1 = Ok (Some "bob").
Proof. vm_compute. reflexivity. Qed.

Lemma create_opens_channel_witness :
  wp (create "carol" ["alice"; "carol"; "alice"] "DIRECT" None) (λ o w',
    match o with
    | Ok r => exist_active ["alice"] sample_db ∧ 1 ≤ 1 ≤ 50 ∧ ∃ v, ["alice"] = [v] ∧ direct_result "carol" v o sample_db (w_db w')
    | Err _ => w_db w' = sample_db
    end) sample_world.
Proof.
  apply (create_opens_channel "carol" ["alice"; "carol"; "alice"] "DIRECT" None sample_world). by apply (bool_decide_unpack _), I.
Defined.

(** A snapshot of the group is cached and Redis fails some commands. *)
Definition flaky_env : Env := {|
  now_at := @now_at sample_env; uuid_at := @uuid_at sample_env;
  conn_at n := if Nat.even n then CReady else CFail (Nat.even (n / 2));
  db_fault := @db_fault sample_env; sql_error := @sql_error sample_env; sockets_at := @sockets_at sample_env;
  queue_fault := @queue_fault sample_env;
  socket_ids_at := @socket_ids_at sample_env; connected_at := @connected_at sample_env; join_fault := @join_fault sample_env; ilike := @ilike sample_env; hashtext := @hashtext sample_env;
  lock_patience := @lock_patience sample_env;
|}.
Definition snapshot_world : World :=
  sample_world <| w_redis := {[ "zevra:channel:members:g" := (RSet ["alice"; "bob"; "carol"], Some 1700000000500) ]} |>.

Lemma isMember_agrees_with_table_witness :
  wp (E := thrown) (isMember (E := flaky_env) "g" "carol") (λ o w',
    o = Ok true ∧ w_db w' = sample_db ∧ coherent (E := flaky_env) "g" (snapshot "g" w') (w_db w')) snapshot_world.
Proof.
  apply (isMember_agrees_with_table (E := flaky_env) "g" "carol" snapshot_world); [done|].
  assert (snapshot "g" snapshot_world = Some (RSet ["alice"; "bob"; "carol"], Some 1700000000500)) as -> by reflexivity.
  intros n. cbn [live].
  destruct (now_at n <=? 1700000000500); [right|by left]. eexists. by split.
Defined.
End Witnesses.
