(* ===== verification/Credentials.v ===== *)
(** * Credentials: key distribution, SRP and tokens

    Properties of Keys.v, Srp.v and Auth.v. *)
From Stdlib Require Import Ascii String Zpow_facts Znumtheory.
From S2P Require Import Prelude JsString Json Effects Errors Redis Schema World Samples Crypto Config RateLimit.
From S2P Require Import RedisSession RedisCache Socket ChannelMembers Messages Channels Reactions Users Keys Srp Auth.
From S2P Require Import Chat Footprint DbStep Exclusive System Invariants Membership.
From S2P Require Import LiveKit Validation SocketAuth.
From stdpp Require Import base list strings.

Local Open Scope string_scope.
Local Open Scope Z_scope.
Local Open Scope list_scope.

(** ** Sender keys *)
Section SenderKeys.
Context {R : Redis} {E : Env}.

(** A member who has not left. *)
Definition present (groupId userId : string) (d : Db) : Prop :=
  ∃ m, m ∈ memberships d ∧ mb_channelId m = groupId ∧ mb_userId m = userId ∧ mb_leftAt m = None.

Lemma elem_of_active groupId ids d id : id ∈ active_members groupId ids d ↔ id ∈ ids ∧ present groupId id d.
Proof.
  unfold active_members, present. rewrite list_elem_of_In, in_map_iff. setoid_rewrite <-list_elem_of_In. setoid_rewrite elem_of_select.
  unfold in_channel. split.
  - intros (m & <- & Hm & Hp). boolp. eauto 10.
  - intros (Hid & m & Hm & Hc & Hu & Hl). exists m. split; [done|]. split; [done|].
    rewrite !bool_decide_eq_true_2; [done|done|by rewrite Hu|done].
Qed.

Definition key_of (k : SenderKeyRow) : SenderKeyItem := mkSenderKeyItem (sk_receiverId k) (sk_encryptedKey k) (sk_keySignature k).

Lemma new_keys_owned n ownerId groupId epoch items :
  Forall (λ k, owned_keys ownerId groupId epoch k = true) (imap (λ i item, new_sender_key n i ownerId groupId epoch item) items).
Proof.
  apply Forall_forall. intros r Hin. apply elem_of_lookup_imap in Hin as (i & y & -> & _). unfold owned_keys; simpl.
  by rewrite !bool_decide_eq_true_2, Z.eqb_refl by done.
Qed.

Lemma select_all {A} (p : A → bool) l : Forall (λ x, p x = true) l → select p l = l.
Proof. intros H. rewrite Forall_forall in H. by apply filter_all. Qed.
Lemma select_deleted {A} (p : A → bool) l : select p (delete_where p l) = [].
Proof. apply filter_none. intros x [_ Hx]%elem_of_delete_where. done. Qed.
Lemma delete_deleted {A} (p : A → bool) l : delete_where p (delete_where p l) = delete_where p l.
Proof. apply filter_all. intros x [_ Hx]%elem_of_delete_where. by rewrite Hx. Qed.
Lemma delete_app {A} (p : A → bool) l1 l2 : delete_where p (l1 ++ l2) = delete_where p l1 ++ delete_where p l2.
Proof. apply List.filter_app. Qed.
Lemma delete_all {A} (p : A → bool) l : Forall (λ x, p x = true) l → delete_where p l = [].
Proof. intros H. rewrite Forall_forall in H. apply filter_none. intros x Hx. by rewrite H. Qed.

(** uploading sender keys: the owner and every receiver, each named once, must
    be present members of the group; success leaves the owner with exactly the
    uploaded keys for that epoch, in order, and every other key untouched; an error
    leaves the tables as they were, so an epoch is never half distributed. *)
Theorem uploadSenderKeys_replaces ownerId groupId epoch items (w : World) :
  wp (uploadSenderKeys ownerId groupId epoch items) (λ o w',
    let mine := owned_keys ownerId groupId epoch in
    match o with
    | Ok _ =>
        NoDup (map i_receiverId items) ∧ (∀ u, u ∈ ownerId :: map i_receiverId items → present groupId u (w_db w)) ∧
        map key_of (select mine (senderKeys (w_db w'))) = items ∧
        delete_where mine (senderKeys (w_db w')) = delete_where mine (senderKeys (w_db w)) ∧
        ∃ t, w_db w' = w_db w <| senderKeys := t |>
    | Err _ => w_db w' = w_db w
    end) w.
Proof.
  unfold uploadSenderKeys. cbv zeta. destruct (length (unique _) =? length items)%nat eqn:Hlen; cbn [negb]; [|by wp_steps].
  apply Nat.eqb_eq in Hlen. wp_steps. apply wp_query; [done|]. case_bool_decide as Howner; cbn [negb]; [|by wp_steps].
  destruct (forallb _ _) eqn:Hall; cbn [negb]; [|by wp_steps].
  assert (NoDup (map i_receiverId items)) as Hnd by (apply unique_same_length; by rewrite Hlen, length_map).
  rewrite unique_id in * by done. rewrite forallb_forall in Hall. world.
  assert (Hpresent : ∀ u, u ∈ ownerId :: map i_receiverId items → present groupId u (w_db w)).
  { intros u [->|Hu]%elem_of_cons; [by apply elem_of_active in Howner as [_ ?]|]. apply list_elem_of_In, Hall in Hu. boolp.
    by apply elem_of_active in Hu as [_ ?]. }
  apply wp_transaction. unfold replace_sender_keys. wp_steps. apply wp_statement; [done|]. intros ? ? [= <- <-].
  case_bool_decide; wp_steps; [done|]. apply wp_statement; [done|]. intros ? d' Hi. case_match eqn:Hrows; simplify_eq. world.
  set (mine := owned_keys ownerId groupId epoch) in *.
  unfold insert_senderKey in Hrows. apply insert_rows_app in Hrows as ->. cbn [senderKeys modify_field].
  match goal with |- context [imap ?f items] => pose proof (new_keys_owned (w_tick (tick (tick w))) ownerId groupId epoch items) as Hown end.
  world. fold mine in Hown. split; [done|]. split; [done|]. rewrite select_app, select_deleted, (select_all _ _ Hown), delete_app, delete_deleted, (delete_all _ _ Hown).
  cbn [app]. rewrite app_nil_r. split; [|split; [done|by eexists]]. rewrite (map_imap _ _ id); [by rewrite List.map_id|]. by intros i [].
Qed.
End SenderKeys.

(** ** SRP arithmetic *)
#[local] Notation N := Srp.N.

Lemma modPow_loop_correct fuel result base exponent modulus :
  1 < modulus → 0 ≤ exponent < 2 ^ Z.of_nat fuel → 0 ≤ result < modulus →
  modPow_loop fuel result base exponent modulus = (result * base ^ exponent) mod modulus.
Proof.
  intros Hm. revert result base exponent. induction fuel as [|fuel IH]; intros result base exponent He Hr; cbn [modPow_loop].
  - assert (exponent = 0) as -> by (simpl in He; lia). by rewrite Z.pow_0_r, Z.mul_1_r, Z.mod_small.
  - destruct (Z.ltb_spec 0 exponent) as [Hpos|Hz].
    2:{ assert (exponent = 0) as -> by lia. by rewrite Z.pow_0_r, Z.mul_1_r, Z.mod_small. }
    rewrite Nat2Z.inj_succ, Z.pow_succ_r in He by lia. rewrite Z.shiftr_div_pow2 by lia. change (2 ^ 1) with 2.
    pose proof (Z.div_mod exponent 2) as Hdiv. pose proof (Z.mod_pos_bound exponent 2) as Hbit.
    set (h := exponent / 2) in *. assert (0 ≤ h < 2 ^ Z.of_nat fuel) as Hh by lia.
    assert (base ^ exponent = (base * base) ^ h * base ^ (exponent mod 2)) as Hpow.
    { rewrite <-Z.pow_2_r, <-Z.pow_mul_r, <-Z.pow_add_r by lia. f_equal. lia. }
    rewrite IH; [|done|destruct (exponent mod 2 =? 1); [apply Z.mod_pos_bound; lia|done]]. rewrite Hpow.
    destruct (Z.eqb_spec (exponent mod 2) 1) as [->|Hodd].
    + rewrite Z.pow_1_r, Z.mul_mod_idemp_l, <-Z.mul_mod_idemp_r by lia. rewrite <-(Zpower_mod (base * base)) by lia.
      rewrite Z.mul_mod_idemp_r by lia. f_equal. ring.
    + assert (exponent mod 2 = 0) as -> by lia. rewrite Z.pow_0_r, Z.mul_1_r, <-Z.mul_mod_idemp_r by lia.
      rewrite <-(Zpower_mod (base * base)) by lia. by rewrite Z.mul_mod_idemp_r by lia.
Qed.

Lemma modPow_spec base exponent modulus : 1 < modulus → 0 ≤ exponent → modPow base exponent modulus = base ^ exponent mod modulus.
Proof.
  intros Hm He. unfold modPow. rewrite modPow_loop_correct; [|done| |lia].
  - rewrite Z.mul_1_l, <-Zpower_mod by lia. rewrite Zpower_mod by lia. rewrite (Zpower_mod base) by lia. f_equal. f_equal.
    rewrite Z.add_mod, Z.mod_same, Z.add_0_r, !Z.mod_mod by lia. done.
  - split; [done|]. rewrite Z2Nat.id by (pose proof (Z.log2_nonneg exponent); lia).
    destruct (decide (exponent = 0)) as [->|]; [done|]. apply Z.log2_lt_pow2; lia.
Qed.

(** square and multiply: [modPow] is modular exponentiation, for every base
    (negative ones too), every exponent and every modulus above 1; its loop runs
    once per bit of the exponent. *)
Theorem modPow_correct (base exponent modulus : Z) (Hm : 1 < modulus) (He : 0 ≤ exponent) :
  modPow base exponent modulus = base ^ exponent mod modulus.
Proof. by apply modPow_spec. Qed.

Lemma modPow_correct_witness : modPow (-3) 13 7 = 4.
Proof. change 4 with ((-3) ^ 13 mod 7). apply (modPow_correct (-3) 13 7); lia. Defined.

Lemma N_big : 1 < N.
Proof. reflexivity. Qed.
Lemma N_odd : Z.gcd N 2 = 1.
Proof. reflexivity. Qed.

Lemma power_of_two_not_zero a : 0 ≤ a → 2 ^ a mod N ≠ 0.
Proof.
  intros Ha Hz. apply Z.mod_divide in Hz; [|done]. assert (rel_prime N (2 ^ a)) as Hr.
  { apply rel_prime_Zpower_r; [done|]. apply Zgcd_1_rel_prime, N_odd. }
  assert (N | 1) as H1 by (apply Hr; [apply Z.divide_refl|done]). apply Z.divide_1_r_nonneg in H1; [discriminate|done].
Qed.

Lemma hex_fold_nonneg a b : 0 ≤ a → Forall (λ x, 0 ≤ x < 256) b → 0 ≤ hex_fold a (hex_bytes b).
Proof.
  intros Ha Hb. revert a Ha. induction Hb as [|x b Hx _ IH]; intros a Ha; [done|]. cbn [hex_bytes flat_map app hex_fold foldl].
  apply IH. rewrite !hex_val_char by (split; [apply Z.div_pos || apply Z.mod_pos_bound|apply Z.div_lt_upper_bound || apply Z.mod_pos_bound]; lia).
  pose proof (Z.div_pos x 16). pose proof (Z.mod_pos_bound x 16). lia.
Qed.

Lemma is_proof_text_toHex b : Forall (λ x, 0 ≤ x < 256) b → length b = 32%nat → is_proof_text (toHex b) = true.
Proof.
  intros Hb Hl. assert (Hhex : forallb is_hex (hex_bytes b) = true ∧ length (hex_bytes b) = (2 * length b)%nat).
  { clear Hl. induction Hb as [|x b Hx _ [IH1 IH2]]; [done|]. cbn [hex_bytes flat_map app forallb length]. fold (hex_bytes b).
    rewrite IH1, IH2, !is_hex_char by (split; [apply Z.div_pos || apply Z.mod_pos_bound|apply Z.div_lt_upper_bound || apply Z.mod_pos_bound]; lia).
    split; [done|lia]. }
  destruct Hhex as [H1 H2]. unfold is_proof_text, toHex, all_chars. rewrite list_ascii_string, H1, andb_true_r. apply Nat.eqb_eq.
  rewrite Hl in H2. clear -H2. change 64%nat with (2 * 32)%nat. rewrite <-H2. clear H2. by induction (hex_bytes b); simpl; congruence.
Qed.

Section SrpProtocol.
Context {C : Crypto} {CL : CryptoLaws C}.

(** The client of SRP-6a, from its password [x] and its secret [a]. *)
Definition client_ephemeral (a : Z) : Z := G ^ a mod N.
Definition client_premaster (a x B : Z) : Z :=
  (B - multiplier * (G ^ x mod N)) ^ (a + scramble (client_ephemeral a) B * x) mod N.
Definition client_proof (a x B : Z) (salt : string) : bytes :=
  expected_M1 (client_ephemeral a) B salt (session_key (client_premaster a x B)).

Lemma scramble_nonneg A B : 0 ≤ scramble A B.
Proof. apply hex_fold_nonneg; [done|]. apply sha256_range. Qed.

Lemma pow_congr x y n : 0 ≤ n → x mod N = y mod N → x ^ n mod N = y ^ n mod N.
Proof. intros Hn H. pose proof N_big. by rewrite (Zpower_mod x), (Zpower_mod y), H by lia. Qed.

Lemma premasters_agree a b x : 0 ≤ a → 0 ≤ b → 0 ≤ x →
  let B := (multiplier * computeVerifier x + modPow G b N) mod N in
  premaster (client_ephemeral a) B b (computeVerifier x) = client_premaster a x B.
Proof.
  intros Ha Hb Hx B. pose proof N_big as HN. unfold premaster, client_premaster, client_ephemeral.
  assert (computeVerifier x = G ^ x mod N) as Hv by by apply modPow_spec.
  assert (B = (multiplier * (G ^ x mod N) + G ^ b mod N) mod N) as HBdef by (unfold B; by rewrite Hv, modPow_spec).
  rewrite Hv. clearbody B.
  set (u := scramble (G ^ a mod N) B). assert (Hu : 0 ≤ u) by apply scramble_nonneg.
  rewrite (modPow_spec (G ^ x mod N) u), modPow_spec by done.
  assert ((G ^ a mod N * ((G ^ x mod N) ^ u mod N)) mod N = G ^ (a + u * x) mod N) as HA.
  { rewrite <-Zpower_mod by lia. rewrite Z.mul_mod_idemp_l, Z.mul_mod_idemp_r by lia. f_equal.
    rewrite <-Z.pow_mul_r, <-Z.pow_add_r by lia. f_equal. lia. }
  rewrite (pow_congr _ (G ^ (a + u * x)) b) by done.
  assert ((B - multiplier * (G ^ x mod N)) mod N = G ^ b mod N) as HB.
  { rewrite HBdef, Zminus_mod_idemp_l.
    replace (_ + G ^ b mod N - _) with (G ^ b mod N) by lia. by apply Z.mod_mod; lia. }
  rewrite (pow_congr _ (G ^ b) (a + u * x)) by (done || lia). rewrite <-!Z.pow_mul_r by lia. f_equal. f_equal. lia.
Qed.

(** C16: SRP: a client that knows the password behind the stored verifier always
    proves it: server and client compute the same premaster secret, so the server
    accepts the client's proof and answers the M2 the client expects, whatever the
    secrets of the two sides. *)
Theorem honest_client_accepted (a b x : Z) (salt username : string) (Ha : 0 ≤ a) (Hb : 0 ≤ b) (Hx : 0 ≤ x) :
  let v := computeVerifier x in
  let B := (multiplier * v + modPow G b N) mod N in
  let A := client_ephemeral a in
  let K := session_key (client_premaster a x B) in
  let M1 := client_proof a x B salt in
  verifyClientProof (mkProofParams A (toHex M1) b B v salt username) =
    mkProofResult true (toHex (sha256_all [bigintToBuffer A; M1; K])) K.
Proof.
  intros v B A K M1. unfold verifyClientProof. cbn [pp_A pp_M1 pp_b pp_B pp_v pp_srpSalt].
  destruct (Z.eqb_spec (A mod N) 0) as [H0|_].
  { exfalso. unfold A, client_ephemeral in H0. rewrite Z.mod_mod in H0 by done. by apply (power_of_two_not_zero a). }
  assert (premaster A B b v = client_premaster a x B) as -> by by apply premasters_agree.
  fold K. change (expected_M1 A B salt K) with M1.
  assert (Hr : Forall (λ z, 0 ≤ z < 256) M1) by apply sha256_range.
  assert (Hl : length M1 = 32%nat) by apply sha256_length.
  assert (is_proof_text (toHex M1) = true) as ->.
  { by apply is_proof_text_toHex. }
  rewrite fromHex_toHex by done. rewrite Nat.eqb_refl, bool_decide_eq_true_2 by done. done.
Qed.
End SrpProtocol.

(** ** Login *)
Section Login.
Context {R : Redis} {RL : RedisLaws R} {E : Env} {C : Crypto} {CL : CryptoLaws C} {J : Jwt} {P : Environment}.

(** The state of a login that was started for [name], as Redis holds it. *)
Definition started (name : string) (w : World) (st : SrpState) : Prop :=
  ∃ raw t, live (now_at (S (w_tick w))) (rentry (w_redis w) (srp_key name)) = Some (RStr raw, t) ∧ read_srp_state raw = Some st.

Lemma wp_consume name (w : World) (Q : outcome thrown (option SrpState) → World → Prop) :
  (∀ e w', w_db w' = w_db w → Q (Err e) w') → (∀ w', w_db w' = w_db w → Q (Ok None) w') →
  (∀ st w', started name w st → rentry (w_redis w') (srp_key name) = None → w_db w' = w_db w → Q (Ok (Some st)) w') →
  wp (consume name) Q w.
Proof.
  intros He Hn Hs. unfold consume, srp_client. wp_steps. apply wp_getClient. intros [|]; wp_steps; [|by apply He].
  apply wp_act'. change (w_tick (tick w)) with (S (w_tick w)). change (w_redis (tick w)) with (w_redis w).
  destruct (conn_at (S (w_tick w))) as [| |[]]; try by apply He.
  pose proof (exec_reply (now_at (S (w_tick w))) (GetDel (srp_key name)) (w_redis w)) as Hrep.
  pose proof (exec_entry (now_at (S (w_tick w))) (GetDel (srp_key name)) (w_redis w) (srp_key name)) as Hent.
  destruct (exec _ _ (w_redis w)) as [rp r]. cbn [fst snd cmd_key] in *.
  destruct (live _ _) as [[[s| | | |] t]|] eqn:Hl; cbn [cmd_spec fmap option_fmap option_map] in *; subst rp; wp_steps; try by apply He; try by apply Hn.
  all: cbn [fst].
  2: by apply Hn.
  rewrite decide_True in Hent by done. destruct (s === ""); [by apply Hn|]. destruct (read_srp_state s) as [st|] eqn:Hst; [|by apply Hn].
  apply Hs; [|exact Hent|done]. by exists s, t.
Qed.

Lemma valid_proof p : pr_valid (verifyClientProof p) = true →
  pp_A p mod N ≠ 0 ∧
  fromHex (pp_M1 p) = expected_M1 (pp_A p) (pp_B p) (pp_srpSalt p) (session_key (premaster (pp_A p) (pp_B p) (pp_b p) (pp_v p))).
Proof.
  unfold verifyClientProof. destruct (Z.eqb_spec (pp_A p mod N) 0); [done|]. cbv zeta.
  set (M1 := expected_M1 _ _ _ _). destruct (is_proof_text (pp_M1 p)) eqn:Ht.
  - destruct (negb _) eqn:Hc; [done|]. intros _. split; [done|]. by boolp.
  - assert (length M1 = 32%nat) as Hl by apply sha256_length. intros H. exfalso. by rewrite Hl in H.
Qed.

Lemma leaves_srp_state name userId : leaves (srp_key name) (setOnline userId).
Proof. leaves_handler. by intros [=]. Qed.
Lemma leaves_audit name action userId details ip : leaves (srp_key name) (audit action userId details ip).
Proof. leaves_handler. Qed.
Lemma leaves_issueTokens name userId : leaves (srp_key name) (issueTokens userId).
Proof. leaves_handler; unfold insert_token, execute, randomHex, randomBytes; repeat leaves_step. Qed.
Lemma leaves_execute key {A} (s : nat → Db → A * Db) : leaves key (execute s).
Proof. apply leaves_statement. Qed.

(** The user proved the password behind the stored verifier. *)
Definition proved (params : LoginParams) (st : SrpState) (u : UserRow) (M2 : string) (d : Db) : Prop :=
  u_username u = lp_username params ∧ u_isActive u = true ∧ find_user (u_id u) d = Some u ∧ s_userId st = Some (u_id u) ∧
  ∃ A v, parseClientEphemeral (lp_A params) = Some A ∧ A mod N ≠ 0 ∧ BigInt_hex (u_srpVerifier u) = Some v ∧
    let K := session_key (premaster A (s_B st) (s_b st) v) in
    fromHex (lp_M1 params) = expected_M1 A (s_B st) (u_srpSalt u) K ∧
    M2 = toHex (sha256_all [bigintToBuffer A; fromHex (lp_M1 params); K]).

Lemma valid_M2 p : pr_valid (verifyClientProof p) = true →
  pr_M2 (verifyClientProof p) = toHex (sha256_all [bigintToBuffer (pp_A p); fromHex (pp_M1 p);
    session_key (premaster (pp_A p) (pp_B p) (pp_b p) (pp_v p))]).
Proof. unfold verifyClientProof. case_match; [done|]. cbv zeta. by case_match. Qed.

(** C14: nobody logs in without the password: tokens are only issued while
    Redis holds the state of a login started for that username, to an active user
    of that name whose id the state carries, against a proof computed from the stored verifier and the
    session's secrets; the session is spent, so the proof cannot be replayed. *)
Theorem loginFinish_requires_proof (params : LoginParams) (w : World) :
  wp (loginFinish params) (λ o w', ∀ r, o = Ok r →
    rentry (w_redis w') (srp_key (lp_username params)) = None ∧
    ∃ st, started (lp_username params) w st ∧ proved params st (lr_user r) (lr_M2 r) (w_db w)) w.
Proof.
  unfold loginFinish. wp_steps. apply wp_consume; [done|by intros; wp_steps|]. intros st w1 Hst Hgone Hd1.
  destruct (parseClientEphemeral (lp_A params)) as [A|] eqn:HA; [|by wp_steps]. wp_steps.
  apply (wp_mono _ (λ o w2, w_redis w2 = w_redis w1 ∧ ∀ u, o = Ok (Some u) → s_userId st = Some (u_id u) ∧ find_user (u_id u) (w_db w) = Some u)).
  { destruct (s_userId st) as [id|]; [|by wp_steps]. cbn [truthy]. case_bool_decide; [by wp_steps|].
    apply wp_query; [done|]. split; [done|]. intros u [= Hu]. rewrite Hd1 in Hu. apply first_Some in Hu as Hu'. destruct Hu' as [_ Hid]. boolp.
    subst id. done. }
  intros [user|e] w2 [Hr2 Hu]; [|done].
  destruct user as [u|]; [|by wp_steps]. destruct (Hu u eq_refl) as [Hid Hfind].
  destruct (u_isActive u && (u_username u === lp_username params)) eqn:Hact; [|by wp_steps]. boolp.
  destruct (BigInt_hex (u_srpVerifier u)) as [v|] eqn:Hv; [|by wp_steps]. cbv zeta.
  set (p := mkProofParams A (lp_M1 params) (s_b st) (s_B st) v (u_srpSalt u) (u_username u)).
  destruct (pr_valid (verifyClientProof p)) eqn:Hvalid; cbn [negb].
  2:{ wp_steps. eapply wp_mono; [apply (leaves_audit (lp_username params))|]. intros [a|e] w3 _; [by wp_steps|done]. }
  destruct (valid_proof p Hvalid) as [HA0 HM1]. pose proof (valid_M2 p Hvalid) as HM2. wp_steps.
  assert (Hproved : proved params st u (pr_M2 (verifyClientProof p)) (w_db w)).
  { split; [done|]. split; [done|]. split; [done|]. split; [done|]. by exists A, v. }
  assert (Hkey : rentry (w_redis w2) (srp_key (lp_username params)) = None) by by rewrite Hr2.
  eapply wp_mono; [apply (leaves_issueTokens (lp_username params))|]. intros [tokens|e] w3 H3; [|done]. wp_steps.
  eapply wp_mono; [apply (leaves_execute (srp_key (lp_username params)))|]. intros [x|e] w4 H4; [|done]. wp_steps.
  eapply wp_mono; [apply (leaves_srp_state (lp_username params))|]. intros [y|e] w5 H5; [|done]. wp_steps.
  eapply wp_mono; [apply (leaves_audit (lp_username params))|]. intros [z|e] w6 H6; [|done]. wp_steps.
  intros r [= <-]. split; [|by exists st]. unfold same_entry in *. rewrite H6, H5, H4. change (w_redis (tick w3)) with (w_redis w3). by rewrite H3.
Qed.
End Login.

(** ** The properties on concrete inputs *)
Section Protocol.
#[local] Existing Instance sample_env.
#[local] Existing Instance toy_jwt.
#[local] Existing Instance sample_environment.
#[local] Existing Instance toy_validator.
#[local] Existing Instance toy_livekit.

Lemma honest_client_accepted_witness :
  (0 ≤ 5 ∧ 0 ≤ 7 ∧ 0 ≤ 11) ∧
  let v := computeVerifier 11 in
  let B := (multiplier * v + modPow G 7 N) mod N in
  pr_valid (verifyClientProof
    (mkProofParams (client_ephemeral 5) (toHex (client_proof 5 11 B "00ff")) 7 B v "00ff" "alice")) = true.
Proof.
  split; [lia|]. intros v B.
  exact (f_equal pr_valid (honest_client_accepted 5 7 11 "00ff" "alice" ltac:(lia) ltac:(lia) ltac:(lia))).
Defined.

(** Alice, whose verifier stands for the secret 0, is logging in: the server drew
    the secret 7. *)
Definition login_B : Z := (multiplier * computeVerifier 0 + modPow G 7 N) mod N.
Definition login_world : World (R := mem_redis) :=
  let alice := sample_user "alice" "alice" <| u_srpVerifier := bigintToHex (computeVerifier 0) |> in
  let state := stringify (srp_state_json (mkSrpState 7 login_B (Some "alice"))) in
  mkWorld (empty_db <| users := [alice] |>) {[srp_key "alice" := (RStr state, Some 1700000100000)]} 0 [] true no_sockets ∅.
Definition login_params : LoginParams :=
  let A := client_ephemeral 5 in
  mkLoginParams "alice" (toString16 A)
    (toHex (expected_M1 A login_B "00ff" (session_key (premaster A login_B 7 (computeVerifier 0))))) None.

(** Her login succeeds, and what it took is what the theorem says. *)
Lemma loginFinish_requires_proof_witness :
  ∃ r, (run (loginFinish login_params) login_world).1 = Ok r ∧
    ∃ st, started "alice" login_world st ∧ proved login_params st (lr_user r) (lr_M2 r) (w_db login_world).
Proof.
  pose proof (loginFinish_requires_proof login_params login_world) as H.
  assert (Hok : match (run (loginFinish login_params) login_world).1 with Ok _ => true | Err _ => false end = true)
    by (vm_compute; reflexivity).
  unfold wp in H. destruct (run (loginFinish login_params) login_world) as [[r|e] w']; [|discriminate].
  exists r. split; [reflexivity|]. apply (H r eq_refl).
Defined.
End Protocol.
