(* ===== verification/Sending.v ===== *)
(** * Sending: what [send] and [deleteMessage] do to the tables and the rooms

    Properties of Messages.v: the functional behaviour of sending a message on every
    branch, the dispatch to the members, and the deletion of a message. *)
From Stdlib Require Import String.
From S2P Require Import Prelude JsString Json Effects Errors Redis Schema World Samples Crypto RedisSession.
From S2P Require Import RedisCache Socket ChannelMembers Messages Users Srp Footprint DbStep Exclusive System Invariants.
From stdpp Require Import base list strings.

Local Open Scope string_scope.
Local Open Scope Z_scope.
Local Open Scope list_scope.

Section Send.
Context {R : Redis} {E : Env} {C : Crypto}.

(** ** Storing a message *)

(** The row of the message is added, its channel shows it as the last one, and of all the
    memberships that of the sender in this channel, and no other, is marked as having read
    it; nothing else changes. *)
Definition stored (input : SendMessageInput) (row : MessageRow) (d d' : Db) : Prop :=
  ∃ n now now',
    row = new_message input (max_sequence (channel_messages (si_channelId input) d) + 1) n ∧
    insert_message d row = Ok (messages d ++ [row]) ∧
    d' = d <| messages := messages d ++ [row] |>
           <| channels := map (λ c, if decide (c_id c = si_channelId input)
                then c <| c_lastMessageId := Some (m_id row) |> <| c_lastMessageAt := Some (m_createdAt row) |> <| c_updatedAt := now |>
                else c) (channels d) |>
           <| memberships := map (λ m, if decide (mb_userId m = si_userId input ∧ mb_channelId m = si_channelId input)
                then m <| mb_lastReadMessageId := Some (m_id row) |> <| mb_lastReadAt := Some now' |> else m) (memberships d) |>.

Lemma stored_writes input row now now' d :
  mark_own_read (si_userId input) (si_channelId input) row now'
    (touch_channel (si_channelId input) row now (d <| messages := messages d ++ [row] |>)) =
  d <| messages := messages d ++ [row] |>
    <| channels := map (λ c, if decide (c_id c = si_channelId input)
         then c <| c_lastMessageId := Some (m_id row) |> <| c_lastMessageAt := Some (m_createdAt row) |> <| c_updatedAt := now |>
         else c) (channels d) |>
    <| memberships := map (λ m, if decide (mb_userId m = si_userId input ∧ mb_channelId m = si_channelId input)
         then m <| mb_lastReadMessageId := Some (m_id row) |> <| mb_lastReadAt := Some now' |> else m) (memberships d) |>.
Proof.
  unfold mark_own_read, touch_channel. cbn [channels memberships modify_field].
  rewrite (update_where_decide (λ c, c_id c = si_channelId input)) by (intros c; apply bool_decide_eq_true).
  rewrite (update_where_decide (λ m, mb_userId m = si_userId input ∧ mb_channelId m = si_channelId input)); [done|].
  intros m. unfold is_membership. by rewrite andb_true_iff, !bool_decide_eq_true.
Qed.

Lemma wp_insert_in_transaction input (w : World) :
  wp (insert_in_transaction input) (λ o w', if o is Ok row then stored input row (w_db w) (w_db w') else True) w.
Proof.
  unfold insert_in_transaction, nextSequence, insert_new_message. wp_steps. apply wp_query; [done|].
  wp_steps. apply wp_query; [done|]. wp_steps. apply wp_statement; [done|]. intros row d1 H1. case_match eqn:Hi; simplify_eq.
  pose proof (insert_row_ok _ _ _ _ _ _ Hi) as (Ht & _). wp_steps.
  apply wp_statement; [done|]. intros ? ? [= <- <-]. wp_steps. apply wp_statement; [done|]. intros ? ? [= <- <-]. wp_steps.
  subst. do 3 eexists. split; [done|]. split; [done|]. apply stored_writes.
Qed.

Definition stores (input : SendMessageInput) (d : Db) (o : outcome thrown MessageRow) (w' : World) : Prop :=
  match o with Ok row => stored input row d (w_db w') | Err _ => w_db w' = d end.

Lemma wp_insert_once input (w : World) : wp (transaction (insert_in_transaction input)) (stores input (w_db w)) w.
Proof. apply wp_transaction. eapply wp_mono; [apply wp_insert_in_transaction|]. by intros [row|e] w'. Qed.

Lemma wp_insertWithSequence input (w : World) : wp (insertWithSequence input) (stores input (w_db w)) w.
Proof.
  unfold insertWithSequence. generalize MAX_SEQUENCE_RETRIES as k. intros k. revert w.
  induction k as [|k IH]; intros w; cbn [insert_attempts]; [done|]. apply wp_catch.
  eapply wp_mono; [apply wp_insert_once|]. intros [row|e] w1 H1; [done|]. simpl in H1. rewrite <-H1. case_match; [apply IH|done].
Qed.

Definition signed (input : SendMessageInput) (publicKeySign : string) : bool :=
  (si_signature input === "") || (publicKeySign === "") ||
  match ed25519_verify (utf8 (si_channelId input +:+ ":" +:+ si_encryptedContent input))
          (from_base64 (si_signature input)) (from_base64 publicKeySign) with Some b => b | None => false end.

(** Who may send what: within the limits, a member of a live channel, correctly signed. *)
Definition may_send (input : SendMessageInput) (user : UserRow) (channel : ChannelRow) (d : Db) : Prop :=
  assertSendLimits input = None ∧ sender_row (si_userId input) (si_channelId input) d = Some (user, channel) ∧
  c_isArchived channel = false ∧ signed input (u_publicKeySign user) = true.

Lemma wp_check_signature input key (w : World) :
  wp (check_signature input key) (λ o w', w' = w ∧ (o = Ok tt ↔ signed input key = true)) w.
Proof.
  unfold check_signature, signed. case_match eqn:H1; [by wp_steps|]. simpl. case_match; [case_match|]; by wp_steps.
Qed.

(** C5: a call of [send], whatever fails around it: when it answers, the caller was
    allowed to send, exactly one row was stored (numbered after the channel's
    last), the channel's preview and the sender's read mark point to it, and the
    answer is its payload; when it throws, either nothing changed, or an allowed
    message was stored the same way and only telling the others failed. *)
Theorem send_stores input exceptSocket (w : World) :
  wp (send input exceptSocket) (λ o w',
    let sent row user := ∃ channel, may_send input user channel (w_db w) ∧ stored input row (w_db w) (w_db w') in
    match o with
    | Ok payload => ∃ row user, sent row user ∧ payload = toMessagePayload row (Some (u_username user))
    | Err _ => w_db w' = w_db w ∨ ∃ row user, sent row user
    end) w.
Proof.
  unfold send. destruct (assertSendLimits input) eqn:Hlim; [wp_steps; by left|]. wp_steps. apply wp_query; [by left|].
  destruct (sender_row _ _ (w_db w)) as [[user channel]|] eqn:Hrow; [|wp_steps; by left].
  destruct (c_isArchived channel) eqn:Harch; [wp_steps; by left|]. wp_steps.
  eapply wp_mono; [apply wp_check_signature|]. intros o w1 [-> Hsig]. destruct o as [[]|e]; [|by left].
  wp_steps. eapply wp_mono; [apply wp_insertWithSequence|]. intros [row|e] w2 Hst; [|by left].
  assert (Hmay : may_send input user channel (w_db w)) by (repeat split; try done; by apply Hsig).
  wp_steps. eapply wp_mono; [apply quiet_wp, quiet_dispatchNewMessage|]. intros [[]|e] w3 Hq; [|right].
  - wp_steps. exists row, user. split; [|done]. exists channel. by rewrite Hq.
  - exists row, user, channel. by rewrite Hq.
Qed.

Lemma limits_columns input seq n :
  assertSendLimits input = None → int4 seq = true → int4 (si_senderKeyEpoch input) = true →
  message_columns (new_message input seq n) = None.
Proof.
  unfold assertSendLimits. intros Hlim Hseq Hep. destruct (si_encryptedContent input === ""); [done|].
  destruct (MAX_ENCRYPTED_CONTENT_BYTES <? byteLength _); [done|].
  match type of Hlim with (if ?b then _ else _) = _ => destruct b eqn:Hivt; [done|] end. clear Hlim. boolp.
  unfold message_columns, column_error, new_message, varchar. cbn [m_contentIv m_contentTag m_sequenceNumber m_senderKeyEpoch].
  pose proof (char_count_le_js_length (si_contentIv input)). pose proof (char_count_le_js_length (si_contentTag input)).
  rewrite !(proj2 (Z.leb_le _ _)) by lia. by rewrite Hseq, Hep.
Qed.

(** the limits protect the columns: a message that [assertSendLimits] lets
    through fits the table (its IV and tag their varchar(32), whatever characters
    they hold) as soon as its number and epoch are 32-bit, and its text and
    metadata are within 10 KB and 64 KB. *)
Theorem limits_fit_columns input seq n
  (Hlimits : assertSendLimits input = None) (Hseq : int4 seq = true) (Hepoch : int4 (si_senderKeyEpoch input) = true) :
  message_columns (new_message input seq n) = None ∧
  0 < byteLength (si_encryptedContent input) ≤ 10240 ∧
  (∀ j, nullish (si_metadata input) = Some j → byteLength (stringify j) ≤ 65536) ∧
  default "TEXT" (si_messageType input) ∈ MESSAGE_TYPES.
Proof.
  split; [by apply limits_columns|]. unfold assertSendLimits in Hlimits. destruct (si_encryptedContent input === "") eqn:He; [done|].
  destruct (MAX_ENCRYPTED_CONTENT_BYTES <? byteLength _) eqn:Hb; [done|].
  match type of Hlimits with (if ?b then _ else _) = _ => destruct b eqn:Hivt; [done|] end.
  destruct (match si_messageType input with Some t => _ | None => _ end) eqn:Ht; [done|]. boolp.
  split_and!.
  - unfold byteLength. destruct (si_encryptedContent input); [done|]. cbn [String.length]. lia.
  - unfold MAX_ENCRYPTED_CONTENT_BYTES in *. lia.
  - intros j Hj. destruct (si_metadata input) as [[| | | | |fs]|]; simplify_eq/=.
    destruct (MAX_METADATA_BYTES <? _) eqn:Hm; [done|]. boolp. done.
  - destruct (si_messageType input); simpl; [by boolp|]. by apply list_elem_of_here.
Qed.

Lemma foldl_max_ge a l x : x ≤ a ∨ x ∈ l → x ≤ foldl Z.max a l.
Proof.
  revert a. induction l as [|y l IH]; intros a; simpl; [intros [?|Hx]; [done|by apply not_elem_of_nil in Hx]|].
  rewrite elem_of_cons. intros [?|[->|Hx]]; apply IH; [left; lia..|by right].
Qed.

Lemma max_sequence_ge l m : m ∈ l → m_sequenceNumber m ≤ max_sequence l.
Proof.
  intros Hm. apply (list_elem_of_fmap_2 m_sequenceNumber) in Hm. unfold max_sequence.
  change (m_sequenceNumber <$> l) with (map m_sequenceNumber l) in Hm. destruct (map m_sequenceNumber l) as [|x xs]; [by apply not_elem_of_nil in Hm|].
  apply foldl_max_ge. apply elem_of_cons in Hm as [->|?]; [left; lia|by right].
Qed.

Lemma existsb_false {A} (p : A → bool) l : (∀ x, x ∈ l → p x = false) → existsb p l = false.
Proof.
  intros H. apply not_true_iff_false. rewrite existsb_exists. intros (x & Hx%list_elem_of_In & Hp). by rewrite H in Hp.
Qed.

Lemma existsb_first {A} (p : A → bool) l x : head (select p l) = Some x → existsb p l = true.
Proof. intros [Hx Hp]%first_Some. apply existsb_exists. exists x. by rewrite <-list_elem_of_In. Qed.

Definition fresh_ids (d : Db) : Prop := ∀ n m, m ∈ messages d → m_id m ≠ uuid_at n 0.

Lemma insert_new_ok input user channel n d :
  may_send input user channel d → fresh_ids d →
  int4 (max_sequence (channel_messages (si_channelId input) d) + 1) = true → int4 (si_senderKeyEpoch input) = true →
  let row := new_message input (max_sequence (channel_messages (si_channelId input) d) + 1) n in
  insert_message d row = Ok (messages d ++ [row]).
Proof.
  intros (Hlim & Hrow & _) Hfresh Hseq Hep row. apply insert_row_succeeds.
  - by apply limits_columns.
  - apply existsb_false. intros m Hm. unfold message_conflict, message_index, row, new_message; simpl.
    rewrite bool_decide_eq_false_2 by (intros Heq; by apply (Hfresh n m Hm)). simpl.
    destruct (si_channelId input === m_channelId m) eqn:Hc; [|done]. boolp. simpl. apply Z.eqb_neq.
    assert (m_sequenceNumber m ≤ max_sequence (channel_messages (si_channelId input) d)); [|lia].
    apply max_sequence_ge, elem_of_select. split; [done|]. by apply bool_decide_eq_true_2.
  - unfold sender_row in Hrow. destruct (membership _ _ d); [|done]. destruct (find_user (si_userId input) d) as [u|] eqn:Hu; [|done].
    destruct (find_channel (si_channelId input) d) as [c|] eqn:Hc; [|done].
    unfold message_fk, has_user, has_channel. cbn [row m_senderId m_channelId new_message].
    by rewrite (existsb_first _ _ _ Hu), (existsb_first _ _ _ Hc).
Qed.

Lemma wp_insert_succeeds input user channel (w : World) :
  (∀ n, db_fault n = None) → may_send input user channel (w_db w) → fresh_ids (w_db w) →
  int4 (max_sequence (channel_messages (si_channelId input) (w_db w)) + 1) = true → int4 (si_senderKeyEpoch input) = true →
  wp (transaction (insert_in_transaction input)) (λ o w', (∃ row, o = Ok row) ∧ w_server w' = w_server w) w.
Proof.
  intros Hnf Hmay Hfresh Hseq Hep. apply wp_transaction. unfold insert_in_transaction, nextSequence, insert_new_message, query, execute, statement.
  wp_steps. apply wp_act'. rewrite Hnf. wp_steps. apply wp_act'. rewrite Hnf. wp_steps. apply wp_act'. rewrite Hnf.
  change (w_db (tick (tick w))) with (w_db w). cbv zeta. rewrite (insert_new_ok input user channel) by done. cbn [sql_outcome].
  wp_steps. apply wp_act'. rewrite Hnf. cbn [sql_outcome]. wp_steps. apply wp_act'. rewrite Hnf. cbn [sql_outcome]. wp_steps.
  split; [by eexists|done].
Qed.

(** C30: availability: when the tables answer, whoever may send does send, whatever
    Redis, Socket.IO and the delivery queue do: their failures never reach the
    caller. *)
Theorem send_succeeds input exceptSocket user channel (w : World)
  (Hdb : ∀ n, db_fault n = None) (Hmay : may_send input user channel (w_db w)) (Hfresh : fresh_ids (w_db w))
  (Hseq : int4 (max_sequence (channel_messages (si_channelId input) (w_db w)) + 1) = true)
  (Hepoch : int4 (si_senderKeyEpoch input) = true) :
  wp (send input exceptSocket) (λ o _, ∃ payload, o = Ok payload) w.
Proof.
  unfold send. destruct Hmay as (Hlim & Hrow & Harch & Hsig) eqn:Hm. clear Hm. rewrite Hlim. wp_steps.
  apply wp_act'. rewrite Hdb. rewrite Hrow, Harch. wp_steps.
  eapply wp_mono; [apply wp_check_signature|]. intros o w1 [-> Ho]. rewrite (proj2 Ho Hsig). wp_steps.
  unfold insertWithSequence, MAX_SEQUENCE_RETRIES, insert_attempts at 1. apply wp_catch. eapply wp_mono.
  { apply (wp_insert_succeeds input user channel); done. }
  intros o' w2 [[row ->] _]. wp_steps. eapply wp_mono; [by apply nothrow_dispatchNewMessage|]. intros o'' w3 [[] ->]. wp_steps. eauto.
Qed.

(** ** Telling the members *)
Definition dispatched (payload : PendingMessage) (exceptSocket : option string) (members connected : list string) : list effect :=
  let recipients := List.filter (λ id, id !== pm_senderId payload) members in
  let offline := List.filter (λ id, negb (bool_decide (id ∈ connected))) recipients in
  Emit [channelRoom (pm_channelId payload)] (except_rooms (mkEmitOptions exceptSocket None)) "message:new" (pending_json payload)
  :: (if recipients === [] then []
      else [QueueAdd "deliver" (job_json (mkMessageDeliveryJob payload recipients offline))]).

(** The sockets of a room, at any time, belong to [connected]. *)
Definition room_holds (room : string) (connected : list string) : Prop :=
  ∀ n, ∃ sockets, sockets_at n room = Some sockets ∧ unique (omap truthy sockets) = connected.

Context {RL : RedisLaws R}.

(** Without a snapshot the members come from the tables. *)
Lemma wp_getMembers_cold channelId (w : World) :
  redis_ready → (∀ n, db_fault n = None) → rentry (w_redis w) (RedisKeys.channelMembers channelId) = None →
  wp (getMembers channelId) (λ o w', o = Ok (member_ids channelId (w_db w)) ∧ same_but_redis w w') w.
Proof.
  intros Hready Hdb Hcold. unfold getMembers. wp_steps. apply wp_with_redis_ready; [done|]. wp_steps.
  eapply (wp_cmd_ready _ (RpArr []) None); [done|cbn; by rewrite Hcold|]. intros r _. wp_steps.
  rewrite bool_decide_eq_true_2 by done. cbn [negb]. wp_steps. apply wp_act'. rewrite Hdb. wp_steps.
  eapply wp_mono; [apply wp_and; [apply nothrow_setMembers|apply silent_setMembers]|]. intros o w' [[[] ->] H]. by wp_steps.
Qed.

Lemma wp_emitToChannel channelId event data options (w : World) :
  w_server w = true →
  wp (emitToChannel channelId event data options)
    (λ o w', o = Ok tt ∧ w_db w' = w_db w ∧ w_redis w' = w_redis w ∧ w_server w' = true ∧
       w_out w' = w_out w ++ [Emit [channelRoom channelId] (except_rooms options) event data]) w.
Proof.
  intros Hs. unfold emitToChannel. wp_steps. apply wp_act'. rewrite Hs. by apply wp_act'.
Qed.

Lemma wp_getConnected channelId connected (w : World) :
  w_server w = true → room_holds (channelRoom channelId) connected →
  wp (getConnectedUserIds channelId) (λ o w', o = Ok (Some connected) ∧ same_but_redis w w') w.
Proof.
  intros Hs Hc. unfold getConnectedUserIds. wp_steps. apply wp_act'. rewrite Hs. cbn [negb]. wp_steps.
  apply wp_act'. destruct (Hc (w_tick (tick w))) as (l & -> & Hl). wp_steps. by rewrite Hl.
Qed.

(** C31: who is told: the dispatch of a message emits [message:new] with its payload
    to the channel's room, sparing the sender's socket, and queues one delivery
    job for the other members, of whom the offline ones are exactly those without
    a socket in the room. *)
Theorem dispatch_tells_everyone payload exceptSocket connected (w : World)
  (Hready : redis_ready) (Hdb : ∀ n, db_fault n = None) (Hqueue : ∀ n, queue_fault n = None) (Hserver : w_server w = true)
  (Hcold : rentry (w_redis w) (RedisKeys.channelMembers (pm_channelId payload)) = None)
  (Hroom : room_holds (channelRoom (pm_channelId payload)) connected) :
  wp (dispatchNewMessage payload exceptSocket) (λ o w',
    o = Ok tt ∧ w_db w' = w_db w ∧
    w_out w' = w_out w ++ dispatched payload exceptSocket (member_ids (pm_channelId payload) (w_db w)) connected) w.
Proof.
  unfold dispatchNewMessage. wp_steps. eapply wp_mono; [by apply wp_getMembers_cold|]. intros o w1 [-> (Hd1 & Ho1 & Hs1 & _)]. wp_steps.
  eapply wp_mono; [apply (wp_getConnected _ connected); congruence || done|]. intros o w2 [-> (Hd2 & Ho2 & Hs2 & _)]. wp_steps.
  eapply wp_mono; [apply wp_emitToChannel; congruence|]. intros o w3 (-> & Hd3 & _ & Hs3 & Ho3). wp_steps.
  eapply wp_mono; [apply wp_and; [apply nothrow_cacheMessage|apply silent_cacheMessage]|].
  intros o w4 [[[] ->] (Hd4 & Ho4 & Hs4 & _)]. wp_steps. unfold dispatched. rewrite Ho2, Ho1 in Ho3.
  case_bool_decide; wp_steps; [split; [done|]; split; congruence|].
  apply wp_act'. rewrite Hqueue. split; [done|]. split; [world; congruence|]. world. rewrite Ho4, Ho3, <-app_assoc. done.
Qed.

(** ** Deletion *)

(** The preview of a channel shows its newest message that is not deleted. *)
Definition shows_newest (channelId : string) (last : option string) (d : Db) : Prop :=
  let shown m := m ∈ messages d ∧ m_channelId m = channelId ∧ m_isDeleted m = false in
  match last with
  | Some id => ∃ m, shown m ∧ m_id m = id ∧ ∀ m', shown m' → m_sequenceNumber m' ≤ m_sequenceNumber m
  | None => ∀ m, ¬ shown m
  end.

(** What deleting message [id] of [channelId] amounts to. *)
Definition removed_message (channelId id : string) (d d' : Db) : Prop :=
  Forall2 (λ m m', if decide (m_id m = id) then header m' = header m ∧ wiped m' else m' = m) (messages d) (messages d') ∧
  (∀ r, r ∈ reactions d' ↔ r ∈ reactions d ∧ re_messageId r ≠ id) ∧
  memberships d' = memberships d ∧ users d' = users d ∧
  (∀ c, find_channel channelId d = Some c →
    ∃ c', find_channel channelId d' = Some c' ∧
      if decide (c_lastMessageId c = Some id) then shows_newest channelId (c_lastMessageId c') d' else c' = c).

Lemma newest_remaining_spec channelId id d :
  (∀ m, m ∈ messages d → m_id m = id → m_isDeleted m = true) →
  shows_newest channelId (m_id <$> newest_remaining channelId id d) d.
Proof.
  intros Hdel. unfold newest_remaining, shows_newest.
  set (live := select _ (messages d)). set (leb := λ a b, m_sequenceNumber b <=? m_sequenceNumber a).
  assert (Hlive : ∀ m, m ∈ live ↔ m ∈ messages d ∧ m_channelId m = channelId ∧ m_isDeleted m = false).
  { intros m. unfold live. rewrite elem_of_select, !andb_true_iff, !negb_true_iff. unfold of_channel.
    rewrite bool_decide_eq_true, bool_decide_eq_false. split; [naive_solver|]. intros (Hm & Hc & Hd). split_and!; try done.
    intros Hid. specialize (Hdel m Hm Hid). congruence. }
  assert (Hsort : StronglySorted (λ a b, leb a b = true) (sort_by leb live)).
  { apply sort_by_sorted; unfold leb; intros; rewrite ?Z.leb_le in *; lia. }
  pose proof (λ x, sort_by_elem leb x live) as Hel.
  destruct (sort_by leb live) as [|m rest]; simpl.
  - intros m Hm. apply Hlive, Hel in Hm. by apply not_elem_of_nil in Hm.
  - apply StronglySorted_inv in Hsort as [_ Hall]. rewrite Forall_forall in Hall.
    exists m. split; [apply Hlive, Hel; by apply list_elem_of_here|]. split; [done|]. intros m' Hm'. apply Hlive, Hel in Hm'.
    apply elem_of_cons in Hm' as [->|Hm']; [done|]. specialize (Hall m' Hm'). unfold leb in Hall. by boolp.
Qed.

Lemma find_channel_preview channelId prev now d c :
  find_channel channelId d = Some c →
  find_channel channelId (point_preview channelId prev now d) =
    Some (c <| c_lastMessageId := m_id <$> prev |> <| c_lastMessageAt := m_createdAt <$> prev |> <| c_updatedAt := now |>).
Proof.
  unfold find_channel, point_preview. cbn [channels modify_field]. intros Hc. rewrite first_update by done. rewrite Hc. simpl.
  by apply first_Some in Hc as [_ ->].
Qed.

Lemma deletion_removes channelId id now now' d : removed_message channelId id d (deletion channelId id now now' d).
Proof.
  destruct (deletion_frame channelId id now now' d) as (Hm & Hms & Hu & Hr). split; [|split; [|split; [done|split; [done|]]]].
  - rewrite Hm. unfold wipe_message, update_where. cbn [messages modify_field].
    apply Forall2_fmap_r, Forall_Forall2_diag, Forall_forall. intros m _. simpl. case_bool_decide; case_decide; done.
  - intros r. rewrite Hr, elem_of_delete_where, bool_decide_eq_false. done.
  - intros c Hc. unfold deletion. cbv zeta. set (d1 := delete_reactions id (wipe_message id now d)).
    assert (find_channel channelId d1 = Some c) as Hc1 by done. rewrite Hc1.
    case_bool_decide; case_decide; try done.
    + eexists. split; [by apply find_channel_preview|]. cbn [c_lastMessageId modify_field].
      apply (newest_remaining_spec channelId id d1). intros m Hin Hid. unfold d1, delete_reactions, wipe_message in Hin.
      cbn [messages modify_field] in Hin. apply elem_of_update_where in Hin as (m0 & _ & ->).
      case_bool_decide; [done|]. by simpl in Hid.
    + by exists c.
Qed.

(** C32: deletion: only the sender can delete a message, an error leaves the tables
    as they were, and success means the message is gone: its text and metadata are
    wiped in place, its reactions removed, and a channel whose preview showed it
    now shows its newest message left, or none; nothing else moves. *)
Theorem deleteMessage_removes userId messageId (w : World) :
  wp (deleteMessage userId messageId) (λ o w',
    match o with
    | Ok _ => ∃ msg, find_message messageId (w_db w) = Some msg ∧ m_senderId msg = userId ∧
                if m_isDeleted msg then w_db w' = w_db w
                else removed_message (m_channelId msg) messageId (w_db w) (w_db w')
    | Err _ => w_db w' = w_db w
    end) w.
Proof.
  unfold deleteMessage. wp_steps. apply wp_query; [done|]. destruct (find_message messageId (w_db w)) as [msg|] eqn:Hm; [|by wp_steps].
  case_bool_decide as Hs; [|by wp_steps]. cbn [negb]. wp_steps.
  eapply (wp_mono _ (λ o w', match o with
    | Ok _ => if m_isDeleted msg then w_db w' = w_db w else removed_message (m_channelId msg) messageId (w_db w) (w_db w')
    | Err _ => w_db w' = w_db w end)).
  { destruct (m_isDeleted msg); cbn [negb]; [by wp_steps|]. apply wp_transaction.
    eapply wp_mono; [apply wp_delete_in_transaction|]. intros [a|e] w1; [|done]. intros (n & n' & ->). apply deletion_removes. }
  intros [a|e] w1 H1; [|done]. wp_steps.
  eapply wp_mono; [apply wp_and; [apply nothrow_invalidateMessages|apply silent_invalidateMessages]|].
  intros o w2 [[[] ->] (Hd & _ & _)]. wp_steps.
  eapply wp_mono; [apply wp_and; [apply nothrow_emitToChannel|apply quiet_wp, quiet_emitToChannel]|].
  intros o w3 [[[] ->] Hd']. wp_steps. exists msg. split; [done|]. split; [done|]. by rewrite Hd', Hd.
Qed.
End Send.

(** ** The properties on a concrete state *)
Section Witnesses.
#[local] Existing Instance sample_env.

Lemma limits_fit_columns_witness :
  assertSendLimits (sample_input "alice" "hi") = None ∧
  message_columns (new_message (sample_input "alice" "hi") 3 0) = None.
Proof.
  split; [reflexivity|]. apply (limits_fit_columns (sample_input "alice" "hi") 3 0); reflexivity.
Defined.

Lemma sample_may_send : may_send (sample_input "alice" "hi") (sample_user "alice" "alice") (sample_channel "g" "GROUP") sample_db.
Proof. by repeat split. Qed.

Lemma sample_fresh_ids : fresh_ids sample_db.
Proof. intros n m Hm. cbn in Hm. rewrite !elem_of_cons, elem_of_nil in Hm. by destruct Hm as [->|[->|[]]]. Qed.

Lemma send_succeeds_witness :
  wp (send (sample_input "alice" "hi") None) (λ o _, ∃ payload, o = Ok payload) sample_world.
Proof.
  apply (send_succeeds _ None (sample_user "alice" "alice") (sample_channel "g" "GROUP"));
    [done|exact sample_may_send|exact sample_fresh_ids|reflexivity|reflexivity].
Defined.

Definition sample_payload : PendingMessage := toMessagePayload (sample_message "msg3" "alice" "g" 3) (Some "alice").

Lemma dispatch_tells_everyone_witness :
  wp (dispatchNewMessage sample_payload (Some "sock1")) (λ o w',
    o = Ok tt ∧ w_db w' = sample_db ∧
    w_out w' = [Emit ["channel:g"] ["sock1"] "message:new" (pending_json sample_payload);
                QueueAdd "deliver" (job_json (mkMessageDeliveryJob sample_payload ["bob"; "carol"] ["bob"; "carol"]))]) sample_world.
Proof.
  apply (dispatch_tells_everyone sample_payload (Some "sock1") [] sample_world);
    [done|done|done|reflexivity|reflexivity|]. intros n. by exists [].
Defined.
End Witnesses.
