(* ===== verification/Reading.v ===== *)
(** * Reading: what [markRead] does, alone and against a send

    Properties of [markRead] in Channels.v.  Run alone it moves the read mark of one
    membership forwards and records a receipt; against a send of the same user the mark
    may fall back, because the UPDATE checks the row again with the messages it saw when
    it started. *)
From Stdlib Require Import String.
From S2P Require Import Prelude JsString Json IsoDate Effects Errors Redis Schema World Samples Crypto Config RateLimit RedisSession.
From S2P Require Import RedisCache Socket ChannelMembers Messages Channels Reactions Users Keys Srp Auth Chat Footprint DbStep.
From S2P Require Import Exclusive LiveKit Validation SocketAuth Http Uploads System Invariants Membership.
From stdpp Require Import base list strings gmap relations.

Local Open Scope string_scope.
Local Open Scope Z_scope.
Local Open Scope list_scope.

(** ** The specification *)

(** The message is newer than the last one the member read, if there is one. *)
Definition newer (d : Db) (mb : MembershipRow) (msg : MessageRow) : Prop :=
  ∀ m0, m0 ∈ messages d → mb_lastReadMessageId mb = Some (m_id m0) → m_sequenceNumber m0 < m_sequenceNumber msg.
(** The membership [mb] has read [messageId]; the others are as they were. *)
Definition marked (mb : MembershipRow) (messageId : string) (readAt : Z) (d : Db) : list MembershipRow :=
  map (λ m, if decide (mb_id m = mb_id mb) then m <| mb_lastReadMessageId := Some messageId |> <| mb_lastReadAt := Some readAt |> else m)
    (memberships d).
(** One receipt is added, unless the user has one for the message. *)
Definition receipt (id messageId userId : string) (readAt : Z) (d : Db) (reads : list MessageReadRow) : Prop :=
  (reads = messageReads d ∧ ∃ r, r ∈ messageReads d ∧ (mr_id r = id ∨ mr_messageId r = messageId ∧ mr_userId r = userId)) ∨
  reads = messageReads d ++ [mkMessageRead id messageId userId readAt].
Definition read_event (userId messageId channelId : string) (readAt : Z) : effect :=
  Emit [channelRoom channelId] [] "message:read"
    (JObj [("userId", JStr userId); ("messageId", JStr messageId); ("channelId", JStr channelId); ("readAt", JStr (toISOString readAt))]).

Lemma in_contiguous d m : contiguous d → m ∈ messages d → 1 ≤ m_sequenceNumber m.
Proof.
  intros Hd Hm. assert (m_sequenceNumber m ∈ sequences (m_channelId m) d) as Hin.
  { apply list_elem_of_In, in_map, list_elem_of_In, elem_of_select. split; [done|]. by apply bool_decide_eq_true_2. }
  rewrite Hd in Hin. apply elem_of_seqZ in Hin. lia.
Qed.
Lemma find_message_unique d m : ids_unique d → m ∈ messages d → find_message (m_id m) d = Some m.
Proof.
  intros Hu Hm. destruct (find_message (m_id m) d) as [m'|] eqn:Hf.
  - apply first_Some in Hf as [Hin Hid]. boolp. f_equal. by apply (NoDup_map_inj m_id (messages d)).
  - unfold find_message in Hf. rewrite first_None in Hf. specialize (Hf m Hm). by boolp.
Qed.

Section Reading.
Context {R : Redis} {E : Env}.

Definition precedes (current : option Z) (target : Z) : bool := match current with None => true | Some c => c <? target end.

Lemma precedes_newer d mb msg : ids_unique d →
  precedes (seq_of (mb_lastReadMessageId mb) d) (m_sequenceNumber msg) = true ↔ newer d mb msg.
Proof.
  intros Hu. unfold newer, seq_of. split.
  - intros Hp m0 Hm0 Hl. rewrite Hl in Hp. cbn in Hp. rewrite (find_message_unique d m0 Hu Hm0) in Hp. cbn in Hp. by apply Z.ltb_lt.
  - intros Hn. destruct (mb_lastReadMessageId mb) as [last|]; [|done]. cbn. destruct (find_message last d) as [m0|] eqn:Hf; [|done].
    apply first_Some in Hf as [Hin Hid]. boolp. apply Z.ltb_lt, Hn; [done|]. by rewrite Hid.
Qed.

(** The UPDATE that nothing crosses: the row it reads is the row it writes. *)
Lemma advance_alone d mb msg now : contiguous d → NoDup (map mb_id (memberships d)) → mb ∈ memberships d → msg ∈ messages d →
  precedes (seq_of (mb_lastReadMessageId mb) d) (m_sequenceNumber msg) = true →
  (0 < (advance_watermark d (mb_id mb) (m_id msg) (m_sequenceNumber msg) now d).1)%nat ∧
  (advance_watermark d (mb_id mb) (m_id msg) (m_sequenceNumber msg) now d).2 = d <| memberships := marked mb (m_id msg) now d |>.
Proof.
  intros Hct Hnd Hmb Hmsg Hp. pose proof (in_contiguous _ _ Hct Hmsg).
  assert (Hb : behind d (m_sequenceNumber msg) mb = true).
  { unfold behind. unfold precedes in Hp. destruct (mb_lastReadMessageId mb) as [last|]; [|done].
    destruct (seq_of (Some last) d); [done|]. apply Z.ltb_lt. cbn. lia. }
  unfold advance_watermark. cbv zeta. cbn [fst snd].
  assert (bool_decide (mb_id mb ∈ map mb_id (select (behind d (m_sequenceNumber msg)) (memberships d))) = true) as ->.
  { apply bool_decide_eq_true. apply (list_elem_of_fmap_2 mb_id), elem_of_select. done. }
  cbn [andb]. split.
  - destruct (select _ (memberships d)) as [|x l] eqn:Hs; [exfalso|simpl; lia].
    assert (mb ∈ select (λ m, (mb_id m === mb_id mb) && behind d (m_sequenceNumber msg) m) (memberships d)) as Hin.
    { apply elem_of_select. split; [done|]. by rewrite bool_decide_eq_true_2. }
    rewrite Hs in Hin. by apply not_elem_of_nil in Hin.
  - unfold marked, update_where. f_equal. apply (f_equal (λ l, λ _ : list MembershipRow, l)). apply List.map_ext_in.
    intros m Hm%list_elem_of_In. destruct (decide (mb_id m = mb_id mb)) as [Heq|Hne]; [|by rewrite bool_decide_eq_false_2].
    assert (m = mb) as -> by by apply (NoDup_map_inj mb_id (memberships d)). by rewrite bool_decide_eq_true_2, Hb.
Qed.

Lemma wp_record_read messageId userId readAt (w : World) :
  wp (record_read messageId userId readAt) (λ o w', match o with
    | Ok _ => ∃ id reads, receipt id messageId userId readAt (w_db w) reads ∧ w' = tick (w <| w_db := w_db w <| messageReads := reads |> |>)
    | Err _ => w' = tick w
    end) w.
Proof.
  apply wp_statement; [done|]. intros [] d H. unfold insert_or_ignore in H. exists (uuid_at (w_tick w) 0).
  destruct (existsb _ (messageReads (w_db w))) eqn:Hex.
  - repeat case_match; simplify_eq. exists (messageReads (w_db w)). split; [left; split; [done|]|by destruct w as [[]]].
    apply existsb_exists in Hex as (r & Hr%list_elem_of_In & Hc). exists r. split; [done|].
    apply orb_true_iff in Hc as [Hc|Hc]; [left; by boolp|right]. unfold messageRead_index in Hc. by boolp.
  - repeat case_match; simplify_eq. unfold insert_messageRead in *.
    match goal with H : insert_row _ _ _ _ _ = Ok _ |- _ => apply insert_row_ok in H as (-> & _) end.
    eexists. split; [by right|done].
Qed.

Lemma wp_emit_read channelId data (w : World) :
  wp (emitToChannel channelId "message:read" data no_options) (λ o w', ∃ e, o = Ok e ∧ w_db w' = w_db w ∧
    w_out w' = w_out w ++ (if w_server w then [Emit [channelRoom channelId] [] "message:read" data] else [])) w.
Proof.
  unfold emitToChannel, server_ready, send_effect. wp_steps. apply wp_act'.
  cbn [w_server tick modify_field]. destruct (w_server w) eqn:Hs; cbn [negb]; wp_steps; [apply wp_act'|];
    eexists; (split; [done|]); (split; [done|]); world; [done|by rewrite app_nil_r].
Qed.

(** What [markRead] answers and does. *)
Definition mark_result (userId channelId messageId : string) (w : World) (o : outcome thrown (bool * bool)) (w' : World) : Prop :=
  let d := w_db w in
  let mine mb := mb ∈ memberships d ∧ mb_userId mb = userId ∧ mb_channelId mb = channelId in
  let target msg := msg ∈ messages d ∧ m_id msg = messageId ∧ m_channelId msg = channelId in
  match o with
  | Ok (success, advanced) => success = true ∧ ∃ mb msg, mine mb ∧ target msg ∧ (advanced = true ↔ newer d mb msg) ∧
      if advanced
      then ∃ now id readAt reads, receipt id messageId userId readAt d reads ∧
             w_db w' = d <| memberships := marked mb messageId now d |> <| messageReads := reads |> ∧
             w_out w' = w_out w ++ (if w_server w then [read_event userId messageId channelId readAt] else [])
      else w_db w' = d ∧ w_out w' = w_out w
  | Err _ => w_db w' = d ∨
      ∃ mb msg now, mine mb ∧ target msg ∧ newer d mb msg ∧ w_db w' = d <| memberships := marked mb messageId now d |>
  end.

End Reading.

(** ** Examples *)
#[local] Existing Instance sample_env.
#[local] Existing Instance toy_jwt.
#[local] Existing Instance sample_environment.
#[local] Existing Instance toy_validator.
#[local] Existing Instance toy_livekit.
#[local] Existing Instance toy_framework.
#[local] Existing Instance toy_cloudinary.

Lemma sample_memberships_unique : NoDup (map mb_id (memberships sample_db)).
Proof. by apply (bool_decide_unpack _), I. Qed.


Example carol_reads : (run (markRead "carol" "g" "msg2") sample_world).1 = Ok (true, true).
Proof. vm_compute. reflexivity. Qed.

(** Carol marks [msg2] on one device while she sends on another, and the send commits
    between the snapshot of the UPDATE and its check of the row: her mark moves to her own
    message and falls back to the older one.  A second request to mark [msg2], alone,
    changes nothing. *)
Definition marks (w : World) : list (option string) := map mb_lastReadMessageId (select (λ m, mb_userId m === "carol") (memberships (w_db w))).
Definition two_devices : World * list (M ()) :=
  (sample_world, map handle [RMarkRead "carol" "g" "msg2"; RSend (sample_input "carol" "own") None]).
Example mark_falls_back :
  let sent := drive (repeat 0%nat 2 ++ repeat 1%nat 8) two_devices in
  let ended := drive (repeat 0%nat 20 ++ repeat 1%nat 20) sent in
  (map (λ m, (m_id m, m_sequenceNumber m)) (messages (w_db sent.1)), marks sent.1, marks ended.1) =
  ([("msg1", 1); ("msg2", 2); ("id-5-0", 3)], [Some "id-5-0"], [Some "msg2"]).
Proof. vm_compute. reflexivity. Qed.
