(* ===== verification/Delivery.v ===== *)
(** * Delivery: a message reaches a member who is not connected

    Composes Messages, ChannelMembers, RedisSession and RedisCache: what [send] leaves
    in the delivery queue, the job that its worker runs, and what the member finds when
    it asks for its pending messages and unread counters. *)
From Stdlib Require Import String.
From S2P Require Import Prelude JsString IsoDate Json Effects Errors Redis Schema World Samples Crypto RedisSession.
From S2P Require Import RedisCache Socket ChannelMembers Messages Users Chat Srp Footprint DbStep Exclusive System Invariants Sending.
From stdpp Require Import base list strings.

Local Open Scope string_scope.
Local Open Scope Z_scope.
Local Open Scope list_scope.

(** ** Keys *)
Lemma append_cancel_r a b s : (a +:+ s = b +:+ s)%string → a = b.
Proof.
  intros H. apply (f_equal String.list_ascii_of_string) in H. rewrite !chars_append in H. apply app_inv_tail in H.
  by rewrite <-(String.string_of_list_ascii_of_string a), H, String.string_of_list_ascii_of_string.
Qed.
Lemma unread_inj c u v : RedisKeys.unread u c = RedisKeys.unread v c → u = v.
Proof. unfold RedisKeys.unread. intros H%(inj (String.append _)). by apply append_cancel_r in H. Qed.

(** The keys of the members: their queues and their counters. *)
Definition member_key (k : string) : Prop := ∃ u, k = RedisKeys.pending u ∨ ∃ c, k = RedisKeys.unread u c.

(** A counter, if anything. *)
Definition counter_entry (e : option entry) : Prop :=
  match e with None => True | Some (RStr s, _) => ∃ n, string_to_z s = Some n ∧ 0 ≤ n < int64_max | Some _ => False end.
Definition count_at (now : Z) (e : option entry) : Z :=
  match live now e with Some (RStr s, _) => default 0 (string_to_z s) | _ => 0 end.

Section Delivery.
Context {R : Redis} {RL : RedisLaws R} {E : Env} {C : Crypto}.

(** What the worker of the queue does with a job. *)
Definition deliver_job (job : MessageDeliveryJob) : M () :=
  do! process (Some (j_message job)) (Some (j_recipientIds job)) (Some (j_offlineUserIds job)); Ret tt.

(** ** What leaves the keys of the members alone *)
Lemma leaves_getMembers k c : member_key k → leaves k (getMembers c).
Proof. intros [u [->|[x ->]]]; unfold getMembers, setMembers; repeat leaves_step; try done; repeat constructor; done. Qed.
Lemma leaves_cacheMessage k c m : member_key k → leaves k (cacheMessage c m).
Proof. intros [u [->|[x ->]]]; unfold cacheMessage; repeat leaves_step; repeat constructor; done. Qed.
Lemma leaves_getConnectedUserIds k c : leaves k (getConnectedUserIds c).
Proof. leaves_handler. Qed.
Lemma leaves_emitToChannel k c ev d o : leaves k (emitToChannel c ev d o).
Proof. leaves_handler. Qed.
Lemma leaves_insertWithSequence k input : leaves k (insertWithSequence input).
Proof.
  unfold insertWithSequence. generalize MAX_SEQUENCE_RETRIES as n. induction n as [|n IH]; cbn [insert_attempts]; [apply leaves_throw|].
  apply leaves_catch; [|intros e; destruct (_ && _); [apply IH|apply leaves_throw]]. apply leaves_transaction.
  unfold insert_in_transaction, nextSequence, insert_new_message, execute. repeat leaves_step.
Qed.

(** ** The unread counters *)
Definition incremented (now : Z) (e : option entry) : option entry :=
  Some (RStr (z_to_string (count_at now e + 1)), Some (now + RedisTtl.unreadSeconds * 1000)).

Lemma chain_increment now k e : counter_entry e →
  ∃ rps, chain now [Incr k; Expire k RedisTtl.unreadSeconds] e = Some (rps, incremented now e).
Proof.
  intros Hc. unfold incremented, count_at. destruct (live_cases now e) as [Hl|Hl].
  - cbn [chain cmd_spec]. rewrite Hl. destruct e as [[[s| | | |] t]|]; try done; [|by eexists].
    destruct Hc as (n & Hn & Hr). rewrite Hn. rewrite (proj2 (Z.ltb_lt n int64_max)) by lia.
    assert (Hl' : ∀ v, live now (Some (v, t)) = Some (v, t)).
    { intros v. destruct t as [t|]; [|done]. simpl in *. by destruct (now <=? t). }
    rewrite Hl'. by eexists.
  - cbn [chain cmd_spec]. rewrite Hl. by eexists.
Qed.

Lemma incrementUnreadMany_spec userIds c (w : World) :
  redis_ready → NoDup userIds → userIds ≠ [] → (∀ u, u ∈ userIds → counter_entry (rentry (w_redis w) (RedisKeys.unread u c))) →
  wp (incrementUnreadMany userIds c) (λ o w', o = Ok tt ∧
    (∀ u, u ∈ userIds → rentry (w_redis w') (RedisKeys.unread u c) = incremented (now_at (S (w_tick w))) (rentry (w_redis w) (RedisKeys.unread u c))) ∧
    (∀ u, rentry (w_redis w') (RedisKeys.pending u) = rentry (w_redis w) (RedisKeys.pending u))) w.
Proof.
  intros Hready Hnd Hne Hcs. unfold incrementUnreadMany. wp_steps. apply wp_getClient_ready; [done|].
  rewrite bool_decide_eq_false_2 by done. cbn [negb orb]. wp_steps.
  apply (wp_multi_groups (λ u, RedisKeys.unread u c) _
    (λ u, incremented (now_at (S (w_tick w))) (rentry (w_redis w) (RedisKeys.unread u c)))); [done| | |].
  - change (NoDup ((λ u, RedisKeys.unread u c) <$> userIds)). apply NoDup_fmap_2_strong; [|done]. intros x y _ _. apply unread_inj.
  - intros u Hu. split; [by repeat constructor|]. by apply chain_increment, Hcs.
  - intros r rps Hn Hf. wp_steps. split; [done|]. split; [exact Hn|]. intros u. apply Hf. rewrite list_elem_of_In, in_map_iff. by intros (v & Hv & _).
Qed.

Lemma getUnreadCount_incremented u c now e (w : World) :
  redis_ready → rentry (w_redis w) (RedisKeys.unread u c) = incremented now e → 0 ≤ count_at now e →
  now_at (S (w_tick w)) ≤ now + RedisTtl.unreadSeconds * 1000 →
  wp (getUnreadCount u c) (λ o _, o = Ok (count_at now e + 1)) w.
Proof.
  intros Hready He Hc Hn. unfold getUnreadCount. apply wp_with_redis_ready; [done|]. wp_steps. unfold incremented in He.
  eapply (wp_cmd_ready _ (RpStr (Some (z_to_string (count_at now e + 1)))) _); [done| |].
  { cbn [cmd_key w_tick w_redis tick modify_field]. rewrite He, live_some by done. reflexivity. }
  intros r _. wp_steps. f_equal. unfold count_of. rewrite parseInt_z_to_string by lia. case_bool_decide as Hz; [|done].
  exfalso. pose proof (string_to_z_to_string (count_at now e + 1)) as Hs. by rewrite Hz in Hs.
Qed.

(** ** The job *)
Context (Hready : redis_ready) (Hclock : ∀ a b, now_at a ≤ now_at b + RedisTtl.pendingSeconds * 1000).

(** What a member finds who had [e] as unread counter of the channel: the message, and
    nothing else, and one more message to read. *)
Definition finds (userId : string) (payload : PendingMessage) (e : option entry) (w : World) : Prop :=
  wp (deliverPendingMessages userId) (λ o _, o = Ok ([pending_json payload], 0)) w ∧
  wp (getUnreadCount userId (pm_channelId payload)) (λ o _, ∃ a, o = Ok (count_at (now_at a) e + 1)) w.

(** What the keys of the members hold before a job runs. *)
Definition keys_ready (channelId : string) (members : list string) (userId : string) (w : World) : Prop :=
  (∀ v, v ∈ members → zset_entry w (RedisKeys.pending v) ∧ counter_entry (rentry (w_redis w) (RedisKeys.unread v channelId))) ∧
  rentry (w_redis w) (RedisKeys.pending userId) = None.

Lemma count_at_nonneg now e : counter_entry e → 0 ≤ count_at now e.
Proof.
  unfold count_at. destruct (live_cases now e) as [-> | ->]; [|done]. destruct e as [[[s| | | |] t]|]; try done.
  intros (n & -> & Hn). simpl. lia.
Qed.

Lemma wp_finds userId payload t n n' e (w : World) :
  rentry (w_redis w) (RedisKeys.pending userId) =
    Some (RZset [(t, stringify (pending_json payload))], Some (now_at n + RedisTtl.pendingSeconds * 1000)) →
  rentry (w_redis w) (RedisKeys.unread userId (pm_channelId payload)) = incremented (now_at n') e →
  counter_entry e → finds userId payload e w.
Proof.
  intros Hp Hu He. split.
  - assert (Hq : ∀ a, queue (now_at a) w userId = [(t, stringify (pending_json payload))]).
    { intros a. unfold queue. by rewrite Hp, live_some. }
    unfold deliverPendingMessages. change PENDING_BATCH_SIZE with (Z.of_nat (S 99)).
    eapply wp_mono; [apply popPending_spec; [done| |by rewrite !Hq]|].
    + unfold zset_entry. rewrite Hp. split; [|done]. split; [apply NoDup_singleton|by repeat constructor].
    + intros o w' (-> & _). rewrite Hq.
      change (@Ok thrown _ (omap parse (map stringify [pending_json payload]), 0) = Ok ([pending_json payload], 0)). by rewrite omap_parse_stringify.
  - eapply wp_mono; [eapply getUnreadCount_incremented; [done|exact Hu|by apply count_at_nonneg|]|].
    + specialize (Hclock (S (w_tick w)) n'). unfold RedisTtl.pendingSeconds, RedisTtl.unreadSeconds in *. lia.
    + intros o w' ->. by exists n'.
Qed.

Lemma wp_runMessageDelivery job t userId (w : World) :
  NoDup (j_recipientIds job) → (∀ v, v ∈ j_offlineUserIds job → v ∈ j_recipientIds job) → NoDup (j_offlineUserIds job) →
  userId ∈ j_offlineUserIds job → keys_ready (pm_channelId (j_message job)) (j_recipientIds job) userId w →
  pm_createdAt (j_message job) = toISOString t → iso_range t = true → t ≠ 0 →
  wp (runMessageDelivery job) (λ o w', (∃ r, o = Ok r) ∧
    finds userId (j_message job) (rentry (w_redis w) (RedisKeys.unread userId (pm_channelId (j_message job)))) w') w.
Proof.
  intros Hnd Hsub Hndo Hu [Hkeys Hp] Ht Hr Ht0. unfold runMessageDelivery. wp_steps.
  assert (Hne : ∀ l : list string, userId ∈ l → l ≠ []) by (intros l Hl ->; by apply not_elem_of_nil in Hl).
  eapply wp_mono.
  { apply addPendingMessage_spec with (t := t); try done; [by apply Hne|]. intros v Hv. by apply Hkeys, Hsub. }
  intros o w1 (-> & He & Hother & _). wp_steps.
  assert (Hun : ∀ v, rentry (w_redis w1) (RedisKeys.unread v (pm_channelId (j_message job)))
                     = rentry (w_redis w) (RedisKeys.unread v (pm_channelId (j_message job)))).
  { intros v. apply Hother. rewrite list_elem_of_In, in_map_iff. by intros (x & Hx & _). }
  eapply wp_mono.
  { apply incrementUnreadMany_spec; [done|done|by apply Hne, Hsub|]. intros v Hv. rewrite Hun. by apply Hkeys. }
  intros o w2 (-> & Hinc & Hpend). wp_steps. split; [by eexists|].
  eapply (wp_finds _ _ t); [|rewrite Hinc, Hun by auto; reflexivity|by apply Hkeys, Hsub].
  rewrite Hpend, (He userId Hu). unfold enqueued, queue. by rewrite Hp.
Qed.

(** ** From the sender to the member *)
Definition same_keys (w w' : World) : Prop := ∀ k, member_key k → same_entry k w w'.

Lemma wp_same_keys {A} (p : M A) (w : World) : (∀ k, member_key k → leaves k p) → wp p (λ _ w', same_keys w w') w.
Proof. intros H. apply wp_forall. intros k. apply wp_forall. intros Hk. by apply H. Qed.
Lemma same_keys_trans w1 w2 w3 : same_keys w1 w2 → same_keys w2 w3 → same_keys w1 w3.
Proof. intros H1 H2 k Hk. unfold same_entry in *. by rewrite (H2 k Hk), (H1 k Hk). Qed.
Lemma pending_key u : member_key (RedisKeys.pending u).
Proof. exists u. by left. Qed.
Lemma unread_key u c : member_key (RedisKeys.unread u c).
Proof. exists u. right. by exists c. Qed.

Lemma keys_ready_same c ms u w w' : same_keys w w' → keys_ready c ms u w → keys_ready c ms u w'.
Proof.
  intros Hs [H Hp]. split.
  - intros v Hv. unfold zset_entry. rewrite (Hs _ (pending_key v)), (Hs _ (unread_key v c)). by apply H.
  - by rewrite (Hs _ (pending_key u)).
Qed.

(** [userId] gets [payload] from [w] on: at once, or from the job that is queued. *)
Definition reaches (userId : string) (payload : PendingMessage) (e : option entry) (w : World) : Prop :=
  finds userId payload e w ∨
  ∃ job, QueueAdd "deliver" (job_json job) ∈ w_out w ∧ userId ∈ j_offlineUserIds job ∧
    wp (deliver_job job) (λ o w', o = Ok tt ∧ finds userId payload e w') w.

Context (Hdb : ∀ n, db_fault n = None).

(** The job of a message: the other members, and those of them who are offline. *)
Definition other_members (senderId : string) (members : list string) : list string := List.filter (λ id, id !== senderId) members.
Definition absent (connected members : list string) : list string := List.filter (λ id, negb (bool_decide (id ∈ connected))) members.
Lemma elem_of_other_members senderId members v : v ∈ other_members senderId members ↔ v ∈ members ∧ v ≠ senderId.
Proof. unfold other_members. by rewrite list_elem_of_In, List.filter_In, <-list_elem_of_In, negb_true_iff, bool_decide_eq_false. Qed.
Lemma elem_of_absent connected members v : v ∈ absent connected members ↔ v ∈ members ∧ v ∉ connected.
Proof. unfold absent. by rewrite list_elem_of_In, List.filter_In, <-list_elem_of_In, negb_true_iff, bool_decide_eq_false. Qed.
Lemma NoDup_list_filter (f : string → bool) l : NoDup l → NoDup (List.filter f l).
Proof. intros H. apply NoDup_ListNoDup, List.NoDup_filter. by apply NoDup_ListNoDup. Qed.

(** The job of a message brings it to each of the absent members. *)
Lemma wp_run_job payload members connected userId t e (w : World) :
  let recipients := other_members (pm_senderId payload) members in
  let job := mkMessageDeliveryJob payload recipients (absent connected recipients) in
  NoDup members → userId ∈ absent connected recipients → keys_ready (pm_channelId payload) members userId w →
  rentry (w_redis w) (RedisKeys.unread userId (pm_channelId payload)) = e →
  pm_createdAt payload = toISOString t → iso_range t = true → t ≠ 0 →
  wp (runMessageDelivery job) (λ o w', (∃ r, o = Ok r) ∧ finds userId payload e w') w.
Proof.
  intros recipients job Hnd Hu [Hkeys Hp] <- Ht Hr Ht0. apply (wp_runMessageDelivery job t); try done.
  - by apply NoDup_list_filter.
  - intros v Hv. by apply elem_of_absent in Hv as [].
  - by apply NoDup_list_filter, NoDup_list_filter.
  - split; [|done]. intros v Hv. by apply Hkeys, (elem_of_other_members (pm_senderId payload)).
Qed.

Lemma wp_dispatch payload exceptSocket connected userId t (w : World) :
  let channelId := pm_channelId payload in let members := member_ids channelId (w_db w) in
  w_server w = true → rentry (w_redis w) (RedisKeys.channelMembers channelId) = None → room_holds (channelRoom channelId) connected →
  NoDup members → userId ∈ members → userId ≠ pm_senderId payload → userId ∉ connected → keys_ready channelId members userId w →
  pm_createdAt payload = toISOString t → iso_range t = true → t ≠ 0 →
  wp (dispatchNewMessage payload exceptSocket) (λ o w', o = Ok tt ∧
    reaches userId payload (rentry (w_redis w) (RedisKeys.unread userId channelId)) w') w.
Proof.
  intros channelId members Hserver Hcold Hroom Hnd Hu Hsender Hoff Hkeys Ht Hr Ht0. unfold dispatchNewMessage. wp_steps.
  eapply wp_mono. { apply wp_and; [by apply wp_getMembers_cold|apply wp_same_keys; intros; by apply leaves_getMembers]. }
  intros o w1 [[-> (Hd1 & Ho1 & Hs1 & _)] Hk1]. wp_steps.
  eapply wp_mono. { apply wp_and; [apply (wp_getConnected _ connected); [congruence|done]|apply wp_same_keys; intros; by apply leaves_getConnectedUserIds]. }
  intros o w2 [[-> (Hd2 & Ho2 & Hs2 & _)] Hk2]. wp_steps.
  eapply wp_mono. { apply wp_and; [apply wp_emitToChannel; congruence|apply wp_same_keys; intros; by apply leaves_emitToChannel]. }
  intros o w3 [(-> & Hd3 & _ & Hs3 & Ho3) Hk3]. wp_steps.
  eapply wp_mono. { apply wp_and; [apply nothrow_cacheMessage|apply wp_same_keys; intros; by apply leaves_cacheMessage]. }
  intros o w4 [[[] ->] Hk4]. wp_steps.
  assert (Hk : same_keys w w4) by eauto using same_keys_trans. apply (keys_ready_same _ _ _ _ _ Hk) in Hkeys.
  change (List.filter (λ id, id !== pm_senderId payload) _) with (other_members (pm_senderId payload) members).
  change (List.filter _ (other_members _ _)) with (absent connected (other_members (pm_senderId payload) members)).
  assert (Hin : userId ∈ absent connected (other_members (pm_senderId payload) members)) by (by rewrite elem_of_absent, elem_of_other_members).
  rewrite bool_decide_eq_false_2 by (intros Hnil; rewrite Hnil in Hin; by apply not_elem_of_nil in Hin).
  set (job := mkMessageDeliveryJob _ _ _).
  assert (Hrun : ∀ w', same_keys w4 w' → wp (runMessageDelivery job) (λ o w2', (∃ r, o = Ok r) ∧
    finds userId payload (rentry (w_redis w) (RedisKeys.unread userId channelId)) w2') w').
  { intros w' Hk'. apply wp_run_job with (t := t); try done; [by eapply keys_ready_same|].
    by rewrite (Hk' _ (unread_key _ _)), (Hk _ (unread_key _ _)). }
  wp_steps. apply wp_act'. destruct (queue_fault _) as [e|]; wp_steps.
  - eapply wp_mono; [by apply Hrun|]. intros o w5 [[r ->] Hf]. wp_steps. split; [done|by left].
  - split; [done|]. right. exists job. split; [apply elem_of_app; right; by apply list_elem_of_singleton|]. split; [done|].
    unfold deliver_job, process. wp_steps. destruct job as [jm jr jo] eqn:Hj. rewrite <-Hj in *.
    eapply wp_mono; [by apply Hrun|]. intros o w5 [[r ->] Hf]. by wp_steps.
Qed.

Lemma stored_members channelId input row d d' : stored input row d d' → member_ids channelId d' = member_ids channelId d.
Proof.
  intros (n & now & now' & _ & _ & ->). rewrite <-stored_writes. unfold member_ids, mark_own_read. cbn [memberships modify_field touch_channel].
  rewrite select_update by done. by apply map_update.
Qed.

Lemma wp_inserted input user channel (w : World) :
  may_send input user channel (w_db w) → fresh_ids (w_db w) →
  int4 (max_sequence (channel_messages (si_channelId input) (w_db w)) + 1) = true → int4 (si_senderKeyEpoch input) = true →
  wp (insertWithSequence input) (λ o w', ∃ row, o = Ok row ∧ stored input row (w_db w) (w_db w') ∧
    w_server w' = w_server w ∧ ∀ k, same_entry k w w') w.
Proof.
  intros Hmay Hfresh Hseq Hepoch.
  assert (Hok : wp (insertWithSequence input) (λ o w', (∃ row, o = Ok row) ∧ w_server w' = w_server w) w).
  { unfold insertWithSequence, MAX_SEQUENCE_RETRIES, insert_attempts at 1. apply wp_catch. eapply wp_mono.
    { by apply (wp_insert_succeeds input user channel). }
    by intros o' w2 [[row ->] Hs]; eauto. }
  assert (Hk : wp (insertWithSequence input) (λ _ w', ∀ k, same_entry k w w') w) by (apply wp_forall; intros k; apply leaves_insertWithSequence).
  eapply wp_mono; [exact (wp_and _ _ _ _ (wp_and _ _ _ _ Hok Hk) (wp_insertWithSequence input w))|].
  intros o w' [[[[row ->] Hs] Hk'] Hst]. by exists row.
Qed.

(** C6: end to end: a member who has no socket in the channel's room finds the message
    that was sent, and only it, among its pending messages, exactly as [message:new]
    carries it, and its unread counter has grown by one, at once or after the job that
    is queued, whether the queue accepts it or not. *)
Theorem offline_member_gets_message input exceptSocket user channel connected userId (w : World)
  (Hmay : may_send input user channel (w_db w)) (Hfresh : fresh_ids (w_db w))
  (Hseq : int4 (max_sequence (channel_messages (si_channelId input) (w_db w)) + 1) = true)
  (Hepoch : int4 (si_senderKeyEpoch input) = true)
  (Hserver : w_server w = true) (Hcold : rentry (w_redis w) (RedisKeys.channelMembers (si_channelId input)) = None)
  (Hroom : room_holds (channelRoom (si_channelId input)) connected)
  (Hmembers : NoDup (member_ids (si_channelId input) (w_db w)))
  (Hmember : userId ∈ member_ids (si_channelId input) (w_db w)) (Hother : userId ≠ si_userId input) (Hoffline : userId ∉ connected)
  (Hkeys : keys_ready (si_channelId input) (member_ids (si_channelId input) (w_db w)) userId w)
  (Hdates : ∀ n, iso_range (now_at n) = true ∧ now_at n ≠ 0) :
  wp (send input exceptSocket) (λ o w', ∃ payload, o = Ok payload ∧
    pm_channelId payload = si_channelId input ∧ pm_senderId payload = si_userId input ∧
    pm_encryptedContent payload = si_encryptedContent input ∧
    reaches userId payload (rentry (w_redis w) (RedisKeys.unread userId (si_channelId input))) w') w.
Proof.
  unfold send. destruct Hmay as (Hlim & Hrow & Harch & Hsig) eqn:Hm. clear Hm. rewrite Hlim. wp_steps.
  apply wp_act'. rewrite Hdb. rewrite Hrow, Harch. wp_steps.
  eapply wp_mono; [apply wp_check_signature|]. intros o w1 [-> Ho]. rewrite (proj2 Ho Hsig). wp_steps.
  eapply wp_mono; [by apply (wp_inserted input user channel)|]. intros o' w2 (row & -> & Hst & Hs & Hk). wp_steps.
  destruct Hst as (n & now & now' & Hnew & Hins & Hd). assert (Hchannel : m_channelId row = si_channelId input) by by rewrite Hnew.
  assert (Hmem : member_ids (si_channelId input) (w_db w2) = member_ids (si_channelId input) (w_db w)) by (eapply stored_members; by do 3 eexists).
  set (payload := toMessagePayload row (Some (u_username user))).
  eapply wp_mono.
  { apply (wp_dispatch payload exceptSocket connected userId (now_at n)); unfold payload; cbn [pm_channelId pm_senderId pm_createdAt toMessagePayload];
      rewrite ?Hchannel, ?Hmem; try done; try apply Hdates.
    - by rewrite Hs.
    - by rewrite Hk.
    - by rewrite Hnew.
    - apply (keys_ready_same _ _ _ w); [|done]. intros k _. apply Hk.
    - by rewrite Hnew. }
  intros o'' w3 [-> Hreach]. wp_steps. exists payload. split; [done|]. unfold payload in *. cbn [pm_channelId pm_senderId toMessagePayload] in *.
  rewrite Hchannel in *. rewrite Hk in Hreach. split; [done|]. split; [by rewrite Hnew|]. split; [by rewrite Hnew|exact Hreach].
Qed.
End Delivery.

(** ** The properties on a concrete state *)
Section Witnesses.
#[local] Existing Instance frozen_env.

Lemma frozen_fresh_ids : fresh_ids sample_db.
Proof. intros n m Hm. cbn in Hm. rewrite !elem_of_cons, elem_of_nil in Hm. by destruct Hm as [->|[->|[]]]. Qed.

Lemma offline_member_gets_message_witness :
  wp (send (sample_input "alice" "hi") (Some "sock1")) (λ o w', ∃ payload, o = Ok payload ∧
    pm_channelId payload = "g" ∧ pm_senderId payload = "alice" ∧ pm_encryptedContent payload = "hi" ∧
    reaches "bob" payload None w') sample_world.
Proof.
  apply (offline_member_gets_message (E := frozen_env) (λ _, eq_refl) (λ a b, ltac:(done)) (λ _, eq_refl)
    (sample_input "alice" "hi") (Some "sock1") (sample_user "alice" "alice") (sample_channel "g" "GROUP") [] "bob" sample_world);
    try done; try reflexivity.
  - exact frozen_fresh_ids.
  - intros n. by exists [].
  - by apply (bool_decide_unpack _), I.
  - by apply (bool_decide_unpack _), I.
  - by apply not_elem_of_nil.
Defined.

(** Evaluated: the job that [send] queues, and what Bob gets once it has run. *)
Example bob_finds_it :
  let sent := run (send (sample_input "alice" "hi") None) sample_world in
  match sent.1 with
  | Ok payload =>
      let job := mkMessageDeliveryJob payload ["bob"; "carol"] ["bob"; "carol"] in
      let w := (run (deliver_job job) sent.2).2 in
      (last (w_out sent.2), (run (deliverPendingMessages "bob") w).1, (run (getUnreadCount "bob" "g") w).1)
      = (Some (QueueAdd "deliver" (job_json job)), Ok ([pending_json payload], 0), Ok 1)
  | Err _ => False
  end.
Proof. vm_compute. reflexivity. Qed.
End Witnesses.
