(* ===== verification/Sessions.v ===== *)
(** * Sessions: refresh tokens

    Properties of the tokens of Auth.v: a refresh token is redeemed once, for an active
    user and before it expires; after a logout none is left.  Two redemptions of one
    token that interleave, and a logout that crosses a redemption, are run in full. *)
From Stdlib Require Import String.
From S2P Require Import Prelude JsString Json Effects Errors Redis Schema World Samples Crypto Config RateLimit RedisSession.
From S2P Require Import RedisCache ChannelMembers Messages Users Srp Auth LiveKit Validation Http Uploads Footprint System.
From stdpp Require Import base list strings.

Local Open Scope string_scope.
Local Open Scope Z_scope.
Local Open Scope list_scope.

Section Sessions.
Context {R : Redis} {E : Env} {C : Crypto} {J : Jwt} {P : Environment}.

Definition live_token (hash : string) (d : Db) : Prop := ∃ r, r ∈ refreshTokens d ∧ rt_tokenHash r = hash.

(** The row of a token that can be redeemed at [now]. *)
Definition redeemable (hash : string) (now : Z) (r : RefreshTokenRow) (d : Db) : Prop :=
  r ∈ refreshTokens d ∧ rt_tokenHash r = hash ∧ now ≤ rt_expiresAt r ∧
  ∃ u, find_user (rt_userId r) d = Some u ∧ u_isActive u = true.

(** The tokens issued to a user: the expired ones are dropped, one row is added, nothing
    else moves. *)
Definition issued (tokens : Tokens) (userId : string) (d d' : Db) : Prop :=
  ∃ row now, rt_tokenHash row = hashRefreshToken (refreshToken tokens) ∧ rt_userId row = userId ∧
    rt_expiresAt row = now + REFRESH_TOKEN_TTL_MS ∧
    d' = d <| refreshTokens := refreshTokens (drop_expired userId now d) ++ [row] |>.

(** No row is added. *)
Definition fewer_tokens (d d' : Db) : Prop :=
  ∃ t, d' = d <| refreshTokens := t |> ∧ ∀ r, r ∈ t → r ∈ refreshTokens d.

Lemma fewer_refl d : fewer_tokens d d.
Proof. exists (refreshTokens d). by destruct d. Qed.
Lemma fewer_trans d1 d2 d3 : fewer_tokens d1 d2 → fewer_tokens d2 d3 → fewer_tokens d1 d3.
Proof. intros (t & -> & Ht) (t' & -> & Ht'). exists t'. split; [done|]. intros r Hr. by apply Ht, Ht'. Qed.
Lemma fewer_delete p d : fewer_tokens d (d <| refreshTokens := delete_where p (refreshTokens d) |>).
Proof. eexists. split; [done|]. intros r. rewrite elem_of_delete_where. by intros []. Qed.

Lemma wp_issueTokens userId (w : World) :
  wp (issueTokens userId) (λ o w',
    match o with Ok tokens => issued tokens userId (w_db w) (w_db w') | Err _ => fewer_tokens (w_db w) (w_db w') end) w.
Proof.
  unfold issueTokens, randomHex, randomBytes, insert_token, execute. wp_steps. apply wp_act'. wp_steps. apply wp_act'. wp_steps.
  apply wp_statement; [intros; apply fewer_refl|]. intros x d1 [= <- <-]. wp_steps. apply wp_statement; [intros; apply fewer_delete|].
  intros y d2 H2. case_match eqn:Hi; simplify_eq. wp_steps. pose proof (insert_row_ok _ _ _ _ _ _ Hi) as (Ht & _).
  match type of Hi with insert_refreshToken _ ?row = _ => exists row, (now_at (S (S (w_tick w)))) end.
  split; [done|]. split; [done|]. split; [done|]. by rewrite Ht.
Qed.

Lemma wp_audit_tokens action userId details ip (w : World) :
  wp (audit action userId details ip) (λ o w', o = Ok tt ∧ refreshTokens (w_db w') = refreshTokens (w_db w)) w.
Proof.
  unfold audit. wp_steps. apply wp_statement; [intros e; by wp_steps|]. intros x d H. case_match; simplify_eq. by split.
Qed.

(** What an attempt to redeem [token] may do. *)
Definition redeemed (token : string) (w : World) (o : outcome thrown Tokens) (w' : World) : Prop :=
  match o with
  | Ok tokens => ∃ r now, redeemable (hashRefreshToken token) now r (w_db w) ∧
                   issued tokens (rt_userId r) (take_token (hashRefreshToken token) (w_db w)).2 (w_db w')
  | Err _ => fewer_tokens (w_db w) (w_db w')
  end ∧
  (live_token (hashRefreshToken token) (w_db w') →
    w_db w' = w_db w ∧ (∃ e, o = Err e) ∨ ∃ tokens, o = Ok tokens ∧ hashRefreshToken (refreshToken tokens) = hashRefreshToken token).

Lemma taken_dead h d d' : fewer_tokens (take_token h d).2 d' → ¬ live_token h d'.
Proof.
  intros (t & -> & Ht) (r & Hr & Hh). apply Ht, elem_of_delete_where in Hr as [_ Hr]. by rewrite bool_decide_eq_true_2 in Hr.
Qed.

(** Once the token is taken: failing leaves it spent, *)
Lemma redeemed_err token e (w w' : World) :
  fewer_tokens (take_token (hashRefreshToken token) (w_db w)).2 (w_db w') → redeemed token w (Err e) w'.
Proof.
  intros H. split; [eapply fewer_trans; [apply fewer_delete|exact H]|]. intros Hl. by destruct (taken_dead _ _ _ H).
Qed.
(** and succeeding issues the new one. *)
Lemma redeemed_ok token tokens r now (w w' : World) :
  redeemable (hashRefreshToken token) now r (w_db w) →
  issued tokens (rt_userId r) (take_token (hashRefreshToken token) (w_db w)).2 (w_db w') → redeemed token w (Ok tokens) w'.
Proof.
  intros Hr Hiss. split; [by exists r, now|]. intros (x & Hx & Hh). right. exists tokens. split; [done|].
  destruct Hiss as (row & n & Hrow & _ & _ & Hd'). rewrite Hd' in Hx. cbn [refreshTokens modify_field] in Hx.
  apply elem_of_app in Hx as [Hx|Hx%list_elem_of_singleton]; [|congruence].
  destruct (taken_dead (hashRefreshToken token) (w_db w) (drop_expired (rt_userId r) n (take_token (hashRefreshToken token) (w_db w)).2));
    [apply fewer_delete|by exists x].
Qed.

Lemma wp_redeem token (w : World) : wp (refreshTokens_handler token) (redeemed token w) w.
Proof.
  unfold refreshTokens_handler, execute. wp_steps.
  apply wp_statement; [intros e; split; [apply fewer_refl|]; left; by eauto|]. intros record d1 [= Hrec Hd1]. cbn beta match.
  assert (Hd : (take_token (hashRefreshToken token) (w_db w)).2 = d1) by exact Hd1.
  assert (Herr : ∀ e w', fewer_tokens d1 (w_db w') → redeemed token w (Err e) w') by (intros; apply redeemed_err; by rewrite Hd).
  destruct record as [r|]; [|wp_steps; apply Herr, fewer_refl]. wp_steps.
  case_match eqn:Hexp; [wp_steps; apply Herr, fewer_refl|]. apply Z.ltb_ge in Hexp.
  wp_steps. apply wp_query; [intros e; apply Herr, fewer_refl|]. world.
  destruct (match find_user (rt_userId r) d1 with Some u => u_isActive u | None => false end) eqn:Hact.
  - eapply wp_mono; [apply wp_issueTokens|]. intros [tokens|e] w' Hiss; world; [|by apply Herr].
    apply first_Some in Hrec as [Hin Hhash]. boolp. eapply redeemed_ok; [|by rewrite Hd].
    split; [done|]. split; [done|]. split; [exact Hexp|]. rewrite <-Hd in Hact.
    change (find_user (rt_userId r) _) with (find_user (rt_userId r) (w_db w)) in Hact.
    destruct (find_user _ _) as [u|]; [by exists u|done].
  - wp_steps. apply wp_statement; [intros e; apply Herr, fewer_refl|]. intros x d2 [= <- <-]. wp_steps. apply Herr, fewer_delete.
Qed.

Lemma wp_spent token (w : World) : ¬ live_token (hashRefreshToken token) (w_db w) →
  wp (refreshTokens_handler token) (λ o w', (∃ e, o = Err e) ∧ w_db w' = w_db w) w.
Proof.
  intros Hnone. unfold refreshTokens_handler, execute. wp_steps. apply wp_statement; [by eauto|]. intros record d1 [= Hrec Hd1].
  destruct record as [r|]; [apply first_Some in Hrec as [Hin Hhash]; boolp; destruct Hnone; by exists r|]. wp_steps. split; [by eexists|].
  rewrite <-Hd1. unfold delete_where. rewrite filter_all; [by destruct (w_db w)|].
  intros x Hx. apply negb_true_iff, bool_decide_eq_false. intros Hh. apply Hnone. by exists x.
Qed.

Lemma wp_logout userId (w : World) :
  wp (logout userId) (λ o w', o = Ok tt → ∀ r, r ∈ refreshTokens (w_db w') ↔ r ∈ refreshTokens (w_db w) ∧ rt_userId r ≠ userId) w.
Proof.
  unfold logout, execute. wp_steps.
  eapply wp_mono; [apply wp_audit_tokens|]. intros o w1 [-> Ht]. wp_steps.
  apply wp_statement; [done|]. intros x d1 [= <- <-]. wp_steps. apply wp_statement; [done|]. intros y d2 [= <- <-]. wp_steps.
  eapply wp_mono; [apply quiet_wp, quiet_setOffline|]. intros o w2 Hq _ r. rewrite Hq. cbn [w_db tick modify_field].
  unfold drop_tokens, set_status. cbn [refreshTokens modify_field w_db tick]. by rewrite elem_of_delete_where, bool_decide_eq_false, Ht.
Qed.

End Sessions.

(** ** Redemptions and logouts that interleave *)
#[local] Existing Instance sample_env.
#[local] Existing Instance toy_jwt.
#[local] Existing Instance toy_crypto.
#[local] Existing Instance toy_validator.
#[local] Existing Instance toy_livekit.
#[local] Existing Instance toy_framework.
#[local] Existing Instance toy_cloudinary.
#[local] Existing Instance sample_environment.

(** Alice holds the token [T]. *)
Definition session_world : World (R := mem_redis) :=
  sample_world <| w_db := sample_db <| refreshTokens :=
    [mkRefreshToken "r1" (hashRefreshToken "T") 1800000000000 0 "alice"] |> |>.

(** Two requests redeem it: whatever their order, when both are done one new token has
    been issued and the old one is spent. *)
Definition redeemed_once (w : World (R := mem_redis)) : bool :=
  bool_decide (length (refreshTokens (w_db w)) = 1%nat) && forallb (λ r, rt_tokenHash r !== hashRefreshToken "T") (refreshTokens (w_db w)).
Lemma one_redemption_wins c : server_run session_world [RRefresh "T"; RRefresh "T"] c → finished c → redeemed_once c.1 = true.
Proof. intros [_ Hrun]. revert Hrun. apply (explore_sound 20). vm_compute. reflexivity. Qed.

(** A logout between the two statements of a redemption finds no token to delete: the
    one that is then issued stays, and can be redeemed. *)
Definition crossed_logout : World * list (M ()) :=
  drive (repeat 0%nat 4 ++ repeat 1%nat 8 ++ repeat 0%nat 4) (session_world, map handle [RRefresh "T"; RLogout "alice"]).
Example logout_misses_token :
  let d := w_db crossed_logout.1 in
  (map rt_userId (refreshTokens d), map u_status (List.filter (λ u, u_id u === "alice") (users d)), map running crossed_logout.2)
  = (["alice"], ["OFFLINE"], [false; false]).
Proof. vm_compute. reflexivity. Qed.
