(* ===== verification/History.v ===== *)
(** * History: the pages [getMessages] returns

    Properties of Messages.v: the pages read from the tables, the pages read from the
    cache, and the client that scrolls back through a channel.  The specification of
    a page is a slice of the channel's history. *)
From Stdlib Require Import String.
From S2P Require Import Prelude JsString Json IsoDate Effects Errors Redis Schema World Samples Crypto RedisSession.
From S2P Require Import RedisCache Socket ChannelMembers Messages Users Srp Footprint DbStep Exclusive System Invariants.
From stdpp Require Import base list strings.

Local Open Scope string_scope.
Local Open Scope Z_scope.
Local Open Scope list_scope.

(** ** Slices of a numbered list *)
Section Numbered.
Context {A : Type} (f : A → Z).
Implicit Types l : list A.

Definition numbered (a : Z) l : Prop := map f l = seqZ a (Z.of_nat (length l)).

Lemma numbered_cons a x l : numbered a (x :: l) ↔ f x = a ∧ numbered (a + 1) l.
Proof.
  unfold numbered. cbn [map length]. rewrite Nat2Z.inj_succ, seqZ_cons, Z.pred_succ, Z.add_1_r by lia.
  split; [by intros [= -> ->]|by intros [-> ->]].
Qed.

Lemma numbered_ge a l x : numbered a l → x ∈ l → a ≤ f x.
Proof.
  revert a. induction l as [|y l IH]; intros a; [by intros _ ?%not_elem_of_nil|].
  rewrite numbered_cons, elem_of_cons. intros [Hy Hl] [->|Hx]; [lia|]. specialize (IH _ Hl Hx). lia.
Qed.

Lemma filter_below a c l : numbered a l → List.filter (λ x, f x <? c) l = take (Z.to_nat (c - a)) l.
Proof.
  revert a. induction l as [|x l IH]; intros a Hl; [by destruct (Z.to_nat _)|]. apply numbered_cons in Hl as [Hx Hl].
  simpl. rewrite Hx, (IH _ Hl). destruct (Z.ltb_spec a c).
  - replace (Z.to_nat (c - a)) with (S (Z.to_nat (c - (a + 1)))) by lia. done.
  - by replace (Z.to_nat (c - a)) with 0%nat by lia; replace (Z.to_nat (c - (a + 1))) with 0%nat by lia.
Qed.

Lemma filter_above a c l : numbered a l → List.filter (λ x, c <? f x) l = drop (Z.to_nat (c - a + 1)) l.
Proof.
  revert a. induction l as [|x l IH]; intros a Hl; [by destruct (Z.to_nat _)|]. apply numbered_cons in Hl as [Hx Hl].
  simpl. rewrite Hx, (IH _ Hl). destruct (Z.ltb_spec c a).
  - by replace (Z.to_nat (c - a + 1)) with 0%nat by lia; replace (Z.to_nat (c - (a + 1) + 1)) with 0%nat by lia.
  - by replace (Z.to_nat (c - a + 1)) with (S (Z.to_nat (c - (a + 1) + 1))) by lia.
Qed.

Lemma numbered_drop a n l : numbered a l → numbered (a + Z.of_nat n) (drop n l).
Proof.
  revert a n. induction l as [|x l IH]; intros a [|n] Hl; try (by rewrite Z.add_0_r); [done|].
  apply numbered_cons in Hl as [_ Hl]. simpl. replace (a + Z.of_nat (S n)) with (a + 1 + Z.of_nat n) by lia. by apply IH.
Qed.

Lemma numbered_take a n l : numbered a l → numbered a (take n l).
Proof.
  revert a n. induction l as [|x l IH]; intros a [|n] Hl; try done.
  apply numbered_cons in Hl as [Hx Hl]. simpl. apply numbered_cons. split; [done|by apply IH].
Qed.

Lemma sort_ascending a l : numbered a l → sort_by (λ x y, f x <=? f y) l = l.
Proof.
  revert a. induction l as [|x l IH]; intros a Hl; [done|]. apply numbered_cons in Hl as [Hx Hl]. simpl. rewrite (IH _ Hl).
  destruct l as [|y l]; [done|]. apply numbered_cons in Hl as [Hy _]. simpl. by rewrite (proj2 (Z.leb_le _ _)) by lia.
Qed.

Lemma sort_descending a l : numbered a l → sort_by (λ x y, f y <=? f x) l = rev l.
Proof.
  revert a. induction l as [|x l IH]; intros a Hl; [done|]. apply numbered_cons in Hl as [Hx Hl]. simpl. rewrite (IH _ Hl).
  apply insert_by_snoc, Forall_forall. intros y Hy. apply Z.leb_gt. rewrite list_elem_of_In, <-in_rev, <-list_elem_of_In in Hy.
  pose proof (numbered_ge _ _ _ Hl Hy). lia.
Qed.

Lemma numbered_lookup a l i x : numbered a l → l !! i = Some x → f x = a + Z.of_nat i.
Proof.
  revert a i. induction l as [|y l IH]; intros a [|i] Hl Hx; simplify_eq/=; apply numbered_cons in Hl as [Hy Hl]; [lia|].
  rewrite (IH _ _ Hl Hx). lia.
Qed.

Lemma numbered_last a l x : numbered a l → last l = Some x → f x = a + Z.of_nat (length l) - 1.
Proof.
  revert a. induction l as [|y l IH]; intros a Hl; [done|]. apply numbered_cons in Hl as [Hy Hl].
  destruct l as [|z l]; [intros [= <-]; simpl; lia|]. intros Hx. specialize (IH _ Hl Hx). simpl in *. lia.
Qed.
End Numbered.

Lemma contiguous_numbered d c : contiguous d → numbered m_sequenceNumber 1 (channel_messages c d).
Proof. intros H. apply (H c). Qed.

(** The last [n] elements. *)
Definition newest {A} (n : nat) (l : list A) : list A := drop (length l - n) l.

Lemma rev_take_rev {A} n (l : list A) : rev (take n (rev l)) = newest n l.
Proof. unfold newest. by rewrite List.firstn_rev, rev_involutive. Qed.

(** ** The specification of a page *)

(** The part of the history a request asks for, and whether it leaves out more. *)
Definition slice (mode : MessagePageMode) (cursor : option Z) (n : nat) (hist : list MessageRow) : list MessageRow * bool :=
  match mode, cursor with
  | Since, Some c => (take n (drop (Z.to_nat c) hist), (n <? length (drop (Z.to_nat c) hist))%nat)
  | Since, None => (take n hist, (n <? length hist)%nat)
  | Before, Some c => (newest n (take (Z.to_nat (c - 1)) hist), (n <? length (take (Z.to_nat (c - 1)) hist))%nat)
  | _, _ => (newest n hist, (n <? length hist)%nat)
  end.

(** A message as a page shows it: its payload and, unless it is deleted, its reactions. *)
Definition named (m : MessageRow) (name : option string) : json := pending_json (toMessagePayload m name).
Definition view_as (d : Db) (m : MessageRow) (name : option string) : json :=
  set_field "reactions" (JArr (map reaction_json (if m_isDeleted m then [] else reaction_rows [m_id m] d))) (named m name).
(** The name the sender has now. *)
Definition sender (d : Db) (m : MessageRow) : option string := u_username <$> find_user (m_senderId m) d.
Definition view (d : Db) (m : MessageRow) : json := view_as d m (sender d m).

Definition page_of (mode : MessagePageMode) (cursor : option Z) (n : nat) (d : Db) (hist : list MessageRow) : MessagePage :=
  match slice mode cursor n hist with
  | (ms, more) =>
      mkMessagePage (map (view d) ms)
        (if more then m_sequenceNumber <$> (if is_since mode then last ms else head ms) else None) more "database"
  end.

Lemma filter_map_select {A B} (h : A → B) (p : B → bool) (l : list A) : List.filter p (map h l) = map h (List.filter (λ x, p (h x)) l).
Proof. induction l as [|x l IH]; simpl; [done|]. rewrite IH. by destruct (p (h x)). Qed.

Lemma filter_filter {A} (p q : A → bool) (l : list A) : List.filter p (List.filter q l) = List.filter (λ x, q x && p x) l.
Proof. induction l as [|x l IH]; simpl; [done|]. destruct (q x); simpl; by rewrite IH. Qed.

Lemma reactions_of_message (d : Db) ids id :
  List.filter (λ r, re_messageId r.1 === id) (reaction_rows ids d) = if bool_decide (id ∈ ids) then reaction_rows [id] d else [].
Proof.
  unfold reaction_rows. rewrite filter_map_select. unfold select. rewrite filter_filter. simpl. case_bool_decide as Hid.
  - f_equal. apply List.filter_ext. intros r. destruct (re_messageId r === id) eqn:Hr; boolp.
    + subst. by rewrite !bool_decide_eq_true_2 by (done || by apply list_elem_of_singleton).
    + rewrite andb_false_r. symmetry. apply bool_decide_eq_false. by rewrite list_elem_of_singleton.
  - rewrite filter_none; [done|]. intros r _. destruct (re_messageId r === id) eqn:Hr; boolp; [|by rewrite andb_false_r].
    subst. by rewrite bool_decide_eq_false_2.
Qed.

Section History.
Context {R : Redis} {E : Env} {C : Crypto}.

Definition live_ids (ms : list MessageRow) : list string := map m_id (List.filter (λ m, negb (m_isDeleted m)) ms).

Lemma elem_of_live_ids ms m : NoDup (map m_id ms) → m ∈ ms → bool_decide (m_id m ∈ live_ids ms) = negb (m_isDeleted m).
Proof.
  intros Hnd Hm. destruct (m_isDeleted m) eqn:Hd.
  - apply bool_decide_eq_false. intros Hin. apply list_elem_of_In, in_map_iff in Hin as (m' & Hid & Hin).
    apply List.filter_In in Hin as [Hin Hd']. apply list_elem_of_In in Hin. apply negb_true_iff in Hd'.
    assert (m' = m) as -> by by apply (NoDup_map_inj m_id ms). congruence.
  - apply bool_decide_eq_true. apply list_elem_of_In, in_map, List.filter_In. split; [by apply list_elem_of_In|by rewrite Hd].
Qed.

Lemma wp_attachReactions (l : list (MessageRow * option string)) (w : World) :
  (∀ n, db_fault n = None) → NoDup (map (m_id ∘ fst) l) →
  wp (attachReactions (map (λ p, named p.1 p.2) l)) (λ o w', o = Ok (map (λ p, view_as (w_db w) p.1 p.2) l) ∧ w_db w' = w_db w) w.
Proof.
  intros Hdb Hnd. set (d := w_db w). unfold attachReactions. wp_steps.
  rewrite filter_map_select. cbn [bool_field named pending_json get_field List.find]. rewrite map_map.
  assert (map (λ p : MessageRow * option string, str_field "id" (named p.1 p.2))
    (List.filter (λ p, negb (bool_field "isDeleted" (named p.1 p.2))) l) = live_ids (map fst l)) as ->.
  { unfold live_ids. rewrite filter_map_select, map_map. done. }
  assert (Hview : ∀ rows, (rows = reaction_rows (live_ids (map fst l)) d ∨ live_ids (map fst l) = [] ∧ rows = []) →
    map (λ m, set_field "reactions" (JArr (map reaction_json (List.filter (λ r, re_messageId r.1 === str_field "id" m) rows))) m)
      (map (λ p, named p.1 p.2) l) = map (λ p, view_as d p.1 p.2) l).
  { intros rows Hrows. rewrite map_map. apply List.map_ext_in. intros [m name] Hm. apply list_elem_of_In in Hm.
    assert (Hmem : m ∈ map fst l) by by apply (list_elem_of_fmap_2 fst l (m, name)).
    pose proof (elem_of_live_ids (map fst l) m ltac:(by rewrite map_map) Hmem) as Hl. unfold view_as. cbn [fst snd].
    change (str_field "id" (named m name)) with (m_id m).
    assert (List.filter (λ r : ReactionRow * option string, re_messageId r.1 === m_id m) rows =
            if bool_decide (m_id m ∈ live_ids (map fst l)) then reaction_rows [m_id m] d else []) as ->.
    { destruct Hrows as [->|[Hnil ->]]; [apply reactions_of_message|]. by rewrite Hnil. }
    rewrite Hl. by destruct (m_isDeleted m). }
  case_bool_decide as Hids; wp_steps.
  - split; [|done]. f_equal. apply Hview. by right.
  - apply wp_act'. rewrite Hdb. wp_steps. split; [|done]. f_equal. apply Hview. by left.
Qed.

(** The rows a page query reads, in the order it reads them. *)
Definition asked (mode : MessagePageMode) (cursor : option Z) (hist : list MessageRow) : list MessageRow :=
  match mode, cursor with
  | Since, Some c => drop (Z.to_nat c) hist
  | Before, Some c => rev (take (Z.to_nat (c - 1)) hist)
  | Since, None => hist
  | _, _ => rev hist
  end.

Lemma page_rows_asked channelId mode cursor n d : contiguous d →
  page_rows channelId mode cursor n d =
    map (λ m, (m, u_username <$> find_user (m_senderId m) d)) (take n (asked mode cursor (channel_messages channelId d))).
Proof.
  intros Hd. apply (contiguous_numbered _ channelId) in Hd. unfold page_rows. cbv zeta.
  assert (select (λ m, of_channel channelId m && in_page mode cursor m) (messages d) =
          List.filter (in_page mode cursor) (channel_messages channelId d)) as ->.
  { unfold channel_messages, select. by rewrite filter_filter. }
  set (hist := channel_messages channelId d) in *. f_equal. f_equal.
  assert (Hall : List.filter (λ _ : MessageRow, true) hist = hist) by by apply filter_all.
  pose proof (sort_descending m_sequenceNumber 1 hist Hd). pose proof (sort_ascending m_sequenceNumber 1 hist Hd).
  destruct mode, cursor as [c|]; cbn [is_since asked];
    try (change (in_page _ _) with (λ _ : MessageRow, true); by rewrite Hall).
  - change (in_page _ _) with (λ m, m_sequenceNumber m <? c). rewrite (filter_below m_sequenceNumber 1) by done. apply (sort_descending m_sequenceNumber 1). by apply numbered_take.
  - change (in_page _ _) with (λ m, c <? m_sequenceNumber m). rewrite (filter_above m_sequenceNumber 1) by done. replace (c - 1 + 1) with c by lia.
    eapply (sort_ascending m_sequenceNumber). by apply numbered_drop.
Qed.

Lemma slice_asked mode cursor n hist :
  slice mode cursor n hist =
    (let rows := take n (asked mode cursor hist) in if is_since mode then rows else rev rows, (n <? length (asked mode cursor hist))%nat).
Proof. destruct mode, cursor; cbn [slice asked is_since]; by rewrite ?rev_take_rev, ?length_rev. Qed.

Lemma slice_ids mode cursor n channelId d :
  ids_unique d → NoDup (map m_id (slice mode cursor n (channel_messages channelId d)).1).
Proof.
  intros Hu. assert ((slice mode cursor n (channel_messages channelId d)).1 `sublist_of` channel_messages channelId d) as Hs.
  { destruct mode, cursor; cbn [slice fst]; unfold newest; repeat first [apply sublist_drop | apply sublist_take | etransitivity]. }
  eapply sublist_NoDup; [|by apply (fmap_sublist m_id)]. by apply NoDup_map_filter.
Qed.

Lemma safe_limit_pos limit : 1 ≤ safe_limit limit ≤ 100.
Proof. unfold safe_limit. case_match; lia. Qed.

(** The cursor fits the column it is compared with. *)
Definition cursor_fits (mode : MessagePageMode) (cursor : option Z) : Prop :=
  match cursor_parameter mode cursor with Some c => int4 c = true | None => True end.
Lemma query_with_fits {A} mode cursor (q : Db → A) : cursor_fits mode cursor → query_with (cursor_parameter mode cursor) q = query q.
Proof.
  unfold cursor_fits, query_with. destruct (cursor_parameter mode cursor) as [c|]; [|done]. intros Hc.
  cbn [mbind option_bind]. unfold int4_parameter. by rewrite Hc.
Qed.

Lemma wp_databasePage channelId safeLimit cursor mode (w : World) : cursor_fits mode cursor →
  (∀ n, db_fault n = None) → contiguous (w_db w) → ids_unique (w_db w) → 1 ≤ safeLimit →
  wp (databasePage channelId safeLimit cursor mode) (λ o w',
    o = Ok (page_of mode cursor (Z.to_nat safeLimit) (w_db w) (channel_messages channelId (w_db w))) ∧ w_db w' = w_db w) w.
Proof.
  intros Hfits Hdb Hct Hu Hpos. unfold databasePage. rewrite query_with_fits by done. wp_steps. apply wp_act'. rewrite Hdb. wp_steps. set (d := w_db w) in *.
  rewrite page_rows_asked by done. set (hist := channel_messages channelId d). set (n := Z.to_nat safeLimit).
  set (j := λ m : MessageRow, (m, u_username <$> find_user (m_senderId m) d)).
  replace (Z.to_nat (safeLimit + 1)) with (S n) by lia. unfold page_of. rewrite slice_asked. cbv zeta.
  pose proof (slice_ids mode cursor n channelId d Hu) as Hids. rewrite slice_asked in Hids. fold hist in Hids. cbn [fst] in Hids.
  set (rows := asked mode cursor hist) in *.
  assert ((safeLimit <? Z.of_nat (length (map j (take (S n) rows)))) = (n <? length rows)%nat) as Hmore.
  { rewrite length_map, length_take. apply eq_true_iff_eq. rewrite Z.ltb_lt, Nat.ltb_lt. lia. }
  rewrite Hmore. assert ((if (n <? length rows)%nat then take n (map j (take (S n) rows)) else map j (take (S n) rows)) = map j (take n rows)) as ->.
  { destruct (Nat.ltb_spec n (length rows)).
    - rewrite firstn_map, take_take. do 2 f_equal. lia.
    - by rewrite !take_ge by lia. }
  set (ms := if is_since mode then take n rows else rev (take n rows)) in *.
  assert ((if is_since mode then map j (take n rows) else rev (map j (take n rows))) = map j ms) as ->.
  { unfold ms. destruct (is_since mode); [done|]. by rewrite map_rev. }
  rewrite (map_map j), map_map. change (map (λ x, pending_json _) ms) with (map (λ x, named (j x).1 (j x).2) ms).
  rewrite <-(map_map j (λ p, named p.1 p.2)).
  eapply wp_mono; [apply (wp_attachReactions (map j ms) (tick w)); [done|by rewrite map_map]|]. intros o w1 [-> Hd]. wp_steps.
  rewrite (map_map j (λ p, view_as (w_db (tick w)) p.1 p.2)). split; [|done]. f_equal. f_equal. destruct (n <? length rows)%nat; [|done].
  change (map (λ x, toMessagePayload (j x).1 (j x).2) ms) with ((λ x, toMessagePayload (j x).1 (j x).2) <$> ms).
  destruct (is_since mode); [rewrite fmap_last; by destruct (last ms)|by destruct ms].
Qed.

Definition is_member (channelId userId : string) (d : Db) : Prop := membership userId channelId d ≠ None.

Lemma wp_page channelId userId limit cursor mode (w : World) : cursor_fits mode cursor →
  (∀ n, db_fault n = None) → contiguous (w_db w) → ids_unique (w_db w) → is_member channelId userId (w_db w) →
  (cursor ≠ None ∨ mode = Since ∨ MESSAGE_CACHE_SIZE < safe_limit limit) →
  wp (getMessages channelId userId limit cursor mode) (λ o w',
    o = Ok (page_of mode cursor (Z.to_nat (safe_limit limit)) (w_db w) (channel_messages channelId (w_db w))) ∧
    w_db w' = w_db w) w.
Proof.
  intros Hfits Hdb Hct Hu Hm Hsource. unfold getMessages. wp_steps. apply wp_act'. rewrite Hdb. unfold is_member in Hm.
  destruct (membership userId channelId (w_db w)); [|done]. wp_steps.
  assert (bool_decide (cursor = None) && negb (is_since mode) && (safe_limit limit <=? MESSAGE_CACHE_SIZE) = false) as ->.
  { destruct Hsource as [Hc|[->|Hl]]; [by rewrite bool_decide_eq_false_2|by rewrite andb_false_r|].
    by rewrite (proj2 (Z.leb_gt _ _)), andb_false_r. }
  wp_steps. apply (wp_databasePage _ _ _ _ (tick w)); try done. apply safe_limit_pos.
Qed.

(** C34: a page read from the tables is the slice of the channel's history the
    request asks for, in ascending order: the newest messages, those before the
    cursor, or those after it, at most [limit] of them (1 to 100); [hasMore] says
    whether the slice leaves messages out, [nextCursor] where to go on, and each
    message carries its sender's name and its reactions. *)
Theorem getMessages_page channelId userId limit cursor mode (w : World) (Hfits : cursor_fits mode cursor)
  (Hdb : ∀ n, db_fault n = None) (Hct : contiguous (w_db w)) (Hids : ids_unique (w_db w))
  (Hmember : is_member channelId userId (w_db w))
  (Hsource : cursor ≠ None ∨ mode = Since ∨ MESSAGE_CACHE_SIZE < safe_limit limit) :
  wp (getMessages channelId userId limit cursor mode) (λ o w',
    o = Ok (page_of mode cursor (Z.to_nat (safe_limit limit)) (w_db w) (channel_messages channelId (w_db w))) ∧
    w_db w' = w_db w) w.
Proof. by apply wp_page. Qed.

(** ** Scrolling back *)

(** A client that follows [nextCursor] back in time. *)
Fixpoint scroll (fuel : nat) (channelId userId : string) (limit cursor : Z) : M (list json) :=
  match fuel with
  | O => Ret []
  | S fuel' =>
      let! page := getMessages channelId userId limit (Some cursor) Before in
      match p_nextCursor page with
      | Some cursor' => let! older := scroll fuel' channelId userId limit cursor' in Ret (older ++ p_messages page)
      | None => Ret (p_messages page)
      end
  end.

Lemma newest_all {A} n (l : list A) : (length l ≤ n)%nat → newest n l = l.
Proof. intros H. unfold newest. by replace (length l - n)%nat with 0%nat by lia. Qed.

Lemma head_newest a l n m : numbered m_sequenceNumber a l → head (newest n l) = Some m →
  m_sequenceNumber m = a + Z.of_nat (length l - n).
Proof.
  intros Hl Hm. apply (numbered_drop _ a (length l - n)) in Hl. unfold newest in Hm.
  destruct (drop (length l - n) l); [done|]. injection Hm as ->. by apply numbered_cons in Hl as [? _].
Qed.

(** C7: paging loses nothing: a client that scrolls back from any point, with any
    page size, receives the whole history before that point, each message once
    and in order; as many requests as there are messages, and one, are always enough. *)
Theorem scroll_back_covers_history fuel channelId userId limit cursor (w : World) (Hfits : int4 cursor = true)
  (Hdb : ∀ n, db_fault n = None) (Hct : contiguous (w_db w)) (Hids : ids_unique (w_db w))
  (Hmember : is_member channelId userId (w_db w))
  (Hfuel : (length (take (Z.to_nat (cursor - 1)) (channel_messages channelId (w_db w))) < fuel)%nat) :
  wp (scroll fuel channelId userId limit cursor) (λ o _,
    o = Ok (map (view (w_db w)) (take (Z.to_nat (cursor - 1)) (channel_messages channelId (w_db w))))) w.
Proof.
  revert cursor w Hfits Hct Hids Hmember Hfuel. induction fuel as [|fuel IH]; intros cursor w Hfits Hct Hids Hmember Hfuel; [lia|].
  cbn [scroll]. wp_steps. eapply wp_mono; [apply wp_page; auto|]. intros o w1 [-> Hd]. wp_steps.
  pose proof (safe_limit_pos limit). set (n := Z.to_nat (safe_limit limit)).
  pose proof (contiguous_numbered _ channelId Hct) as Hnum. set (hist := channel_messages channelId (w_db w)) in *.
  unfold page_of. cbn [slice is_since]. set (k := Z.to_nat (cursor - 1)) in *. set (l := take k hist) in *.
  destruct (Nat.ltb_spec n (length l)) as [Hlt|Hge]; cbn [p_nextCursor p_messages].
  - destruct (head (newest n l)) as [m|] eqn:Hhead.
    2:{ exfalso. assert (length (newest n l) = n) as Hln by (unfold newest; rewrite length_drop; lia).
        destruct (newest n l); simpl in *; [lia|done]. }
    cbn [fmap option_fmap option_map]. wp_steps.
    pose proof (head_newest 1 l n m (numbered_take _ _ k _ Hnum) Hhead) as Hseq.
    assert (Hk : Z.to_nat (m_sequenceNumber m - 1) = (length l - n)%nat) by lia.
    assert (Htake : take (length l - n) hist = take (length l - n) l).
    { unfold l. rewrite take_take. f_equal. unfold l in Hlt. rewrite length_take in *. lia. }
    assert (Hlen : (length l ≤ k)%nat) by (unfold l; rewrite length_take; lia).
    assert (Hfits' : int4 (m_sequenceNumber m) = true) by (unfold int4 in *; boolp; apply andb_true_iff; rewrite !Z.leb_le; lia).
    eapply wp_mono; [apply IH; rewrite ?Hd; try done|].
    { fold hist. rewrite Hk, Htake, length_take. lia. }
    intros o w2 ->. wp_steps. rewrite Hd. fold hist. rewrite Hk, Htake, <-map_app. f_equal. f_equal.
    unfold newest. apply take_drop.
  - wp_steps. by rewrite newest_all.
Qed.

(** ** The cached page *)
Context {RL : RedisLaws R}.

(** The list that Redis has for the cache of a channel. *)
Definition cache_holds (channelId : string) (now : Z) (entries : list string) (w : World) : Prop :=
  as_list (live now (rentry (w_redis w) (RedisKeys.messageCache channelId))) = Some entries.

(** The fields that a cached message needs. *)
Definition payload_shape (j : json) : Prop :=
  (∃ id, get_field j "id" = Some (JStr id)) ∧ (∃ signature, get_field j "signature" = Some (JStr signature)) ∧
  (∃ deleted, get_field j "isDeleted" = Some (JBool deleted)) ∧ (∃ n, get_field j "sequenceNumber" = Some (JNum n)).

(** What is asked of an entry: nothing when it is no JSON text; it is not [null]; and if
    it has these fields then it is a message of the channel, under a name its sender has
    or had. *)
Definition entry_of (hist : list MessageRow) (entry : string) : Prop :=
  ∀ j, parse entry = Some j → j ≠ JNull ∧ (payload_shape j → ∃ m name, m ∈ hist ∧ j = named m name).
(** A page of [n] entries has the newest message of the channel among them. *)
Definition up_to_date (n : nat) (hist : list MessageRow) (entries : list string) : Prop :=
  (n ≤ length entries)%nat → ∃ m name entry, last hist = Some m ∧ entry ∈ newest n entries ∧ parse entry = Some (named m name).

(** A page shows the messages [ms], each under the name its sender has, or had when the
    message was cached. *)
Definition page_shows (d : Db) (entries : list string) (ms : list MessageRow) (page : list json) : Prop :=
  Forall2 (λ m j, ∃ name, j = view_as d m name ∧
    (name = sender d m ∨ ∃ entry, entry ∈ entries ∧ parse entry = Some (named m name))) ms page.

Lemma page_shows_view d entries ms : page_shows d entries ms (map (view d) ms).
Proof. apply Forall2_fmap_r, Forall_Forall2_diag, Forall_forall. intros m _. exists (sender d m). auto. Qed.

Lemma range_newest {A} (n : nat) (l : list A) : (0 < n)%nat → range (- Z.of_nat n) (-1) l = newest n l.
Proof.
  intros Hn. unfold range, newest. rewrite (proj2 (Z.ltb_lt (- Z.of_nat n) 0)) by lia. simpl. rewrite take_ge.
  - f_equal. lia.
  - rewrite length_drop. lia.
Qed.

Lemma newest_elem {A} n (l : list A) x : x ∈ newest n l → x ∈ l.
Proof. unfold newest. intros Hx. rewrite <-(take_drop (length l - n) l). set_solver. Qed.

Lemma mapM_parse (l : list string) js j : mapM parse l = Some js → j ∈ js → ∃ entry, entry ∈ l ∧ parse entry = Some j.
Proof.
  intros H%mapM_Some Hj. apply list_elem_of_lookup in Hj as [i Hi]. destruct (Forall2_lookup_r _ _ _ _ _ H Hi) as (e & He & Hp).
  exists e. split; [by eapply list_elem_of_lookup_2|done].
Qed.

(** A run of numbered messages of the history is a slice of it. *)
Lemma numbered_slice (hist : list MessageRow) a ms : numbered m_sequenceNumber 1 hist → numbered m_sequenceNumber a ms → Forall (.∈ hist) ms →
  ms = take (length ms) (drop (Z.to_nat (a - 1)) hist).
Proof.
  intros Hh. revert a. induction ms as [|m ms IH]; intros a Hn Hin; [done|].
  apply numbered_cons in Hn as [Hm Hn]. apply Forall_cons in Hin as [Hin Hins].
  assert (Hl : hist !! Z.to_nat (a - 1) = Some m).
  { apply list_elem_of_lookup in Hin as [i Hi]. pose proof (numbered_lookup m_sequenceNumber 1 hist i m Hh Hi) as Hseq.
    by replace (Z.to_nat (a - 1)) with i by lia. }
  assert (1 ≤ a) by (rewrite <-Hm; eapply numbered_ge; eauto).
  rewrite (drop_S _ _ _ Hl). cbn [length take]. f_equal. rewrite (IH (a + 1) Hn Hins) at 1.
  by replace (Z.to_nat (a + 1 - 1)) with (S (Z.to_nat (a - 1))) by lia.
Qed.

Lemma wellFormed_shape j : wellFormed j = true → payload_shape j.
Proof.
  unfold wellFormed, payload_shape, is_str, is_num, is_bool. intros H.
  repeat (apply andb_true_iff in H as [H ?]). repeat case_match; simplify_eq/=; split_and!; eauto.
Qed.

Lemma complete_wellFormed prev items : complete prev items = true → Forall (λ j, payload_shape j) items.
Proof.
  revert prev. induction items as [|j items IH]; intros prev; [by constructor|]. cbn [complete].
  rewrite !andb_true_iff. intros [[Hw _] Hc]. constructor; [by apply wellFormed_shape|by eapply IH].
Qed.

Lemma complete_numbered p (l : list (MessageRow * option string)) :
  complete (Some p) (map (λ x, named x.1 x.2) l) = true → numbered m_sequenceNumber (p + 1) (map fst l).
Proof.
  revert p. induction l as [|[m name] l IH]; intros p; [done|]. cbn [complete map fst snd].
  change (num_field "sequenceNumber" (named m name)) with (m_sequenceNumber m).
  rewrite !andb_true_iff, Z.eqb_eq. intros [[_ Hm] Hc]. apply numbered_cons. split; [done|]. rewrite <-Hm. by apply IH.
Qed.

Lemma named_list (hist : list MessageRow) items : Forall (λ j, ∃ m name, m ∈ hist ∧ j = named m name) items →
  ∃ l, items = map (λ x, named x.1 x.2) l ∧ Forall (.∈ hist) (map fst l).
Proof.
  induction 1 as [|j items (m & name & Hm & ->) _ (l & -> & Hl)]; [by exists []|].
  exists ((m, name) :: l). split; [done|by constructor].
Qed.

Lemma named_id m name m' name' : named m name = named m' name' → m_id m = m_id m'.
Proof. intros H. exact (f_equal (str_field "id") H). Qed.
Lemma named_elem (hist : list MessageRow) (l : list (MessageRow * option string)) m name : NoDup (map m_id hist) → m ∈ hist →
  Forall (.∈ hist) (map fst l) → named m name ∈ map (λ x, named x.1 x.2) l → m ∈ map fst l.
Proof.
  intros Hnd Hm Hin Hj. apply list_elem_of_fmap in Hj as (x & Hx & Hxl). apply named_id in Hx.
  apply (list_elem_of_fmap_2 fst) in Hxl. rewrite Forall_forall in Hin.
  by rewrite (NoDup_map_inj m_id hist m x.1 Hnd Hm (Hin _ Hxl) Hx).
Qed.
Lemma page_shows_cached d entries (l : list (MessageRow * option string)) :
  (∀ x, x ∈ l → ∃ entry, entry ∈ entries ∧ parse entry = Some (named x.1 x.2)) →
  page_shows d entries (map fst l) (map (λ x, view_as d x.1 x.2) l).
Proof.
  intros Hl. apply Forall2_fmap, Forall_Forall2_diag, Forall_forall. intros x Hx. exists x.2. auto.
Qed.

(** The window that [complete] accepts, when it has the newest message, is the end of
    the history. *)
Lemma complete_newest (hist : list MessageRow) (l : list (MessageRow * option string)) :
  numbered m_sequenceNumber 1 hist → Forall (.∈ hist) (map fst l) → complete None (map (λ x, named x.1 x.2) l) = true →
  (∃ m, last hist = Some m ∧ m ∈ map fst l) → map fst l = newest (length l) hist ∧ (length l ≤ length hist)%nat.
Proof.
  intros Hh Hin Hc (m & Hlast & Hm). destruct l as [|[m0 name] l]; [by apply not_elem_of_nil in Hm|].
  assert (Hn : numbered m_sequenceNumber (m_sequenceNumber m0) (map fst ((m0, name) :: l))).
  { cbn [map fst complete] in *. apply andb_true_iff in Hc as [_ Hc]. apply numbered_cons. split; [done|].
    by apply complete_numbered. }
  set (ms := map fst ((m0, name) :: l)) in *. assert (Hlen : length ms = S (length l)) by (unfold ms; by rewrite length_map).
  pose proof (numbered_slice _ _ _ Hh Hn Hin) as Hms. set (a := m_sequenceNumber m0) in *.
  assert (1 ≤ a). { eapply (numbered_ge m_sequenceNumber 1 hist); [done|]. apply Forall_cons in Hin as [? _]. done. }
  pose proof (numbered_last m_sequenceNumber 1 hist m Hh Hlast) as Hseq.
  apply list_elem_of_lookup in Hm as [i Hi]. pose proof (numbered_lookup _ _ _ _ _ Hn Hi) as Hi'.
  apply lookup_lt_Some in Hi. assert (Hle : (length ms ≤ length hist - Z.to_nat (a - 1))%nat).
  { rewrite Hms, length_take, length_drop. lia. }
  assert (Heq : length ms = (length hist - Z.to_nat (a - 1))%nat) by lia.
  split; [|cbn [length]; lia]. rewrite Hms at 1. rewrite take_ge by (rewrite length_drop; lia).
  unfold newest. cbn [length]. f_equal. lia.
Qed.

(** The answer from the cache, for one page of [n] messages. *)
Definition cached_answer (n : nat) (d : Db) (hist : list MessageRow) (entries : list string) (source : string) (page : MessagePage) : Prop :=
  let spec := page_of Before None n d hist in
  page_shows d entries (newest n hist) (p_messages page) ∧
  p_nextCursor page = p_nextCursor spec ∧ p_hasMore page = p_hasMore spec ∧ p_source page = source.

Lemma wp_window channelId entries (n : nat) (w : World) :
  (0 < n)%nat → cache_holds channelId (now_at (S (w_tick w))) entries w →
  wp (getRecentMessages channelId (Z.of_nat n)) (λ o w', w_db w' = w_db w ∧
    (o = Ok [] ∨ ∃ js, o = Ok js ∧ mapM parse (newest n entries) = Some js)) w.
Proof.
  intros Hn Hc. unfold cache_holds in Hc. unfold getRecentMessages, with_redis. wp_steps. apply wp_getClient. intros [|]; cbn [negb]; wp_steps; [|by auto].
  eapply wp_cmd_any; [cbn [cmd_spec cmd_key]; world; by rewrite Hc|wp_steps; by auto|].
  intros r _. wp_steps. split; [by split; [|left]|]. cbn [arr_of]. rewrite range_newest by done.
  destruct (mapM parse (newest n entries)) as [js|]; wp_steps; eauto.
Qed.

Lemma wp_cached channelId entries (n : nat) (w : World) :
  let hist := channel_messages channelId (w_db w) in
  (∀ t, db_fault t = None) → (0 < n)%nat → contiguous (w_db w) → ids_unique (w_db w) →
  cache_holds channelId (now_at (S (w_tick w))) entries w → Forall (entry_of hist) entries → up_to_date n hist entries →
  wp (getCachedPage channelId (Z.of_nat n)) (λ o w', w_db w' = w_db w ∧
    (o = Ok None ∨ ∃ page, o = Ok (Some page) ∧ cached_answer n (w_db w) hist entries "cache" page)) w.
Proof.
  intros hist Hdb Hn Hct Hu Hc Hent Hnew. unfold getCachedPage. wp_steps. eapply wp_mono; [by apply wp_window|].
  intros o w1 [Hd Ho]. assert (∃ js, o = Ok js ∧ (length js < n ∨ mapM parse (newest n entries) = Some js)%nat) as (js & -> & Hjs).
  { destruct Ho as [->|(js & -> & ?)]; eauto. }
  wp_steps. destruct (Z.ltb_spec (Z.of_nat (length js)) (Z.of_nat n)) as [Hlt|Hge]; [wp_steps; auto|].
  destruct Hjs as [?|Hparse]; [lia|].
  assert (Hlen : length js = length (newest n entries)) by by (symmetry; eapply Forall2_length, mapM_Some; exact Hparse).
  assert (Hn' : (n ≤ length entries ∧ length js = n)%nat) by (unfold newest in Hlen; rewrite length_drop in Hlen; lia).
  assert (Hof : ∀ j, j ∈ js → j ≠ JNull ∧ (payload_shape j → ∃ m name, m ∈ hist ∧ j = named m name)).
  { intros j Hj. destruct (mapM_parse _ _ _ Hparse Hj) as (e & He & Hp). rewrite Forall_forall in Hent.
    by apply (Hent e); [eapply newest_elem|]. }
  assert (existsb is_null js = false) as ->.
  { apply not_true_iff_false. rewrite existsb_exists. intros (j & Hj & Hnull). apply list_elem_of_In in Hj.
    by destruct (Hof j Hj), j. }
  cbn [andb]. set (items := sort_by _ js). assert (Hperm : items ≡ₚ js) by apply sort_by_perm.
  destruct (complete None items) eqn:Hcomp; cbn [negb].
  2:{ wp_steps. eapply wp_mono; [apply wp_and; [apply nothrow_invalidateMessages|apply silent_invalidateMessages]|].
      intros o w2 [[a ->] (Hd2 & _)]. wp_steps. split; [congruence|by left]. }
  pose proof (complete_wellFormed _ _ Hcomp) as Hshape.
  destruct (named_list hist items) as (l & Hl & Hin).
  { apply Forall_forall. intros j Hj. rewrite Forall_forall in Hshape. apply Hof; [by rewrite <-Hperm|by apply Hshape]. }
  clearbody items. subst items. pose proof (contiguous_numbered _ channelId Hct) as Hnum. fold hist in Hnum.
  destruct (complete_newest hist l Hnum Hin Hcomp) as [Hms Hlh].
  { destruct (Hnew (proj1 Hn')) as (m & name & e & Hlast & He & Hp). exists m. split; [done|].
    assert (Hj : named m name ∈ js).
    { apply mapM_Some in Hparse. apply list_elem_of_lookup in He as [i Hi].
      destruct (Forall2_lookup_l _ _ _ _ _ Hparse Hi) as (j & Hj & Hpj). apply list_elem_of_lookup_2 in Hj. congruence. }
    rewrite <-Hperm in Hj. eapply named_elem; [|by apply last_Some_elem_of|done..].
    by apply (NoDup_map_filter m_id). }
  assert (Hln : length l = n) by (rewrite <-(proj2 Hn'), <-(Permutation_length Hperm); by rewrite length_map).
  rewrite Hln in Hms, Hlh. destruct l as [|[m name] rest] eqn:Hlist; [simpl in Hln; lia|].
  cbn [map]. change (named (m, name).1 (m, name).2 :: map (λ x, named x.1 x.2) rest) with (map (λ x, named x.1 x.2) ((m, name) :: rest)).
  wp_steps. eapply wp_mono; [apply (wp_attachReactions ((m, name) :: rest) w1); [done|]|].
  { change (NoDup (map (λ x, m_id (fst x)) ((m, name) :: rest))). rewrite <-(map_map fst m_id ((m, name) :: rest)), Hms.
    apply (slice_ids Before None n channelId (w_db w) Hu). }
  intros o w2 [-> Hd2]. wp_steps. split; [congruence|]. right. eexists. split; [reflexivity|].
  rewrite Hd. unfold cached_answer, page_of. cbn [slice is_since p_messages p_nextCursor p_hasMore p_source fst snd].
  change (num_field "sequenceNumber" (named m name)) with (m_sequenceNumber m).
  assert (Hseq : m_sequenceNumber m = 1 + Z.of_nat (length hist - n)).
  { apply (head_newest 1 hist n m Hnum). by rewrite <-Hms. }
  assert ((1 <? m_sequenceNumber m) = (n <? length hist)%nat) as -> by (apply eq_true_iff_eq; rewrite Z.ltb_lt, Nat.ltb_lt; lia).
  rewrite <-Hms. split; [|by split_and!]. apply page_shows_cached. intros x Hx.
  assert (Hj : named x.1 x.2 ∈ js) by (rewrite <-Hperm; by apply (list_elem_of_fmap_2 (λ x, named x.1 x.2))).
  destruct (mapM_parse _ _ _ Hparse Hj) as (e & He & Hp). exists e. split; [by eapply newest_elem|done].
Qed.

End History.

(** ** The properties on a concrete state *)
Section Witnesses.
#[local] Existing Instance sample_env.

Lemma getMessages_page_witness :
  wp (getMessages "g" "alice" 1 (Some 2) Before) (λ o w',
    o = Ok (mkMessagePage [view sample_db (sample_message "msg1" "alice" "g" 1)] None false "database") ∧ w_db w' = sample_db)
    sample_world.
Proof.
  apply (getMessages_page "g" "alice" 1 (Some 2) Before sample_world);
    [done|done|exact sample_contiguous|exact sample_ids_unique|done|by left].
Defined.

Lemma scroll_back_covers_history_witness :
  wp (scroll 3 "g" "alice" 1 3) (λ o _, o = Ok (map (view sample_db) (messages sample_db))) sample_world.
Proof.
  apply (scroll_back_covers_history 3 "g" "alice" 1 3 sample_world);
    [done|done|exact sample_contiguous|exact sample_ids_unique|done|vm_compute; lia].
Defined.

(** Both messages of the group are cached, after a text that is none. *)
Definition cached_entries : list string :=
  "rubbish" :: map (λ m, stringify (named m (sender sample_db m))) (messages sample_db).
Definition cache_of (entries : list string) : World :=
  sample_world <| w_redis := {[ "zevra:cache:messages:g" := (RList entries, None) ]} |>.


(** This page does come from the cache; with a gap in the list it comes from the tables. *)
Definition page_answer (entries : list string) (limit : Z) : option (string * list Z) :=
  match (run (getMessages "g" "alice" limit None Before) (cache_of entries)).1 with
  | Ok p => Some (p_source p, map (num_field "sequenceNumber") (p_messages p))
  | Err _ => None
  end.
Example cached_page_source : page_answer cached_entries 1 = Some ("cache", [2]).
Proof. vm_compute. reflexivity. Qed.
Example page_with_rubbish : page_answer cached_entries 3 = Some ("database", [1; 2]).
Proof. vm_compute. reflexivity. Qed.
(** When the newest message was not cached the page is an old one. *)
Example stale_cached_page : page_answer (take 2 cached_entries) 1 = Some ("cache", [1]).
Proof. vm_compute. reflexivity. Qed.
End Witnesses.
