(* ===== verification/CallHistory.v ===== *)
(** * CallHistory: the call log in every run of the server

    Invariants of the tables of calls, proved by cases on the transitions of
    [db_step], and the properties of the server they give. *)
From Stdlib Require Import String.
From S2P Require Import Prelude JsString Json Effects Errors Redis Schema World Crypto Config RateLimit RedisSession.
From S2P Require Import RedisCache Socket ChannelMembers Messages Channels Users LiveKit Validation SocketAuth Calls DbStep Exclusive.
From S2P Require Import Http Uploads System.
From S2P Require Import CallGateway Events CallFlow Invariants Samples.
From stdpp Require Import base list strings gmap relations.

Local Open Scope string_scope.
Local Open Scope Z_scope.
Local Open Scope list_scope.

(** ** The call log *)

(** What is fixed when a call is logged. *)
Definition call_core (c : CallLogRow) :=
  (cl_id c, cl_type c, cl_callerId c, cl_calleeId c, cl_roomName c, cl_startedAt c, cl_channelId c).

(** A later version of the entry of a call. *)
Definition same_call (c c' : CallLogRow) : Prop :=
  call_core c' = call_core c ∧ (cl_endedAt c ≠ None → cl_endedAt c' ≠ None).
#[export] Instance same_call_preorder : PreOrder same_call.
Proof. split; [done|]. intros c1 c2 c3 [H1 H2] [H3 H4]. split; [congruence|auto]. Qed.

Definition log_grows (t t' : list CallLogRow) : Prop := ∃ old new, t' = old ++ new ∧ Forall2 same_call t old.
#[export] Instance log_grows_preorder : PreOrder log_grows.
Proof.
  split; [intros t; exists t, []; by rewrite app_nil_r|].
  intros t1 t2 t3 (o1 & n1 & -> & H1) (o2 & n2 & -> & H2). apply Forall2_app_inv_l in H2 as (p & q & Hp & _ & ->).
  exists p, (q ++ n2). rewrite <-app_assoc. split; [done|]. by transitivity o1.
Qed.

Definition calls_wf (t : list CallLogRow) : Prop := NoDup (map cl_id t) ∧ Forall end_coherent t.

(** How a transition moves the call log. *)
Inductive calls_move (t : list CallLogRow) : list CallLogRow → Prop :=
| calls_same : calls_move t t
| calls_insert c : end_coherent c → (∀ x, x ∈ t → cl_id c ≠ cl_id x) → calls_move t (t ++ [c])
| calls_update p f :
    (∀ c, same_call c (f c)) → (∀ c, end_coherent c → end_coherent (f c)) → calls_move t (update_where p f t).

Lemma calls_step d d' : db_step d d' → calls_move (callLogs d) (callLogs d').
Proof.
  intros [l Hs]; destruct Hs; try (apply calls_same).
  - unfold deletion. cbv zeta. case_match; apply calls_same.
  - cbn. case_match; [use_promotion|]; apply calls_same.
  - apply insert_row_ok in H as (-> & _ & Hc & _). apply calls_insert; [done|]. intros x Hx. specialize (Hc x Hx). simpl in Hc. by boolp.
  - by apply calls_update.
  - apply checked_update_ok in H0 as ->. apply calls_update; [done|]. intros c _. apply H.
Qed.

Lemma calls_move_grows t t' : calls_move t t' → log_grows t t'.
Proof.
  destruct 1; [done|by exists t, [c]|]. exists (update_where p f t), []. rewrite app_nil_r. split; [done|].
  apply Forall2_fmap_r, Forall_Forall2_diag, Forall_forall. intros c _. simpl. by case_match.
Qed.

Lemma calls_move_wf t t' : calls_move t t' → calls_wf t → calls_wf t'.
Proof.
  intros Hm [Hid He]. destruct Hm as [|c Hc Hnew|p f Hsame Hf]; [done|split..].
  - rewrite map_app. apply NoDup_app. split; [done|]. split; [|apply NoDup_singleton].
    intros i (x & <- & Hx%list_elem_of_In)%list_elem_of_In%in_map_iff Heq%list_elem_of_singleton.
    by apply (Hnew x Hx).
  - apply Forall_app. by split; [|apply Forall_singleton].
  - rewrite map_update; [done|]. intros c. by injection (proj1 (Hsame c)).
  - apply Forall_forall. intros c (c0 & Hc & ->)%elem_of_update_where. rewrite Forall_forall in He.
    destruct (p c0); [apply Hf|]; by apply He.
Qed.

(** ** Participants *)
Definition participant_key (p : CallParticipantRow) : string * string := (cp_callLogId p, cp_userId p).

(** One row per call and user, for calls of the log. *)
Definition participants_wf (d : Db) : Prop :=
  NoDup (map participant_key (callParticipants d)) ∧
  Forall (λ p, cp_callLogId p ∈ map cl_id (callLogs d)) (callParticipants d).

Lemma insert_ignoring_inv {A} column conflict fk (Inv : list A → Prop) t rs t' :
  (∀ t r, Inv t → (∀ x, x ∈ t → conflict r x = false) → fk r = true → Inv (t ++ [r])) →
  Inv t → insert_ignoring (insert_row column conflict fk) conflict t rs = Ok t' → Inv t'.
Proof.
  intros Hstep. revert t. induction rs as [|r rs IH]; intros t Ht; simpl; [by intros [= <-]|].
  unfold insert_or_ignore. destruct (existsb (conflict r) t); [by apply IH|].
  destruct (insert_row column conflict fk t r) as [t1|] eqn:Hi; [|done].
  apply insert_row_ok in Hi as (-> & _ & Hc & Hfk). by apply IH, Hstep.
Qed.

Lemma log_ids_grow t t' : log_grows t t' → ∀ i, i ∈ map cl_id t → i ∈ map cl_id t'.
Proof.
  intros (old & new & -> & Hold) i Hi. rewrite map_app. apply elem_of_app. left.
  assert (map cl_id old = map cl_id t) as ->; [|done]. clear Hi.
  induction Hold as [|c c' t l [Hc _] _ IH]; simpl; [done|]. rewrite IH. f_equal. by injection Hc.
Qed.

Lemma participants_step d d' : db_step d d' → participants_wf d → participants_wf d'.
Proof.
  intros Hs [Hkey Hlog]. pose proof (log_ids_grow _ _ (calls_move_grows _ _ (calls_step _ _ Hs))) as Hids.
  assert (Hsame : ∀ l, callParticipants d' = l → map participant_key l = map participant_key (callParticipants d) →
    participants_wf d').
  { intros l Hl Hk. unfold participants_wf. rewrite Hl, Hk. split; [done|]. rewrite Forall_forall in *. intros p Hp.
    apply Hids. apply (list_elem_of_fmap_2 participant_key) in Hp. change (participant_key <$> l) with (map participant_key l) in Hp.
    rewrite Hk in Hp. apply list_elem_of_In, in_map_iff in Hp as (q & Heq & Hq%list_elem_of_In). injection Heq as <- _. by apply Hlog. }
  destruct Hs as [lbl Hs]. destruct Hs; try (by eapply Hsame).
  - eapply Hsame; [|reflexivity]. unfold deletion. cbv zeta. by case_match.
  - eapply Hsame; [|reflexivity]. cbn. case_match; [|done]. by use_promotion.
  - unfold participants_wf. cbn [callParticipants callLogs modify_field].
    apply (insert_ignoring_inv _ _ _ (λ l, NoDup (map participant_key l) ∧ Forall (λ p, cp_callLogId p ∈ map cl_id (callLogs d)) l)
             _ _ _) in H; [done| |done].
    intros l r [Hk Hl] Hc [Hfk _]%andb_true_iff. split.
    + rewrite map_app. apply NoDup_app. split; [done|]. split; [|apply NoDup_singleton].
      intros k (x & Hx & Hin%list_elem_of_In)%list_elem_of_In%in_map_iff Heq%list_elem_of_singleton. specialize (Hc x Hin).
      unfold callParticipant_conflict, callParticipant_index in Hc. rewrite Heq in Hx. injection Hx as Hx1 Hx2.
      apply orb_false_iff in Hc as [_ Hc]. by rewrite Hx1, Hx2, !bool_decide_eq_true_2 in Hc.
    + apply Forall_app. split; [done|]. apply Forall_singleton. apply existsb_exists in Hfk as (c & Hc'%list_elem_of_In & Heq). boolp.
      rewrite <-Heq. by apply (list_elem_of_fmap_2 cl_id).
  - eapply Hsame; [reflexivity|]. by apply map_update.
  - apply checked_update_ok in H0 as ->. eapply Hsame; [reflexivity|]. by apply map_update.
Qed.

Definition call_tables_wf (d : Db) : Prop := calls_wf (callLogs d) ∧ participants_wf d.

Lemma call_tables_step d d' : call_tables_wf d → db_step d d' → call_tables_wf d'.
Proof. intros [Hc Hp] Hs. split; [by eapply calls_move_wf, Hc; apply calls_step|by eapply participants_step]. Qed.

Lemma log_grows_steps d d' : db_steps d d' → log_grows (callLogs d) (callLogs d').
Proof. induction 1 as [|d1 d2 d3 H _ IH]; [done|]. etransitivity; [|exact IH]. by apply calls_move_grows, calls_step. Qed.

(** * The properties of the server *)
Section Server.
Context {R : Redis} {E : Env} {C : Crypto} {J : Jwt} {P : Environment} {V : ClassValidator} {L : LiveKit} {F : Framework} {K : Cloudinary}.

(** in every state of every run the tables of calls are well formed: the ids of
    the log are distinct, the end and the duration of a call are set together and
    the duration is not negative, each user has at most one participant row in a
    call, and each row names a logged call; whatever invites, hang-ups, webhooks
    and disconnections interleave and fail. *)
Theorem call_tables_well_formed (w : World) (rs : list request) c
  (Hinit : call_tables_wf (w_db w)) (Hrun : server_run w rs c) : call_tables_wf (w_db c.1).
Proof. eapply run_invariant; [|exact Hinit|exact Hrun]. apply call_tables_step. Qed.

(** C24: the call log is append-only: between two states of a run every entry keeps
    its place, its id, its type, its two users, its room, its start and its
    channel, and a call that has ended never becomes open again. *)
Theorem call_log_append_only (w : World) (rs : list request) c c'
  (Hrun : server_run w rs c) (Hlater : rtc pstep c c') : log_grows (callLogs (w_db c.1)) (callLogs (w_db c'.1)).
Proof. eapply log_grows_steps, run_steps_between; eauto. Qed.
End Server.

(** ** A concrete call

    Alice invites Bob, who accepts; then Alice hangs up while Bob's socket closes and
    a webhook reports a group room. *)
#[local] Existing Instance call_env.
#[local] Existing Instance toy_jwt.
#[local] Existing Instance toy_crypto.
#[local] Existing Instance toy_validator.
#[local] Existing Instance toy_livekit.
#[local] Existing Instance toy_framework.
#[local] Existing Instance toy_cloudinary.
#[local] Instance livekit_environment : Environment := λ name,
  if startsWith name "LIVEKIT" then Some "set" else sample_environment name.

(** The id of the call Alice's invitation creates when it runs first. *)
Definition created_id : string :=
  match (run (handleInvite alice_socket (JObj [("targetUserId", JStr BOB)])) call_world).1 with
  | Ok ack => str_field "callId" ack
  | Err _ => ""
  end.
Definition call_requests : list request :=
  [REvent alice_socket "call:invite" (JObj [("targetUserId", JStr BOB)]);
   REvent bob_socket "call:accept" (JObj [("callId", JStr created_id)]);
   REvent alice_socket "call:hangup" (JObj [("callId", JStr created_id)]);
   RCallDisconnect bob_socket; RLivekitWebhook (Some "group-x") (Some "signed")].
Definition call_turns : list nat := repeat 0%nat 25 ++ repeat 1%nat 15 ++ mjoin (repeat [2; 3; 4]%nat 30).
Definition call_config (turns : nat) := drive (take turns call_turns) (call_world, map handle call_requests).

(** Both ends closed the log of the call, and each user has one row. *)
Example call_final :
  let d := w_db (call_config 200).1 in
  (map (λ c, (cl_type c, cl_status c, bool_decide (cl_endedAt c = None))) (callLogs d), map cp_username (callParticipants d))
  = ([("WEBRTC", "completed", false); ("LIVEKIT", "missed", true)], ["alice"; "bob"]).
Proof. vm_compute. reflexivity. Qed.

Lemma call_run turns : server_run call_world call_requests (call_config turns).
Proof. by apply schedule_run. Qed.

Lemma call_tables_well_formed_witness : call_tables_wf (w_db (call_config 200).1).
Proof.
  apply (call_tables_well_formed call_world call_requests); [|apply call_run].
  split; split; try apply NoDup_nil_2; apply Forall_nil_2.
Defined.

Lemma call_log_append_only_witness :
  log_grows (callLogs (w_db (call_config 30).1)) (callLogs (w_db (drive (drop 30 call_turns) (call_config 30)).1)).
Proof. apply (call_log_append_only call_world call_requests); [apply call_run|apply drive_run]. Defined.

(** The check that the callee is free and the creation of the call are separate
    commands: two invitations that cross both pass it, and each
    of the two is called by the other. *)
Definition crossing : World :=
  (drive (mjoin (repeat [0; 1]%nat 30))
     (call_world, map handle [REvent alice_socket "call:invite" (JObj [("targetUserId", JStr BOB)]);
                              REvent bob_socket "call:invite" (JObj [("targetUserId", JStr ALICE)])])).1.
Example crossing_invitations :
  (length (callLogs (w_db crossing)),
   map (λ e, match e with Emit rooms _ event _ => (event, rooms) | _ => ("", []) end) (w_out crossing))
  = (2%nat, [("call:incoming", [userRoom BOB]); ("call:incoming", [userRoom ALICE])]).
Proof. vm_compute. reflexivity. Qed.
