(* ===== verification/Domain.v ===== *)
(** * Domain: what the code keeps true of the rows it stores

    Postgres checks lengths, ranges, uniqueness and foreign keys; the columns of the
    message types, of the channel types and of the contents are free text, and nothing in
    the schema ties a direct channel to two people.  These are kept by the guards of
    [assertSendLimits], [create] and [addMember]. *)
From Stdlib Require Import String.
From S2P Require Import Prelude JsString Json Effects Errors Redis Schema World Crypto Config RateLimit RedisSession.
From S2P Require Import RedisCache Socket ChannelMembers Messages Channels Reactions Users Keys Srp Auth Chat DbStep Exclusive.
From S2P Require Import LiveKit Validation SocketAuth Http Uploads System Samples Invariants.
From stdpp Require Import base list strings gmap relations.

Local Open Scope string_scope.
Local Open Scope Z_scope.
Local Open Scope list_scope.

(** Every stored message is as the API promises. *)
Definition messages_ok (d : Db) : Prop := ∀ m, m ∈ messages d → message_ok m.
(** Every channel is a direct one or a group. *)
Definition channels_ok (d : Db) : Prop := ∀ c, c ∈ channels d → c_type c = "DIRECT" ∨ c_type c = "GROUP".
(** A direct channel is between two users: nobody else is ever in it. *)
Definition direct_ok (d : Db) : Prop := ∀ c, is_direct d c = true → ∃ a b, ∀ u, u ∈ member_ids c d → u = a ∨ u = b.
Definition domain_ok (d : Db) : Prop := messages_ok d ∧ channels_ok d ∧ direct_ok d.

Lemma message_ok_wipe m now : message_ok m →
  message_ok (m <| m_isDeleted := true |> <| m_encryptedContent := "" |> <| m_metadata := None |> <| m_updatedAt := now |>).
Proof. intros (_ & _ & Ht & Hi & Hg & _). split_and!; try done; [by left|apply Hi|apply Hi|apply Hg|apply Hg]. Qed.

Lemma messages_ok_step d d' : db_step d d' → messages_ok d → messages_ok d'.
Proof.
  intros Hs Hok. assert (Hcase : messages d' = messages d ∨ (∃ msg, messages d' = messages d ++ [msg] ∧ message_ok msg) ∨
      ∃ id now, messages d' = messages (wipe_message id now d)).
  { destruct Hs as [l Hs]. destruct Hs; simpl; auto.
    - right; left. exists msg. split; [|done]. by apply insert_row_ok in H as (-> & _).
    - right; right. exists id, now. apply deletion_frame.
    - left. case_match; [|done]. by use_promotion. }
  intros m Hm. destruct Hcase as [Heq|[(msg & Heq & Hmsg)|(id & now & Heq)]]; rewrite Heq in Hm.
  - by apply Hok.
  - apply elem_of_app in Hm as [Hm|Hm%list_elem_of_singleton]; [by apply Hok|by subst].
  - apply elem_of_update_where in Hm as (m0 & Hm0 & ->). case_match; [by apply message_ok_wipe, Hok|by apply Hok].
Qed.

Lemma channels_ok_step d d' : db_step d d' → channels_ok d → channels_ok d'.
Proof.
  intros Hs Hok c Hc. destruct (channels_step _ _ Hs) as [(p & f & Heq & Hf)|(ch & Heq & _ & Htype)]; rewrite Heq in Hc.
  - apply elem_of_update_where in Hc as (c0 & Hc0 & ->). case_match; [rewrite (proj2 (Hf c0))|]; by apply Hok.
  - apply elem_of_app in Hc as [Hc|Hc%list_elem_of_singleton]; [by apply Hok|subst; set_solver].
Qed.

Lemma direct_ok_step d d' : db_step d d' → memberships_fk d → direct_ok d → direct_ok d'.
Proof.
  intros Hs Hfk Hok c Hc. pose proof Hs as [l Hl].
  destruct (members_step _ _ _ Hl) as [Hf|(ch & rows & Hch & Hms & Hrows & Hnew & Hdir)].
  - destruct (has_channel d c) eqn:Hh.
    + pose proof (channels_kept d d' c Hs Hh) as [Hd _]. rewrite Hd in Hc. destruct (Hok c Hc) as (a & b & Hab).
      exists a, b. intros u (m' & Hm' & Hu & Hcm)%elem_of_member_ids.
      destruct (Hf _ Hm') as [(m & Hm & Hum & Hmc)|[Hnd _]]; [|congruence].
      apply Hab, elem_of_member_ids. exists m. split; [done|]. split; congruence.
    + exists "", "". intros u Hu. pose proof (old_channel _ _ _ _ Hfk Hf Hu). congruence.
  - assert (Hmem : ∀ u, u ∈ member_ids c d' → u ∈ member_ids c (d <| memberships := memberships d ++ rows |>))
      by (intros u; unfold member_ids; by rewrite Hms).
    destruct (decide (c = c_id ch)) as [->|Hne].
    + destruct Hdir as (a & b & _ & Hab & _); [by eapply created_is_direct|]. exists a, b.
      intros u Hu. pose proof (created_direct _ _ _ _ Hfk Hnew (Hmem _ Hu)) as Hin. rewrite Hab in Hin. set_solver.
    + destruct (has_channel d c) eqn:Hh.
      * pose proof (channels_kept d d' c Hs Hh) as [Hd _]. rewrite Hd in Hc. destruct (Hok c Hc) as (a & b & Hab).
        exists a, b. intros u Hu. by apply Hab, (created_members _ _ _ _ _ Hrows (Hmem _ Hu)).
      * exists "", "". intros u Hu. pose proof (created_members _ _ _ _ _ Hrows (Hmem _ Hu) Hne) as Hu'.
        pose proof (member_has _ _ _ Hfk Hu'). congruence.
Qed.

(** * The property of the server *)
Section Server.
Context {R : Redis} {E : Env} {C : Crypto} {J : Jwt} {P : Environment} {V : ClassValidator} {L : LiveKit} {F : Framework} {K : Cloudinary}.

(** C12: what no column checks holds in every state of every run: a stored message has
    some content of at most 10 KB unless it was deleted, one of the four types, a bounded
    IV and tag, and metadata that is an object of at most 64 KB; a channel is a direct one
    or a group; and nobody but its two users is ever in a direct channel. *)
Theorem stored_rows_in_domain (w : World) (rs : list request) c
  (Hinit : domain_ok (w_db w)) (Hrun : server_run w rs c) : domain_ok (w_db c.1).
Proof.
  assert (Hinv : memberships_fk (w_db c.1) ∧ domain_ok (w_db c.1)); [|by apply Hinv].
  eapply (run_invariant (λ d, memberships_fk d ∧ domain_ok d)); [|split; [apply Hrun|done]|exact Hrun].
  intros d d' (Hfk & Hm & Hc & Hd) Hs. split; [destruct Hs as [l Hs]; by eapply memberships_fk_step|].
  split; [by eapply messages_ok_step|]. split; [by eapply channels_ok_step|by eapply direct_ok_step].
Qed.
End Server.

(** ** On the requests of Invariants *)
#[local] Existing Instance sample_env.
#[local] Existing Instance toy_jwt.
#[local] Existing Instance sample_environment.
#[local] Existing Instance toy_crypto.
#[local] Existing Instance toy_validator.
#[local] Existing Instance toy_livekit.
#[local] Existing Instance toy_framework.
#[local] Existing Instance toy_cloudinary.

Lemma sample_domain : domain_ok sample_db.
Proof.
  split_and!.
  - intros m Hm. cbn in Hm. rewrite !elem_of_cons, elem_of_nil in Hm.
    destruct Hm as [->|[->|[]]]; (split_and!; [by right|vm_compute; discriminate|by left|vm_compute; (discriminate || done)..|done]).
  - intros c Hc. cbn in Hc. rewrite !elem_of_cons, elem_of_nil in Hc. destruct Hc as [->|[->|[]]]; cbn; auto.
  - intros c Hc. exists "alice", "bob". assert (c = "d") as ->.
    { unfold is_direct, find_channel in Hc. cbn in Hc. destruct (decide ("g" = c)) as [<-|H1]; [done|].
      rewrite bool_decide_eq_false_2 in Hc by done. cbn in Hc. destruct (decide ("d" = c)) as [<-|H2]; [done|].
      by rewrite bool_decide_eq_false_2 in Hc. }
    intros u Hu. vm_compute in Hu. set_solver.
Qed.
Lemma stored_rows_in_domain_witness : domain_ok (w_db (sample_config 40).1).
Proof. apply (stored_rows_in_domain sample_world sample_requests); [exact sample_domain|apply sample_run]. Defined.
