(* ===== verification/Authorship.v ===== *)
(** * Authorship: nothing is said or changed in the name of somebody else

    The transitions of the abstract database machine carry the user who acts
    ([step_by]), and System.v shows that a handler only acts for the subject of a token
    that was verified.  So a user who presents no valid token during a run finds its
    messages, read receipts, sender keys and account as they were. *)
From Stdlib Require Import String.
From S2P Require Import Prelude JsString Json Effects Errors Redis Schema World Samples Crypto Config RateLimit Messages Reactions Users Keys Auth.
From S2P Require Import LiveKit Validation SocketAuth Events Http Uploads Routes Requests CallFlow Footprint DbStep Exclusive System Invariants.
From stdpp Require Import base list strings gmap relations.

Local Open Scope string_scope.
Local Open Scope Z_scope.
Local Open Scope list_scope.

(** ** What belongs to a user *)
Section Belongings.
Context (user : string).

Definition others : Authority := λ u, u ≠ user.
#[local] Existing Instance others.

Definition own_messages (d : Db) : list MessageRow := select (λ m, m_senderId m === user) (messages d).
Definition own_reads (d : Db) : list MessageReadRow := select (λ r, mr_userId r === user) (messageReads d).
Definition own_senderKeys (d : Db) : list SenderKeyRow := select (λ k, sk_ownerId k === user) (senderKeys d).
Definition own_reactions (d : Db) : list ReactionRow := select (λ r, re_userId r === user) (reactions d).
(** The account: everything but the presence and the time of the last login. *)
Definition account_row (u : UserRow) : UserRow := u <| u_status := "" |> <| u_lastLoginAt := None |>.
Definition own_account (d : Db) : option UserRow := account_row <$> find_user user d.

Definition message_deleted (id : string) (d : Db) : Prop := ∃ m, m ∈ messages d ∧ m_id m = id ∧ m_isDeleted m = true.
Definition reactions_kept (d d' : Db) : Prop :=
  own_reactions d' `sublist_of` own_reactions d ∧
  ∀ r, r ∈ own_reactions d → r ∈ own_reactions d' ∨ message_deleted (re_messageId r) d'.

Lemma not_own a b : acts a → b = a → bool_decide (b = user) = false.
Proof. intros Ha ->. by apply bool_decide_eq_false_2. Qed.
#[local] Hint Resolve not_own : core.

Lemma own_messages_step d d' : ids_unique d → step_by d d' → own_messages d' = own_messages d.
Proof.
  intros Hids. unfold own_messages. intros [l Hs]; destruct Hs; simpl; try done.
  - apply insert_row_ok in H as (-> & _). apply select_app_other, Forall_singleton. by apply bool_decide_eq_false_2.
  - rewrite (proj1 (deletion_frame _ _ _ _ _)). apply first_Some in H as [Hin Hid]. boolp. subst id.
    apply select_update_other. intros r Hr Hq. boolp.
    assert (r = msg) as -> by by eapply (NoDup_map_inj m_id).
    split; by apply bool_decide_eq_false_2.
  - case_match; [|done]. by use_promotion.
Qed.

Lemma own_reads_step d d' : step_by d d' → own_reads d' = own_reads d.
Proof.
  unfold own_reads. intros [l Hs]; destruct Hs; simpl; try done.
  - unfold deletion. cbv zeta. by case_match.
  - case_match; [|done]. by use_promotion.
  - unfold insert_messageRead in H. apply insert_row_ok in H as (-> & _). apply select_app_other, Forall_singleton.
    by apply bool_decide_eq_false_2.
Qed.

Lemma own_senderKeys_step d d' : step_by d d' → own_senderKeys d' = own_senderKeys d.
Proof.
  unfold own_senderKeys, insert_senderKey. intros [l Hs]; destruct Hs; simpl; try done.
  - unfold deletion. cbv zeta. by case_match.
  - case_match; [|done]. by use_promotion.
  - unfold insert_senderKey in H0. apply insert_rows_app in H0 as ->. rewrite select_app_other.
    + apply select_delete_other. intros r _ Hr. unfold owned_keys in Hr. boolp. eauto.
    + eapply Forall_impl; [exact H|]. intros r Hr. unfold owned_keys in Hr. boolp. eauto.
Qed.

Lemma message_deleted_step id d d' : step_by d d' → message_deleted id d → message_deleted id d'.
Proof.
  intros Hs%step_everyone (m & Hm & Hid & Hdel).
  destruct (messages_step _ _ Hs) as [He|[(msg & t & _ & He & _)|(i & now & He)]]; unfold message_deleted; rewrite He.
  - by exists m.
  - exists m. split; [apply elem_of_app; by left|done].
  - eexists. split; [apply elem_of_update_where; exists m; split; [done|reflexivity]|]. by case_match.
Qed.

Lemma reactions_kept_refl d : reactions_kept d d.
Proof. split; [done|auto]. Qed.
Lemma reactions_kept_same d d' : own_reactions d' = own_reactions d → reactions_kept d d'.
Proof. intros H. unfold reactions_kept. rewrite H. split; [done|auto]. Qed.

Lemma reactions_kept_step d d' : step_by d d' → reactions_kept d d'.
Proof.
  intros [l Hs]; destruct Hs; try (apply reactions_kept_same; reflexivity).
  - apply first_Some in H as [Hin Hid]. boolp. subst id. unfold reactions_kept, own_reactions.
    rewrite (proj2 (proj2 (proj2 (deletion_frame (m_channelId msg) (m_id msg) now now' d)))).
    split; [apply select_delete_sublist|].
    intros r Hr. destruct (re_messageId r === m_id msg) eqn:Hm; [right|left].
    + boolp. rewrite Hm. exists (msg <| m_isDeleted := true |> <| m_encryptedContent := "" |> <| m_metadata := None |> <| m_updatedAt := now |>).
      split; [|done]. rewrite (proj1 (deletion_frame _ _ _ _ _)). apply elem_of_update_where. exists msg. split; [done|].
      by rewrite bool_decide_eq_true_2.
    + rewrite !elem_of_select, elem_of_delete_where in *. by destruct Hr.
  - apply reactions_kept_same. unfold own_reactions, removal. cbv zeta. simpl. case_match; [|done]. by use_promotion.
  - apply reactions_kept_same. unfold own_reactions. simpl. unfold insert_reaction in H3. apply insert_row_ok in H3 as (-> & _).
    rewrite select_app_other.
    + apply select_delete_other. intros r _ Hr. unfold user_reactions in Hr. boolp. eauto.
    + apply Forall_singleton. eauto.
  - apply reactions_kept_same. apply select_delete_other. intros r _ Hr. unfold user_reactions in Hr. boolp. eauto.
  - apply reactions_kept_same. apply select_delete_other. intros r _ Hr. unfold user_reactions in Hr. boolp. eauto.
Qed.

Lemma own_account_update p f (l : list UserRow) : (∀ u, u_id (f u) = u_id u) →
  (∀ u, p u = true → u_id u = user → account_row (f u) = account_row u) →
  account_row <$> head (select (λ u, u_id u === user) (update_where p f l)) = account_row <$> head (select (λ u, u_id u === user) l).
Proof.
  intros Hid Hf. rewrite first_update by (intros r _; by rewrite Hid).
  destruct (head _) as [u|] eqn:Hu; [|done]. apply first_Some in Hu as [_ Hu]. boolp. simpl. case_match; [|done]. f_equal. by apply Hf.
Qed.

Lemma own_account_step d d' a : step_by d d' → own_account d = Some a → own_account d' = Some a.
Proof.
  unfold own_account, find_user. intros [l Hs]; destruct Hs; simpl; try done.
  - unfold deletion. cbv zeta. by case_match.
  - case_match; [|done]. by use_promotion.
  - apply insert_row_ok in H as (-> & _). intros (u0 & Hu & ->)%fmap_Some. by rewrite (first_app _ _ _ _ Hu).
  - apply checked_update_ok in H as ->. rewrite own_account_update; [done..|]. intros v Hv ?. cbv beta in Hv. boolp. by subst.
  - apply checked_update_ok in H0 as ->. rewrite own_account_update; [done..|]. intros v Hv ?. boolp. by subst.
  - by rewrite own_account_update.
  - by rewrite own_account_update.
Qed.

(** ** Over a run *)
Definition untouched (d d' : Db) : Prop :=
  own_messages d' = own_messages d ∧ own_reads d' = own_reads d ∧ own_senderKeys d' = own_senderKeys d ∧
  reactions_kept d d' ∧ (∀ a, own_account d = Some a → own_account d' = Some a).

Lemma message_deleted_steps id d d' : rtc step_by d d' → message_deleted id d → message_deleted id d'.
Proof. induction 1; eauto using message_deleted_step. Qed.

Lemma untouched_steps d d' : ids_unique d → rtc step_by d d' → untouched d d'.
Proof.
  intros Hids Hs. revert Hids. induction Hs as [d|d d1 d2 H1 Hs IH]; intros Hids.
  { split_and!; try done. apply reactions_kept_refl. }
  destruct IH as (Hm & Hr & Hk & [Hsub Hkept] & Ha). { by eapply ids_unique_step, step_everyone. }
  destruct (reactions_kept_step _ _ H1) as [Hsub1 Hkept1]. split_and!.
  - by rewrite Hm, (own_messages_step _ _ Hids H1).
  - by rewrite Hr, (own_reads_step _ _ H1).
  - by rewrite Hk, (own_senderKeys_step _ _ H1).
  - split; [by transitivity (own_reactions d1)|]. intros r Hin.
    destruct (Hkept1 r Hin) as [H|H]; [by apply Hkept|right; by eapply message_deleted_steps].
  - intros a Ha1. by eapply Ha, own_account_step.
Qed.
End Belongings.

(** ** The properties of the server *)
Section Server.
Context {R : Redis} {E : Env} {C : Crypto} {J : Jwt} {P : Environment} {V : ClassValidator} {L : LiveKit} {F : Framework} {K : Cloudinary}.

(** The request comes with a token whose subject is [user], which the verification
    accepts at some time; the entry points of the services name their user. *)
Definition speaks_for (user : string) (r : request) : Prop :=
  match r with
  | RSend input _ => si_userId input = user
  | RDeleteMessage u _ | RMarkRead u _ _ | RRotateKeys u _ | RUploadSenderKeys u _ _ _ | RUpdateProfile u _ => u = user
  | RAddReaction actor _ _ _ | RRemoveReaction actor _ _ _ => a_id actor = user
  | RConnect client | REvent client _ _ => ∃ token n exp, extractSocketToken client = Some token ∧ verifyHS256 n token = Ok (user, exp)
  | RHttp req => ∃ n payload, jwt_payload n (hr_authorization req) = Some payload ∧ subject payload = Some user
  | _ => False
  end.
(** No socket of the server is the user's. *)
Definition no_socket (user : string) (w : World) : Prop :=
  ∀ s data u, g_data (w_gateway w) !! s = Some data → sd_user data = Some u → su_id u ≠ user.

Lemma permitted_others user r : (speaks_for user r → False) → permitted (A := others user) r.
Proof.
  intros Hr. destruct r; cbn [permitted speaks_for] in *; try done;
    try (intros token n sub exp Ht Hv ->; apply Hr; eauto); intros n payload sub Hp Hs ->; apply Hr; eauto.
Qed.

(** C3: nobody is impersonated: over any run of the server, whatever requests come in,
    however they interleave and whatever Redis, Socket.IO, the queue and the driver
    answer, a user for whom no request presents a valid token (and who has no socket
    from before) finds its messages, read receipts and sender keys exactly as they
    were, its account too but for the presence and the last login (name, email,
    password verifier, keys, key version), and its reactions but for those on messages
    that their own senders deleted. *)
Theorem nobody_impersonated (user : string) (w : World) (rs : list request) c
  (Hids : ids_unique (w_db w)) (Hsockets : no_socket user w) (Hnone : Forall (λ r, speaks_for user r → False) rs)
  (Hrun : server_run w rs c) : untouched user (w_db w) (w_db c.1).
Proof.
  apply untouched_steps; [done|]. apply (run_steps_by (A := others user) w rs).
  - intros s data Hs u Hu. by apply (Hsockets s data).
  - eapply Forall_impl; [exact Hnone|]. apply permitted_others.
  - done.
Qed.
End Server.

(** ** On a concrete run: Alice and a forger against Bob *)
#[local] Existing Instance call_env.
#[local] Existing Instance toy_jwt.
#[local] Existing Instance sample_environment.
#[local] Existing Instance toy_crypto.
#[local] Existing Instance toy_validator.
#[local] Existing Instance toy_livekit.
#[local] Existing Instance toy_framework.
#[local] Existing Instance toy_cloudinary.

Definition MESSAGE_ID : string := "dddddddd-dddd-4ddd-8ddd-dddddddddddd".
(** Bob has a message in the group, with a reaction of his own; Alice is connected. *)
Definition group_world : World (R := mem_redis) :=
  mkWorld (empty_db <| users := [sample_user ALICE "alice"; sample_user BOB "bob"] |>
                    <| channels := [sample_channel GROUP_ID "GROUP"] |>
                    <| memberships := [sample_member "m1" "ADMIN" ALICE GROUP_ID 1; sample_member "m2" "MEMBER" BOB GROUP_ID 2] |>
                    <| messages := [sample_message MESSAGE_ID BOB GROUP_ID 1] |>
                    <| reactions := [mkReaction "r1" "up" 1 MESSAGE_ID BOB] |>)
    ∅ 0 [] true (no_sockets <| g_data := {["sA" := mkSocketData (Some (mkSocketUser ALICE "alice" "ONLINE")) None]} |>) ∅.

Definition message_of (userId : string) : json :=
  JObj [("channelId", JStr GROUP_ID); ("encryptedContent", JStr "hi"); ("contentIv", JStr "iv"); ("contentTag", JStr "tag");
        ("signature", JStr ""); ("sequenceNumber", JNum 0); ("senderKeyEpoch", JNum 1); ("senderId", JStr userId); ("userId", JStr userId)].
Definition unlike_bob : json := JObj [("channelId", JStr GROUP_ID); ("messageId", JStr MESSAGE_ID); ("emoji", JStr "up")].

(** A message that says it is from Bob, from Alice's socket and from one with a forged
    token, and requests of Alice on Bob's message, reaction and name. *)
Definition attacks : list request :=
  [REvent alice_socket "send-message" (message_of BOB);
   REvent (mkClient "sX" "203.0.113.9" (Some "forged") None HNone) "send-message" (message_of BOB);
   REvent alice_socket "reaction:remove" unlike_bob;
   RHttp (sample_request "DELETE" ["messages"; MESSAGE_ID] JNull JNull (Some ("Bearer " +:+ ALICE)));
   RHttp (sample_request "PUT" ["api"; "users"; "me"] JNull (JObj [("username", JStr "mallory")]) (Some ("Bearer " +:+ ALICE)));
   RHttp (sample_request "POST" ["messages"] JNull (message_of BOB) None)].
Definition attacked : World * list (M ()) := drive (mjoin (repeat (seq 0 6) 60)) (group_world, map handle attacks).

Example attacks_end :
  let d := w_db attacked.1 in
  (map (λ m, (m_senderId m, m_isDeleted m)) (messages d), map re_userId (reactions d), map u_username (users d))
  = ([(BOB, false); (ALICE, false)], [BOB], ["mallory"; "bob"]).
Proof. vm_compute. reflexivity. Qed.

Lemma nobody_impersonated_witness : untouched BOB (w_db group_world) (w_db attacked.1).
Proof.
  apply (nobody_impersonated BOB group_world attacks attacked).
  - apply NoDup_singleton.
  - intros s data u Hs Hu. simpl in Hs. apply lookup_singleton_Some in Hs as [_ <-]. injection Hu as <-. discriminate.
  - unfold attacks. repeat (apply Forall_cons; split); [..|apply Forall_nil_2]; cbn [speaks_for].
    1,3: intros (token & n & exp & Ht & _); discriminate Ht.
    1: intros (token & n & exp & [= <-] & Hv); discriminate Hv.
    all: intros (n & payload & Hp & Hs); vm_compute in Hp; first [discriminate Hp|injection Hp as <-; vm_compute in Hs; discriminate Hs].
  - by apply schedule_run.
Defined.
