(* ===== verification/Conformance.v ===== *)
(** * Conformance: the tests of the repository, evaluated on the model

    Each example runs the inputs of a test under src/test/ on the definitions of this
    development and has the result the test expects.  The libraries and services the
    tests replace by stand-ins are the concrete instances of Samples.v; where a test
    only constrains its result, the example gives the value the constraint is about. *)
From Stdlib Require Import Ascii String.
From S2P Require Import Prelude JsString Json IsoDate Effects Errors Redis Schema World Samples Crypto Config FileType RateLimit.
From S2P Require Import RedisSession RedisCache Socket ChannelMembers Messages Channels Reactions Users Keys Srp Auth Chat.
From S2P Require Import LiveKit Validation SocketAuth SocketGateway ChatGateway Calls Dto Http.
From stdpp Require Import base list strings gmap.

Local Open Scope string_scope.
Local Open Scope Z_scope.
Local Open Scope list_scope.

#[local] Existing Instance sample_env.
#[local] Existing Instance toy_jwt.
#[local] Existing Instance toy_crypto.
#[local] Existing Instance toy_validator.

(** ** test/common/errors.spec.ts *)
Definition pg_error (code : string) : thrown := PgError code "duplicate key value violates unique constraint".
Definition plain_error (message : string) : thrown := ErrObj "Error" message JNull NotObject JNull JNull JNull JNull.
Definition http_error (t : thrown) : Z * string * string * option (list string) :=
  let n := normalizeException t in (ne_status n, http_code_string (ne_error n), ne_message n, ne_details n).

Example normalizes_http_errors :
  map http_error
    [HttpException 400 (JObj [("message", JStr "username too short"); ("details", JArr [JStr "username too short"; JStr "email invalid"])])
       "username too short";
     HttpException 400 (JObj [("message", JArr [JStr "a must be a string"; JStr "b must be an int"]); ("error", JStr "Bad Request");
                              ("statusCode", JNum 400)]) "Bad Request Exception";
     NotFoundException "User not found"; ConflictException "Username already taken"; HttpException 413 (JStr "x") "x";
     HttpException 429 (JStr "ThrottlerException: Too Many Requests") "ThrottlerException: Too Many Requests";
     http_exception 500 "Internal Server Error" "secret internals"]
  = [(400, "VALIDATION_ERROR", "username too short", Some ["username too short"; "email invalid"]);
     (400, "VALIDATION_ERROR", "a must be a string", Some ["a must be a string"; "b must be an int"]);
     (404, "NOT_FOUND", "User not found", None); (409, "CONFLICT", "Username already taken", None);
     (413, "PAYLOAD_TOO_LARGE", "x", None); (429, "RATE_LIMITED", "Too many requests, please try again later", None);
     (500, "INTERNAL_ERROR", "Internal server error", None)].
Proof. vm_compute. reflexivity. Qed.

Example normalizes_other_errors :
  map (λ t, (http_error t).1.1)
    [pg_error "23505"; pg_error "22P02"; pg_error "23503"; plain_error "boom: password=123";
     ErrObj "Error" "request entity too large" JNull NotObject (JNum 413) JNull (JStr "entity.too.large") (JBool true);
     ErrObj "Error" "Unexpected token" JNull NotObject (JNum 400) JNull (JStr "entity.parse.failed") (JBool true)]
  = [(409, "CONFLICT"); (400, "VALIDATION_ERROR"); (404, "NOT_FOUND"); (500, "INTERNAL_ERROR"); (413, "PAYLOAD_TOO_LARGE");
     (400, "VALIDATION_ERROR")].
Proof. vm_compute. reflexivity. Qed.

Example wrapped_pg_error :
  pm_error <$> mapPgError (ErrObj "Error" "Failed query" JNull (pg_error "23505") JNull JNull JNull JNull) = Some CONFLICT.
Proof. reflexivity. Qed.

Definition socket_error (t : thrown) : string * string :=
  let a := toSocketError t in (socket_code_string (ack_error a), ack_message a).
Example socket_errors :
  map socket_error
    [SocketError S_NOT_MEMBER "Not a member"; UnauthorizedException "x"; ForbiddenException "x"; NotFoundException "gone";
     HttpException 400 (JObj [("message", JArr [JStr "first"; JStr "second"])]) "Bad Request Exception";
     WsException (JObj [("error", JStr "RATE_LIMITED"); ("message", JStr "slow down")]); WsException (JStr "bad input");
     plain_error "ECONNREFUSED 10.0.0.1"]
  = [("NOT_MEMBER", "Not a member"); ("NOT_AUTHENTICATED", "x"); ("NOT_MEMBER", "x"); ("NOT_FOUND", "gone");
     ("VALIDATION_ERROR", "first"); ("RATE_LIMITED", "slow down"); ("VALIDATION_ERROR", "bad input");
     ("INTERNAL_ERROR", "Internal server error")].
Proof. vm_compute. reflexivity. Qed.

(** ** test/common/config.spec.ts *)
Definition env_of (vars : list (string * string)) : Environment := λ name, snd <$> head (select (λ v, v.1 === name) vars).
Definition valid_env : list (string * string) :=
  [("DATABASE_URL", "postgres://u:p@localhost:5432/db"); ("JWT_SECRET", "xxxxxxxxxxxxxxxxxxxxxxxxxxxxxxxx"); ("REDIS_URL", "redis://localhost:6379")].

Example environments :
  (validateEnv (env_of valid_env), length (validateEnv (env_of [("JWT_SECRET", "short")])),
   length (validateEnv (env_of (("CORS_ORIGIN", "*") :: valid_env)))) = ([], 3%nat, 1%nat).
Proof. vm_compute. reflexivity. Qed.
Example cors_origins :
  (getCorsOrigins (env_of [("CORS_ORIGIN", "https://a.example, https://b.example/ ,")]),
   getCorsOrigins (env_of [("CORS_ORIGIN", "*"); ("NODE_ENV", "production")])) = (["https://a.example"; "https://b.example"], []).
Proof. vm_compute. reflexivity. Qed.
Example database_ssl :
  let remote := [("DATABASE_URL", "postgres://h/db?sslmode=require"); ("NODE_ENV", "production")] in
  (getDbSslConfig (env_of remote), getDbSslConfig (env_of (("DB_SSL_REJECT_UNAUTHORIZED", "false") :: remote)),
   getDbSslConfig (env_of [("DATABASE_URL", "postgres://localhost/db")])) = (Some true, Some false, None).
Proof. vm_compute. reflexivity. Qed.
Example access_token_ttl :
  map (λ vars, getAccessTokenTtl (env_of vars)) [[]; [("JWT_ACCESS_TTL", "1h")]; [("JWT_ACCESS_TTL", "120")]] = [900; 3600; 120].
Proof. vm_compute. reflexivity. Qed.

(** ** test/common/request-id.middleware.spec.ts *)
Definition request_with_id (id : header) : HttpRequest :=
  mkHttpRequest "GET" [] "/" (JObj []) (Ok JNull) None None None id (Ok None).
Example request_ids :
  map (λ id, (run (RequestIdMiddleware (request_with_id id)) sample_world).1)
    [HNone; HStr "existing-id-123"; HStr "bad id
Injected: log line"]
  = [Ok "id-0-0"; Ok "existing-id-123"; Ok "id-0-0"].
Proof. vm_compute. reflexivity. Qed.

(** ** test/modules/uploads/file-type.spec.ts *)
Definition DOCX : string := "application/vnd.openxmlformats-officedocument.wordprocessingml.document".
Example file_types :
  map (λ f, mime_string <$> detectAllowedMime f.1 f.2)
    [([255; 216; 255; 224; 0; 0], "image/jpg"); ([137; 80; 78; 71; 13; 10; 26; 10; 0], "application/octet-stream");
     (utf8 "GIF89a....", "image/gif"); (utf8 "RIFF" ++ [0; 0; 0; 0] ++ utf8 "WEBPVP8 ", "image/webp"); (utf8 "%PDF-1.7", "application/pdf");
     (utf8 "<script>alert(1)</script>", "image/png"); ([77; 90; 144; 0], "application/pdf");
     ([80; 75; 3; 4; 0; 0], DOCX); ([80; 75; 3; 4; 0; 0], "application/zip"); ([208; 207; 17; 224; 161; 177; 26; 225], "application/msword");
     (utf8 "hello", "text/plain"); ([104; 0; 105], "text/plain"); ([195; 40], "text/plain")]
  = [Some "image/jpeg"; Some "image/png"; Some "image/gif"; Some "image/webp"; Some "application/pdf"; None; None; Some DOCX; None;
     Some "application/msword"; Some "text/plain"; None; None].
Proof. vm_compute. reflexivity. Qed.

(** ** test/shared/rate-limit/rate-limit.service.spec.ts *)
(** The sample environment without Redis, and with one that fails. *)
Definition with_conn (c : conn) : Env := {|
  now_at := @now_at sample_env; uuid_at := @uuid_at sample_env; conn_at _ := c; db_fault := @db_fault sample_env;
  sql_error := @sql_error sample_env; sockets_at := @sockets_at sample_env; queue_fault := @queue_fault sample_env;
  socket_ids_at := @socket_ids_at sample_env; connected_at := @connected_at sample_env; join_fault := @join_fault sample_env; ilike := @ilike sample_env; hashtext := @hashtext sample_env;
  lock_patience := @lock_patience sample_env;
|}.
Definition five_a_second : RateLimitConfig := mkRateLimitConfig 1000 5.
Definition answer {A} (p : M A) (w : World) : option A := match (run p w).1 with Ok a => Some a | Err _ => None end.
(** What a program answers, and the state it leaves. *)
Definition after {A} (p : M A) (w : World) : World := (run p w).2.

Example rate_limit_fails_open :
  map (λ c, (λ r, (allowed r, remaining r)) <$> answer (checkRateLimit (E := with_conn c) "test:u1" five_a_second) sample_world)
    [CNull; CFail false] = [Some (true, 5); Some (true, 5)].
Proof. vm_compute. reflexivity. Qed.
Fixpoint hits (n : nat) (w : World) : World := match n with O => w | S n => hits n (after (checkRateLimit "send:user1" five_a_second) w) end.
Example rate_limit_counts :
  let first := (run (checkRateLimit "send:user1" five_a_second) sample_world) in
  (match first.1 with Ok r => Some (allowed r, remaining r) | Err _ => None end,
   map fst (map_to_list (w_redis first.2)),
   (λ r, (allowed r, remaining r)) <$> answer (checkRateLimit "send:user1" five_a_second) (hits 5 sample_world),
   (λ r, (allowed r, remaining r)) <$> answer (checkRateLimit "send:user2" five_a_second) (hits 5 sample_world))
  = (Some (true, 4), ["zevra:ratelimit:send:user1"], Some (false, 0), Some (true, 4)).
Proof. vm_compute. reflexivity. Qed.
Example rate_limit_presets : 0 < maxRequests SEND_MESSAGE ∧ windowMs CONNECTION_PER_IP = 60000.
Proof. done. Qed.

(** ** test/redis/redis-services.spec.ts *)
Section Degraded.
#[local] Instance no_client : Env := with_conn CNull.
Example degraded_mode :
  (answer (cacheMessage "ch1" (JObj [("id", JStr "1")])) sample_world, answer (getRecentMessages "ch1" 50) sample_world,
   answer (incrementUnread "u1" "ch1") sample_world, map_to_list <$> answer (getUnreadCounts "u1" ["ch1"; "ch2"]) sample_world,
   answer (setTyping "ch1" "u1") sample_world, answer (getTypingUsers "ch1") sample_world,
   (answer (addSocket "u1" "s1") sample_world, answer (removeSocket "u1" "s1") sample_world, answer (isOnline "u1") sample_world,
    answer (getOnlineUsers ["u1"]) sample_world, answer (popPendingMessages "u1" 100) sample_world))
  = (Some (), Some [], Some 0, Some [("ch1", 0); ("ch2", 0)], Some (), Some [],
     (Some None, Some None, Some false, Some [], Some ([], 0))).
Proof. vm_compute. reflexivity. Qed.
End Degraded.

Definition id_json (i : nat) : json := JObj [("id", JStr (z_to_string (Z.of_nat i)))].
Fixpoint cached (n : nat) : World := match n with O => sample_world | S n => after (cacheMessage "ch1" (id_json n)) (cached n) end.
Example caches_messages :
  (answer (getRecentMessages "ch1" 10) (cached 2), length <$> answer (getRecentMessages "ch1" 50) (cached 60),
   answer (getRecentMessages "ch1" 3) (cached 60),
   answer (getRecentMessages "ch1" 50) (after (invalidateMessages "ch1") (cached 1)))
  = (Some [id_json 0; id_json 1], Some 50%nat, Some [id_json 57; id_json 58; id_json 59], Some []).
Proof. vm_compute. reflexivity. Qed.

Example counts_unread :
  let w1 := after (incrementUnread "u1" "ch1") sample_world in
  let w2 := after (incrementUnreadMany ["u1"; "u2"] "ch1") w1 in
  let w3 := after (resetUnread "u1" "ch1") w2 in
  (answer (incrementUnread "u1" "ch1") sample_world, map_to_list <$> answer (getUnreadCounts "u1" ["ch1"; "ch2"]) w2,
   answer (getUnreadCount "u2" "ch1") w2, answer (getUnreadCount "u1" "ch1") w3)
  = (Some 1, Some [("ch1", 2); ("ch2", 0)], Some 1, Some 0).
Proof. vm_compute. reflexivity. Qed.

Example tracks_typing :
  let w := after (setTyping "ch1" "user2") (after (setTyping "ch1" "user1") sample_world) in
  (answer (getTypingUsers "ch1") w, answer (getTypingUsers "ch1") (after (clearTyping "ch1" "user1") w)) = (Some ["user1"; "user2"], Some ["user2"]).
Proof. vm_compute. reflexivity. Qed.

Example tracks_sockets :
  let w1 := after (addSocket "u1" "s1") sample_world in let w2 := after (addSocket "u1" "s2") w1 in
  let w3 := after (removeSocket "u1" "s1") w2 in
  (answer (addSocket "u1" "s1") sample_world, answer (addSocket "u1" "s2") w1, answer (removeSocket "u1" "s1") w2,
   answer (removeSocket "u1" "s2") w3) = (Some (Some 1), Some (Some 2), Some (Some 1), Some (Some 0)).
Proof. vm_compute. reflexivity. Qed.
(** A socket that stopped its heartbeats ten minutes ago does not count. *)
Example ignores_dead_sockets :
  let w0 := sample_world <| w_redis := {[RedisKeys.sockets "u1" := (RZset [(1700000000000 - 600000, "dead")], None : option Z)]} |> in
  let w1 := after (addSocket "u1" "s1") w0 in
  (answer (addSocket "u1" "s1") w0, answer (removeSocket "u1" "s1") w1) = (Some (Some 1), Some (Some 0)).
Proof. vm_compute. reflexivity. Qed.
Example tracks_presence :
  let w := after (setOnline "user3") (after (setOnline "user1") sample_world) in
  (answer (isOnline "user1") w, answer (getOnlineUsers ["user1"; "user2"; "user3"]) w,
   answer (isOnline "user1") (after (setOffline "user1") w)) = (Some true, Some ["user1"; "user3"], Some false).
Proof. vm_compute. reflexivity. Qed.

Definition queued (id : string) (at_ms : Z) : PendingMessage :=
  mkPendingMessage id id "ch1" "sender" (Some "alice") "enc" "iv" "tag" "sig" 1 0 "TEXT" None false (toISOString at_ms).
Definition ids_of (r : option (list json * Z)) : option (list (option json) * Z) := (λ r, (map (λ j, get_field j "id") r.1, r.2)) <$> r.
Example pops_in_order :
  let five := foldl (λ w i, after (addPendingMessage ["u1"] (queued ("m" +:+ z_to_string i) (1000 + i))) w) sample_world [0; 1; 2; 3; 4] in
  let first := popPendingMessages "u1" 2 in
  let w := after (addPendingMessage ["u1"] (queued "late" 500)) (after first five) in
  (ids_of (answer first five), ids_of (answer (popPendingMessages "u1" 10) w),
   ids_of (answer (popPendingMessages "u2" 100) (after (addPendingMessage ["u1"; "u2"] (queued "m1" 1000)) sample_world)))
  = (Some ([Some (JStr "m0"); Some (JStr "m1")], 3),
     Some ([Some (JStr "late"); Some (JStr "m2"); Some (JStr "m3"); Some (JStr "m4")], 0), Some ([Some (JStr "m1")], 0)).
Proof. vm_compute. reflexivity. Qed.

(** ** test/modules/channels/channels.service.spec.ts *)
Definition message_of_error (t : thrown) : string :=
  match t with HttpException _ _ m | SocketError _ m | ErrObj _ m _ _ _ _ _ _ => m | _ => "" end.
Definition error_of {A} (p : M A) (w : World) : option string := match (run p w).1 with Err t => Some (message_of_error t) | Ok _ => None end.

Example refuses_channels :
  [error_of (create "alice" ["bob"; "carol"] "DIRECT" None) sample_world; error_of (create "alice" ["alice"] "DIRECT" None) sample_world;
   error_of (create "alice" ["alice"] "GROUP" None) sample_world; error_of (create "alice" ["bob"; "nobody"] "GROUP" None) sample_world]
  = map Some ["Direct message requires exactly 1 other participant"; "Cannot create DM with yourself";
              "At least one other participant is required"; "One or more participants do not exist"].
Proof. vm_compute. reflexivity. Qed.
Example typing_of_others :
  let typed := foldl (λ w u, after (setTyping "g" u) w) sample_world ["alice"; "bob"; "carol"] in
  (answer (getTypingUsersOf "g" "alice") typed, error_of (getTypingUsersOf "d" "carol") sample_world)
  = (Some ["bob"; "carol"], Some "Not a member of this channel").
Proof. vm_compute. reflexivity. Qed.
(** Bob reads the second message, then the first. *)
Example reads_forward_only :
  let read := after (markRead "bob" "g" "msg2") sample_world in let again := after (markRead "bob" "g" "msg1") read in
  (answer (markRead "bob" "g" "msg2") sample_world, answer (markRead "bob" "g" "msg1") read,
   map_to_list <$> answer (getReadReceipts "g" "alice") again, length (w_out again),
   [error_of (markRead "carol" "d" "msg1") sample_world; error_of (markRead "bob" "d" "msg1") sample_world;
    error_of (getReadReceipts "d" "carol") sample_world])
  = (Some (true, true), Some (true, false), Some [("bob", "msg2")], 1%nat,
     [Some "Not a member of this channel"; Some "Message not found in this channel"; Some "Not a member of this channel"]).
Proof. vm_compute. reflexivity. Qed.

(** ** test/socket/socket-auth.guard.spec.ts *)
(** Tokens: "alice" and "ghost" are valid for the users of those ids, "old" has expired. *)
Definition test_jwt : Jwt := {|
  verifyAsync _ token := Ok (Some token);
  verifyHS256 _ token :=
    if token === "old" then Err (ErrObj "TokenExpiredError" "jwt expired" JNull NotObject JNull JNull JNull JNull)
    else if token === "bad" then Err (ErrObj "JsonWebTokenError" "invalid signature" JNull NotObject JNull JNull JNull JNull)
    else Ok (token, Some 1800000000);
  signAsync _ sub _ := sub;
|}.
Section Guard.
#[local] Instance guard_jwt : Jwt := test_jwt.
(** Whether the guard lets the socket pass, and what it sends. *)
Definition guard_of (token header : option string) (data : SocketData) : option bool * list (option json) * option SocketUser :=
  let w := sample_world <| w_gateway := no_sockets <| g_data := {["s" := data]} |> |> in
  let p := ws_canActivate (mkClient "s" "10.0.0.1" token header HNone) in
  (answer p w, map (λ e, match e with SocketEmit _ _ d => get_field d "code" | _ => None end) (w_out (after p w)),
   g_data (w_gateway (after p w)) !! "s" ≫= sd_user).
Definition nobody : SocketData := mkSocketData None None.
Definition alice_user : SocketUser := mkSocketUser "alice" "alice" "OFFLINE".
Definition refused_with (code : string) (u : option SocketUser) : option bool * list (option json) * option SocketUser :=
  (Some false, [Some (JStr code); None], u).

Example guards_sockets :
  [guard_of None None nobody; guard_of (Some "alice") None nobody; guard_of None (Some "Bearer alice") nobody;
   guard_of (Some "old") None nobody; guard_of (Some "bad") None nobody; guard_of (Some "ghost") None nobody;
   guard_of (Some "alice") (Some "Bearer bob") nobody;
   guard_of (Some "bad") None (mkSocketData (Some alice_user) (Some 1700000060));
   guard_of (Some "alice") None (mkSocketData (Some alice_user) (Some 1699999999))]
  = [refused_with "NO_TOKEN" None; (Some true, [], Some alice_user); (Some true, [], Some alice_user);
     refused_with "TOKEN_EXPIRED" None; refused_with "INVALID_TOKEN" None; refused_with "USER_NOT_FOUND" None;
     (Some true, [], Some alice_user); (Some true, [], Some alice_user); refused_with "TOKEN_EXPIRED" (Some alice_user)].
Proof. vm_compute. reflexivity. Qed.
End Guard.

(** ** test/chat/chat.gateway.spec.ts *)
Definition CH : string := "11111111-1111-4111-8111-111111111111".
Definition MSG : string := "22222222-2222-4222-8222-222222222222".
Definition letters (n : nat) : string := String.string_of_list_ascii (repeat "x"%char n).
Definition base_message (content : string) (changes : list (string * json)) : json :=
  JObj (changes ++ [("channelId", JStr CH); ("contentIv", JStr "iv"); ("contentTag", JStr "tag"); ("signature", JStr "sig");
                    ("sequenceNumber", JNum 1); ("senderKeyEpoch", JNum 1); ("encryptedContent", JStr content)]).
Definition chat_client : Client := mkClient "socket-123" "10.0.0.1" None None HNone.
Definition chat_world : World (R := mem_redis) :=
  sample_world <| w_db := sample_db <| channels := [sample_channel CH "GROUP"] |>
    <| memberships := [sample_member "m1" "MEMBER" "alice" CH 1] |> <| messages := [] |> |>.
Definition outcome_of (p : M json) (w : World) : option (json * option json) :=
  j ← answer p w; success ← get_field j "success"; Some (success, get_field j "error").
Definition no_world : World := chat_world <| w_db := empty_db |>.
Definition archived_world : World (R := mem_redis) := chat_world <| w_db := w_db chat_world <| channels := [sample_channel CH "GROUP" <| c_isArchived := true |>] |> |>.
Definition refusal (code : string) : option (json * option json) := Some (JBool false, Some (JStr code)).

Example sends_messages :
  map (λ data, outcome_of (handleSendMessage chat_client data alice_user) chat_world)
    [base_message (letters 10241) []; base_message (letters 10240) []; base_message "x" [("channelId", JStr "nope")];
     base_message "x" [("contentIv", JStr (letters 33))]; base_message "x" [("messageType", JStr "VIDEO")]; JNull]
  = [refusal "PAYLOAD_TOO_LARGE"; Some (JBool true, None); refusal "VALIDATION_ERROR"; refusal "VALIDATION_ERROR";
     refusal "VALIDATION_ERROR"; refusal "VALIDATION_ERROR"].
Proof. vm_compute. reflexivity. Qed.
Example refuses_messages :
  (answer (handleSendMessage chat_client (base_message "hi" []) alice_user) no_world,
   answer (handleSendMessage chat_client (base_message "hi" []) alice_user) archived_world)
  = (Some (JObj [("success", JBool false); ("error", JStr "NOT_MEMBER"); ("message", JStr "Not a member of this channel")]),
     Some (JObj [("success", JBool false); ("error", JStr "VALIDATION_ERROR"); ("message", JStr "Channel is archived")])).
Proof. vm_compute. reflexivity. Qed.
(** The 21st message within a second. *)
Example limits_messages :
  let send_one := handleSendMessage chat_client (base_message "hello" []) alice_user in
  outcome_of send_one (after (for_each (repeat tt 20) (λ _, do! send_one; Ret tt)) chat_world) = refusal "RATE_LIMITED".
Proof. vm_compute. reflexivity. Qed.
Example other_events :
  [outcome_of (handleGetMessages (JObj [("channelId", JStr CH); ("limit", JNum 25)]) alice_user) chat_world;
   outcome_of (handleGetMessages (JObj [("channelId", JStr CH); ("limit", JNum 1000)]) alice_user) chat_world;
   outcome_of (handleReactionAdd (JObj [("channelId", JStr CH); ("messageId", JStr MSG); ("emoji", JStr (letters 17))]) alice_user) chat_world]
  = [Some (JBool true, None); refusal "VALIDATION_ERROR"; refusal "VALIDATION_ERROR"].
Proof. vm_compute. reflexivity. Qed.
Example pending_batch :
  let w := after (addPendingMessage ["alice"] (queued "p1" 1000)) sample_world in
  (λ j, (get_field j "success", get_field j "count", get_field j "hasMore")) <$> answer (handleGetPending alice_user) w
  = Some (Some (JBool true), Some (JNum 1), Some (JBool false)).
Proof. vm_compute. reflexivity. Qed.

(** ** test/modules/auth/srp.service.spec.ts *)
Example client_ephemerals :
  map parseClientEphemeral [""; "xyz"; letters 1025; N_HEX; "0"; "abc123"] = [None; None; None; None; None; Some 11256099].
Proof. vm_compute. reflexivity. Qed.
Example escapes_wildcards : escapeLike "50%_off\" = "50\%\_off\\".
Proof. vm_compute. reflexivity. Qed.
